(* ===== verification/_CoqProject ===== *)
-Q . S2P
Prelude.v
GF256.v
Lagrange.v
SecureBuffer.v
Shamir.v
Hash.v
Utf8.v
Base64.v
Json.v
Wire.v
Rfc3339.v
AesGcm.v
Ciphertext.v
Kek.v
Hsm.v
Vault.v
Backup.v
Store.v
Postgres.v
Metadata.v
Oaep.v
AuditLog.v
AuditSpec.v
Retention.v
Syslog.v
Manager.v
PgOpen.v
Transit.v
Lifecycle.v
Cache.v
KeyManagement.v
Scans.v
Automaton.v
Reaper.v
TransitSpec.v
Auth.v
Jwt.v
Totp.v
TotpUri.v
Approval.v
RateLimit.v
SdkClient.v
Settings.v
Backends.v
Observability.v
Tracing.v
Pki.v
Core.v
Api.v
CoreSpec.v
ApiSpec.v
Asym.v
ExtAuth.v
Sdk.v
Grpc.v
DataKey.v
Mcp.v
Daemon.v
Cluster.v
Admin.v
Bootstrap.v
Process.v
GmTls.v
