(* ===== verification/Prelude.v ===== *)
(** * A verification of the Yvonne key management service

    Yvonne ([src/]) keeps data-encryption keys (DEKs) wrapped under a master key, and
    encrypts, decrypts, signs and rotates with them for its clients. A request passes
    through the following parts, each of which is a file here or a few:

    - the {b transports}: the HTTP router ([internal/api]), gRPC ([internal/grpc]), the
      tools for agents ([internal/mcp]), the console ([internal/admin]) and, on the other
      side of the wire, the Go client ([sdk/go/yvonne]);
    - {b authentication} ([internal/auth]): AppRole tokens, JSON web tokens and Kubernetes
      service accounts give a policy; one-time passwords and approval tickets guard
      sensitive requests;
    - the {b service layer} ([internal/service]): seal check, policy check, work, audit
      record;
    - the {b key manager} ([internal/lifecycle]): versions of keys and their states, the
      metadata cache, the reaper, the rotation daemon, the import of keys;
    - the {b stores} ([internal/storage]): in memory, PostgreSQL and BoltDB, with the
      notifications and locks of a cluster;
    - the {b seal} ([internal/seal]): the vault that holds the master key, its Shamir
      shares, the key-encryption keys made from it, the HSM, backups;
    - the {b cryptography} ([internal/crypto]) and the {b audit log} ([internal/audit]);
    - the {b process} ([internal/bootstrap], [internal/config], [cmd/yvonne]), which puts the
      parts together, runs the loops and stops them.

    Interfaces of the code are classes: [KVStore] with [KVStoreLaws] (Store.v), [KEK] with
    its law (Kek.v), [Unsealer] (Core.v), [Suite] (Ciphertext.v), [Backend] (Backends.v).
    The manager, the service layer and the transports are proved against them; the stores,
    the vault and the HSM unsealer are instances.

    ** Files

    Foundations.
    - Prelude.v: errors as wrapped messages, results with [panic] as a third outcome, the
      state-and-error monad, machine integers, byte strings, shared lemmas and tactics.
    - Hash.v, Utf8.v, Base64.v, Json.v, Wire.v, Rfc3339.v, AesGcm.v, Oaep.v: what the program
      uses of Go's standard library, executable and checked on published vectors: SHA-256,
      SHA-1, HMAC, UTF-8, JSON texts with their printer and their decoder into structs (which
      replace invalid UTF-8), time stamps, AES-256-GCM, RSA-OAEP.

    Seal and cryptography.
    - GF256.v, Lagrange.v, Shamir.v: [seal/shamir.go]; the field tables as [init] fills
      them, [Split] and [Combine] with every error.
    - SecureBuffer.v: [memguard]; Ciphertext.v: [crypto/gcm.go], [suite*.go],
      [versioned_*.go], [envelope.go]; Kek.v: [seal/kek.go].
    - Vault.v: [seal/state.go], the vault as a record, its operations and a step relation
      with the timers; Backup.v: [seal/backup.go]; Hsm.v: [seal/hsm*.go], the PKCS#11
      driver; Pki.v: [seal/local_pki.go] and the commands that create, split and restore
      master keys.
    - Asym.v: [crypto/asymmetric*.go], [sm2*.go] and their use by the service.

    Keys.
    - Store.v ([storage/kvstore.go], [memory.go]), Postgres.v and PgOpen.v
      ([pg_kvstore.go]: the operations, and how a store is opened), Backends.v
      ([boltdb.go], [postgres.go]), Cluster.v ([pg_listener.go], [pg_locker.go],
      [health.go]).
    - Metadata.v (the records and the cache), Manager.v ([lifecycle/manager.go]),
      Transit.v ([transit.go]), Daemon.v ([daemon.go]): one definition per method.
    - Lifecycle.v, Cache.v, KeyManagement.v, Scans.v, Automaton.v, TransitSpec.v: their theorems;
      Automaton.v has the documented automaton of key states as a relation; Reaper.v: the
      loop of the reaper, and the scans without pages.

    Audit.
    - AuditLog.v and AuditSpec.v ([chain.go], [logger.go], [file_rotator.go],
      [query.go], with the ticks of the loop that removes old files); Retention.v (that loop
      with the closing of the logger); Syslog.v ([syslog_writer.go]).

    Requests.
    - Auth.v, Jwt.v, ExtAuth.v, Totp.v, TotpUri.v, Approval.v, RateLimit.v: [internal/auth]
      and the middleware that uses it.
    - Core.v and CoreSpec.v ([service/core.go], [core_v12.go]); Api.v and ApiSpec.v
      ([internal/api], writing to the audit log of the service layer); Grpc.v and DataKey.v
      ([internal/grpc]); Mcp.v ([internal/mcp]); Admin.v ([internal/admin]).
    - SdkClient.v ([sdk/go/yvonne], the path of a request) and Sdk.v (the methods, over
      texts, against the router).

    Process.
    - Settings.v ([internal/config]), Bootstrap.v ([internal/bootstrap], [config/tlsconfig.go]),
      GmTls.v ([config/tlsconfig_gmsm*.go]), Process.v ([cmd/yvonne]), Observability.v
      ([internal/metrics], [observability/alerting.go]), Tracing.v
      ([observability/tracing.go]).

    ** Conventions

    A method of a Go type is a function of the record that models the type; where the
    name is taken it carries the type in front ([CoreEncrypt], [JWTAuthenticate]). A
    method that can fail returns [result]. Where a mutex covers the methods of a type (the
    vault, the memory store, the rate limiter, the transit keys) histories are sequences of
    whole operations; a step relation is given where operations can interleave with each
    other, timers or goroutines (Vault.v, Approval.v, AuditSpec.v, Retention.v, Syslog.v,
    Cluster.v, SdkClient.v, Process.v). The key manager holds its mutex only to set its
    notifier and quota: its histories here are sequences of whole operations too, which
    covers what its transactions serialise, and of two concurrent operations only the loads
    into the cache are interleaved with changes (Cluster.v).
    Clocks and random sources are arguments: a random source is the list of the bytes it
    will deliver, and reading past its end is a failed [rand.Read]. Machine integers are
    [Z] with their wrap-around written out; times are nanoseconds.

    ** What is proved

    - Secret sharing: enough shares restore the secret, fewer say nothing about it, the
      tables compute the field (C2, C3, C15); the vault holds its key exactly while it is
      unsealed, never leaves the emergency state and is unsealed by the dealt shares (C4,
      C5, C12). Master keys created by the commands unseal, cold backups restore (C33, C34),
      keys on the token of an HSM outlive the process (C39).
    - Keys: at most one active version unless a stored key is created anew (C6), every
      operation moves records along its edges of the documented automaton (C7), rotation
      and shredding do what they promise (C8, C9), an operation that fails on a transactional
      store is all or nothing, also when the answer to its COMMIT is lost (C11); the reaper
      reaches all that is due (C14), the daemon rotates every due record that the version
      lookup finds and nothing else (C24), up to the periods that fit a duration (C25);
      imported keys arrive and their transport keys
      burn (C23).
    - Stores: the memory store implements the interface and overwrites what it releases
      (C13); the two blob backends are interchangeable where no call fails and scans have an
      upper bound (C37); the caches of a cluster hold records of the table, or are about to be
      told, or their keys changed in one of the listed ways that send no notice (C35).
    - Service: what was encrypted decrypts after any later history that spares the version,
      in the service (C1) and from client to client through texts, middleware and handlers
      (C26); signatures that are made are accepted (C40); no operation runs without rights or
      on a sealed vault, in the service (C10), over HTTP (C19, C20) or gRPC (C29); an
      emergency request freezes the interface (C21); outside that state a request calls the
      audit log once for itself, after the calls of the service layer (C22).
    - Audit: the log is one chain that queries return whole, up to its retention (C16);
      beside the claims, tampering shows, the anchor continues the chain, and old files go
      exactly when due (AuditSpec.v, Retention.v).
    - Authentication: approvals (C17), one-time passwords (C18), web tokens (C30); the
      download of a key set goes nowhere else (ExtAuth.v).
    - Client and process: the circuit breaker refines its specification and calls end (C27,
      C28); accepted configurations are complete (C31), a started cluster admits only what
      is configured (C32), metrics account for every request (C36), and a stop is orderly: it
      ends by its own steps unless a gRPC request holds it (C38).

    Examples beside the theorems evaluate the model on inputs where the code does not do
    what its comments say.

    ** Bounds and fuel

    The version scan and the paged scans of the manager run on fuel, one more than the
    number of stored keys; their theorems state results, so the fuel is shown to be
    enough. Texts and block sequences (JSON, base 32, digits, blocks of a hash) are read with
    fuel from their length, enough because each step consumes a byte: round trips state
    results, and [scan_fuel] of ExtAuth.v that more fuel changes nothing. The retry loop runs
    on its own counter. All other functions are structurally recursive. Integers are bounded
    only where the code bounds them; 64-bit conversions are explicit.

    ** Not modelled

    Third-party and system code is a parameter with its documented behaviour as
    hypotheses: SM4 and SM2, ECDSA and RSA signatures, the library behind PKCS#11, the JWT
    parser, BoltDB and the PostgreSQL server with its driver, certificates and TLS, the
    exporter of traces, memory locking, the file system and the sockets. The decoding of
    configuration files and the wire format of protocol buffers are arguments. Left out are
    log lines, flag parsing and usage texts, the completion scripts, opening a browser, the
    static files of the console, generated code, and the benchmarks and samples under
    [scripts] and [sdk/examples]: they carry no logic of the service. *)

From Stdlib Require Export ZArith Lia List Strings.Byte.
From Corelib Require Export ssreflect.
From stdpp Require Export base list strings pretty gmap numbers.

Set Default Goal Selector "!".

(** ** Errors and results

    A Go [error] is a message, possibly wrapped by [fmt.Errorf("ctx: %w", err)].
    Interpolated values (key ids, counters) of the messages are left out: the
    program inspects errors through [errors.Is], or looks for fixed parts of
    their text. *)
Inductive error : Type :=
  | Err_new (msg : string)
  | Err_wrap (ctx : string) (inner : error).

#[export] Instance error_eq_dec : EqDecision error.
Proof. solve_decision. Defined.

(** [errors.Is(err, target)]: the target occurs in the unwrap chain. *)
Fixpoint errors_Is (e target : error) : bool :=
  bool_decide (e = target) ||
  match e with
  | Err_new _ => false
  | Err_wrap _ inner => errors_Is inner target
  end.

(** The three ways a Go call ends: a value, an [error], a [panic]. *)
Inductive result (A : Type) : Type :=
  | Ok (a : A)
  | Error (e : error)
  | Panic (msg : string).
Arguments Ok {A} a.
Arguments Error {A} e.
Arguments Panic {A} msg.

#[export] Instance result_eq_dec `{EqDecision A} : EqDecision (result A).
Proof. solve_decision. Defined.

#[export] Instance result_ret : MRet result := @Ok.
#[export] Instance result_bind : MBind result := fun A B f r =>
  match r with Ok a => f a | Error e => Error e | Panic m => Panic m end.

Definition is_ok {A} (r : result A) : bool :=
  match r with Ok _ => true | _ => false end.

(** [fmt.Errorf("ctx: %w", err)] applied to the error of a result. *)
Definition wrap_err {A} (ctx : string) (r : result A) : result A :=
  match r with Error e => Error (Err_wrap ctx e) | r => r end.

Lemma result_bind_ok {A B} (f : A → result B) r b :
  (r ≫= f) = Ok b → ∃ a, r = Ok a ∧ f a = Ok b.
Proof. destruct r; naive_solver. Qed.

Lemma wrap_err_ok {A} ctx (r : result A) a : wrap_err ctx r = Ok a ↔ r = Ok a.
Proof. destruct r; naive_solver. Qed.

(** ** State-and-error computations

    [M S A] threads a state through code that may fail or panic; a failing step
    keeps the state reached so far, as Go's early [return err] does. *)
Definition M (S A : Type) : Type := S → S * result A.

#[export] Instance M_ret {S} : MRet (M S) := fun A a s => (s, Ok a).
#[export] Instance M_bind {S} : MBind (M S) := fun A B f m s =>
  match m s with
  | (s', Ok a) => f a s'
  | (s', Error e) => (s', Error e)
  | (s', Panic p) => (s', Panic p)
  end.

Definition get_st {S} : M S S := fun s => (s, Ok s).
Definition put_st {S} (s : S) : M S unit := fun _ => (s, Ok tt).
Definition gets {S A} (f : S → A) : M S A := fun s => (s, Ok (f s)).
Definition modify {S} (f : S → S) : M S unit := fun s => (f s, Ok tt).
Definition throw {S A} (e : error) : M S A := fun s => (s, Error e).
Definition lift {S A} (r : result A) : M S A := fun s => (s, r).
(** Run [m] and hand its outcome to [k] instead of propagating an error:
    Go code that inspects [err] itself. Panics still propagate. *)
Definition try_ {S A} (m : M S A) : M S (A + error) := fun s =>
  match m s with
  | (s', Ok a) => (s', Ok (inl a))
  | (s', Error e) => (s', Ok (inr e))
  | (s', Panic p) => (s', Panic p)
  end.
Definition wrapM {S A} (ctx : string) (m : M S A) : M S A := fun s =>
  let '(s', r) := m s in (s', wrap_err ctx r).
(** A guard with an early error return. *)
Definition guardM {S} (b : bool) (e : error) : M S unit := fun s =>
  if b then (s, Ok tt) else (s, Error e).

Lemma M_bind_ok {S A B} (m : M S A) (f : A → M S B) s s' b :
  (m ≫= f) s = (s', Ok b) → ∃ s1 a, m s = (s1, Ok a) ∧ f a s1 = (s', Ok b).
Proof.
  rw /mbind /M_bind. destruct (m s) as [s1 [a| |]] eqn:E; naive_solver.
Qed.

Lemma M_bind_step {S A B} (m : M S A) (f : A → M S B) s s1 a :
  m s = (s1, Ok a) → (m ≫= f) s = f a s1.
Proof. rw /mbind /M_bind. by intros ->. Qed.

Lemma M_bind_fail {S A B} (m : M S A) (f : A → M S B) s s1 e :
  m s = (s1, Error e) → (m ≫= f) s = (s1, Error e).
Proof. rw /mbind /M_bind. by intros ->. Qed.

(** Any outcome of a sequence: the first step's failure, or the rest. *)
Lemma M_bind_inv {S A B} (m : M S A) (f : A → M S B) s s' r :
  (m ≫= f) s = (s', r) → ∃ s1 r1, m s = (s1, r1) ∧
  match r1 with
  | Ok a => f a s1 = (s', r)
  | Error e => s' = s1 ∧ r = Error e
  | Panic p => s' = s1 ∧ r = Panic p
  end.
Proof. rw /mbind /M_bind. destruct (m s) as [s1 [a| |]] eqn:E; naive_solver. Qed.

Lemma wrapM_inv {S A} ctx (m : M S A) s s' r :
  wrapM ctx m s = (s', r) → ∃ r1, m s = (s', r1) ∧ r = wrap_err ctx r1.
Proof. rw /wrapM. destruct (m s) as [s1 r1] eqn:E. intros [= <- <-]. eauto. Qed.

Lemma try_inv {S A} (m : M S A) s s' r :
  try_ m s = (s', r) → ∃ r1, m s = (s', r1) ∧
  r = match r1 with Ok a => Ok (inl a) | Error e => Ok (inr e) | Panic p => Panic p end.
Proof. rw /try_. destruct (m s) as [s1 [a| |]] eqn:E; intros [= <- <-]; eauto. Qed.

Lemma wrapM_ok {S A} ctx (m : M S A) s s' a :
  wrapM ctx m s = (s', Ok a) ↔ m s = (s', Ok a).
Proof. rw /wrapM. destruct (m s) as [? [| |]]; naive_solver. Qed.

Lemma guardM_ok {S} b e (s s' : S) u : guardM b e s = (s', Ok u) ↔ b = true ∧ s' = s.
Proof. rw /guardM. destruct b, u; naive_solver. Qed.

Lemma lift_ok {S A} (r : result A) (s s' : S) a : lift r s = (s', Ok a) ↔ r = Ok a ∧ s' = s.
Proof. rw /lift. naive_solver. Qed.

(** Inversion of successful monadic runs: one hypothesis per step. *)
Ltac inv_M :=
  repeat match goal with
  | H : (_ ≫= _) _ = (_, Ok _) |- _ =>
      let s := fresh "s" in let a := fresh "a" in let H1 := fresh "Hm" in
      apply M_bind_ok in H as (s & a & H1 & H)
  | H : wrapM _ _ _ = (_, Ok _) |- _ => apply wrapM_ok in H
  | H : guardM _ _ _ = (_, Ok _) |- _ => apply guardM_ok in H as [H ->]
  | H : throw _ _ = (_, Ok _) |- _ => discriminate H
  | H : gets _ _ = (_, Ok _) |- _ => injection H as ??; subst
  | H : get_st _ = (_, Ok _) |- _ => injection H as ??; subst
  | H : modify _ _ = (_, Ok _) |- _ => injection H as ??; subst
  | H : put_st _ _ = (_, Ok _) |- _ => injection H as ??; subst
  | H : mret _ _ = (_, Ok _) |- _ => injection H as ??; subst
  | H : lift _ _ = (_, Ok _) |- _ => apply lift_ok in H as [H ->]
  end; simplify_eq.

(** ** Strings *)
(** [strings.Split(s, sep)] for a separator of one character. *)
Fixpoint split_on (sep : Ascii.ascii) (s : string) : list string :=
  match s with
  | String.EmptyString => [String.EmptyString]
  | String.String ch s' =>
      if bool_decide (ch = sep) then String.EmptyString :: split_on sep s'
      else match split_on sep s' with
           | part :: parts => String.String ch part :: parts
           | [] => [String.String ch String.EmptyString]
           end
  end.

(** ** Bytes *)
#[export] Instance byte_eq_dec' : EqDecision byte := Byte.byte_eq_dec.
#[export] Instance byte_countable : Countable byte :=
  inj_countable Byte.to_N Byte.of_N Byte.of_to_N.
#[export] Instance byte_inhabited : Inhabited byte := populate x00.

Definition b2z (b : byte) : Z := Z.of_N (Byte.to_N b).
(** Conversion to [byte] keeps the low eight bits, as Go's [byte(x)] does. *)
Definition z2b (z : Z) : byte :=
  default x00 (Byte.of_N (Z.to_N (z `mod` 256))).
Definition bxor (a b : byte) : byte := z2b (Z.lxor (b2z a) (b2z b)).

Declare Scope yv_scope.
Delimit Scope yv_scope with yv.
Infix "⊕" := bxor (at level 50, left associativity) : yv_scope.
Open Scope yv_scope.

Abbreviation bytes := (list byte).

Lemma b2z_range b : (0 ≤ b2z b < 256)%Z.
Proof. destruct b; vm_compute; split; congruence. Qed.

Lemma z2b_b2z b : z2b (b2z b) = b.
Proof. by destruct b; vm_compute. Qed.

Lemma b2z_inj a b : b2z a = b2z b → a = b.
Proof. intros H. by rw -(z2b_b2z a) -(z2b_b2z b) H. Qed.

Lemma b2z_z2b z : b2z (z2b z) = (z `mod` 256)%Z.
Proof.
  rw /z2b /b2z. assert (0 ≤ z `mod` 256 < 256)%Z as Hr by (apply Z.mod_pos_bound; lia).
  destruct (Byte.of_N (Z.to_N (z `mod` 256))) as [b|] eqn:E; simpl.
  - apply Byte.to_of_N in E. rw E. lia.
  - apply Byte.of_N_None_iff in E. lia.
Qed.

Lemma b2z_bxor a b : b2z (a ⊕ b) = Z.lxor (b2z a) (b2z b).
Proof.
  rw /bxor b2z_z2b. pose proof (b2z_range a). pose proof (b2z_range b).
  change 256%Z with (2 ^ 8)%Z in *. apply Z.mod_small. split.
  - apply Z.lxor_nonneg; lia.
  - destruct (decide (Z.lxor (b2z a) (b2z b) = 0%Z)) as [->|Hne]; [lia|].
    assert (0 ≤ Z.lxor (b2z a) (b2z b))%Z by (apply Z.lxor_nonneg; lia).
    apply Z.log2_lt_pow2; [lia|].
    pose proof (Z.log2_lxor (b2z a) (b2z b) ltac:(lia) ltac:(lia)).
    assert (∀ x, 0 ≤ x < 2 ^ 8 → Z.log2 x < 8)%Z as Hl.
    { intros x Hx. destruct (decide (x = 0)%Z) as [->|]; [by vm_compute|].
      apply Z.log2_lt_pow2; lia. }
    pose proof (Hl _ H). pose proof (Hl _ H0). lia.
Qed.

Lemma bxor_comm a b : a ⊕ b = b ⊕ a.
Proof. apply b2z_inj. by rw !b2z_bxor Z.lxor_comm. Qed.
Lemma bxor_assoc a b c : a ⊕ (b ⊕ c) = (a ⊕ b) ⊕ c.
Proof. apply b2z_inj. by rw !b2z_bxor Z.lxor_assoc. Qed.
Lemma bxor_0_l a : x00 ⊕ a = a.
Proof. apply b2z_inj. by rw b2z_bxor. Qed.
Lemma bxor_0_r a : a ⊕ x00 = a.
Proof. by rw bxor_comm bxor_0_l. Qed.
Lemma bxor_diag a : a ⊕ a = x00.
Proof. apply b2z_inj. by rw b2z_bxor Z.lxor_nilpotent. Qed.
Lemma bxor_cancel a b : (a ⊕ b) ⊕ b = a.
Proof. by rw -bxor_assoc bxor_diag bxor_0_r. Qed.
Lemma bxor_eq_0 a b : a ⊕ b = x00 → a = b.
Proof. intros H. by rw -(bxor_cancel a b) H bxor_0_l. Qed.

(** Equations between exclusive ors, decided bit by bit. *)
Ltac solve_bxor :=
  apply b2z_inj; rw ?b2z_bxor; apply Z.bits_inj'; intros ? _; rw ?Z.lxor_spec;
  repeat match goal with |- context [Z.testbit ?x ?i] => destruct (Z.testbit x i) end;
  reflexivity.

Create HintDb bytes.
Create Rewrite HintDb bytes.
#[export] Hint Rewrite bxor_0_l bxor_0_r bxor_diag bxor_cancel : bytes.

(** The 256 byte values, for decision by evaluation. *)
Definition all_bytes : list byte := map (z2b ∘ Z.of_nat) (seq 0 256).

Lemma all_bytes_spec b : b ∈ all_bytes.
Proof.
  apply list_elem_of_In, in_map_iff. exists (Z.to_nat (b2z b)).
  pose proof (b2z_range b). split.
  - rw /compose Z2Nat.id; [lia | apply z2b_b2z].
  - apply in_seq. lia.
Qed.

Lemma forallb_bytes (P : byte → bool) : forallb P all_bytes = true → ∀ b, P b = true.
Proof. rw forallb_forall. intros H b. apply H, list_elem_of_In, all_bytes_spec. Qed.

(** ** Lists *)
Lemma imap_id {A} (f : nat → A → A) (l : list A) : (∀ i x, f i x = x) → imap f l = l.
Proof.
  intros Hf. revert f Hf. induction l as [|x l IH]; intros f Hf; [done|]. simpl.
  rw Hf IH //. intros i y. apply Hf.
Qed.

Lemma imap_imap {A B C} (f : nat → B → C) (g : nat → A → B) (l : list A) :
  imap f (imap g l) = imap (λ i x, f i (g i x)) l.
Proof.
  revert f g. induction l as [|x l IH]; intros f g; [done|]. simpl. by rw IH.
Qed.

(** ** Big-endian integers ([encoding/binary.BigEndian]) *)
Fixpoint be_split (n : nat) (z : Z) : bytes :=
  match n with
  | O => []
  | S m => z2b (Z.shiftr z (8 * Z.of_nat m)) :: be_split m z
  end.
Definition be_combine (l : bytes) : Z := foldl (λ acc b, acc * 256 + b2z b)%Z 0%Z l.

Lemma length_be_split n z : length (be_split n z) = n.
Proof. induction n as [|n IH]; simpl; [done|]. by rw IH. Qed.

Lemma be_combine_app l b : be_combine (l ++ [b]) = (be_combine l * 256 + b2z b)%Z.
Proof. by rw /be_combine foldl_app. Qed.

Lemma be_combine_cons b l :
  be_combine (b :: l) = (b2z b * 256 ^ Z.of_nat (length l) + be_combine l)%Z.
Proof.
  induction l as [|c l IH] using rev_ind; [rw /be_combine /=; lia|].
  rw app_comm_cons !be_combine_app IH length_app /= Nat.add_1_r Nat2Z.inj_succ Z.pow_succ_r; lia.
Qed.

Lemma shiftr_bytes z n : Z.shiftr z (8 * Z.of_nat n) = (z `div` 256 ^ Z.of_nat n)%Z.
Proof. rw Z.shiftr_div_pow2; [lia|]. by rw Z.pow_mul_r; [lia..|]. Qed.

Lemma be_combine_split n z : be_combine (be_split n z) = (z `mod` 256 ^ Z.of_nat n)%Z.
Proof.
  induction n as [|n IH]; [by rw Z.mod_1_r|].
  cbn [be_split]. rw be_combine_cons IH length_be_split b2z_z2b shiftr_bytes Nat2Z.inj_succ Z.pow_succ_r; [lia|].
  rw (Z.mul_comm 256) Z.rem_mul_r; [lia|lia|]. lia.
Qed.

Lemma be_combine_range l : (0 ≤ be_combine l < 256 ^ Z.of_nat (length l))%Z.
Proof.
  induction l as [|b l IH]; [by vm_compute|]. rw be_combine_cons /= Nat2Z.inj_succ Z.pow_succ_r; [lia|].
  pose proof (b2z_range b). nia.
Qed.

Lemma be_combine_inj l k : length l = length k → be_combine l = be_combine k → l = k.
Proof.
  revert k. induction l as [|a l IH]; intros [|b k] Hl H; simplify_eq/=; [done|].
  rw !be_combine_cons Hl in H.
  pose proof (be_combine_range l) as Hr. rw Hl in Hr. pose proof (be_combine_range k).
  assert (b2z a = b2z b) as E by nia. apply b2z_inj in E as ->.
  f_equal. apply IH; [done|lia].
Qed.

Lemma be_split_combine l : be_split (length l) (be_combine l) = l.
Proof.
  apply be_combine_inj; [apply length_be_split|].
  rw be_combine_split. apply Z.mod_small, be_combine_range.
Qed.

(** ** Fixed-width decimals ([%06d]) *)
Fixpoint dec_digits (n : nat) (z : Z) : bytes :=
  match n with
  | O => []
  | S m => z2b (48 + (z `div` 10 ^ Z.of_nat m) `mod` 10) :: dec_digits m z
  end%Z.
Definition dec_value (l : bytes) : Z := foldl (λ acc b, acc * 10 + (b2z b - 48))%Z 0%Z l.
Definition dec_digit (b : byte) : bool := bool_decide (48 ≤ b2z b ≤ 57)%Z.

Lemma length_dec_digits n z : length (dec_digits n z) = n.
Proof. induction n as [|n IH]; simpl; [done|]. by rw IH. Qed.
Lemma b2z_dec z : b2z (z2b (48 + z `mod` 10)) = (48 + z `mod` 10)%Z.
Proof. pose proof (Z.mod_pos_bound z 10 ltac:(lia)). rw b2z_z2b Z.mod_small; lia. Qed.
Lemma dec_digits_all n z : forallb dec_digit (dec_digits n z) = true.
Proof.
  induction n as [|n IH]; simpl; [done|]. rw IH /dec_digit b2z_dec andb_true_r.
  pose proof (Z.mod_pos_bound (z `div` 10 ^ Z.of_nat n) 10 ltac:(lia)). apply bool_decide_eq_true_2. lia.
Qed.
Lemma dec_value_cons b l : dec_value (b :: l) = ((b2z b - 48) * 10 ^ Z.of_nat (length l) + dec_value l)%Z.
Proof.
  induction l as [|c l IH] using rev_ind; [rw /dec_value /=; lia|].
  rw app_comm_cons /dec_value !foldl_app -!/(dec_value _) IH length_app /= Nat.add_1_r Nat2Z.inj_succ Z.pow_succ_r; lia.
Qed.
Lemma dec_value_digits n z : dec_value (dec_digits n z) = (z `mod` 10 ^ Z.of_nat n)%Z.
Proof.
  induction n as [|n IH]; [by rw Z.mod_1_r|].
  cbn [dec_digits]. rw dec_value_cons IH length_dec_digits b2z_dec Nat2Z.inj_succ Z.pow_succ_r; [lia|].
  rw (Z.mul_comm 10) Z.rem_mul_r; [lia|lia|]. lia.
Qed.
