(* ===== verification/GF256.v ===== *)
(** The field GF(2^8) of [src/internal/seal/shamir.go]: the table-free product
    [gfMulNoTable], the logarithm tables [gfExp]/[gfLog] that [init] fills, the
    table-driven [gfMul] and [gfInv], Horner evaluation [gfEval], and the proof
    that these operations form a field whose addition is exclusive or. *)

From Stdlib Require Import Field.
From S2P Require Import Prelude.

(** [gfGenerator] *)
Definition gfGenerator : byte := x03.

Definition errZeroInverse : error :=
  Err_new "seal: gfInv(0) is undefined (invalid share data)".

(** One iteration of the loop of [gfMulNoTable] on [(result, a, b)]. *)
Definition gfMulNoTable_step (s : byte * byte * byte) : byte * byte * byte :=
  let '(result, a, b) := s in
  let result := if bool_decide (Z.land (b2z b) 1 = 0)%Z then result else result ⊕ a in
  let hiBit := Z.land (b2z a) 128 in
  let a := z2b (Z.shiftl (b2z a) 1) in
  let a := if bool_decide (hiBit = 0)%Z then a else a ⊕ x1b in
  (result, a, z2b (Z.shiftr (b2z b) 1)).

Definition gfMulNoTable (a b : byte) : byte :=
  (Nat.iter 8 gfMulNoTable_step (x00, a, b)).1.1.

(** The tables filled by [init]: [x] runs through the powers of the generator. *)
Definition gf_init_step (i : nat) (s : list byte * list byte * byte) :
    list byte * list byte * byte :=
  let '(ex, lg, x) := s in
  (<[i := x]> ex, <[Z.to_nat (b2z x) := z2b (Z.of_nat i)]> lg, gfMulNoTable x gfGenerator).

Definition gf_init : list byte * list byte :=
  let '(ex, lg, _) :=
    foldl (fun s i => gf_init_step i s)
      (replicate 512 x00, replicate 256 x00, x01) (seq 0 255) in
  (foldl (fun ex i => <[i := ex !!! (i - 255)%nat]> ex) ex (seq 255 257), lg).

Definition gfExp : list byte := Eval vm_compute in gf_init.1.
Definition gfLog : list byte := Eval vm_compute in gf_init.2.

Definition gf_exp_at (n : nat) : byte := gfExp !!! n.
(** [int(gfLog[a])] *)
Definition gf_log_at (a : byte) : nat := Z.to_nat (b2z (gfLog !!! Z.to_nat (b2z a))).

Definition gfMul (a b : byte) : byte :=
  if bool_decide (a = x00) || bool_decide (b = x00) then x00
  else gf_exp_at (gf_log_at a + gf_log_at b).

Definition gfInv (a : byte) : result byte :=
  if bool_decide (a = x00) then Error errZeroInverse
  else Ok (gf_exp_at (255 - gf_log_at a)).

(** Horner evaluation; [coef] lists the constant term first. *)
Fixpoint gfEval (x : byte) (coef : bytes) : byte :=
  match coef with
  | [] => x00
  | c :: coef => gfMul (gfEval x coef) x ⊕ c
  end.

(** [gfInv] as a total function, zero mapped to zero: the field's inverse. *)
Definition gf_inv (a : byte) : byte :=
  match gfInv a with Ok b => b | _ => x00 end.

Infix "⊗" := gfMul (at level 40, left associativity) : yv_scope.

(** ** The tables *)
Lemma gfExp_init : gfExp = gf_init.1.
Proof. by vm_compute. Qed.
Lemma gfLog_init : gfLog = gf_init.2.
Proof. by vm_compute. Qed.

Lemma gf_exp_log_check : forallb (fun a =>
  bool_decide (a = x00) || bool_decide (gf_exp_at (gf_log_at a) = a)) all_bytes = true.
Proof. vm_compute. reflexivity. Qed.

Lemma gf_exp_log a : a ≠ x00 → gf_exp_at (gf_log_at a) = a.
Proof.
  intros Ha.
  pose proof (forallb_bytes _ gf_exp_log_check a) as [H|H]%orb_true_iff;
    by apply bool_decide_eq_true in H.
Qed.

Lemma gf_log_lt a : gf_log_at a < 255.
Proof.
  apply Nat.ltb_lt, (forallb_bytes (fun a => gf_log_at a <? 255)).
  vm_compute. reflexivity.
Qed.

Lemma gf_exp_spec n : n < 512 →
  gf_exp_at n = gf_exp_at (n mod 255) ∧ gf_exp_at n ≠ x00 ∧ gf_log_at (gf_exp_at n) = n mod 255.
Proof.
  intros Hn.
  assert (forallb (fun n => bool_decide (gf_exp_at n = gf_exp_at (n mod 255)) &&
     (bool_decide (gf_exp_at n ≠ x00) && bool_decide (gf_log_at (gf_exp_at n) = n mod 255)))
     (seq 0 512) = true) as H by (vm_compute; reflexivity).
  rw forallb_forall in H. specialize (H n ltac:(apply in_seq; lia)).
  rw !andb_true_iff !bool_decide_eq_true in H. naive_solver.
Qed.

(** ** Field laws *)
Lemma gfMul_0_l a : x00 ⊗ a = x00.
Proof. done. Qed.
Lemma gfMul_0_r a : a ⊗ x00 = x00.
Proof. by rw /gfMul orb_true_r. Qed.

Lemma gfMul_nz a b : a ≠ x00 → b ≠ x00 → a ⊗ b = gf_exp_at (gf_log_at a + gf_log_at b).
Proof. intros Ha Hb. by rw /gfMul !bool_decide_eq_false_2. Qed.

Lemma gfMul_comm a b : a ⊗ b = b ⊗ a.
Proof. by rw /gfMul orb_comm Nat.add_comm. Qed.

Lemma gfMul_neq_0 a b : a ≠ x00 → b ≠ x00 → a ⊗ b ≠ x00.
Proof.
  intros Ha Hb. rw gfMul_nz //. pose proof (gf_log_lt a). pose proof (gf_log_lt b).
  by apply gf_exp_spec; lia.
Qed.

Lemma gfMul_log3 a b c : a ≠ x00 → b ≠ x00 → c ≠ x00 →
  (a ⊗ b) ⊗ c = gf_exp_at ((gf_log_at a + gf_log_at b + gf_log_at c) mod 255).
Proof.
  intros Ha Hb Hc. pose proof (gf_log_lt a). pose proof (gf_log_lt b). pose proof (gf_log_lt c).
  rw (gfMul_nz _ c (gfMul_neq_0 _ _ Ha Hb) Hc) (gfMul_nz a b) //.
  destruct (gf_exp_spec (gf_log_at a + gf_log_at b)) as (_ & _ & ->); [lia|].
  assert ((gf_log_at a + gf_log_at b) mod 255 < 255) by (apply Nat.mod_upper_bound; lia).
  destruct (gf_exp_spec ((gf_log_at a + gf_log_at b) mod 255 + gf_log_at c)) as [-> _]; [lia|].
  by rw Nat.Div0.add_mod_idemp_l.
Qed.

Lemma gfMul_assoc a b c : a ⊗ (b ⊗ c) = (a ⊗ b) ⊗ c.
Proof.
  destruct (decide (a = x00)) as [->|Ha]; [by rw !gfMul_0_l|].
  destruct (decide (b = x00)) as [->|Hb]; [by rw !(gfMul_0_l, gfMul_0_r)|].
  destruct (decide (c = x00)) as [->|Hc]; [by rw !gfMul_0_r|].
  rw (gfMul_comm a (b ⊗ c)) !gfMul_log3 //. f_equal. f_equal. lia.
Qed.

Lemma gfMul_1_check : forallb (fun a => bool_decide (x01 ⊗ a = a)) all_bytes = true.
Proof. vm_compute. reflexivity. Qed.
Lemma gfMul_1_l a : x01 ⊗ a = a.
Proof.
  pose proof (forallb_bytes _ gfMul_1_check a) as H. by apply bool_decide_eq_true in H.
Qed.

Lemma gfMul_table_check : forallb (fun a =>
  forallb (fun b => bool_decide (a ⊗ b = gfMulNoTable a b)) all_bytes) all_bytes = true.
Proof. vm_compute. reflexivity. Qed.

(** The table-driven product is the shift-and-add product. *)
Lemma gfMul_table a b : a ⊗ b = gfMulNoTable a b.
Proof.
  pose proof (forallb_bytes _ (forallb_bytes _ gfMul_table_check a) b) as H.
  by apply bool_decide_eq_true in H.
Qed.

(** [gfMulNoTable] is additive in its second argument: the loop processes the
    two multipliers in parallel. *)
Lemma z2b_lxor x y : z2b (Z.lxor x y) = z2b x ⊕ z2b y.
Proof.
  apply b2z_inj. rw b2z_bxor !b2z_z2b. change 256%Z with (2 ^ 8)%Z.
  rw -!Z.land_ones //. apply Z.bits_inj'. intros i Hi.
  rw !(Z.land_spec, Z.lxor_spec). by destruct (Z.testbit x i), (Z.testbit y i), (Z.testbit (Z.ones 8) i).
Qed.

Lemma land1_lxor x y :
  bool_decide (Z.land (Z.lxor x y) 1 = 0)%Z =
  eqb (bool_decide (Z.land x 1 = 0)%Z) (bool_decide (Z.land y 1 = 0)%Z).
Proof.
  assert (∀ z, bool_decide (Z.land z 1 = 0)%Z = negb (Z.testbit z 0)) as Hz.
  { intros z. change 1%Z with (Z.ones 1). rw Z.land_ones // Z.bit0_odd.
    change (2 ^ 1)%Z with 2%Z. rw Zmod_odd. by destruct (Z.odd z). }
  rw !Hz Z.lxor_spec. by destruct (Z.testbit x 0), (Z.testbit y 0).
Qed.

Lemma gfMulNoTable_step_add r1 r2 a b1 b2 :
  let s1 := gfMulNoTable_step (r1, a, b1) in
  let s2 := gfMulNoTable_step (r2, a, b2) in
  gfMulNoTable_step (r1 ⊕ r2, a, b1 ⊕ b2) = (s1.1.1 ⊕ s2.1.1, s1.1.2, s1.2 ⊕ s2.2)
  ∧ s1.1.2 = s2.1.2.
Proof.
  intros s1 s2. split; [|done]. rw /s1 /s2 /=. f_equal; [f_equal|].
  - rw b2z_bxor land1_lxor. repeat case_bool_decide; simpl; try done.
    all: solve_bxor.
  - by rw b2z_bxor Z.shiftr_lxor z2b_lxor.
Qed.

Lemma gfMulNoTable_add a b c :
  gfMulNoTable a (b ⊕ c) = gfMulNoTable a b ⊕ gfMulNoTable a c.
Proof.
  rw /gfMulNoTable -{1}(bxor_diag x00).
  assert (∀ n r1 r2 a b1 b2,
    let s1 := Nat.iter n gfMulNoTable_step (r1, a, b1) in
    let s2 := Nat.iter n gfMulNoTable_step (r2, a, b2) in
    Nat.iter n gfMulNoTable_step (r1 ⊕ r2, a, b1 ⊕ b2) = (s1.1.1 ⊕ s2.1.1, s1.1.2, s1.2 ⊕ s2.2)
    ∧ s1.1.2 = s2.1.2) as H; [|by rw (proj1 (H _ _ _ _ _ _))].
  induction n as [|n IH]; intros r1 r2 a' b1 b2; [done|]. simpl.
  destruct (IH r1 r2 a' b1 b2) as [-> E].
  destruct (Nat.iter n gfMulNoTable_step (r1, a', b1)) as [[u1 v1] w1].
  destruct (Nat.iter n gfMulNoTable_step (r2, a', b2)) as [[u2 v2] w2].
  simpl in E. subst v2. apply gfMulNoTable_step_add.
Qed.

Lemma gfMul_add_r a b c : a ⊗ (b ⊕ c) = a ⊗ b ⊕ a ⊗ c.
Proof. by rw !gfMul_table gfMulNoTable_add. Qed.
Lemma gfMul_add_l a b c : (a ⊕ b) ⊗ c = a ⊗ c ⊕ b ⊗ c.
Proof. by rw !(gfMul_comm _ c) gfMul_add_r. Qed.

Lemma gf_inv_l a : a ≠ x00 → gf_inv a ⊗ a = x01.
Proof.
  intros Ha. rw /gf_inv /gfInv bool_decide_eq_false_2 //.
  pose proof (gf_log_lt a). destruct (gf_exp_spec (255 - gf_log_at a)) as (_ & Hn & Hl); [lia|].
  rw gfMul_nz // Hl. destruct (decide (gf_log_at a = 0)) as [->|]; [by vm_compute|].
  rw Nat.mod_small; [lia|]. replace (255 - gf_log_at a + gf_log_at a) with 255 by lia. by vm_compute.
Qed.

Lemma gfInv_ok a : a ≠ x00 → gfInv a = Ok (gf_inv a).
Proof. intros Ha. by rw /gf_inv /gfInv bool_decide_eq_false_2. Qed.

Definition gf_opp (a : byte) : byte := a.
Definition gf_div (a b : byte) : byte := a ⊗ gf_inv b.

Lemma gf_field : field_theory x00 x01 bxor gfMul bxor gf_opp gf_div gf_inv eq.
Proof.
  split; [split| | |]; try done.
  - apply bxor_0_l.
  - apply bxor_comm.
  - apply bxor_assoc.
  - apply gfMul_1_l.
  - apply gfMul_comm.
  - apply gfMul_assoc.
  - apply gfMul_add_l.
  - apply bxor_diag.
  - apply gf_inv_l.
Qed.

(** Coefficients are read modulo two, so that [ring] and [field] know that the
    characteristic is two. *)
Definition gf_phi (c : bool) : byte := if c then x01 else x00.
Lemma gf_morph : ring_morph x00 x01 bxor gfMul bxor gf_opp eq
  false true xorb andb xorb (λ c, c) Bool.eqb gf_phi.
Proof.
  split; try done; try by intros [] [].
Qed.
Ltac gf_cst t :=
  match t with
  | x00 => constr:(false) | x01 => constr:(true)
  | _ => constr:(InitialRing.NotConstant)
  end.
Add Field GF256 : gf_field (morphism gf_morph, constants [gf_cst]).

(** C15: the table arithmetic computes the field: the logarithm and power tables that
    [init] fills make [gfMul] agree with the carry-less reference multiplication on
    every pair of bytes, [gfInv] returns the multiplicative inverse of every non-zero
    byte, and the inverse of zero is the documented error. *)
Theorem gf_tables_correct a b :
  a ⊗ b = gfMulNoTable a b ∧ gfInv x00 = Error errZeroInverse ∧
  (a = x00 ∨ ∃ c, gfInv a = Ok c ∧ c ⊗ a = x01 ∧ gfMulNoTable c a = x01).
Proof.
  split; [apply gfMul_table|]. split; [done|]. destruct (decide (a = x00)) as [|Ha]; [by left|right].
  exists (gf_inv a). rw -gfMul_table gf_inv_l //. by rw gfInv_ok.
Qed.
