(* ===== verification/Lagrange.v ===== *)
(** Polynomials over GF(2^8) as coefficient lists (constant term first, the
    layout [gfEval] reads): a polynomial shorter than its number of distinct
    roots is zero everywhere, and Lagrange interpolation reconstructs any
    polynomial from enough distinct points. *)

From Stdlib Require Import Field.
From S2P Require Import Prelude GF256.

(** Add and scale coefficient lists; multiply by [X ⊕ a]. *)
Fixpoint padd (p q : bytes) : bytes :=
  match p, q with
  | [], q => q
  | p, [] => p
  | a :: p, b :: q => (a ⊕ b) :: padd p q
  end.
Definition pscale (c : byte) (p : bytes) : bytes := (λ a, c ⊗ a) <$> p.
Definition pmulx (a : byte) (p : bytes) : bytes := padd (x00 :: p) (pscale a p).
(** Quotient of [p] by [X ⊕ a] (synthetic division). *)
Fixpoint pquot (a : byte) (p : bytes) : bytes :=
  match p with
  | [] => []
  | c :: p' => match p' with [] => [] | _ => gfEval a p' :: pquot a p' end
  end.

Definition bsum (l : bytes) : byte := foldr bxor x00 l.
Definition bprod (l : bytes) : byte := foldr gfMul x01 l.
(** [Π_{j≠i} (x ⊕ x_j)] *)
Definition others (i : nat) (xs : bytes) (x : byte) : byte :=
  bprod ((λ xj, x ⊕ xj) <$> delete i xs).

Lemma gfEval_cons x c p : gfEval x (c :: p) = gfEval x p ⊗ x ⊕ c.
Proof. done. Qed.
Lemma gfEval_padd x p q : gfEval x (padd p q) = gfEval x p ⊕ gfEval x q.
Proof.
  revert q. induction p as [|a p IH]; intros [|b q]; simpl; try ring. rw IH. ring.
Qed.
Lemma gfEval_pscale x c p : gfEval x (pscale c p) = c ⊗ gfEval x p.
Proof. induction p as [|a p IH]; simpl; [ring|]. fold (pscale c p). rw IH. ring. Qed.
Lemma gfEval_pmulx x a p : gfEval x (pmulx a p) = (x ⊕ a) ⊗ gfEval x p.
Proof. rw /pmulx gfEval_padd gfEval_pscale /=. ring. Qed.
Lemma gfEval_0 p : gfEval x00 p = default x00 (head p).
Proof. destruct p; simpl; [done|]. ring. Qed.

Lemma length_padd p q : length (padd p q) = length p `max` length q.
Proof. revert q. induction p as [|a p IH]; intros [|b q]; simpl; [done..|]. by rw IH. Qed.
Lemma length_pscale c p : length (pscale c p) = length p.
Proof. apply length_fmap. Qed.

Lemma gfEval_pquot x a p : gfEval x p = (x ⊕ a) ⊗ gfEval x (pquot a p) ⊕ gfEval a p.
Proof.
  induction p as [|c p IH]; [simpl; ring|]. destruct p as [|d p]; [simpl; ring|].
  change (pquot a (c :: d :: p)) with (gfEval a (d :: p) :: pquot a (d :: p)).
  rw (gfEval_cons x c) (gfEval_cons a c) (gfEval_cons x (gfEval a (d :: p))) {1}IH. ring.
Qed.
Lemma length_pquot a p : length (pquot a p) = length p - 1.
Proof.
  induction p as [|c p IH]; [done|]. destruct p; [done|].
  change (pquot a (c :: b :: p)) with (gfEval a (b :: p) :: pquot a (b :: p)).
  simpl in *. rw IH. lia.
Qed.

Lemma gfMul_eq_0 a b : a ⊗ b = x00 → a = x00 ∨ b = x00.
Proof.
  intros H. destruct (decide (a = x00)); [auto|]. destruct (decide (b = x00)); [auto|].
  by destruct (gfMul_neq_0 a b).
Qed.

(** A polynomial with at least as many distinct roots as coefficients is zero. *)
Lemma roots_zero xs : NoDup xs → ∀ p, length p ≤ length xs →
  (∀ x, x ∈ xs → gfEval x p = x00) → ∀ x, gfEval x p = x00.
Proof.
  induction 1 as [|a xs Ha _ IH]; intros p Hlen Hroot x.
  { by destruct p; [|simpl in Hlen; lia]. }
  rw (gfEval_pquot x a) (Hroot a); [set_solver|].
  rw (IH (pquot a p)); [rw length_pquot; simpl in Hlen; lia | | ring].
  intros y Hy. pose proof (Hroot y ltac:(set_solver)) as Hy0.
  rw (gfEval_pquot y a) (Hroot a) in Hy0; [set_solver|].
  destruct (gfMul_eq_0 (y ⊕ a) (gfEval y (pquot a p))) as [E|E]; [by rw bxor_0_r in Hy0| |done].
  apply bxor_eq_0 in E. set_solver.
Qed.

(** ** The interpolating polynomial *)
Definition prod_poly (l : bytes) : bytes := foldr pmulx [x01] l.

Lemma gfEval_prod_poly x l : gfEval x (prod_poly l) = bprod ((λ a, x ⊕ a) <$> l).
Proof.
  induction l as [|a l IH]; [simpl; ring|].
  change (prod_poly (a :: l)) with (pmulx a (prod_poly l)). by rw gfEval_pmulx IH.
Qed.
Lemma length_prod_poly l : length (prod_poly l) = S (length l).
Proof.
  induction l as [|a l IH]; [done|].
  change (prod_poly (a :: l)) with (pmulx a (prod_poly l)).
  rw /pmulx length_padd length_pscale /= IH. lia.
Qed.

Definition interp_term (xs : bytes) (i : nat) (x y : byte) : bytes :=
  pscale (y ⊗ gf_inv (others i xs x)) (prod_poly (delete i xs)).
(** Interpolant of the points [(xs, ys)]. *)
Definition interp (xs ys : bytes) : bytes :=
  foldr padd [] (imap (λ i '(x, y), interp_term xs i x y) (zip xs ys)).

Lemma bprod_zero l : x00 ∈ l → bprod l = x00.
Proof.
  induction l as [|a l IH]; [set_solver|]. rw elem_of_cons /=. intros [<-|H]; [done|].
  rw IH //. ring.
Qed.
Lemma bprod_neq_0 l : x00 ∉ l → bprod l ≠ x00.
Proof.
  induction l as [|a l IH]; [done|]. rw not_elem_of_cons /=. intros [??].
  apply gfMul_neq_0; auto.
Qed.

Lemma others_neq_0 xs i x : NoDup xs → xs !! i = Some x → others i xs x ≠ x00.
Proof.
  intros Hnd Hi. apply bprod_neq_0. intros (y & E & Hy)%list_elem_of_fmap.
  symmetry in E. apply bxor_eq_0 in E as <-.
  apply list_elem_of_lookup in Hy as [j Hj]. rw list_lookup_delete in Hj.
  case_decide; eapply NoDup_lookup in Hi; eauto; lia.
Qed.
Lemma others_eq_0 xs i k x : xs !! k = Some x → i ≠ k → others i xs x = x00.
Proof.
  intros Hk Hne. apply bprod_zero, list_elem_of_fmap. exists x. rw bxor_diag. split; [done|].
  destruct (decide (k < i)).
  - apply list_elem_of_lookup. exists k. by rw list_lookup_delete_lt.
  - apply list_elem_of_lookup. exists (k - 1). rw list_lookup_delete_ge; [lia|].
    by replace (S (k - 1)) with k by lia.
Qed.

Lemma bsum_single l k v : l !! k = Some v →
  (∀ i w, i ≠ k → l !! i = Some w → w = x00) → bsum l = v.
Proof.
  revert k. induction l as [|a l IH]; intros k Hk Hz; [done|].
  destruct k as [|k]; simpl in *.
  - simplify_eq. assert (bsum l = x00) as ->; [|ring].
    clear IH. assert (∀ w, w ∈ l → w = x00) as Hall.
    { intros w [i Hi]%list_elem_of_lookup. by apply (Hz (S i)). }
    clear Hz. induction l as [|b l IHl]; [done|]. simpl.
    rw (Hall b) ?IHl; [set_solver | set_solver | ring].
  - rw (Hz 0 a); [done | done|]. fold (bsum l). rw (IH k); [done | | ring].
    intros i w Hi Hw. by apply (Hz (S i)); [lia|].
Qed.

Lemma gfEval_interp x xs ys :
  gfEval x (interp xs ys) =
  bsum (imap (λ i '(xi, yi), yi ⊗ gf_inv (others i xs xi) ⊗ others i xs x) (zip xs ys)).
Proof.
  rw /interp. generalize (zip xs ys) as l. intros l.
  assert (∀ f : nat → byte * byte → bytes, gfEval x (foldr padd [] (imap f l)) =
    bsum (imap (λ i p, gfEval x (f i p)) l)) as H.
  { induction l as [|p l IH]; intros f; [done|]. simpl. by rw gfEval_padd IH. }
  rw H. f_equal. apply imap_ext. intros i [xi yi] _. rw /interp_term gfEval_pscale gfEval_prod_poly //.
Qed.

Lemma length_interp xs ys : length ys = length xs → length (interp xs ys) ≤ length xs.
Proof.
  intros Hl. rw /interp.
  assert (∀ l : list bytes, (∀ p, p ∈ l → length p ≤ length xs) → length (foldr padd [] l) ≤ length xs) as H.
  { induction l as [|p l IH]; intros Hp; simpl; [lia|]. rw length_padd.
    apply Nat.max_lub; [|apply IH; intros q Hq]; apply Hp, elem_of_cons; auto. }
  apply H. intros p [i Hi]%list_elem_of_lookup. rw list_lookup_imap in Hi.
  destruct (zip xs ys !! i) as [[x y]|] eqn:E; simplify_eq/=.
  apply lookup_zip_Some in E as [E _]. apply lookup_lt_Some in E as ?.
  rw /interp_term length_pscale length_prod_poly length_delete; [eauto|]. lia.
Qed.

Lemma interp_at xs ys i x y : NoDup xs → length ys = length xs →
  xs !! i = Some x → ys !! i = Some y → gfEval x (interp xs ys) = y.
Proof.
  intros Hnd Hl Hx Hy. rw gfEval_interp. apply (bsum_single _ i).
  - rw list_lookup_imap. assert (zip xs ys !! i = Some (x, y)) as -> by (by apply lookup_zip_Some).
    simpl. f_equal. rw -gfMul_assoc gf_inv_l; [by eapply others_neq_0 | ring].
  - intros j w Hj. rw list_lookup_imap. destruct (zip xs ys !! j) as [[x' y']|] eqn:E; [|done].
    intros [= <-]. rw (others_eq_0 xs j i x) //. ring.
Qed.

(** Lagrange: a polynomial is its interpolant through enough distinct points. *)
Lemma interp_eval p xs x : NoDup xs → length p ≤ length xs →
  gfEval x (interp xs ((λ xi, gfEval xi p) <$> xs)) = gfEval x p.
Proof.
  intros Hnd Hlen. set (ys := _ <$> xs). apply bxor_eq_0. rw -gfEval_padd.
  assert (length ys = length xs) as Hys by apply length_fmap.
  apply (roots_zero xs Hnd).
  - rw length_padd. pose proof (length_interp xs ys Hys). lia.
  - intros a [i Hi]%list_elem_of_lookup. rw gfEval_padd (interp_at xs ys i a (gfEval a p)) //; [|ring].
    by rw list_lookup_fmap Hi.
Qed.
