(* ===== verification/SecureBuffer.v ===== *)
(** [src/internal/memguard]: the entropy source and the container that holds
    every plaintext key. The CSPRNG is the stream of bytes it will deliver; a
    read beyond the end of the stream is the failure of [crypto/rand.Read]. *)

From S2P Require Import Prelude.

Abbreviation entropy := (list byte).

Definition errNegativeSize : error := Err_new "memguard: invalid negative size".
Definition errCSPRNG : error :=
  Err_wrap "memguard: crypto/rand.Read failed (CSPRNG unavailable)" (Err_new "rand").

(** [clear(b)] *)
Definition clear (b : bytes) : bytes := replicate (length b) x00.

Definition GenerateSecureRandom (size : Z) : M entropy bytes := fun e =>
  if bool_decide (size < 0)%Z then (e, Error errNegativeSize)
  else if bool_decide (size = 0)%Z then (e, Ok [])
  else if bool_decide (Z.of_nat (length e) < size)%Z then ([], Error errCSPRNG)
  else (drop (Z.to_nat size) e, Ok (take (Z.to_nat size) e)).

Record SecureBuffer : Type := mkSB { sb_data : bytes; sb_destroyed : bool }.

#[export] Instance SecureBuffer_eq_dec : EqDecision SecureBuffer.
Proof. solve_decision. Defined.

(** The new buffer, and what the source slice holds afterwards. *)
Definition NewSecureBuffer (src : bytes) : SecureBuffer * bytes := (mkSB src false, clear src).

Definition NewSecureBufferFromRandom (size : Z) : M entropy SecureBuffer :=
  raw ← GenerateSecureRandom size; mret (mkSB raw false).

Definition Wipe (s : SecureBuffer) : SecureBuffer :=
  if sb_destroyed s then s else mkSB (clear (sb_data s)) true.

Definition WithKey {S A} (s : SecureBuffer) (action : bytes → M S A) : M S A := fun st =>
  if sb_destroyed s then (st, Panic "FATAL: Use after free in SecureBuffer")
  else action (sb_data s) st.

(** [WithKey] with an action that touches no other state. *)
Definition WithKeyR {A} (s : SecureBuffer) (action : bytes → result A) : result A :=
  if sb_destroyed s then Panic "FATAL: Use after free in SecureBuffer" else action (sb_data s).

Definition IsDestroyed (s : SecureBuffer) : bool := sb_destroyed s.
Definition Len (s : SecureBuffer) : nat := if sb_destroyed s then 0 else length (sb_data s).

(** A buffer nobody has wiped. *)
Definition live (s : SecureBuffer) : Prop := sb_destroyed s = false.
(** Well-formedness: a destroyed buffer holds only zeros. *)
Definition sb_wf (s : SecureBuffer) : Prop :=
  sb_destroyed s = true → Forall (λ b, b = x00) (sb_data s).

Lemma clear_zero b : Forall (λ c, c = x00) (clear b).
Proof. by apply Forall_replicate. Qed.

Lemma sb_wf_new src : sb_wf (NewSecureBuffer src).1.
Proof. done. Qed.
Lemma sb_wf_Wipe s : sb_wf s → sb_wf (Wipe s).
Proof. rw /Wipe /sb_wf. destruct (sb_destroyed s) eqn:E; [by rw E|]. intros _ _. apply clear_zero. Qed.

Lemma Wipe_destroyed s : sb_destroyed (Wipe s) = true.
Proof. rw /Wipe. by destruct (sb_destroyed s) eqn:E. Qed.
Lemma Wipe_idemp s : Wipe (Wipe s) = Wipe s.
Proof. by rw {1}/Wipe Wipe_destroyed. Qed.

Lemma WithKey_live {S A} s (f : bytes → M S A) st : live s → WithKey s f st = f (sb_data s) st.
Proof. rw /WithKey /live. by intros ->. Qed.
Lemma WithKeyR_live {A} s (f : bytes → result A) : live s → WithKeyR s f = f (sb_data s).
Proof. rw /WithKeyR /live. by intros ->. Qed.
Lemma WithKey_wiped {S A} s (f : bytes → M S A) st : ∃ m, WithKey (Wipe s) f st = (st, Panic m).
Proof. rw /WithKey Wipe_destroyed. eauto. Qed.

Lemma GenerateSecureRandom_ok n e e' r :
  GenerateSecureRandom n e = (e', Ok r) → e = r ++ e' ∧ Z.of_nat (length r) = n ∧ (0 ≤ n)%Z.
Proof.
  rw /GenerateSecureRandom. repeat case_bool_decide; intros ?; simplify_eq/=.
  { split_and!; [done|done|lia]. }
  { rw take_drop length_take. split_and!; [done|lia|lia]. }
Qed.

Lemma GenerateSecureRandom_total n e : (0 ≤ n ≤ Z.of_nat (length e))%Z →
  GenerateSecureRandom n e = (drop (Z.to_nat n) e, Ok (take (Z.to_nat n) e)).
Proof.
  intros Hn. rw /GenerateSecureRandom. repeat case_bool_decide; try lia; [|done].
  by subst.
Qed.

Lemma NewSecureBufferFromRandom_ok n e e' sb :
  NewSecureBufferFromRandom n e = (e', Ok sb) →
  e = sb_data sb ++ e' ∧ Z.of_nat (length (sb_data sb)) = n ∧ live sb.
Proof.
  rw /NewSecureBufferFromRandom. intros H. inv_M.
  apply GenerateSecureRandom_ok in Hm as (-> & <- & _). done.
Qed.
