(* ===== verification/Shamir.v ===== *)
(** Shamir secret sharing, [src/internal/seal/shamir.go]: [Split] deals a secret
    into shares [x :: y_0 .. y_n], [Combine] interpolates at zero. The theorems:
    any [threshold] distinct shares of a dealing combine to the dealt secret,
    fewer shares are consistent with every secret, and [Combine] rejects exactly
    the malformed share lists. *)

From Stdlib Require Import Field.
From S2P Require Import Prelude GF256 Lagrange SecureBuffer.

Definition errInvalidShareFormat : error := Err_new "seal: invalid share format".
Definition errInvalidParam : error := Err_new "seal: invalid split parameters".

(** ** Split *)
(** Write [f(x)] for the next secret byte at the end of every share. *)
Definition split_column (coef : bytes) (shares : list bytes) : list bytes :=
  imap (λ i s, s ++ [gfEval (z2b (Z.of_nat (S i))) coef]) shares.

Fixpoint split_loop (sec : bytes) (threshold : Z) (shares : list bytes) : M entropy (list bytes) :=
  match sec with
  | [] => mret shares
  | b :: sec =>
      randCoef ← wrapM "seal: generate polynomial coefficients"
                   (GenerateSecureRandom (threshold - 1));
      split_loop sec threshold (split_column (b :: randCoef) shares)
  end.

Definition Split (secret : option SecureBuffer) (parts threshold : Z) : M entropy (list bytes) :=
  match secret with
  | None => throw errInvalidParam
  | Some secret =>
      _ ← guardM (negb (bool_decide (parts < 2)%Z || bool_decide (255 < parts)%Z))
            (Err_wrap "parts must be in [2, 255]" errInvalidParam);
      _ ← guardM (negb (bool_decide (threshold < 2)%Z || bool_decide (parts < threshold)%Z))
            (Err_wrap "threshold must be in [2, parts]" errInvalidParam);
      _ ← guardM (negb (Len secret =? 0))
            (Err_wrap "secret is empty" errInvalidParam);
      let shares := (λ i, [z2b (Z.of_nat (S i))]) <$> seq 0 (Z.to_nat parts) in
      WithKey secret (λ sec, split_loop sec threshold shares)
  end.

(** ** Combine *)
Definition share_x (s : bytes) : byte := s !!! 0.
Definition share_y (idx : nat) (s : bytes) : byte := s !!! (1 + idx).

(** Numerator and denominator of the Lagrange coefficient of share [i]. *)
Definition lagrange_coef (i : nat) (xi : byte) (xs : bytes) : byte * byte :=
  foldl (λ '(num, den) '(j, xj),
           if j =? i then (num, den) else (num ⊗ xj, den ⊗ (xi ⊕ xj)))
    (x01, x01) (imap pair xs).

(** The accumulator loop over the shares for one byte position. *)
Fixpoint combine_acc (idx i : nat) (xs : bytes) (todo : list bytes) (acc : byte) : result byte :=
  match todo with
  | [] => Ok acc
  | s :: todo =>
      let '(num, den) := lagrange_coef i (share_x s) xs in
      denInv ← wrap_err "seal: combine (denominator=0, duplicate x-coordinates in shares)" (gfInv den);
      combine_acc idx (S i) xs todo (acc ⊕ share_y idx s ⊗ (num ⊗ denInv))
  end.

Fixpoint combine_bytes (idxs : list nat) (shares : list bytes) : result bytes :=
  match idxs with
  | [] => Ok []
  | idx :: idxs =>
      b ← combine_acc idx 0 (share_x <$> shares) shares x00;
      bs ← combine_bytes idxs shares;
      Ok (b :: bs)
  end.

(** The validation loop over the shares. *)
Fixpoint check_shares (expectedLen : nat) (shares : list bytes) : result () :=
  match shares with
  | [] => Ok tt
  | s :: shares =>
      if negb (length s =? expectedLen)
      then Error (Err_wrap "share length mismatch" errInvalidShareFormat)
      else if bool_decide (share_x s = x00)
      then Error (Err_wrap "share has x=0 (reserved for secret)" errInvalidShareFormat)
      else check_shares expectedLen shares
  end.

Fixpoint check_unique (xSeen : gset byte) (shares : list bytes) : result () :=
  match shares with
  | [] => Ok tt
  | s :: shares =>
      if bool_decide (share_x s ∈ xSeen)
      then Error (Err_wrap "duplicate x" errInvalidShareFormat)
      else check_unique ({[share_x s]} ∪ xSeen) shares
  end.

Definition Combine (shares : list bytes) : result SecureBuffer :=
  if length shares <? 2
  then Error (Err_wrap "need at least 2 shares" errInvalidShareFormat)
  else
    let expectedLen := length (shares !!! 0) in
    if expectedLen <? 2 then Error errInvalidShareFormat
    else
      _ ← check_shares expectedLen shares;
      _ ← check_unique ∅ shares;
      plain ← combine_bytes (seq 0 (expectedLen - 1)) shares;
      Ok (NewSecureBuffer plain).1.

Definition CombineWithThreshold (shares : list bytes) (threshold : Z) : result SecureBuffer :=
  if bool_decide (0 < threshold)%Z && bool_decide (Z.of_nat (length shares) < threshold)%Z
  then Error (Err_wrap "need at least threshold shares" errInvalidShareFormat)
  else Combine shares.

(** ** Combine computes the interpolant at zero *)
(** The share lists [Combine] accepts. *)
Record valid_shares (shares : list bytes) : Prop := {
  vs_count : 2 ≤ length shares;
  vs_len : 2 ≤ length (shares !!! 0);
  vs_same : ∀ s, s ∈ shares → length s = length (shares !!! 0);
  vs_x : ∀ s, s ∈ shares → share_x s ≠ x00;
  vs_nodup : NoDup (share_x <$> shares);
}.

Lemma check_shares_ok n shares :
  check_shares n shares = Ok tt ↔ ∀ s, s ∈ shares → length s = n ∧ share_x s ≠ x00.
Proof.
  induction shares as [|s l IH]; simpl; [set_solver|].
  destruct (Nat.eqb_spec (length s) n) as [E|E]; simpl; [|set_solver].
  case_bool_decide as Ex; [set_solver|]. rw IH. set_solver.
Qed.
Lemma check_shares_err n shares e : check_shares n shares = Error e →
  errors_Is e errInvalidShareFormat = true.
Proof.
  induction shares as [|s l IH]; simpl; [done|].
  repeat case_match; intros; simplify_eq; auto.
Qed.
Lemma check_shares_panic n shares m : check_shares n shares ≠ Panic m.
Proof. induction shares as [|s l IH]; simpl; [done|]. by repeat case_match. Qed.

Lemma check_unique_ok seen shares :
  check_unique seen shares = Ok tt ↔
  NoDup (share_x <$> shares) ∧ ∀ s, s ∈ shares → share_x s ∉ seen.
Proof.
  revert seen. induction shares as [|s l IH]; intros seen; simpl.
  { split; [split; [constructor|set_solver]|done]. }
  case_bool_decide; [set_solver|]. rw IH list.NoDup_cons list_elem_of_fmap. set_solver.
Qed.
Lemma check_unique_err seen shares e : check_unique seen shares = Error e →
  errors_Is e errInvalidShareFormat = true.
Proof.
  revert seen. induction shares as [|s l IH]; intros seen; simpl; [done|].
  repeat case_match; intros; simplify_eq; eauto.
Qed.
Lemma check_unique_panic seen shares m : check_unique seen shares ≠ Panic m.
Proof. revert seen. induction shares as [|s l IH]; intros seen; simpl; [done|]. by repeat case_match. Qed.

Lemma lagrange_coef_gen i xi xs k n d :
  foldl (λ '(num, den) '(j, xj),
           if j =? i then (num, den) else (num ⊗ xj, den ⊗ (xi ⊕ xj)))
    (n, d) (imap (λ j x, (j + k, x)) xs) =
  let l := if i <? k then xs else delete (i - k) xs in
  (n ⊗ bprod l, d ⊗ bprod ((λ xj, xi ⊕ xj) <$> l)).
Proof.
  revert k n d. induction xs as [|x xs IH]; intros k n d; simpl.
  { destruct (i <? k); simpl; f_equal; ring. }
  assert (imap ((λ j y, (j + k, y)) ∘ S) xs = imap (λ j y, (j + S k, y)) xs) as ->.
  { apply imap_ext. intros j y _. rw /compose. f_equal. lia. }
  destruct (Nat.eqb_spec k i) as [->|Hne]; rw IH.
  - destruct (Nat.ltb_spec i (S i)); [|lia]. destruct (Nat.ltb_spec i i); [lia|].
    by rw Nat.sub_diag.
  - destruct (Nat.ltb_spec i (S k)), (Nat.ltb_spec i k); try lia; simpl.
    { by rw !gfMul_assoc. }
    destruct (i - k) as [|m] eqn:E; [lia|]. assert (i - S k = m) as -> by lia. simpl.
    by rw !gfMul_assoc.
Qed.

Lemma others_0 i xs : others i xs x00 = bprod (delete i xs).
Proof.
  rw /others. f_equal. rewrite <-(list_fmap_id (delete i xs)) at 2.
  apply list_fmap_ext. intros _ y _. apply bxor_0_l.
Qed.

Lemma lagrange_coef_eq i xi xs : lagrange_coef i xi xs = (others i xs x00, others i xs xi).
Proof.
  rw others_0 /lagrange_coef.
  assert (imap pair xs = imap (λ j x, (j + 0, x)) xs) as ->.
  { apply imap_ext. intros j x _. by rw Nat.add_0_r. }
  rw lagrange_coef_gen /= Nat.sub_0_r. rw /others. f_equal; ring.
Qed.

Lemma combine_acc_ok idx i xs todo acc :
  NoDup xs → (∀ j s, todo !! j = Some s → xs !! (i + j) = Some (share_x s)) →
  combine_acc idx i xs todo acc = Ok (acc ⊕ bsum (imap (λ j s,
    share_y idx s ⊗ gf_inv (others (i + j) xs (share_x s)) ⊗ others (i + j) xs x00) todo)).
Proof.
  intros Hnd. revert i acc. induction todo as [|s todo IH]; intros i acc Hx; simpl.
  { by rw bxor_0_r. }
  rw lagrange_coef_eq. pose proof (Hx 0 s eq_refl) as H0. rw Nat.add_0_r in H0.
  rw gfInv_ok; [by eapply others_neq_0|]. simpl. rw IH.
  { intros j t Hj. rw -(Hx (S j) t Hj). f_equal. lia. }
  f_equal. rw Nat.add_0_r -bxor_assoc. f_equal. f_equal; [ring|]. f_equal.
  apply imap_ext. intros j t _. rw /compose. by replace (i + S j) with (S i + j) by lia.
Qed.

Lemma combine_acc_interp idx shares : NoDup (share_x <$> shares) →
  combine_acc idx 0 (share_x <$> shares) shares x00 =
  Ok (gfEval x00 (interp (share_x <$> shares) (share_y idx <$> shares))).
Proof.
  intros Hnd. rw combine_acc_ok //.
  { intros j s Hj. by rw list_lookup_fmap Hj. }
  rw bxor_0_l gfEval_interp. f_equal. f_equal.
  by rw -prod_map_zip zip_diag !imap_fmap.
Qed.

Lemma combine_bytes_interp idxs shares : NoDup (share_x <$> shares) →
  combine_bytes idxs shares =
  Ok ((λ idx, gfEval x00 (interp (share_x <$> shares) (share_y idx <$> shares))) <$> idxs).
Proof.
  intros Hnd. induction idxs as [|idx idxs IH]; [done|]. simpl. by rw combine_acc_interp // IH.
Qed.

(** On a valid share list, [Combine] is Lagrange interpolation at zero. *)
Lemma Combine_valid shares : valid_shares shares →
  Combine shares = Ok (mkSB
    ((λ idx, gfEval x00 (interp (share_x <$> shares) (share_y idx <$> shares)))
       <$> seq 0 (length (shares !!! 0) - 1)) false).
Proof.
  intros [Hc Hl Hs Hx Hnd]. rw /Combine.
  destruct (Nat.ltb_spec (length shares) 2); [lia|].
  destruct (Nat.ltb_spec (length (shares !!! 0)) 2); [lia|].
  rw (proj2 (check_shares_ok _ _)); [by auto|]. simpl.
  rw (proj2 (check_unique_ok _ _)); [set_solver|]. simpl. by rw combine_bytes_interp.
Qed.

(** [Combine] accepts exactly the valid share lists; every other list is refused
    with an error that is [errInvalidShareFormat]. In particular the zero
    denominator branch is unreachable and no index is out of range. *)
Lemma Combine_invalid shares : ¬ valid_shares shares →
  ∃ e, Combine shares = Error e ∧ errors_Is e errInvalidShareFormat = true.
Proof.
  intros Hv. rw /Combine.
  destruct (Nat.ltb_spec (length shares) 2) as [?|Hc]; [eauto|].
  destruct (Nat.ltb_spec (length (shares !!! 0)) 2) as [?|Hl]; [eauto|].
  destruct (check_shares _ _) as [[]|e|m] eqn:Hs; simpl.
  - destruct (check_unique _ _) as [[]|e|m] eqn:Hu; simpl.
    + destruct Hv. pose proof (proj1 (check_shares_ok _ _) Hs) as Hs'.
      pose proof (proj1 (check_unique_ok _ _) Hu) as [? _].
      split; [lia|lia|apply Hs'..|done].
    + eauto using check_unique_err.
    + by apply check_unique_panic in Hu.
  - eauto using check_shares_err.
  - by apply check_shares_panic in Hs.
Qed.

(** ** What a dealing looks like *)
Definition deal_x (i : nat) : byte := z2b (Z.of_nat (S i)).
(** Share [i] of the polynomials [polys], one per secret byte. *)
Definition deal_share (polys : list bytes) (i : nat) : bytes :=
  deal_x i :: (gfEval (deal_x i) <$> polys).
(** [polys] deals [sec] with [threshold] coefficients per byte. *)
Definition deals (polys : list bytes) (sec : bytes) (threshold : Z) : Prop :=
  Forall2 (λ p b, head p = Some b ∧ Z.of_nat (length p) = threshold) polys sec.

Lemma deal_x_inj i j : i < 255 → j < 255 → deal_x i = deal_x j → i = j.
Proof.
  rw /deal_x. intros Hi Hj H. apply (f_equal b2z) in H. rw !b2z_z2b !Z.mod_small in H; lia.
Qed.
Lemma deal_x_neq_0 i : i < 255 → deal_x i ≠ x00.
Proof.
  rw /deal_x. intros Hi H. apply (f_equal b2z) in H. rw b2z_z2b Z.mod_small in H; [lia|].
  change (b2z x00) with 0%Z in H. lia.
Qed.

Lemma split_loop_ok sec t shares e e' out : (1 ≤ t)%Z →
  split_loop sec t shares e = (e', Ok out) →
  ∃ polys, deals polys sec t ∧ out = imap (λ i s, s ++ (gfEval (deal_x i) <$> polys)) shares.
Proof.
  intros Ht. revert shares e. induction sec as [|b sec IH]; intros shares e H; simpl in H; inv_M.
  { exists []. split; [constructor|]. symmetry. apply imap_id. intros. apply app_nil_r. }
  apply GenerateSecureRandom_ok in Hm as (_ & Hr & _). apply IH in H as (polys & Hd & ->).
  exists ((b :: a) :: polys). split.
  - constructor; [|done]. simpl. split; [done|lia].
  - rw /split_column imap_imap. apply imap_ext. intros i sh _. by rw /= -app_assoc.
Qed.

Lemma deal_shares_imap polys n :
  imap (λ i s, s ++ (gfEval (deal_x i) <$> polys)) ((λ i, [deal_x i]) <$> seq 0 n) =
  deal_share polys <$> seq 0 n.
Proof.
  rw imap_fmap.
  assert (∀ A (f : nat → A) n, f <$> seq 0 n = imap (λ j _, f j) (seq 0 n)) as ->.
  { intros A f m. by rw imap_seq_0 length_seq. }
  apply imap_ext. intros i x Hx. by apply lookup_seq in Hx as [-> _].
Qed.

Lemma Split_ok sb parts t e e' shares :
  Split (Some sb) parts t e = (e', Ok shares) →
  live sb ∧ sb_data sb ≠ [] ∧ (2 ≤ t ≤ parts)%Z ∧ (parts ≤ 255)%Z ∧
  ∃ polys, deals polys (sb_data sb) t ∧ shares = deal_share polys <$> seq 0 (Z.to_nat parts).
Proof.
  rw /Split. intros H. inv_M. rw !negb_true_iff !orb_false_iff !bool_decide_eq_false in Hm, Hm0.
  rw negb_true_iff Nat.eqb_neq in Hm1. rw /Len in Hm1.
  rw /WithKey in H. destruct (sb_destroyed sb) eqn:Hd; [done|].
  apply split_loop_ok in H as (polys & Hp & ->); [|lia].
  split_and!; [done| by intros E; rw E in Hm1 |lia|lia|lia|].
  exists polys. split; [done|]. apply deal_shares_imap.
Qed.

(** Shares of one dealing, as many as the polynomials have coefficients, combine
    to the constant terms. *)
Lemma Combine_deal polys sec t ks :
  deals polys sec t → sec ≠ [] → NoDup ks → (∀ i, i ∈ ks → i < 255) →
  2 ≤ length ks → (t ≤ Z.of_nat (length ks))%Z →
  Combine (deal_share polys <$> ks) = Ok (mkSB sec false).
Proof.
  intros Hd Hne Hnd Hlt H2 Ht. set (shares := deal_share polys <$> ks).
  assert (length polys = length sec) as Hlen by by eapply Forall2_length.
  assert (share_x <$> shares = deal_x <$> ks) as Hxs by (rw /shares -list_fmap_compose; done).
  assert (∀ s, s ∈ shares → length s = S (length polys)) as Hsl.
  { intros s (i & -> & _)%list_elem_of_fmap. by rw /= length_fmap. }
  assert (shares !!! 0 ∈ shares) as H0.
  { apply list_elem_of_lookup_total_2. rw length_fmap. lia. }
  assert (0 < length sec) by (destruct sec; [done|simpl; lia]).
  assert (NoDup (deal_x <$> ks)) as Hnx.
  { apply NoDup_fmap_2_strong; [|done]. intros i j Hi Hj. apply deal_x_inj; auto. }
  rw Combine_valid.
  - split.
    + by rw length_fmap.
    + rw Hsl //. lia.
    + intros s Hs. by rw !Hsl.
    + intros s (i & -> & Hi)%list_elem_of_fmap. apply deal_x_neq_0. auto.
    + by rw Hxs.
  - f_equal. f_equal. rw Hsl // /= Nat.sub_0_r Hlen. apply list_eq_same_length with (n := length sec).
    { done. } { by rw length_fmap length_seq. }
    intros idx a b Hidx Ha Hb. rw list_lookup_fmap in Ha. rw lookup_seq_lt //= in Ha. simplify_eq/=.
    destruct (lookup_lt_is_Some_2 polys idx) as [p Hp]; [lia|].
    destruct (Forall2_lookup_lr _ _ _ _ _ _ Hd Hp Hb) as [Hh Hpl].
    assert (share_y idx <$> shares = (λ x, gfEval x p) <$> (deal_x <$> ks)) as ->.
    { rw /shares -!list_fmap_compose. apply list_fmap_ext. intros _ i _.
      rw /= /share_y /=. erewrite list_lookup_total_correct; [done|]. by rw list_lookup_fmap Hp. }
    rw Hxs interp_eval //; [rw length_fmap; lia|]. by rw gfEval_0 Hh.
Qed.

(** A dealing succeeds whenever the parameters are in range and the entropy
    source can deliver [threshold - 1] bytes per secret byte. *)
Lemma split_loop_total sec t shares e : (1 ≤ t)%Z →
  (Z.of_nat (length sec) * (t - 1) ≤ Z.of_nat (length e))%Z →
  ∃ e' out, split_loop sec t shares e = (e', Ok out).
Proof.
  intros Ht. revert shares e. induction sec as [|b sec IH]; intros shares e He; simpl; [eauto|].
  simpl in He. rw /mbind /M_bind /wrapM GenerateSecureRandom_total; [nia|]. simpl.
  apply IH. rw length_drop. nia.
Qed.

Lemma split_loop_run sec t shares polys e : (1 ≤ t)%Z → deals polys sec t →
  split_loop sec t shares (concat (tail <$> polys) ++ e) =
  (e, Ok (imap (λ i s, s ++ (gfEval (deal_x i) <$> polys)) shares)).
Proof.
  intros Ht Hd. revert shares. induction Hd as [|p b polys sec [Hh Hl] _ IH]; intros shares; simpl.
  { rw imap_id //. intros. apply app_nil_r. }
  destruct p as [|b' p]; simplify_eq/=.
  rw /mbind /M_bind /wrapM GenerateSecureRandom_total.
  { rw !length_app. lia. }
  replace (Z.to_nat (Z.of_nat (S (length p)) - 1)) with (length p) by lia.
  rw -app_assoc take_app_length drop_app_length /= IH.
  rw /split_column imap_imap. do 2 f_equal. apply imap_ext. intros i sh _. by rw /= -app_assoc.
Qed.

Lemma Split_run sb parts t polys e :
  live sb → sb_data sb ≠ [] → (2 ≤ t ≤ parts)%Z → (parts ≤ 255)%Z → deals polys (sb_data sb) t →
  Split (Some sb) parts t (concat (tail <$> polys) ++ e) =
  (e, Ok (deal_share polys <$> seq 0 (Z.to_nat parts))).
Proof.
  intros Hl Hne Ht Hp Hd. rw /Split /mbind /M_bind /guardM.
  repeat case_bool_decide; try lia. simpl. rw /Len Hl. destruct (Nat.eqb_spec (length (sb_data sb)) 0) as [E%nil_length_inv|]; [done|]. simpl.
  rw WithKey_live // split_loop_run //; [lia|]. do 2 f_equal. by apply deal_shares_imap.
Qed.

(** Padding with zero coefficients does not change a polynomial. *)
Lemma gfEval_pad x p n : gfEval x (p ++ replicate n x00) = gfEval x p.
Proof.
  induction p as [|c p IH]; simpl; [|by rw IH].
  induction n as [|n IH]; [done|]. simpl. rw IH. ring.
Qed.

(** Fewer than [t] points leave the constant term free. *)
Lemma poly_through xs p t b : NoDup xs → x00 ∉ xs → S (length xs) ≤ t →
  ∃ p', head p' = Some b ∧ length p' = t ∧ ∀ x, x ∈ xs → gfEval x p' = gfEval x p.
Proof.
  intros Hnd H0 Hlen. set (ys := (λ x, gfEval x p) <$> xs).
  assert (length (b :: ys) = length (x00 :: xs)) as Hl by (simpl; by rw length_fmap).
  assert (NoDup (x00 :: xs)) as Hnd' by by constructor.
  pose proof (length_interp _ _ Hl) as Hil. simpl in Hil.
  set (q := interp (x00 :: xs) (b :: ys)) in *.
  exists (q ++ replicate (t - length q) x00). split_and!.
  - pose proof (interp_at _ _ 0 x00 b Hnd' Hl eq_refl eq_refl) as Hq. fold q in Hq.
    rw -(gfEval_pad x00 q (t - length q)) gfEval_0 in Hq.
    destruct (q ++ _) as [|c l] eqn:E; [|by simplify_eq/=].
    apply (f_equal length) in E. rw length_app length_replicate in E. simpl in E. lia.
  - rw length_app length_replicate. lia.
  - intros x [i Hi]%list_elem_of_lookup. rw gfEval_pad.
    apply (interp_at _ _ (S i)); [done..|]. by rw /= list_lookup_fmap Hi.
Qed.

Lemma deals_other polys sec sec' t xs : deals polys sec t → length sec' = length sec →
  NoDup xs → x00 ∉ xs → (Z.of_nat (length xs) < t)%Z →
  ∃ polys', deals polys' sec' t ∧
    ∀ x, x ∈ xs → gfEval x <$> polys' = gfEval x <$> polys.
Proof.
  intros Hd Hl Hnd H0 Ht. revert sec' Hl. induction Hd as [|p b polys sec [_ Hp] _ IH].
  { intros [|] ?; [|done]. exists []. split; [constructor|done]. }
  intros [|b' sec'] Hl; [done|]. destruct (IH sec' ltac:(simpl in Hl; lia)) as (polys' & Hd' & He).
  destruct (poly_through xs p (Z.to_nat t) b' Hnd H0) as (p' & Hh & Hl' & He'); [lia|].
  exists (p' :: polys'). split; [constructor; [split; [done|lia]|done]|].
  intros x Hx. rw !fmap_cons He' // He //.
Qed.

(** Shares picked from a dealing are the shares of some positions. *)
Lemma deal_select polys n sel : sel ⊆ (deal_share polys <$> seq 0 n) →
  ∃ ks, sel = deal_share polys <$> ks ∧ ∀ i, i ∈ ks → i < n.
Proof.
  intros Hsub. induction sel as [|s sel IH]; [exists []; set_solver|].
  destruct IH as (ks & -> & Hks); [set_solver|].
  destruct (proj1 (list_elem_of_fmap _ _ _) (Hsub s ltac:(set_solver))) as (i & -> & Hi).
  apply elem_of_seq in Hi. exists (i :: ks). split; [done|].
  intros j [->|]%elem_of_cons; [lia|auto].
Qed.

Lemma Combine_sound shares sb : Combine shares = Ok sb → valid_shares shares.
Proof.
  rw /Combine. destruct (Nat.ltb_spec (length shares) 2) as [|Hc]; [done|].
  destruct (Nat.ltb_spec (length (shares !!! 0)) 2) as [|Hl]; [done|].
  intros H. apply result_bind_ok in H as ([] & Hs & H). apply result_bind_ok in H as ([] & Hu & _).
  pose proof (proj1 (check_shares_ok _ _) Hs) as Hs'.
  pose proof (proj1 (check_unique_ok _ _) Hu) as [? _].
  split; [lia|lia|apply Hs'..|done].
Qed.

Lemma Split_Combine_gen sb parts t e e' shares sel :
  Split (Some sb) parts t e = (e', Ok shares) →
  NoDup sel → sel ⊆ shares → (t ≤ Z.of_nat (length sel))%Z →
  Combine sel = Ok (mkSB (sb_data sb) false).
Proof.
  intros (_ & Hne & Ht & Hp & polys & Hd & ->)%Split_ok Hnd Hsub Hlen.
  destruct (deal_select polys (Z.to_nat parts) sel Hsub) as (ks & -> & Hks).
  rw length_fmap in Hlen.
  apply (Combine_deal _ _ t); auto; [by eapply NoDup_fmap_1|intros i Hi%Hks; lia|lia].
Qed.

(** ** Theorems *)
(** C2: any [threshold] (or more) distinct shares of one dealing, in any order,
    combine to exactly the dealt secret. *)
Theorem Split_Combine sb parts t e e' shares sel :
  Split (Some sb) parts t e = (e', Ok shares) →
  NoDup sel → sel ⊆ shares → (t ≤ Z.of_nat (length sel))%Z →
  Combine sel = Ok (mkSB (sb_data sb) false).
Proof. apply Split_Combine_gen. Qed.


Lemma Split_Combine_witness :
  let secret := mkSB [x2a; x07] false in
  let shares := [[x01; x39; x25]; [x02; x0c; x43]; [x03; x1f; x61]] in
  Split (Some secret) 3 2 [x13; x22] = ([], Ok shares) ∧
  Combine [[x03; x1f; x61]; [x01; x39; x25]] = Ok secret.
Proof.
  split; [vm_compute; reflexivity|].
  apply (Split_Combine (mkSB [x2a; x07] false) 3 2 [x13; x22] []
    [[x01; x39; x25]; [x02; x0c; x43]; [x03; x1f; x61]]).
  - vm_compute. reflexivity.
  - apply (bool_decide_unpack _). vm_compute. exact I.
  - intros s Hs. rw !elem_of_cons in Hs. rw !elem_of_cons. tauto.
  - vm_compute. intros H. discriminate H.
Defined.

(** C3: fewer than [threshold] shares of a dealing rule out no secret: for every
    other secret of the same length there is a run of [Split], on other random
    coefficients, whose dealing contains the very same shares. *)
Theorem Split_hides sb parts t e e' shares sel sec' :
  Split (Some sb) parts t e = (e', Ok shares) →
  NoDup sel → sel ⊆ shares → (Z.of_nat (length sel) < t)%Z →
  length sec' = length (sb_data sb) →
  ∃ r shares', Split (Some (mkSB sec' false)) parts t r = ([], Ok shares') ∧ sel ⊆ shares'.
Proof.
  intros (_ & Hne & Ht & Hp & polys & Hd & ->)%Split_ok Hnd Hsub Hlen Hl.
  destruct (deal_select polys (Z.to_nat parts) sel Hsub) as (ks & -> & Hks).
  rw length_fmap in Hlen. apply NoDup_fmap_1 in Hnd.
  destruct (deals_other polys _ sec' t (deal_x <$> ks) Hd Hl) as (polys' & Hd' & He).
  { apply NoDup_fmap_2_strong; [|done]. intros i j Hi Hj.
    apply deal_x_inj; [apply Hks in Hi|apply Hks in Hj]; lia. }
  { intros (i & E & Hi)%list_elem_of_fmap. symmetry in E. apply deal_x_neq_0 in E; [done|].
    apply Hks in Hi. lia. }
  { by rw length_fmap. }
  exists (concat (tail <$> polys') ++ []), (deal_share polys' <$> seq 0 (Z.to_nat parts)). split.
  - apply Split_run; [done| |lia|lia|done]. destruct sec'; [|done]. by destruct (sb_data sb).
  - intros s (i & -> & Hi)%list_elem_of_fmap. apply list_elem_of_fmap. exists i. split.
    + rw /deal_share He //. by apply list_elem_of_fmap_2.
    + apply elem_of_seq. apply Hks in Hi. lia.
Qed.

Lemma Split_hides_witness :
  let shares := [[x01; x39; x25]; [x02; x0c; x43]; [x03; x1f; x61]] in
  Split (Some (mkSB [x2a; x07] false)) 3 2 [x13; x22] = ([], Ok shares) ∧
  ∃ r shares', Split (Some (mkSB [xff; xee] false)) 3 2 r = ([], Ok shares') ∧
    [[x02; x0c; x43]] ⊆ shares'.
Proof.
  split; [vm_compute; reflexivity|].
  apply (Split_hides (mkSB [x2a; x07] false) 3 2 [x13; x22] []
    [[x01; x39; x25]; [x02; x0c; x43]; [x03; x1f; x61]]).
  - vm_compute. reflexivity.
  - apply (bool_decide_unpack _). vm_compute. exact I.
  - intros s Hs. rw !elem_of_cons in Hs. rw !elem_of_cons. tauto.
  - vm_compute. reflexivity.
  - reflexivity.
Defined.

(** [Combine] succeeds exactly on well-formed share lists (two or more, equal
    lengths of at least two bytes, no zero and no repeated x-coordinate) and
    refuses every other list with an error that is [errInvalidShareFormat]; it
    never panics and never divides by zero. *)
Theorem Combine_decides shares :
  ((∃ sb, Combine shares = Ok sb ∧ live sb) ↔ valid_shares shares) ∧
  (¬ valid_shares shares →
   ∃ e, Combine shares = Error e ∧ errors_Is e errInvalidShareFormat = true).
Proof.
  split; [|apply Combine_invalid]. split; [|intros H; rw Combine_valid //; by eexists].
  intros (sb & Hsb & _). by eapply Combine_sound.
Qed.

(** Dealing is total on legal parameters: [2 <= threshold <= parts <= 255], a
    live non-empty secret and [threshold - 1] random bytes per secret byte are
    enough for [Split] to return [parts] shares of length [1 + len(secret)]
    whose first bytes are [1..parts]. *)
Theorem Split_total sb parts t e :
  live sb → sb_data sb ≠ [] → (2 ≤ t ≤ parts)%Z → (parts ≤ 255)%Z →
  (Z.of_nat (length (sb_data sb)) * (t - 1) ≤ Z.of_nat (length e))%Z →
  ∃ e' shares, Split (Some sb) parts t e = (e', Ok shares) ∧
    share_x <$> shares = (λ i, z2b (Z.of_nat (S i))) <$> seq 0 (Z.to_nat parts) ∧
    ∀ s, s ∈ shares → length s = 1 + length (sb_data sb).
Proof.
  intros Hl Hne Ht Hp He.
  destruct (split_loop_total (sb_data sb) t ((λ i, [deal_x i]) <$> seq 0 (Z.to_nat parts)) e)
    as (e' & out & Hs); [lia|done|].
  assert (Split (Some sb) parts t e = (e', Ok out)) as HS.
  { rw /Split /mbind /M_bind /guardM. repeat case_bool_decide; try lia. simpl. rw /Len Hl.
    destruct (Nat.eqb_spec (length (sb_data sb)) 0) as [E%nil_length_inv|]; [done|]. simpl.
    by rw WithKey_live. }
  exists e', out. split; [done|].
  apply Split_ok in HS as (_ & _ & _ & _ & polys & Hd & ->). split.
  - by rw -list_fmap_compose.
  - intros s (i & -> & _)%list_elem_of_fmap. rw /= length_fmap.
    f_equal. by eapply Forall2_length.
Qed.

Lemma Split_total_witness :
  ∃ e' shares, Split (Some (mkSB [x2a; x07] false)) 3 2 [x13; x22] = (e', Ok shares) ∧
    share_x <$> shares = (λ i, z2b (Z.of_nat (S i))) <$> seq 0 (Z.to_nat 3) ∧
    ∀ s, s ∈ shares → length s = 3.
Proof.
  apply (Split_total (mkSB [x2a; x07] false) 3 2 [x13; x22]); [done|done|lia|lia|].
  vm_compute. intros H. discriminate H.
Defined.
