(* ===== verification/Hash.v ===== *)
(** The digests the program takes from Go's standard library: SHA-256, SHA-1 and
    HMAC, as executable functions on byte lists, checked on published test
    vectors. *)

From S2P Require Import Prelude.

Definition w32 (z : Z) : Z := Z.land z 4294967295.
Definition rotr32 (x : Z) (n : Z) : Z := Z.lor (Z.shiftr x n) (w32 (Z.shiftl x (32 - n))).
Definition rotl32 (x : Z) (n : Z) : Z := rotr32 x (32 - n).

(** Message padding shared by SHA-1 and SHA-256: [0x80], zeros, bit length. *)
Definition md_pad (m : bytes) : bytes :=
  let n := length m in
  m ++ x80 :: replicate ((119 - n mod 64) mod 64) x00 ++ be_split 8 (8 * Z.of_nat n).

Fixpoint chunks (fuel k : nat) (l : bytes) : list bytes :=
  match fuel with
  | O => []
  | S fuel => match l with [] => [] | _ => take k l :: chunks fuel k (drop k l) end
  end.
Definition blocks (k : nat) (l : bytes) : list bytes := chunks (length l) k l.
Definition words (block : bytes) : list Z := be_combine <$> blocks 4 block.

(** ** SHA-256 *)
(** Its constants are the leading 32 fractional bits of the cube roots of the
    first 64 primes, and of the square roots of the first 8. *)
Fixpoint primes_from (fuel n : nat) (found : list nat) : list nat :=
  match fuel with
  | O => found
  | S fuel => primes_from fuel (S n)
      (if existsb (λ p, Nat.eqb (n mod p) 0) found then found else found ++ [n])
  end.
(** The largest [r] with [r ^ k ≤ x], bit by bit from bit [n - 1] down. *)
Fixpoint iroot (n : nat) (k x r : Z) : Z :=
  match n with
  | O => r
  | S n => let r' := (r + 2 ^ Z.of_nat n)%Z in
           iroot n k x (if (r' ^ k <=? x)%Z then r' else r)
  end.
Definition frac_root (k : Z) (p : nat) : Z := w32 (iroot 40 k (Z.of_nat p * 2 ^ (32 * k)) 0).
Definition sha256_K : list Z := Eval vm_compute in frac_root 3 <$> primes_from 310 2 [].
Definition sha256_H0 : list Z := Eval vm_compute in frac_root 2 <$> take 8 (primes_from 310 2 []).

(** The message schedule, most recent word first. *)
Fixpoint sha256_expand (n : nat) (w : list Z) : list Z :=
  match n with
  | O => w
  | S n =>
      let w2 := w !!! 1 in let w7 := w !!! 6 in let w15 := w !!! 14 in let w16 := w !!! 15 in
      let s0 := Z.lxor (Z.lxor (rotr32 w15 7) (rotr32 w15 18)) (Z.shiftr w15 3) in
      let s1 := Z.lxor (Z.lxor (rotr32 w2 17) (rotr32 w2 19)) (Z.shiftr w2 10) in
      sha256_expand n (w32 (w16 + s0 + w7 + s1) :: w)
  end.

Definition sha256_round (h : list Z) (kw : Z * Z) : list Z :=
  match h with
  | [a; b; c; d; e; f; g; hh] =>
      let s1 := Z.lxor (Z.lxor (rotr32 e 6) (rotr32 e 11)) (rotr32 e 25) in
      let ch := Z.lxor (Z.land e f) (Z.land (Z.lxor e 0xffffffff) g) in
      let t1 := (hh + s1 + ch + kw.1 + kw.2)%Z in
      let s0 := Z.lxor (Z.lxor (rotr32 a 2) (rotr32 a 13)) (rotr32 a 22) in
      let maj := Z.lxor (Z.lxor (Z.land a b) (Z.land a c)) (Z.land b c) in
      [w32 (t1 + s0 + maj); a; b; c; w32 (d + t1); e; f; g]
  | _ => h
  end%Z.

Definition sha256_block (h : list Z) (block : bytes) : list Z :=
  let w := rev (sha256_expand 48 (rev (words block))) in
  zip_with (λ x y, w32 (x + y)) h (foldl sha256_round h (zip sha256_K w)).

Definition sha256 (m : bytes) : bytes :=
  mjoin (be_split 4 <$> foldl sha256_block sha256_H0 (blocks 64 (md_pad m))).

(** ** SHA-1 *)
Fixpoint sha1_expand (n : nat) (w : list Z) : list Z :=
  match n with
  | O => w
  | S n =>
      let x := Z.lxor (Z.lxor (w !!! 2) (w !!! 7)) (Z.lxor (w !!! 13) (w !!! 15)) in
      sha1_expand n (rotl32 x 1 :: w)
  end.

Definition sha1_f (i : nat) (b c d : Z) : Z * Z :=
  if i <? 20 then (Z.lor (Z.land b c) (Z.land (Z.lxor b 0xffffffff) d), 0x5a827999%Z)
  else if i <? 40 then (Z.lxor (Z.lxor b c) d, 0x6ed9eba1%Z)
  else if i <? 60 then (Z.lor (Z.lor (Z.land b c) (Z.land b d)) (Z.land c d), 0x8f1bbcdc%Z)
  else (Z.lxor (Z.lxor b c) d, 0xca62c1d6%Z).

Definition sha1_round (h : list Z) (iw : nat * Z) : list Z :=
  match h with
  | [a; b; c; d; e] =>
      let '(f, k) := sha1_f iw.1 b c d in
      [w32 (rotl32 a 5 + f + e + k + iw.2); a; rotl32 b 30; c; d]
  | _ => h
  end%Z.

Definition sha1_block (h : list Z) (block : bytes) : list Z :=
  let w := rev (sha1_expand 64 (rev (words block))) in
  zip_with (λ x y, w32 (x + y)) h (foldl sha1_round h (imap pair w)).

Definition sha1 (m : bytes) : bytes :=
  mjoin (be_split 4 <$> foldl sha1_block
    [0x67452301; 0xefcdab89; 0x98badcfe; 0x10325476; 0xc3d2e1f0]%Z (blocks 64 (md_pad m))).

(** ** HMAC over a hash with 64-byte blocks ([crypto/hmac]) *)
Definition hmac (H : bytes → bytes) (key msg : bytes) : bytes :=
  let k := if 64 <? length key then H key else key in
  let k := k ++ replicate (64 - length k) x00 in
  H (map (bxor x5c) k ++ H (map (bxor x36) k ++ msg)).

Definition hmac_sha256 : bytes → bytes → bytes := hmac sha256.
Definition hmac_sha1 : bytes → bytes → bytes := hmac sha1.

#[global] Arguments hmac : simpl never.
#[global] Arguments hmac_sha256 : simpl never.
#[global] Arguments hmac_sha1 : simpl never.

(** Bytes of a string literal. *)
Definition str_bytes (s : string) : bytes := String.list_byte_of_string s.

(** ** Published vectors *)
Example sha256_abc : be_combine (sha256 (str_bytes "abc")) =
  0xba7816bf8f01cfea414140de5dae2223b00361a396177a9cb410ff61f20015ad%Z.
Proof. vm_compute. reflexivity. Qed.
Example sha1_abc : be_combine (sha1 (str_bytes "abc")) =
  0xa9993e364706816aba3e25717850c26c9cd0d89d%Z.
Proof. vm_compute. reflexivity. Qed.
Example hmac_sha256_fox :
  be_combine (hmac_sha256 (str_bytes "key") (str_bytes "The quick brown fox jumps over the lazy dog")) =
  0xf7bc83f430538424b13298e6aa6fb143ef4d59a14946175997479dbc2d1a3cd8%Z.
Proof. vm_compute. reflexivity. Qed.

(** ** Digest lengths *)
Lemma foldl_length {A B} (f : list A → B → list A) n (l : list B) h :
  (∀ h x, length h = n → length (f h x) = n) → length h = n → length (foldl f h l) = n.
Proof. intros Hf. revert h. induction l as [|x l IH]; intros h Hh; simpl; auto. Qed.

Lemma length_mjoin_be n (l : list Z) : length (mjoin (be_split n <$> l)) = length l * n.
Proof. induction l as [|z l IH]; [done|]. by rw fmap_cons /= length_app length_be_split IH. Qed.

Lemma length_sha256 m : length (sha256 m) = 32.
Proof.
  rw /sha256 length_mjoin_be (foldl_length _ 8) //.
  intros h b Hh. rw /sha256_block length_zip_with (foldl_length _ 8) //; [|lia].
  intros h' kw Hh'. rw /sha256_round. by do 9 (destruct h' as [|? h']; try done).
Qed.

Lemma length_sha1 m : length (sha1 m) = 20.
Proof.
  rw /sha1 length_mjoin_be (foldl_length _ 5) //.
  intros h b Hh. rw /sha1_block length_zip_with (foldl_length _ 5) //; [|lia].
  intros h' kw Hh'. rw /sha1_round. do 6 (destruct h' as [|? h']; try done).
  by destruct (sha1_f _ _ _ _).
Qed.

Lemma length_hmac_sha256 k m : length (hmac_sha256 k m) = 32.
Proof. apply length_sha256. Qed.
Lemma length_hmac_sha1 k m : length (hmac_sha1 k m) = 20.
Proof. apply length_sha1. Qed.
