(* ===== verification/Utf8.v ===== *)
(** UTF-8 as the Go library reads it ([unicode/utf8]): a byte string as its runes, where a byte
    that does not begin an encoded code point counts as an error of its own, and the text with
    every such byte replaced by U+FFFD, which is what [encoding/json] makes of a string. *)

From S2P Require Import Prelude Hash.

(** ** Runes *)
Definition between (lo : Z) (b : byte) (hi : Z) : bool := (lo <=? b2z b)%Z && (b2z b <=? hi)%Z.
Definition cont (b : byte) : bool := between 0x80 b 0xbf.
(** The encodings of one to four bytes: no overlong ones, no surrogates, nothing above U+10FFFF. *)
Definition utf8_1 (a : byte) : bool := (b2z a <? 0x80)%Z.
Definition utf8_2 (a b : byte) : bool := between 0xc2 a 0xdf && cont b.
Definition utf8_3 (a b c : byte) : bool :=
  (between 0xe0 a 0xe0 && between 0xa0 b 0xbf || between 0xe1 a 0xec && cont b || between 0xed a 0xed && between 0x80 b 0x9f ||
   between 0xee a 0xef && cont b) && cont c.
Definition utf8_4 (a b c d : byte) : bool :=
  (between 0xf0 a 0xf0 && between 0x90 b 0xbf || between 0xf1 a 0xf3 && cont b || between 0xf4 a 0xf4 && between 0x80 b 0x8f) &&
  cont c && cont d.

Inductive rune : Type := Rune (b : bytes) | Bad.
(** [utf8.DecodeRune] along a string. *)
Fixpoint runes (l : bytes) : list rune :=
  match l with
  | [] => []
  | a :: l1 =>
      if utf8_1 a then Rune [a] :: runes l1
      else match l1 with
           | [] => Bad :: runes l1
           | b :: l2 =>
               if utf8_2 a b then Rune [a; b] :: runes l2
               else match l2 with
                    | [] => Bad :: runes l1
                    | c :: l3 =>
                        if utf8_3 a b c then Rune [a; b; c] :: runes l3
                        else match l3 with
                             | [] => Bad :: runes l1
                             | d :: l4 => if utf8_4 a b c d then Rune [a; b; c; d] :: runes l4 else Bad :: runes l1
                             end
                    end
           end
  end.
Definition replacement : bytes := [xef; xbf; xbd].
Definition rune_bytes (r : rune) : bytes := match r with Rune b => b | Bad => replacement end.
Definition to_valid (l : bytes) : bytes := runes l ≫= rune_bytes.
(** The same on strings. *)
Definition clean (s : string) : string := String.string_of_list_byte (to_valid (str_bytes s)).

(** ** Valid text *)
Definition good (b : bytes) : bool :=
  match b with
  | [a] => utf8_1 a | [a; b] => utf8_2 a b | [a; b; c] => utf8_3 a b c | [a; b; c; d] => utf8_4 a b c d
  | _ => false
  end.
Definition wf_rune (r : rune) : Prop := match r with Rune b => good b = true | Bad => True end.
Definition Utf8 (l : bytes) : Prop := ∃ rs, Forall wf_rune rs ∧ l = rs ≫= rune_bytes.

Ltac byte_cases H :=
  rewrite /utf8_2 /utf8_3 /utf8_4 /cont /between ?andb_true_iff ?orb_true_iff ?andb_true_iff ?Z.leb_le ?Z.leb_le in H.
Lemma lead2 a b : utf8_2 a b = true → (0xc2 ≤ b2z a ≤ 0xdf)%Z.
Proof. intros H. byte_cases H. lia. Qed.
Lemma lead3 a b c : utf8_3 a b c = true → (0xe0 ≤ b2z a ≤ 0xef)%Z.
Proof. intros H. byte_cases H. lia. Qed.
Lemma lead4 a b c d : utf8_4 a b c d = true → (0xf0 ≤ b2z a ≤ 0xf4)%Z.
Proof. intros H. byte_cases H. lia. Qed.
Lemma not_lead1 a : (0x80 ≤ b2z a)%Z → utf8_1 a = false.
Proof. intros H. rw /utf8_1. by apply Z.ltb_ge. Qed.
Lemma not_lead2 a b : (0xe0 ≤ b2z a)%Z → utf8_2 a b = false.
Proof. intros H. apply not_true_is_false. intros ?%lead2. lia. Qed.
Lemma not_lead3 a b c : (0xf0 ≤ b2z a)%Z → utf8_3 a b c = false.
Proof. intros H. apply not_true_is_false. intros ?%lead3. lia. Qed.

(** A whole rune is read as one, whatever follows. *)
Lemma runes_good b l : good b = true → runes (b ++ l) = Rune b :: runes l.
Proof.
  destruct b as [|a [|b [|c [|d [|]]]]]; try done; cbn [good app runes].
  - by intros ->.
  - intros H. pose proof (lead2 _ _ H). rw not_lead1; [lia|]. by rw H.
  - intros H. pose proof (lead3 _ _ _ H). rw not_lead1; [lia|]. rw not_lead2; [lia|]. by rw H.
  - intros H. pose proof (lead4 _ _ _ _ H). rw not_lead1; [lia|]. rw not_lead2; [lia|]. rw not_lead3; [lia|]. by rw H.
Qed.
Lemma runes_wf_len n : ∀ l, length l ≤ n → Forall wf_rune (runes l).
Proof.
  induction n as [|n IH]; intros [|a l1] Hl; cbn [length] in Hl; try constructor; [lia|]. cbn [runes].
  destruct (utf8_1 a) eqn:E1; [constructor; [done|apply IH; lia]|].
  assert (Forall wf_rune (Bad :: runes l1)) as Hbad by (constructor; [done|apply IH; lia]).
  destruct l1 as [|b l2]; [done|]. destruct (utf8_2 a b) eqn:E2; [constructor; [done|apply IH; cbn [length] in Hl; lia]|].
  destruct l2 as [|c l3]; [done|]. destruct (utf8_3 a b c) eqn:E3; [constructor; [done|apply IH; cbn [length] in Hl; lia]|].
  destruct l3 as [|d l4]; [done|]. destruct (utf8_4 a b c d) eqn:E4; [|done]. constructor; [done|apply IH; cbn [length] in Hl; lia].
Qed.
Lemma runes_wf l : Forall wf_rune (runes l).
Proof. by eapply runes_wf_len. Qed.
Lemma good_replaced r : wf_rune r → good (rune_bytes r) = true.
Proof. by destruct r. Qed.
Lemma runes_concat rs : Forall wf_rune rs → runes (rs ≫= rune_bytes) = (λ r, Rune (rune_bytes r)) <$> rs.
Proof.
  induction 1 as [|r rs Hr _ IH]; [done|]. cbn [mbind list_bind fmap list_fmap]. by rw runes_good; [apply good_replaced|rw IH].
Qed.
Lemma to_valid_concat rs : Forall wf_rune rs → to_valid (rs ≫= rune_bytes) = rs ≫= rune_bytes.
Proof.
  intros H. rw /to_valid runes_concat //. clear H. induction rs as [|r rs IH]; [done|]. cbn [mbind list_bind fmap list_fmap rune_bytes]. by rw IH.
Qed.
(** Valid text is left as it is, and what comes out is valid. *)
Lemma valid_id l : Utf8 l → to_valid l = l.
Proof. intros (rs & H & ->). by apply to_valid_concat. Qed.
Lemma to_valid_valid l : Utf8 (to_valid l).
Proof. exists (runes l). split; [apply runes_wf|done]. Qed.
Lemma to_valid_idem l : to_valid (to_valid l) = to_valid l.
Proof. apply valid_id, to_valid_valid. Qed.
Lemma valid_app a b : Utf8 a → Utf8 b → Utf8 (a ++ b).
Proof.
  intros (rs & H & ->) (rs' & H' & ->). exists (rs ++ rs'). split; [by apply Forall_app_2|]. by rw bind_app.
Qed.
Lemma valid_nil : Utf8 [].
Proof. by exists []. Qed.
Lemma valid_rune r : wf_rune r → Utf8 (rune_bytes r).
Proof. intros H. exists [r]. split; [by constructor|]. cbn. by rw app_nil_r. Qed.
Lemma valid_ascii l : Forall (λ b, utf8_1 b = true) l → Utf8 l.
Proof.
  intros H. exists ((λ b, Rune [b]) <$> l). split.
  - apply list.Forall_fmap. eapply list.Forall_impl; [exact H|done].
  - clear H. induction l as [|b l IH]; [done|]. cbn [fmap list_fmap mbind list_bind rune_bytes app]. by rw -IH.
Qed.
Lemma valid_bind {A} (f : A → bytes) l : (∀ x, x ∈ l → Utf8 (f x)) → Utf8 (l ≫= f).
Proof.
  induction l as [|x l IH]; intros H; [apply valid_nil|]. cbn [mbind list_bind]. apply valid_app; [apply H, list_elem_of_here|].
  apply IH. intros y Hy. by apply H, list_elem_of_further.
Qed.
Lemma clean_idem s : clean (clean s) = clean s.
Proof. rw /clean /str_bytes. by rw String.list_byte_of_string_of_list_byte to_valid_idem. Qed.
Lemma clean_valid s : Utf8 (str_bytes s) → clean s = s.
Proof. intros H. rw /clean valid_id //. apply String.string_of_list_byte_of_string. Qed.
Lemma str_bytes_clean s : str_bytes (clean s) = to_valid (str_bytes s).
Proof. apply String.list_byte_of_string_of_list_byte. Qed.
Lemma clean_empty s : clean s = "" ↔ s = "".
Proof.
  split; [|by intros ->]. intros E%(f_equal str_bytes). rw str_bytes_clean in E. destruct s as [|ch s]; [done|].
  exfalso. rw /to_valid in E. destruct (str_bytes (String.String ch s)) as [|a l] eqn:El; [done|].
  pose proof (runes_wf (a :: l)) as Hw. destruct (runes (a :: l)) as [|r rs] eqn:Er.
  - cbn [runes] in Er. by repeat case_match.
  - inversion Hw as [|? ? Hr _]; subst. cbn [mbind list_bind] in E. apply app_eq_nil in E as [E _]. apply good_replaced in Hr. by rw E in Hr.
Qed.
