(* ===== verification/Base64.v ===== *)
(** [base64.StdEncoding] of Go's standard library, as the agents' interface and the basic
    authentication of the console use it: the encoder, the decoder with its padding and
    line breaks, and the round trip. *)

From S2P Require Import Prelude Hash.

Definition b64_alphabet : bytes := str_bytes "ABCDEFGHIJKLMNOPQRSTUVWXYZabcdefghijklmnopqrstuvwxyz0123456789+/".
Definition b64_char (d : Z) : byte := b64_alphabet !!! Z.to_nat d.
Definition b64_value (c : byte) : option Z :=
  let z := b2z c in
  if bool_decide (65 ≤ z ≤ 90)%Z then Some (z - 65)%Z
  else if bool_decide (97 ≤ z ≤ 122)%Z then Some (z - 71)%Z
  else if bool_decide (48 ≤ z ≤ 57)%Z then Some (z + 4)%Z
  else if bool_decide (z = 43)%Z then Some 62%Z
  else if bool_decide (z = 47)%Z then Some 63%Z else None.
Definition b64_pad : byte := "=".
(** The four digits of a quantum of three bytes. *)
Definition b64_digit (n : Z) (i : Z) : Z := (n `div` 64 ^ (3 - i)) `mod` 64.
Definition b64_quantum (q : bytes) (i : Z) : byte := b64_char (b64_digit (be_combine q) i).
Fixpoint b64_encode (src : bytes) : bytes :=
  match src with
  | [] => []
  | [a] => [b64_quantum [a; x00; x00] 0; b64_quantum [a; x00; x00] 1; b64_pad; b64_pad]
  | [a; b] => [b64_quantum [a; b; x00] 0; b64_quantum [a; b; x00] 1; b64_quantum [a; b; x00] 2; b64_pad]
  | a :: b :: c :: src =>
      [b64_quantum [a; b; c] 0; b64_quantum [a; b; c] 1; b64_quantum [a; b; c] 2; b64_quantum [a; b; c] 3] ++ b64_encode src
  end.
Definition b64_bytes (d0 d1 d2 d3 : Z) : bytes := be_split 3 (d0 * 64 ^ 3 + d1 * 64 ^ 2 + d2 * 64 + d3).
(** Padding ends the text; leftover bits of the last digit are not looked at. *)
Fixpoint b64_decode (src : bytes) : option bytes :=
  match src with
  | [] => Some []
  | c0 :: c1 :: c2 :: c3 :: src =>
      d0 ← b64_value c0; d1 ← b64_value c1;
      if bool_decide (c2 = b64_pad) then
        if bool_decide (c3 = b64_pad) && bool_decide (src = []) then Some (take 1 (b64_bytes d0 d1 0 0)) else None
      else
        d2 ← b64_value c2;
        if bool_decide (c3 = b64_pad) then if bool_decide (src = []) then Some (take 2 (b64_bytes d0 d1 d2 0)) else None
        else d3 ← b64_value c3; rest ← b64_decode src; Some (b64_bytes d0 d1 d2 d3 ++ rest)
  | _ => None
  end.
(** Carriage returns and line feeds are skipped. *)
Definition b64_DecodeString (s : bytes) : option bytes := b64_decode (filter (λ c, c ≠ x0d ∧ c ≠ x0a) s).

Lemma b64_value_char d : (0 ≤ d < 64)%Z → b64_value (b64_char d) = Some d ∧ b64_char d ≠ b64_pad ∧ b64_char d ≠ x0d ∧ b64_char d ≠ x0a.
Proof.
  intros Hd. assert (Forall (λ d, b64_value (b64_char d) = Some d ∧ b64_char d ≠ b64_pad ∧ b64_char d ≠ x0d ∧ b64_char d ≠ x0a) (seqZ 0 64)) as H.
  { apply (bool_decide_unpack _). vm_compute. exact I. }
  rewrite list.Forall_forall in H. apply H, elem_of_seqZ. lia.
Qed.
Lemma b64_digit_range n i : (0 ≤ b64_digit n i < 64)%Z.
Proof. apply Z.mod_pos_bound. lia. Qed.
Lemma b64_digits n : (0 ≤ n < 64 ^ 4)%Z →
  (b64_digit n 0 * 64 ^ 3 + b64_digit n 1 * 64 ^ 2 + b64_digit n 2 * 64 + b64_digit n 3 = n)%Z.
Proof. intros Hn. rw /b64_digit. change (3 - 0)%Z with 3%Z. change (3 - 1)%Z with 2%Z. change (3 - 2)%Z with 1%Z. change (3 - 3)%Z with 0%Z. Z.to_euclidean_division_equations. lia. Qed.
Lemma combine3 a b c : be_combine [a; b; c] = (b2z a * 65536 + b2z b * 256 + b2z c)%Z.
Proof. rw !be_combine_cons /=. change (be_combine []) with 0%Z. lia. Qed.
Lemma b64_bytes_quantum a b c : let n := be_combine [a; b; c] in
  b64_bytes (b64_digit n 0) (b64_digit n 1) (b64_digit n 2) (b64_digit n 3) = [a; b; c].
Proof.
  intros n. rw /b64_bytes b64_digits; [pose proof (be_combine_range [a; b; c]); simpl in *; rw /n; lia|]. apply (be_split_combine [a; b; c]).
Qed.
Lemma b64_digit_low a b c : (b2z c = 0 → b64_digit (be_combine [a; b; c]) 3 = 0)%Z ∧ (b2z b = 0 → b2z c = 0 → b64_digit (be_combine [a; b; c]) 2 = 0)%Z.
Proof.
  rw combine3 /b64_digit. change (3 - 2)%Z with 1%Z. change (3 - 3)%Z with 0%Z.
  pose proof (b2z_range a). pose proof (b2z_range b). split; intros; Z.to_euclidean_division_equations; lia.
Qed.
(** A printed quantum is read back. *)
Ltac read_digits := repeat match goal with |- context [b64_value (b64_char (b64_digit ?n ?i))] =>
  let H := fresh in destruct (b64_value_char (b64_digit n i) (b64_digit_range n i)) as (H & ? & _); rw H; clear H; cbn [mbind option_bind] end.
Lemma b64_decode_encode src : b64_decode (b64_encode src) = Some src.
Proof.
  remember (length src) as n eqn:Hn. revert src Hn. induction (lt_wf n) as [n _ IH]. intros src ->.
  destruct src as [|a [|b [|c src]]]; [done|..]; cbn [b64_encode b64_decode app]; rw /b64_quantum; read_digits.
  - pose proof (b64_bytes_quantum a x00 x00) as Q. destruct (b64_digit_low a x00 x00) as [L3 L2]. cbn zeta in Q.
    rw L3 // L2 // in Q. by rw !bool_decide_eq_true_2 // Q.
  - pose proof (b64_bytes_quantum a b x00) as Q. destruct (b64_digit_low a b x00) as [L3 _]. cbn zeta in Q. rw L3 // in Q.
    rw bool_decide_eq_false_2 //. read_digits. by rw !bool_decide_eq_true_2 // Q.
  - rw bool_decide_eq_false_2 //. read_digits. rw bool_decide_eq_false_2 // (IH (length src)); [simpl; lia|done|].
    cbn [mbind option_bind]. by rw b64_bytes_quantum.
Qed.
Lemma b64_roundtrip src : b64_DecodeString (b64_encode src) = Some src.
Proof.
  rw /b64_DecodeString. assert (Forall (λ c, c ≠ x0d ∧ c ≠ x0a) (b64_encode src)) as Hf.
  { remember (length src) as n eqn:Hn. revert src Hn. induction (lt_wf n) as [n _ IH]. intros src ->.
    assert (∀ q i, b64_quantum q i ≠ x0d ∧ b64_quantum q i ≠ x0a) as Hq.
    { intros q i. destruct (b64_value_char _ (b64_digit_range (be_combine q) i)) as (_ & _ & ?). done. }
    destruct src as [|a [|b [|c src]]]; cbn [b64_encode app]; repeat (constructor; [by apply Hq || (split; discriminate)|]); try constructor.
    apply (IH (length src)); [simpl; lia|done]. }
  rw (_ : filter _ (b64_encode src) = b64_encode src); [|apply b64_decode_encode].
  induction Hf as [|c l Hc _ IH]; [done|]. by rw filter_cons_True // IH.
Qed.

(** The test vectors of RFC 4648; unused bits of the last digit are ignored. *)
Example b64_vectors :
  (λ s, b64_encode (str_bytes s)) <$> [""; "f"; "fo"; "foo"; "foob"; "fooba"; "foobar"] =
  str_bytes <$> [""; "Zg=="; "Zm8="; "Zm9v"; "Zm9vYg=="; "Zm9vYmE="; "Zm9vYmFy"] ∧
  b64_DecodeString (str_bytes "Zh==") = Some (str_bytes "f") ∧ b64_DecodeString (str_bytes "Zg=") = None.
Proof. vm_compute. split_and!; reflexivity. Qed.
