(* ===== verification/Json.v ===== *)
(** The JSON text of flat objects, as [encoding/json] writes and reads it: members
    that are strings, non-negative integers or null. Strings are byte strings; a byte
    that is no part of a valid UTF-8 encoding becomes U+FFFD, on both sides. Used for the
    lines of the audit log. *)

From S2P Require Import Prelude Hash Utf8.

Inductive jval : Type := JString (s : bytes) | JNat (n : N) | JNil.
Abbreviation jobj := (list (bytes * jval)).

(** ** Encoding *)
Definition hexc (z : Z) : byte := str_bytes "0123456789abcdef" !!! Z.to_nat z.
Definition esc_u (b : byte) : bytes := str_bytes "\u00" ++ [hexc (Z.shiftr (b2z b) 4); hexc (Z.land (b2z b) 15)].
Definition esc (b : byte) : bytes :=
  match b with
  | x22 | x5c => [x5c; b]
  | x08 => str_bytes "\b" | x0c => str_bytes "\f" | x0a => str_bytes "\n"
  | x0d => str_bytes "\r" | x09 => str_bytes "\t"
  | x3c | x3e | x26 => esc_u b
  | _ => if bool_decide (b2z b < 32)%Z then esc_u b else [b]
  end.
(** The two line separators of Unicode are escaped too. *)
Definition esc_rune (r : rune) : bytes :=
  match r with
  | Bad => str_bytes "\ufffd"
  | Rune [b] => esc b
  | Rune b => if bool_decide (b = [xe2; x80; xa8]) then str_bytes "\u2028"
              else if bool_decide (b = [xe2; x80; xa9]) then str_bytes "\u2029" else b
  end.
Definition render_string (s : bytes) : bytes := x22 :: (runes s ≫= esc_rune) ++ [x22].

(** Decimal digits of a number. *)
Fixpoint dec_go (fuel : nat) (n : N) (acc : bytes) : bytes :=
  match fuel with
  | O => acc
  | S fuel =>
      let acc := z2b (48 + Z.of_N (n `mod` 10)) :: acc in
      if bool_decide (n < 10)%N then acc else dec_go fuel (n / 10) acc
  end%N.
Definition render_nat (n : N) : bytes := dec_go (S (N.to_nat (N.log2 n))) n [].
Definition render_val (v : jval) : bytes :=
  match v with JString s => render_string s | JNat n => render_nat n | JNil => str_bytes "null" end.
Fixpoint render_members (o : jobj) : bytes :=
  match o with
  | [] => []
  | [(k, v)] => render_string k ++ x3a :: render_val v
  | (k, v) :: o => render_string k ++ x3a :: render_val v ++ x2c :: render_members o
  end.
Definition render_obj (o : jobj) : bytes := x7b :: render_members o ++ [x7d].

(** ** Decoding *)
Definition is_ws (b : byte) : bool := match b with x20 | x09 | x0a | x0d => true | _ => false end.
Fixpoint skip_ws (l : bytes) : bytes :=
  match l with b :: l' => if is_ws b then skip_ws l' else l | [] => [] end.

Definition hex_val (b : byte) : option Z :=
  let z := b2z b in
  if bool_decide (48 ≤ z ≤ 57)%Z then Some (z - 48)%Z
  else if bool_decide (97 ≤ z ≤ 102)%Z then Some (z - 87)%Z
  else if bool_decide (65 ≤ z ≤ 70)%Z then Some (z - 55)%Z else None.
Definition hex4 (a b c d : byte) : option Z :=
  a ← hex_val a; b ← hex_val b; c ← hex_val c; d ← hex_val d;
  Some (((a * 16 + b) * 16 + c) * 16 + d)%Z.
(** UTF-8 of a code point; a surrogate on its own is replaced. *)
Definition utf8 (z : Z) : bytes :=
  if bool_decide (z < 0x80)%Z then [z2b z]
  else if bool_decide (z < 0x800)%Z then [z2b (0xc0 + Z.shiftr z 6); z2b (0x80 + Z.land z 63)]
  else if bool_decide (0xd800 ≤ z < 0xe000)%Z then [xef; xbf; xbd]
  else if bool_decide (z < 0x10000)%Z then [z2b (0xe0 + Z.shiftr z 12); z2b (0x80 + Z.land (Z.shiftr z 6) 63); z2b (0x80 + Z.land z 63)]
  else [z2b (0xf0 + Z.shiftr z 18); z2b (0x80 + Z.land (Z.shiftr z 12) 63); z2b (0x80 + Z.land (Z.shiftr z 6) 63); z2b (0x80 + Z.land z 63)].
(** The code point of a pair of surrogates. *)
Definition surrogates (hi : Z) (lo : option Z) : option Z :=
  lo ← lo;
  if bool_decide (0xd800 ≤ hi < 0xdc00)%Z && bool_decide (0xdc00 ≤ lo < 0xe000)%Z
  then Some (0x10000 + (hi - 0xd800) * 0x400 + (lo - 0xdc00))%Z else None.

Definition simple_escape (e : byte) : option byte :=
  match e with
  | x22 | x5c | x2f => Some e
  | x62 => Some x08 | x66 => Some x0c | x6e => Some x0a | x72 => Some x0d | x74 => Some x09
  | _ => None
  end.
(** The body of a string up to its closing quote with its escapes resolved, and the rest. *)
Fixpoint parse_raw (l : bytes) : option (bytes * bytes) :=
  match l with
  | [] => None
  | b :: l1 =>
      if Byte.eqb b x22 then Some ([], l1)
      else if Byte.eqb b x5c then
        match l1 with
        | [] => None
        | e :: l2 =>
            if Byte.eqb e x75 then
              match l2 with
              | a :: b :: c :: d :: l3 =>
                  z ← hex4 a b c d;
                  match l3 with
                  | s1 :: s2 :: a' :: b' :: c' :: d' :: l4 =>
                      match surrogates z (if Byte.eqb s1 x5c && Byte.eqb s2 x75 then hex4 a' b' c' d' else None) with
                      | Some z => '(s, l) ← parse_raw l4; Some (utf8 z ++ s, l)
                      | None => '(s, l) ← parse_raw l3; Some (utf8 z ++ s, l)
                      end
                  | _ => '(s, l) ← parse_raw l3; Some (utf8 z ++ s, l)
                  end
              | _ => None
              end
            else c ← simple_escape e; '(s, l) ← parse_raw l2; Some (c :: s, l)
        end
      else if bool_decide (b2z b < 32)%Z then None
      else '(s, l) ← parse_raw l1; Some (b :: s, l)
  end.
(** Bytes that are not valid are replaced as they are read. An escape stands for a whole rune,
    which no bytes before it can be completed by, so replacing at the end is the same. *)
Definition parse_str (l : bytes) : option (bytes * bytes) := '(s, l) ← parse_raw l; Some (to_valid s, l).

Definition is_digit (b : byte) : bool := bool_decide (48 ≤ b2z b ≤ 57)%Z.
Fixpoint parse_digits (acc : N) (l : bytes) : N * bytes :=
  match l with
  | b :: l' => if is_digit b then parse_digits (acc * 10 + Z.to_N (b2z b - 48)) l' else (acc, l)
  | [] => (acc, [])
  end%N.
Definition parse_val (l : bytes) : option (jval * bytes) :=
  match l with
  | b :: l' =>
      if Byte.eqb b x22 then '(s, l) ← parse_str l'; Some (JString s, l)
      else if is_digit b then let '(n, l) := parse_digits 0 l in Some (JNat n, l)
      else if bool_decide (take 4 l = str_bytes "null") then Some (JNil, drop 4 l)
      else None
  | [] => None
  end.
(** One given punctuation byte, after white space. *)
Definition eat (c : byte) (l : bytes) : option bytes :=
  match skip_ws l with b :: l => if Byte.eqb b c then Some l else None | [] => None end.
(** The members after an opening brace or a comma. *)
Fixpoint parse_members (fuel : nat) (l : bytes) : option (jobj * bytes) :=
  match fuel with
  | O => None
  | S fuel =>
      l ← eat x22 l; '(k, l) ← parse_str l;
      l ← eat x3a l; '(v, l) ← parse_val (skip_ws l);
      match eat x2c l with
      | Some l => '(o, l) ← parse_members fuel l; Some ((k, v) :: o, l)
      | None => l ← eat x7d l; Some ([(k, v)], l)
      end
  end.
Definition parse_obj (l : bytes) : option jobj :=
  l ← eat x7b l;
  '(o, l) ← match eat x7d l with Some l => Some ([], l) | None => parse_members (length l) l end;
  match skip_ws l with [] => Some o | _ => None end.
(** A member of a decoded object; the last of several wins. *)
Definition member (k : string) (o : jobj) : jval :=
  foldl (λ v kv, if bool_decide (kv.1 = str_bytes k) then kv.2 else v) JNil o.

(** ** What is written is read back *)
Definition no_control (b : byte) : Prop := (32 ≤ b2z b)%Z.

(** An escape that is not a surrogate. *)
Lemma parse_u a b c d z rest : hex4 a b c d = Some z → (z < 0xd800 ∨ 0xe000 ≤ z)%Z →
  parse_raw (x5c :: x75 :: a :: b :: c :: d :: rest) = ('(s, l) ← parse_raw rest; Some (utf8 z ++ s, l)).
Proof.
  intros Hz Hs. assert (∀ o, surrogates z o = None) as Hn.
  { intros [lo|]; [|done]. rw /surrogates /= bool_decide_eq_false_2 //. lia. }
  cbn [parse_raw]. change (Byte.eqb x5c x22) with false. change (Byte.eqb x5c x5c) with true. change (Byte.eqb x75 x75) with true.
  cbv iota. rw Hz. cbn [mbind option_bind]. destruct rest as [|? [|? [|? [|? [|? [|? ?]]]]]]; try done. by rw Hn.
Qed.
Ltac u_escape :=
  match goal with |- parse_raw (?e ++ _) = _ => let e' := eval vm_compute in e in change e with e' end; cbn [app];
  erewrite parse_u; [|reflexivity|first [left; vm_compute; reflexivity | right; vm_compute; discriminate]]; reflexivity.
Lemma parse_esc b rest : parse_raw (esc b ++ rest) = ('(s, l) ← parse_raw rest; Some (b :: s, l)).
Proof. destruct b; first [reflexivity | u_escape]. Qed.
Lemma parse_high b rest : (0x80 ≤ b2z b)%Z → parse_raw (b :: rest) = ('(s, l) ← parse_raw rest; Some (b :: s, l)).
Proof.
  intros Hb. cbn [parse_raw]. assert (Byte.eqb b x22 = false ∧ Byte.eqb b x5c = false) as [-> ->].
  { split; apply not_true_is_false; intros E%Byte.byte_dec_bl; subst; by vm_compute in Hb. }
  by rw bool_decide_eq_false_2; [lia|].
Qed.
Lemma parse_highs b rest : Forall (λ x, 0x80 ≤ b2z x)%Z b → parse_raw (b ++ rest) = ('(s, l) ← parse_raw rest; Some (b ++ s, l)).
Proof.
  induction 1 as [|x b Hx _ IH]; cbn [app]; [by destruct (parse_raw rest) as [[]|]|]. rw parse_high // IH.
  by destruct (parse_raw rest) as [[s l]|].
Qed.
(** Every byte of a rune of more than one byte has its high bit. *)
Lemma good_high b : good b = true → match b with [] => False | [_] => True | _ => Forall (λ x, 0x80 ≤ b2z x)%Z b end.
Proof.
  destruct b as [|a [|b [|c [|d [|]]]]]; try done; cbn [good]; intros H; byte_cases H; repeat constructor; lia.
Qed.
Lemma parse_rune r rest : wf_rune r → parse_raw (esc_rune r ++ rest) = ('(s, l) ← parse_raw rest; Some (rune_bytes r ++ s, l)).
Proof.
  intros Hr. destruct r as [b|]; [|u_escape]. cbn [rune_bytes wf_rune] in *. apply good_high in Hr.
  destruct b as [|a [|b l]]; [done|apply parse_esc|]. cbn [esc_rune].
  case_bool_decide as E; [rw E; u_escape|]. case_bool_decide as E'; [rw E'; u_escape|]. by apply parse_highs.
Qed.
Lemma parse_str_render s rest : parse_str ((runes s ≫= esc_rune) ++ x22 :: rest) = Some (to_valid s, rest).
Proof.
  assert (parse_raw ((runes s ≫= esc_rune) ++ x22 :: rest) = Some (to_valid s, rest)) as E.
  { rw /to_valid. induction (runes_wf s) as [|r rs Hr _ IH]; [done|]. cbn [mbind list_bind]. by rw -app_assoc parse_rune // IH. }
  by rw /parse_str E /= to_valid_idem.
Qed.

(** Rendered text has no line break, so a line of the log is one object. *)
Lemma esc_no_control b : Forall no_control (esc b).
Proof. rw /no_control. destruct b; vm_compute; repeat constructor; discriminate. Qed.
Lemma rune_no_control r : wf_rune r → Forall no_control (esc_rune r).
Proof.
  intros Hr. destruct r as [b|]; [|rw /no_control; vm_compute; repeat constructor; discriminate]. cbn [wf_rune] in Hr. apply good_high in Hr.
  destruct b as [|a [|b l]]; [done|apply esc_no_control|]. cbn [esc_rune].
  repeat case_bool_decide; try (rw /no_control; vm_compute; repeat constructor; discriminate).
  eapply list.Forall_impl; [exact Hr|]. rw /no_control. intros x Hx. lia.
Qed.

Lemma digit_spec n : (n < 10)%N →
  is_digit (z2b (48 + Z.of_N n)) = true ∧ Z.to_N (b2z (z2b (48 + Z.of_N n)) - 48) = n.
Proof.
  intros Hn. rw /is_digit b2z_z2b Z.mod_small; [lia|]. split; [apply bool_decide_eq_true_2; lia|lia].
Qed.
Lemma dec_go_spec fuel n acc : (n < 2 ^ N.of_nat (S fuel))%N → ∃ ds, dec_go (S fuel) n acc = ds ++ acc ∧ ds ≠ [] ∧
  Forall (λ b, is_digit b = true) ds ∧
  ∀ a l, parse_digits a (ds ++ l) = parse_digits (a * 10 ^ N.of_nat (length ds) + n)%N l.
Proof.
  revert n acc. induction fuel as [|fuel IH]; intros n acc Hn; cbn [dec_go]; case_bool_decide as Hs.
  2: { change (2 ^ N.of_nat 1)%N with 2%N in Hn. lia. }
  3: {
    destruct (IH (n / 10)%N (z2b (48 + Z.of_N (n `mod` 10)) :: acc)) as (ds & E & Hne & Hall & Hp).
    { rw Nat2N.inj_succ N.pow_succ_r' in Hn. apply N.Div0.div_lt_upper_bound. lia. }
    destruct (digit_spec (n `mod` 10)%N) as [Hd Hv]; [apply N.mod_lt; lia|].
    exists (ds ++ [z2b (48 + Z.of_N (n `mod` 10))]). cbn [dec_go] in E. rw E -app_assoc. split_and!; [done|by destruct ds| |].
    + apply Forall_app_2; [done|by repeat constructor].
    + intros a l. rw -app_assoc Hp. cbn [app parse_digits]. rw Hd Hv length_app Nat.add_1_r Nat2N.inj_succ N.pow_succ_r'.
      f_equal. pose proof (N.div_mod n 10 ltac:(lia)). lia. }
  all: rw N.mod_small //; destruct (digit_spec n Hs) as [Hd Hv]; exists [z2b (48 + Z.of_N n)];
    split_and!; [done|done|by repeat constructor|]; intros a l; cbn [app parse_digits]; rw Hd Hv;
    f_equal; change (N.of_nat (length [z2b (48 + Z.of_N n)])) with 1%N; lia.
Qed.

Definition ends_number (l : bytes) : Prop := match l with b :: _ => is_digit b = false | [] => True end.
Lemma parse_nat_render n rest : ends_number rest → parse_digits 0 (render_nat n ++ rest) = (n, rest).
Proof.
  intros Hr. rw /render_nat. destruct (dec_go_spec (N.to_nat (N.log2 n)) n []) as (ds & -> & _ & _ & Hp).
  { rw Nat2N.inj_succ N2Nat.id. destruct (decide (n = 0)%N) as [->|]; [done|]. apply N.log2_spec. lia. }
  rw app_nil_r Hp. destruct rest as [|b rest]; simpl; [|simpl in Hr; rw Hr]; f_equal; lia.
Qed.
Lemma render_nat_digits n : ∃ d ds, render_nat n = d :: ds ∧ is_digit d = true ∧ Forall (λ b, is_digit b = true) ds.
Proof.
  rw /render_nat. destruct (dec_go_spec (N.to_nat (N.log2 n)) n []) as (ds & -> & Hne & Hall & _).
  { rw Nat2N.inj_succ N2Nat.id. destruct (decide (n = 0)%N) as [->|]; [done|]. apply N.log2_spec. lia. }
  rw app_nil_r. destruct ds as [|d ds]; [done|]. inversion Hall; subst. eauto.
Qed.
Lemma digit_plain b : is_digit b = true → Byte.eqb b x22 = false ∧ is_ws b = false.
Proof. by destruct b. Qed.

(** What is read back: strings with invalid bytes replaced. *)
Definition clean_val (v : jval) : jval := match v with JString s => JString (to_valid s) | _ => v end.
Definition clean_obj (o : jobj) : jobj := (λ kv, (to_valid kv.1, clean_val kv.2)) <$> o.
Lemma parse_val_render v rest : ends_number rest → parse_val (render_val v ++ rest) = Some (clean_val v, rest).
Proof.
  intros Hr. destruct v as [s|n|]; simpl.
  - rw -app_assoc /=. by rw parse_str_render.
  - destruct (render_nat_digits n) as (d & ds & E & Hd & _). rw E. cbn [app parse_val].
    destruct (digit_plain d Hd) as [-> _]. rw Hd app_comm_cons -E parse_nat_render //.
  - done.
Qed.
Lemma skip_ws_val v rest : skip_ws (render_val v ++ rest) = render_val v ++ rest.
Proof.
  destruct v as [s|n|]; [done| |done]. simpl. destruct (render_nat_digits n) as (d & ds & E & Hd & _). rw E.
  cbn [app skip_ws]. by destruct (digit_plain d Hd) as [_ ->].
Qed.

(** One member, followed by a separator [c]. *)
Definition parse_tail (fuel : nat) (k : bytes) (v : jval) (l : bytes) : option (jobj * bytes) :=
  match eat x2c l with
  | Some l => '(o, l) ← parse_members fuel l; Some ((k, v) :: o, l)
  | None => l ← eat x7d l; Some ([(k, v)], l)
  end.
Lemma parse_member fuel k v rest : ends_number rest →
  parse_members (S fuel) (render_string k ++ x3a :: render_val v ++ rest) = parse_tail fuel (to_valid k) (clean_val v) rest.
Proof.
  intros Hr. cbn [parse_members]. rw /render_string. rw -app_comm_cons -app_assoc.
  change (eat x22 (x22 :: ?l)) with (Some l). cbn [mbind option_bind]. cbn [app]. rw parse_str_render.
  cbn [mbind option_bind]. change (eat x3a (x3a :: ?l)) with (Some l). cbn [mbind option_bind].
  rw skip_ws_val parse_val_render //.
Qed.
Lemma parse_members_render o fuel rest : o ≠ [] → length o ≤ fuel →
  parse_members fuel (render_members o ++ x7d :: rest) = Some (clean_obj o, rest).
Proof.
  revert fuel. induction o as [|[k v] o IH]; intros fuel Hne Hf; [done|].
  destruct fuel as [|fuel]; [simpl in Hf; lia|]. destruct o as [|kv o].
  - cbn [render_members]. rw -app_assoc -app_comm_cons parse_member //.
  - assert (render_members ((k, v) :: kv :: o) = render_string k ++ x3a :: render_val v ++ x2c :: render_members (kv :: o)) as -> by done.
    rw -app_assoc -app_comm_cons -app_assoc -app_comm_cons parse_member //.
    rw /parse_tail. change (eat x2c (x2c :: ?l)) with (Some l). cbv iota beta. rw IH //. simpl in *. lia.
Qed.
Lemma length_render_members o : length o ≤ length (render_members o).
Proof.
  induction o as [|[k v] o IH]; [done|]. destruct o as [|kv o]; [simpl; lia|].
  assert (render_members ((k, v) :: kv :: o) = render_string k ++ x3a :: render_val v ++ x2c :: render_members (kv :: o)) as -> by done.
  rw length_app. cbn [length]. rw length_app. cbn [length] in *. lia.
Qed.
Lemma render_members_head o : o ≠ [] → ∃ l, render_members o = x22 :: l.
Proof. destruct o as [|[k v] [|kv o]]; [done|intros _; by eexists..]. Qed.

(** Reading what was written gives the object back, with invalid bytes replaced. *)
Lemma parse_render_obj o : parse_obj (render_obj o) = Some (clean_obj o).
Proof.
  rw /parse_obj /render_obj. change (eat x7b (x7b :: ?l)) with (Some l). cbn [mbind option_bind].
  destruct (decide (o = [])) as [->|Hne]; [done|].
  destruct (render_members_head o Hne) as [l E]. rw E. cbn [app].
  change (eat x7d (x22 :: ?l)) with (@None bytes). cbv iota. rw app_comm_cons -E.
  rw parse_members_render //. rw length_app. pose proof (length_render_members o). lia.
Qed.

(** ** One line per object *)
Lemma bind_no_control s : Forall no_control (runes s ≫= esc_rune).
Proof. induction (runes_wf s) as [|r rs Hr _ IH]; [constructor|]. apply Forall_app_2; [by apply rune_no_control|done]. Qed.
Lemma string_no_control s : Forall no_control (render_string s).
Proof. constructor; [by vm_compute|]. apply Forall_app_2; [apply bind_no_control|]. constructor; [by vm_compute|done]. Qed.
Lemma val_no_control v : Forall no_control (render_val v).
Proof.
  destruct v as [s|n|]; simpl; [apply string_no_control| |].
  - destruct (render_nat_digits n) as (d & ds & -> & Hd & Hds).
    assert (∀ b, is_digit b = true → no_control b) as Hb.
    { intros b ?%bool_decide_eq_true. rw /no_control. lia. }
    constructor; [by apply Hb|]. eapply list.Forall_impl; [exact Hds|exact Hb].
  - rw /no_control. vm_compute. repeat constructor; discriminate.
Qed.
Lemma members_no_control o : Forall no_control (render_members o).
Proof.
  induction o as [|[k v] o IH]; [constructor|].
  assert (Forall no_control (render_string k ++ x3a :: render_val v)) as Hkv.
  { apply Forall_app_2; [apply string_no_control|]. constructor; [by vm_compute|apply val_no_control]. }
  destruct o as [|kv o]; [done|].
  assert (render_members ((k, v) :: kv :: o) = (render_string k ++ x3a :: render_val v) ++ x2c :: render_members (kv :: o)) as ->
    by (rw -app_assoc; done).
  apply Forall_app_2; [done|]. constructor; [by vm_compute|done].
Qed.
Lemma render_no_control o : Forall no_control (render_obj o).
Proof.
  constructor; [by vm_compute|]. apply Forall_app_2; [apply members_no_control|].
  constructor; [by vm_compute|constructor].
Qed.

(** ** Rendered text is valid *)
Lemma esc_valid r : wf_rune r → Utf8 (esc_rune r).
Proof.
  intros Hr. destruct r as [b|]; [|apply valid_ascii; vm_compute; repeat constructor]. cbn [wf_rune] in Hr.
  assert (Utf8 b) as Hb by (by apply (valid_rune (Rune b))). destruct b as [|a [|b l]]; [done| |].
  - apply valid_ascii. cbn [good] in Hr. destruct a; try discriminate Hr; vm_compute; repeat constructor.
  - cbn [esc_rune]. repeat case_bool_decide; [apply valid_ascii; vm_compute; repeat constructor..|done].
Qed.
Lemma ascii_byte b : utf8_1 b = true → Utf8 [b].
Proof. intros Hb. apply valid_ascii. by constructor. Qed.
Lemma string_valid s : Utf8 (render_string s).
Proof.
  apply (valid_app [x22]); [by apply ascii_byte|]. apply valid_app; [|by apply ascii_byte]. apply valid_bind. intros r Hr.
  apply esc_valid. eapply list.Forall_forall; [apply runes_wf|done].
Qed.
Lemma val_valid v : Utf8 (render_val v).
Proof.
  destruct v as [s|n|]; [apply string_valid| |apply valid_ascii; vm_compute; repeat constructor]. apply (valid_ascii (render_nat n)).
  destruct (render_nat_digits n) as (d & ds & -> & Hd & Hds).
  assert (∀ b, is_digit b = true → utf8_1 b = true) as Hb by (intros b ?%bool_decide_eq_true; rw /utf8_1; apply Z.ltb_lt; lia).
  constructor; [by apply Hb|]. eapply list.Forall_impl; [exact Hds|exact Hb].
Qed.
Lemma render_valid o : Utf8 (render_obj o).
Proof.
  assert (∀ k v, Utf8 (render_string k ++ x3a :: render_val v)) as Hkv.
  { intros k v. apply valid_app; [apply string_valid|]. apply (valid_app [x3a]); [by apply ascii_byte|apply val_valid]. }
  apply (valid_app [x7b]); [by apply ascii_byte|]. apply valid_app; [|by apply ascii_byte].
  induction o as [|[k v] o IH]; [apply valid_nil|]. destruct o as [|kv o]; [apply Hkv|].
  assert (render_members ((k, v) :: kv :: o) = (render_string k ++ x3a :: render_val v) ++ [x2c] ++ render_members (kv :: o)) as ->
    by (rw -app_assoc; done).
  apply valid_app; [apply Hkv|]. apply valid_app; [by apply ascii_byte|done].
Qed.
(** A byte that is no UTF-8, an arrow, a line separator and a pair of surrogates. *)
Example text_replaced :
  render_string [xff; x41] = [x22] ++ str_bytes "\ufffdA" ++ [x22] ∧
  render_string [xe2; x86; x92] = [x22] ++ [xe2; x86; x92] ++ [x22] ∧
  render_string [xe2; x80; xa8] = [x22] ++ str_bytes "\u2028" ++ [x22] ∧
  parse_str (str_bytes "\ud83d\ude00" ++ [xff; x22]) = Some ([xf0; x9f; x98; x80] ++ replacement, []) ∧
  parse_str (str_bytes "\ud83dx" ++ [x22]) = Some (replacement ++ [x78], []).
Proof. vm_compute. repeat split; reflexivity. Qed.
