(* ===== verification/Wire.v ===== *)
(** The JSON texts on the wire between [src/sdk/go/yvonne/client.go] and [src/internal/api]: nested
    objects with strings, integers, booleans and null, as [encoding/json] writes and reads them.
    All messages of the two sides are of this form; a text with an array or a fraction is not
    read here. In strings invalid UTF-8 is replaced, on both sides, and the rest arrives as it is;
    byte strings are base64 texts. A member is matched to a field by its name up to case, and
    decoding into a value changes the fields that are present. *)

From S2P Require Import Prelude Hash Utf8 Base64 Json.

Inductive wval : Type := WString (s : bytes) | WInt (z : Z) | WNull | WBool (b : bool) | WObj (o : list (bytes * wval)).
Abbreviation wobj := (list (bytes * wval)).

(** ** Encoding *)
Definition render_int (z : Z) : bytes := if bool_decide (z < 0)%Z then x2d :: render_nat (Z.to_N (- z)) else render_nat (Z.to_N z).
Fixpoint render_w (v : wval) : bytes :=
  match v with
  | WString s => render_string s
  | WInt z => render_int z
  | WNull => str_bytes "null"
  | WBool true => str_bytes "true"
  | WBool false => str_bytes "false"
  | WObj o =>
      x7b :: (fix members (o : wobj) : bytes :=
                match o with
                | [] => []
                | (k, v) :: o => render_string k ++ x3a :: render_w v ++ match o with [] => [] | _ => x2c :: members o end
                end) o ++ [x7d]
  end.
Fixpoint render_ms (o : wobj) : bytes :=
  match o with
  | [] => []
  | (k, v) :: o => render_string k ++ x3a :: render_w v ++ match o with [] => [] | _ => x2c :: render_ms o end
  end.

(** ** Decoding *)
(** The digits of an integer, without leading zeros. *)
Definition parse_number (l : bytes) : option (N * bytes) :=
  match l with
  | b :: l' => if Byte.eqb b x30 then Some (0%N, l') else if is_digit b then Some (parse_digits 0 l) else None
  | [] => None
  end.
Fixpoint parse_w (fuel : nat) (l : bytes) : option (wval * bytes) :=
  match fuel, l with
  | S fuel, b :: l' =>
      if Byte.eqb b x22 then '(s, l) ← parse_str l'; Some (WString s, l)
      else if is_digit b then '(n, l) ← parse_number l; Some (WInt (Z.of_N n), l)
      else if Byte.eqb b x2d then '(n, l) ← parse_number l'; Some (WInt (- Z.of_N n), l)
      else if bool_decide (take 4 l = str_bytes "null") then Some (WNull, drop 4 l)
      else if bool_decide (take 4 l = str_bytes "true") then Some (WBool true, drop 4 l)
      else if bool_decide (take 5 l = str_bytes "false") then Some (WBool false, drop 5 l)
      else if Byte.eqb b x7b then
        match eat x7d l' with Some l => Some (WObj [], l) | None => '(o, l) ← parse_ms fuel l'; Some (WObj o, l) end
      else None
  | _, _ => None
  end
with parse_ms (fuel : nat) (l : bytes) : option (wobj * bytes) :=
  match fuel with
  | O => None
  | S fuel =>
      l ← eat x22 l; '(k, l) ← parse_str l;
      l ← eat x3a l; '(v, l) ← parse_w fuel (skip_ws l);
      match eat x2c l with
      | Some l => '(o, l) ← parse_ms fuel l; Some ((k, v) :: o, l)
      | None => l ← eat x7d l; Some ([(k, v)], l)
      end
  end.
(** [json.NewDecoder(r).Decode]: the first value; [json.Unmarshal]: nothing may follow it. *)
Definition decode_first (l : bytes) : option wval := fst <$> parse_w (length l) (skip_ws l).
Definition unmarshal (l : bytes) : option wval :=
  '(v, rest) ← parse_w (length l) (skip_ws l); match skip_ws rest with [] => Some v | _ => None end.
(** The name of a member without its case; two letters outside ASCII fold into it. *)
Fixpoint fold_name (k : bytes) : bytes :=
  match k with
  | xc5 :: xbf :: k => x73 :: fold_name k
  | xe2 :: x84 :: xaa :: k => x6b :: fold_name k
  | b :: k => (if bool_decide (65 ≤ b2z b ≤ 90)%Z then z2b (b2z b + 32) else b) :: fold_name k
  | [] => []
  end.
(** Decoding a value into a variable: what it holds afterwards, and whether the value fits. *)
Definition update (A : Type) : Type := wval → A → A * bool.
Definition into_string : update string := λ v a,
  match v with WString s => (String.string_of_list_byte s, true) | WNull => (a, true) | _ => (a, false) end.
Definition into_bytes : update bytes := λ v a,
  match v with
  | WString s => match b64_DecodeString s with Some b => (b, true) | None => (a, false) end
  | WNull => ([], true)
  | _ => (a, false)
  end.
Definition into_int : update Z := λ v a,
  match v with WInt z => if bool_decide (-2 ^ 63 ≤ z < 2 ^ 63)%Z then (z, true) else (a, false) | WNull => (a, true) | _ => (a, false) end.
Definition into_bool : update bool := λ v a, match v with WBool b => (b, true) | WNull => (a, true) | _ => (a, false) end.
Definition into_opt_bool : update (option bool) := λ v a,
  match v with WBool b => (Some b, true) | WNull => (None, true) | _ => (a, false) end.
(** A struct: its members one after the other, those without a field skipped. *)
Fixpoint into_members {A} (field : bytes → update A) (o : wobj) (a : A) : A * bool :=
  match o with
  | [] => (a, true)
  | (k, v) :: o =>
      let '(a, ok) := field (fold_name k) v a in
      let '(a, oks) := into_members field o a in (a, ok && oks)
  end.
Definition into_struct {A} (field : bytes → update A) : update A := λ v a,
  match v with WObj o => into_members field o a | WNull => (a, true) | _ => (a, false) end.
Definition named (k : string) (name : bytes) : bool := bool_decide (name = str_bytes k).
(** A field of a record. *)
Definition at_field {A B} (get : A → B) (set : B → A → A) (u : update B) : update A := λ v a,
  let '(b, ok) := u v (get a) in (set b a, ok).
Definition skip_member {A} : update A := λ _ a, (a, true).
(** [json.Unmarshal] into a new variable. *)
Definition unmarshal_into {A} (u : update A) (zero : A) (l : bytes) : option A :=
  v ← unmarshal l; let '(a, ok) := u v zero in if (ok : bool) then Some a else None.
(** Encoders of fields. *)
Definition of_string (s : string) : wval := WString (str_bytes s).
Definition of_bytes (b : bytes) : wval := WString (b64_encode b).

(** ** What is written is read back *)
(** With invalid text replaced. *)
Fixpoint wclean (v : wval) : wval :=
  match v with
  | WString s => WString (to_valid s)
  | WObj o => WObj ((λ kv, (to_valid kv.1, wclean kv.2)) <$> o)
  | _ => v
  end.
Definition clean_ms (o : wobj) : wobj := (λ kv, (to_valid kv.1, wclean kv.2)) <$> o.
Lemma render_w_obj o : render_w (WObj o) = x7b :: render_ms o ++ [x7d].
Proof. reflexivity. Qed.
Fixpoint wneed (v : wval) : nat :=
  match v with
  | WObj o => S ((fix need (o : wobj) : nat := match o with [] => 0 | (_, v) :: o => S (wneed v `max` need o) end) o)
  | _ => 1
  end.
Fixpoint need_ms (o : wobj) : nat := match o with [] => 0 | (_, v) :: o => S (wneed v `max` need_ms o) end.
Lemma wneed_obj o : wneed (WObj o) = S (need_ms o).
Proof. reflexivity. Qed.
(** No leading zero. *)
Lemma dec_go_head f n acc : (0 < n < 2 ^ N.of_nat (S f))%N → ∃ d ds, dec_go (S f) n acc = d :: ds ∧ Byte.eqb d x30 = false.
Proof.
  revert n acc. induction f as [|f IH]; intros n acc Hn; cbn [dec_go]; case_bool_decide as Hs.
  2: { change (2 ^ N.of_nat 1)%N with 2%N in Hn. lia. }
  3: { apply IH. rw Nat2N.inj_succ N.pow_succ_r' in Hn. split; [apply N.div_str_pos; lia|]. apply N.Div0.div_lt_upper_bound. lia. }
  all: eexists _, _; split; [done|]; rw N.mod_small //; destruct (Byte.eqb _ _) eqn:E; [|done];
    apply Byte.byte_dec_bl in E; apply (f_equal b2z) in E; rw b2z_z2b Z.mod_small in E; [lia|]; change (b2z x30) with 48%Z in E; lia.
Qed.
Lemma parse_number_render n rest : ends_number rest → parse_number (render_nat n ++ rest) = Some (n, rest).
Proof.
  intros Hr. destruct (decide (n = 0)%N) as [->|Hn]; [done|].
  destruct (render_nat_digits n) as (d & ds & E & Hd & _). destruct (dec_go_head (N.to_nat (N.log2 n)) n []) as (d' & ds' & E' & Hz).
  { split; [lia|]. rw Nat2N.inj_succ N2Nat.id. apply N.log2_spec. lia. }
  change (dec_go _ n []) with (render_nat n) in E'. rw E in E'. injection E' as <- <-.
  pose proof (parse_nat_render n rest Hr) as Hp. rw E in Hp |- *. cbn [parse_number app]. rw Hz Hd. by f_equal.
Qed.
Lemma render_int_head z : ∃ b l, render_int z = b :: l ∧ is_ws b = false ∧ (is_digit b = true ∨ b = x2d ∧ (z < 0)%Z).
Proof.
  rw /render_int. case_bool_decide; [eexists _, _; split_and!; [done..|by right]|].
  destruct (render_nat_digits (Z.to_N z)) as (d & ds & -> & Hd & _). exists d, ds. split_and!; [done|by apply digit_plain|by left].
Qed.
Lemma render_w_head v : ∃ b l, render_w v = b :: l ∧ is_ws b = false.
Proof. destruct v as [s|z| |[]|o]; [by eexists _, _| |by eexists _, _..]. destruct (render_int_head z) as (b & l & E & Hw & _). by exists b, l. Qed.
Lemma skip_ws_w v rest : skip_ws (render_w v ++ rest) = render_w v ++ rest.
Proof. destruct (render_w_head v) as (b & l & -> & Hw). by rw /= Hw. Qed.
Lemma need_length v : wneed v ≤ length (render_w v).
Proof.
  revert v. fix IH 1. intros v. destruct (render_w_head v) as (b & l & E & _). destruct v as [s|z| |bb|o]; try (rw E /=; lia). clear b l E.
  rw render_w_obj wneed_obj /= length_app /=. assert (need_ms o ≤ length (render_ms o)) as H; [|lia].
  induction o as [|[k v] o IHo]; [done|]. specialize (IH v). cbn [need_ms render_ms]. rw length_app. cbn [length]. rw length_app. destruct o as [|kv o]; cbn [length need_ms] in *; lia.
Qed.
Lemma render_ms_head o : o ≠ [] → ∃ l, render_ms o = x22 :: l.
Proof. destruct o as [|[k v] o]; [done|]. intros _. by eexists. Qed.
Lemma parse_w_render f :
  (∀ v rest, wneed v ≤ f → ends_number rest → parse_w f (render_w v ++ rest) = Some (wclean v, rest)) ∧
  (∀ o rest, o ≠ [] → need_ms o ≤ f → parse_ms f (render_ms o ++ x7d :: rest) = Some (clean_ms o, rest)).
Proof.
  induction f as [|f [IHv IHo]].
  { split; [intros v rest H; destruct v; simpl in H; lia|]. intros [|[k v] o] rest Hne H; [done|]. simpl in H. lia. }
  split.
  - intros v rest Hn Hr. destruct v as [s|z| |[]|o]; [| |done..|].
    + rw /= -app_assoc /= parse_str_render. done.
    + cbn [render_w]. destruct (render_int_head z) as (b & l & E & _ & Hd). rw E. cbn [app parse_w]. destruct Hd as [Hd|[-> Hz]].
      * destruct (digit_plain b Hd) as [-> _]. rw Hd app_comm_cons -E /render_int bool_decide_eq_false_2.
        { intros Hz. rw /render_int bool_decide_eq_true_2 // in E. injection E as <- _. done. }
        assert (0 ≤ z)%Z. { destruct (decide (z < 0)%Z) as [Hz|]; [|lia]. rw /render_int bool_decide_eq_true_2 // in E. injection E as <- _. done. }
        rw parse_number_render //. cbn [mbind option_bind]. by rw Z2N.id.
      * rw /render_int bool_decide_eq_true_2 // in E. injection E as <-. change (Byte.eqb x2d x22) with false. change (is_digit x2d) with false.
        cbv iota. change (Byte.eqb x2d x2d) with true. cbv iota. rw parse_number_render //. cbn [mbind option_bind]. rw Z2N.id; [lia|]. by rw Z.opp_involutive.
    + rw wneed_obj in Hn. rw render_w_obj -app_comm_cons -app_assoc. cbn [parse_w]. change ([x7d] ++ rest) with (x7d :: rest).
      change (Byte.eqb x7b x22) with false. change (is_digit x7b) with false. change (Byte.eqb x7b x7b) with true. cbv iota.
      rw !bool_decide_eq_false_2; [done..|].
      destruct (decide (o = [])) as [->|Hne]; [done|]. destruct (render_ms_head o Hne) as [l E]. rw E. cbn [app].
      change (eat x7d (x22 :: ?l)) with (@None bytes). cbv iota. rw app_comm_cons -E IHo //. lia.
  - intros [|[k v] o] rest Hne Hn; [done|]. cbn [need_ms] in Hn. cbn [render_ms parse_ms]. rw /render_string -!app_assoc.
    change (eat x22 ((x22 :: ?l) ++ ?m)) with (Some (l ++ m)). cbn [mbind option_bind]. rw -app_assoc. cbn [app]. rw parse_str_render.
    cbn [mbind option_bind]. change (eat x3a (x3a :: ?l)) with (Some l). cbn [mbind option_bind]. rw -app_assoc skip_ws_w.
    destruct o as [|kv o].
    + rw IHv //. lia.
    + rw IHv //; [lia|]. cbn [mbind option_bind]. cbn [app]. change (eat x2c (x2c :: ?l)) with (Some l). cbv iota. rw IHo //. lia.
Qed.
Lemma unmarshal_render v rest : Forall (λ b, is_ws b = true) rest → unmarshal (render_w v ++ rest) = Some (wclean v) ∧ decode_first (render_w v ++ rest) = Some (wclean v).
Proof.
  intros Hr. assert (ends_number rest) as He by (destruct rest as [|b rest]; [done|]; inversion Hr; subst; by destruct b).
  assert (parse_w (length (render_w v ++ rest)) (skip_ws (render_w v ++ rest)) = Some (wclean v, rest)) as E.
  { rw skip_ws_w. apply parse_w_render; [|done]. rw length_app. pose proof (need_length v). lia. }
  rw /unmarshal /decode_first E /=. split; [|done]. assert (skip_ws rest = []) as ->; [|done].
  clear E He. induction Hr as [|b rest Hb Hr IH]; [done|]. by rw /= Hb.
Qed.
(** Base64 is plain text. *)
Lemma b64_ascii b : Forall (λ x, utf8_1 x = true) (b64_encode b).
Proof.
  assert (∀ q i, utf8_1 (b64_quantum q i) = true) as Hq.
  { intros q i. rw /b64_quantum. pose proof (b64_digit_range (be_combine q) i) as Hd. destruct (b64_value_char _ Hd) as (Hv & _).
    rw /b64_value in Hv. rw /utf8_1. apply Z.ltb_lt. repeat case_bool_decide; try done; lia. }
  remember (length b) as n eqn:Hn. revert b Hn. induction (lt_wf n) as [n _ IH]. intros b ->.
  destruct b as [|x [|y [|z b]]]; cbn [b64_encode app]; repeat constructor; try apply Hq. apply (IH (length b)); [simpl; lia|done].
Qed.
(** Fields. *)
Lemma into_of_string s a : into_string (wclean (of_string s)) a = (clean s, true).
Proof. done. Qed.
Lemma into_of_bytes b a : into_bytes (wclean (of_bytes b)) a = (b, true).
Proof. cbn [wclean of_bytes]. rw valid_id; [apply valid_ascii, b64_ascii|]. by rw /into_bytes b64_roundtrip. Qed.
Lemma into_of_int z a : (-2 ^ 63 ≤ z < 2 ^ 63)%Z → into_int (WInt z) a = (z, true).
Proof. intros Hz. by rw /into_int bool_decide_eq_true_2. Qed.
