(* ===== verification/Rfc3339.v ===== *)
(** The text form of [time.Time] in JSON (RFC 3339 with nanoseconds), and the calendar
    behind it. Times are nanoseconds since the zero [time.Time]
    (0001-01-01T00:00:00Z); a day number counts days from that date. *)

From S2P Require Import Prelude Hash.
#[local] Open Scope Z_scope.

(** ** The Gregorian calendar, in 400-year eras starting on a first of March *)
Definition doe_of (z : Z) : Z := (z + 306) `mod` 146097.
Definition yoe_of (doe : Z) : Z := (doe - doe `div` 1460 + doe `div` 36524 - doe `div` 146096) `div` 365.
Definition doy_of (doe yoe : Z) : Z := doe - (365 * yoe + yoe `div` 4 - yoe `div` 100).
Definition mp_of (doy : Z) : Z := (5 * doy + 2) `div` 153.
Definition day_of (doy mp : Z) : Z := doy - (153 * mp + 2) `div` 5 + 1.
Definition month_of (mp : Z) : Z := (if bool_decide (mp < 10) then mp + 3 else mp - 9)%Z.

(** Year, month and day of a day number, and back. *)
Definition civil (z : Z) : Z * Z * Z :=
  let doe := doe_of z in let yoe := yoe_of doe in let doy := doy_of doe yoe in let mp := mp_of doy in
  let m := month_of mp in
  (yoe + 400 * ((z + 306) `div` 146097) + (if bool_decide (m ≤ 2)%Z then 1 else 0), m, day_of doy mp)%Z.
Definition days_from_civil (y m d : Z) : Z :=
  let y := (y - (if bool_decide (m ≤ 2) then 1 else 0))%Z in
  let yoe := (y `mod` 400)%Z in
  let doy := ((153 * (if bool_decide (2 < m) then m - 3 else m + 9) + 2) `div` 5 + d - 1)%Z in
  (146097 * (y `div` 400) + (yoe * 365 + yoe `div` 4 - yoe `div` 100 + doy) - 306)%Z.

(** Days in a month, for the validity check of the parser. *)
Definition leap (y : Z) : bool :=
  bool_decide (y `mod` 4 = 0)%Z && (negb (bool_decide (y `mod` 100 = 0)%Z) || bool_decide (y `mod` 400 = 0)%Z).
Definition days_in (y m : Z) : Z :=
  (if bool_decide (m = 2) then if leap y then 29 else 28
   else if bool_decide (m ∈ [4; 6; 9; 11]) then 30 else 31)%Z.

(** ** Writing *)
Fixpoint drop_zeros (l : bytes) : bytes :=
  match l with b :: l' => if bool_decide (b = x30) then drop_zeros l' else l | [] => [] end.
Definition trim_zeros (l : bytes) : bytes := rev (drop_zeros (rev l)).
Definition nano : Z := 1000000000.
Definition frac_text (ns : Z) : bytes :=
  if bool_decide (ns = 0)%Z then [] else x2e :: trim_zeros (dec_digits 9 ns).
(** [None]: [MarshalJSON] refuses a year outside [0,9999]. *)
Definition format_time (t : Z) : option bytes :=
  let sec := (t `div` nano)%Z in
  let '(y, m, d) := civil (sec `div` 86400) in
  let s := (sec `mod` 86400)%Z in
  if bool_decide (0 ≤ y ≤ 9999)%Z then
    Some (dec_digits 4 y ++ x2d :: dec_digits 2 m ++ x2d :: dec_digits 2 d ++ x54
      :: dec_digits 2 (s `div` 3600) ++ x3a :: dec_digits 2 ((s `div` 60) `mod` 60) ++ x3a :: dec_digits 2 (s `mod` 60)
      ++ frac_text (t `mod` nano) ++ [x5a])
  else None.

(** ** Reading *)
Definition num (n : nat) (l : bytes) : option (Z * bytes) :=
  if (length (take n l) =? n)%nat && forallb dec_digit (take n l) then Some (dec_value (take n l), drop n l) else None.
Definition expect (c : byte) (l : bytes) : option bytes :=
  match l with b :: l => if Byte.eqb b c then Some l else None | [] => None end.
Fixpoint span_digits (l : bytes) : bytes * bytes :=
  match l with
  | b :: l' => if dec_digit b then let '(ds, r) := span_digits l' in (b :: ds, r) else ([], l)
  | [] => ([], [])
  end.
Definition pad9 (ds : bytes) : bytes := take 9 (ds ++ replicate (9 - length ds) x30).
Definition parse_frac (l : bytes) : option (Z * bytes) :=
  match expect x2e l with
  | None => Some (0%Z, l)
  | Some l => match span_digits l with ([], _) => None | (ds, l) => Some (dec_value (pad9 ds), l) end
  end.
(** [Z], or an offset east of Greenwich in seconds. *)
Definition parse_zone (l : bytes) : option (Z * bytes) :=
  match l with
  | [] => None
  | b :: l =>
      if Byte.eqb b x5a then Some (0%Z, l)
      else if Byte.eqb b x2b || Byte.eqb b x2d then
        '(h, l) ← num 2 l; l ← expect x3a l; '(m, l) ← num 2 l;
        if bool_decide (h < 24)%Z && bool_decide (m < 60)%Z
        then Some ((if Byte.eqb b x2b then 1 else -1) * (h * 3600 + m * 60), l)%Z else None
      else None
  end.
Definition parse_time (l : bytes) : option Z :=
  '(y, l) ← num 4 l; l ← expect x2d l; '(m, l) ← num 2 l; l ← expect x2d l; '(d, l) ← num 2 l;
  l ← expect x54 l; '(hh, l) ← num 2 l; l ← expect x3a l; '(mm, l) ← num 2 l; l ← expect x3a l; '(ss, l) ← num 2 l;
  '(ns, l) ← parse_frac l; '(off, l) ← parse_zone l;
  if bool_decide (l = []) && bool_decide (1 ≤ m ≤ 12)%Z && bool_decide (1 ≤ d ≤ days_in y m)%Z &&
     bool_decide (hh < 24)%Z && bool_decide (mm < 60)%Z && bool_decide (ss < 60)%Z
  then Some ((days_from_civil y m d * 86400 + hh * 3600 + mm * 60 + ss - off) * nano + ns)%Z
  else None.

Example format_time_epoch : format_time (62135596800 * nano + 5000000) = Some (str_bytes "1970-01-01T00:00:00.005Z").
Proof. vm_compute. reflexivity. Qed.
Example format_time_leap : format_time ((62135596800 + 1709209845) * nano) = Some (str_bytes "2024-02-29T12:30:45Z").
Proof. vm_compute. reflexivity. Qed.

(** ** The calendar is a bijection *)
(** Where year [y] of an era starts. *)
Definition year_start (y : Z) : Z := 365 * y + y `div` 4 - y `div` 100.
Fixpoint all_below (P : Z → bool) (n : nat) (z : Z) : bool :=
  match n with O => true | S n => P z && all_below P n (z + 1)%Z end.
Lemma all_below_spec P n z : all_below P n z = true → ∀ x, (z ≤ x < z + Z.of_nat n)%Z → P x = true.
Proof.
  revert z. induction n as [|n IH]; intros z H x Hx; [lia|]. simpl in H. apply andb_true_iff in H as [H1 H2].
  destruct (decide (x = z)) as [->|]; [done|]. apply (IH (z + 1)%Z); [done|lia].
Qed.

(** The years of an era, numbered from March: where they start, how long they are. *)
Definition year_len (y : Z) : Z := 365 + (if leap (y + 1) then 1 else 0).
Definition year_ok (y : Z) : bool :=
  (bool_decide (yoe_of (year_start y) = y) && bool_decide (yoe_of (year_start y + year_len y - 1) = y) &&
   (bool_decide (y = 399) || bool_decide (year_start (y + 1) = year_start y + year_len y)))%Z.
Lemma years_check : all_below year_ok 400 0 = true.
Proof. vm_compute. reflexivity. Qed.
Lemma year_spec y : (0 ≤ y < 400)%Z → yoe_of (year_start y) = y ∧ yoe_of (year_start y + year_len y - 1) = y ∧
  (y = 399 ∨ year_start (y + 1) = year_start y + year_len y)%Z.
Proof.
  intros Hy. pose proof (all_below_spec _ _ _ years_check y ltac:(lia)) as H.
  rw /year_ok !andb_true_iff orb_true_iff !bool_decide_eq_true in H. tauto.
Qed.
Lemma yoe_mono a b : (0 ≤ a ≤ b)%Z → (b < 146096)%Z → (yoe_of a ≤ yoe_of b)%Z.
Proof. intros H Hb. rw /yoe_of. apply Z.div_le_mono; [lia|]. Z.div_mod_to_equations. lia. Qed.
Lemma year_start_mono a b : (0 ≤ a ≤ b)%Z → (year_start a ≤ year_start b)%Z.
Proof. rw /year_start. Z.div_mod_to_equations. lia. Qed.

(** A day lies in the year computed for it. *)
Lemma yoe_bounds doe : (0 ≤ doe < 146097)%Z →
  (0 ≤ yoe_of doe < 400)%Z ∧ (0 ≤ doe - year_start (yoe_of doe) < year_len (yoe_of doe))%Z.
Proof.
  intros Hd. destruct (decide (doe = 146096)%Z) as [->|Hne]; [by vm_compute|].
  pose proof (yoe_mono 0 doe ltac:(lia) ltac:(lia)) as H0. change (yoe_of 0) with 0%Z in H0.
  pose proof (yoe_mono doe 146095 ltac:(lia) ltac:(lia)) as H1. change (yoe_of 146095) with 399%Z in H1.
  set (y := yoe_of doe) in *. split; [lia|].
  destruct (year_spec y ltac:(lia)) as (_ & _ & Hnext). split.
  - destruct (decide (year_start y ≤ doe)%Z) as [|Hlt]; [lia|]. exfalso.
    assert (0 < y)%Z as Hy. { destruct (decide (y = 0)%Z) as [E|]; [rw E in Hlt; change (year_start 0) with 0 in Hlt|]; lia. }
    destruct (year_spec (y - 1) ltac:(lia)) as (_ & He & [|Hs]); [lia|]. rw Z.sub_add in Hs.
    rw -Hs in He. pose proof (year_start_mono y 399 ltac:(lia)) as Hb. change (year_start 399) with 145731%Z in Hb.
    pose proof (yoe_mono doe (year_start y - 1) ltac:(lia) ltac:(lia)). lia.
  - destruct (decide (doe - year_start y < year_len y)%Z) as [|Hge]; [done|]. exfalso.
    destruct Hnext as [E|Hs]; [rw E in Hge; change (year_start 399) with 145731%Z in Hge; change (year_len 399) with 366%Z in Hge; lia|].
    destruct (decide (y = 399)%Z) as [E|]; [rw E in Hge; change (year_start 399) with 145731%Z in Hge; change (year_len 399) with 366%Z in Hge; lia|].
    destruct (year_spec (y + 1) ltac:(lia)) as (He & _).
    pose proof (year_start_mono 0 (y + 1) ltac:(lia)) as Hb. change (year_start 0) with 0%Z in Hb.
    pose proof (yoe_mono (year_start (y + 1)) doe ltac:(lia) ltac:(lia)). lia.
Qed.

(** The days of a year. *)
Definition doy_ok (doy : Z) : bool :=
  let mp := mp_of doy in let m := month_of mp in let d := day_of doy mp in
  (bool_decide (1 ≤ m ≤ 12) && bool_decide (1 ≤ d) &&
   bool_decide (d ≤ (if bool_decide (m = 2) then if bool_decide (doy = 365) then 29 else 28 else days_in 0 m)) &&
   bool_decide ((153 * (if bool_decide (2 < m) then m - 3 else m + 9) + 2) `div` 5 + d - 1 = doy) &&
   (negb (bool_decide (doy = 365)) || bool_decide (m = 2)))%Z.
Lemma days_check : all_below doy_ok 366 0 = true.
Proof. vm_compute. reflexivity. Qed.
Lemma leap_era y k : leap (y + 400 * k) = leap y.
Proof.
  rw /leap. assert (∀ n, (n | 400)%Z → (0 < n)%Z → ((y + 400 * k) `mod` n = y `mod` n)%Z) as E.
  { intros n [q Hq] Hn. rw Hq -(Z.mul_assoc q) (Z.mul_comm n) Z.mul_assoc. apply Z.mod_add. lia. }
  rw (E 4); [by exists 100|lia|]. rw (E 100); [by exists 4|lia|]. rw (E 400); [by exists 1|lia|done].
Qed.

Lemma days_in_other y m : m ≠ 2 → days_in y m = days_in 0 m.
Proof. intros Hm. by rw /days_in (bool_decide_eq_false_2 _ Hm). Qed.

(** Dates are valid, and give their day number back. *)
Lemma civil_spec z : let '(y, m, d) := civil z in
  days_from_civil y m d = z ∧ (1 ≤ m ≤ 12)%Z ∧ (1 ≤ d ≤ days_in y m)%Z.
Proof.
  rw /civil. set (doe := doe_of z). assert (0 ≤ doe < 146097)%Z as Hd by (apply Z.mod_pos_bound; lia).
  destruct (yoe_bounds doe Hd) as [Hy Hdoy]. set (yoe := yoe_of doe) in *.
  change (doe - year_start yoe)%Z with (doy_of doe yoe) in Hdoy. set (doy := doy_of doe yoe) in *.
  assert (0 ≤ doy < 366)%Z as Hdoy' by (rw /year_len in Hdoy; destruct (leap _); lia).
  pose proof (all_below_spec _ _ _ days_check doy ltac:(lia)) as H.
  rw /doy_ok !andb_true_iff orb_true_iff negb_true_iff bool_decide_eq_false !bool_decide_eq_true in H.
  set (m := month_of (mp_of doy)) in *. set (d := day_of doy (mp_of doy)) in *.
  destruct H as ((((Hm & Hd1) & Hd2) & Hback) & Hlast). split_and!; [|lia|lia|lia|].
  - assert (z + 306 = 146097 * ((z + 306) `div` 146097) + doe) as Hz by (apply Z.div_mod; lia).
    set (era := (z + 306) `div` 146097) in *.
    rw /days_from_civil. set (b := if bool_decide (m ≤ 2) then 1 else 0).
    assert (yoe + 400 * era + b - b = yoe + era * 400) as -> by lia.
    rw Z.mod_add; [lia|]. rw Z.div_add; [lia|]. rw (Z.mod_small yoe); [lia|]. rw (Z.div_small yoe); [lia|]. rw Hback.
    assert (doe = year_start yoe + doy) as E by (rw /doy /doy_of /year_start; lia). rw /year_start in E. lia.
  - clearbody m d. destruct (decide (m = 2)) as [->|Em].
    + rw (bool_decide_eq_true_2 (2 ≤ 2)) //. assert (days_in (yoe + 400 * ((z + 306) `div` 146097) + 1) 2 = if leap (yoe + 1) then 29 else 28) as ->.
      { assert (yoe + 400 * ((z + 306) `div` 146097) + 1 = yoe + 1 + 400 * ((z + 306) `div` 146097)) as -> by lia.
        by rw /days_in leap_era. }
      simpl in Hd2. rw /year_len in Hdoy. case_bool_decide; destruct (leap (yoe + 1)); lia.
    + rw (bool_decide_eq_false_2 _ Em) in Hd2. rw (days_in_other _ m Em). done.
Qed.

(** ** Times are read back as written *)
Lemma expect_eq c l : expect c (c :: l) = Some l.
Proof. by destruct c. Qed.
Lemma num_digits n z rest : num n (dec_digits n z ++ rest) = Some (z `mod` 10 ^ Z.of_nat n, rest).
Proof.
  rw /num take_app_length'; [by rw length_dec_digits|]. rw drop_app_length'; [by rw length_dec_digits|].
  by rw length_dec_digits Nat.eqb_refl dec_digits_all dec_value_digits.
Qed.
Lemma num_small n z rest : 0 ≤ z < 10 ^ Z.of_nat n → num n (dec_digits n z ++ rest) = Some (z, rest).
Proof. intros H. by rw num_digits Z.mod_small. Qed.

Lemma drop_zeros_spec l : ∃ k, l = replicate k x30 ++ drop_zeros l.
Proof.
  induction l as [|b l [k IH]]; [by exists 0%nat|]. simpl. case_bool_decide as E.
  - exists (S k). simpl. by rw -IH E.
  - by exists 0%nat.
Qed.
Lemma rev_zeros k (x : byte) : rev (replicate k x) = replicate k x.
Proof. induction k as [|k IH]; [done|]. cbn [rev replicate]. by rw IH -replicate_cons_app. Qed.
Lemma trim_zeros_spec l : ∃ k, l = trim_zeros l ++ replicate k x30.
Proof.
  destruct (drop_zeros_spec (rev l)) as [k E]. exists k. rw /trim_zeros.
  apply (f_equal (@rev _)) in E. rw rev_involutive rev_app_distr in E. rw {1}E. f_equal. apply rev_zeros.
Qed.

Lemma span_digits_all ds rest : forallb dec_digit ds = true →
  (match rest with b :: _ => dec_digit b = false | [] => True end) → span_digits (ds ++ rest) = (ds, rest).
Proof.
  intros Hd Hr. induction ds as [|b ds IH]; simpl in *.
  - destruct rest as [|b rest]; [done|]. simpl. by rw Hr.
  - apply andb_true_iff in Hd as [Hb Hd]. by rw Hb IH.
Qed.
Lemma dec_value_zeros n : dec_value (replicate n x30) = 0.
Proof. induction n as [|n IH]; [done|]. cbn [replicate]. by rw dec_value_cons IH. Qed.

Lemma parse_frac_text ns rest : 0 ≤ ns < nano → parse_frac (frac_text ns ++ x5a :: rest) = Some (ns, x5a :: rest).
Proof.
  intros Hns. rw /frac_text. case_bool_decide as E; [by subst|].
  destruct (trim_zeros_spec (dec_digits 9 ns)) as [k Ek]. set (ds := trim_zeros _) in *.
  assert (length ds + k = 9)%nat as Hl.
  { apply (f_equal length) in Ek. rw length_dec_digits length_app length_replicate in Ek. lia. }
  rw /parse_frac. cbn [app expect]. change (Byte.eqb x2e x2e) with true. cbv iota.
  rw span_digits_all //.
  { pose proof (dec_digits_all 9 ns) as Hall. rw Ek forallb_app in Hall. by apply andb_true_iff in Hall as []. }
  assert (dec_value (pad9 ds) = ns) as Hv.
  { rw /pad9. assert (9 - length ds = k)%nat as -> by lia. rw -Ek take_ge; [rw length_dec_digits; lia|].
    rw dec_value_digits. by apply Z.mod_small. }
  destruct ds as [|b ds']; [|by rw Hv]. exfalso. rw /pad9 /= in Hv. by vm_compute in Hv; subst.
Qed.

Lemma sod_digits s : 0 ≤ s < 86400 → 0 ≤ s `div` 3600 < 24 ∧ 0 ≤ (s `div` 60) `mod` 60 < 60 ∧ 0 ≤ s `mod` 60 < 60 ∧
  s `div` 3600 * 3600 + (s `div` 60) `mod` 60 * 60 + s `mod` 60 = s.
Proof. intros Hs. Z.div_mod_to_equations. lia. Qed.

(** [time.Time] survives JSON: what [MarshalJSON] writes, [UnmarshalJSON] reads back. *)
Lemma parse_format_time t txt : format_time t = Some txt → parse_time txt = Some t.
Proof.
  rw /format_time. set (sec := t `div` nano). pose proof (civil_spec (sec `div` 86400)) as Hc.
  destruct (civil (sec `div` 86400)) as [[y m] d]. destruct Hc as (Hdays & Hm & Hd).
  case_bool_decide as Hy; [|done]. intros [= <-].
  assert (0 ≤ sec `mod` 86400 < 86400) as Hs by (apply Z.mod_pos_bound; lia).
  destruct (sod_digits _ Hs) as (Hh & Hmi & Hse & Hsod). set (s := sec `mod` 86400) in *.
  assert (0 ≤ t `mod` nano < nano) as Hns by (apply Z.mod_pos_bound; done).
  assert (d ≤ 31) as Hd31 by (rw /days_in in Hd; repeat case_match; lia).
  rw /parse_time.
  do 2 (rw num_small; [simpl; lia|]; cbn [mbind option_bind]; rw expect_eq; cbn [mbind option_bind]).
  rw num_small; [simpl; lia|]. cbn [mbind option_bind]. rw expect_eq. cbn [mbind option_bind].
  do 2 (rw num_small; [simpl; lia|]; cbn [mbind option_bind]; rw expect_eq; cbn [mbind option_bind]).
  rw num_small; [simpl; lia|]. cbn [mbind option_bind]. rw parse_frac_text //. cbn [mbind option_bind].
  rw !bool_decide_eq_true_2; try lia. rw Hdays. assert (sec = 86400 * (sec `div` 86400) + s) as E1 by (apply Z.div_mod; lia).
  assert (t = nano * sec + t `mod` nano) as E2 by (apply Z.div_mod; done).
  change (parse_zone [x5a]) with (Some (0, [] : bytes)). cbn [mbind option_bind].
  rw bool_decide_eq_true_2 //. cbn [andb]. f_equal. rw {2}E2 (Z.mul_comm nano). f_equal. f_equal. lia.
Qed.
