(* ===== verification/AesGcm.v ===== *)
(** AES-256 in Galois/Counter mode, the [crypto/aes] and [crypto/cipher] calls of
    [src/internal/crypto]. The S-box and the column mixing use the same field
    GF(2^8) as the secret sharing. Checked on the vectors of the GCM
    specification; the round trip [Open (Seal m) = m] is proved. *)

From S2P Require Import Prelude GF256.

(** ** AES-256 *)
Definition rotl8 (b : byte) (n : Z) : byte :=
  z2b (Z.lor (Z.shiftl (b2z b) n) (Z.shiftr (b2z b) (8 - n))).
Definition sbox_entry (a : byte) : byte :=
  let b := gf_inv a in
  b ⊕ rotl8 b 1 ⊕ rotl8 b 2 ⊕ rotl8 b 3 ⊕ rotl8 b 4 ⊕ x63.
Definition sbox_table : list byte := Eval vm_compute in map sbox_entry all_bytes.
Definition sbox (b : byte) : byte := sbox_table !!! Z.to_nat (b2z b).

Definition xor_bytes (l k : bytes) : bytes := zip_with bxor l k.
Definition sub_word (w : bytes) : bytes := map sbox w.
Definition rot_word (w : bytes) : bytes := match w with [] => [] | b :: w => w ++ [b] end.

(** Key schedule for eight-word keys: the words, most recent first. *)
Fixpoint aes_expand (n i : nat) (rcon : byte) (w : list bytes) : list bytes :=
  match n with
  | O => w
  | S n =>
      let prev := w !!! 0 in
      let '(t, rcon) :=
        if i mod 8 =? 0
        then (xor_bytes (sub_word (rot_word prev)) [rcon; x00; x00; x00], rcon ⊗ x02)
        else if i mod 8 =? 4 then (sub_word prev, rcon) else (prev, rcon) in
      aes_expand n (S i) rcon (xor_bytes (w !!! 7) t :: w)
  end.
Fixpoint chunk4 (n : nat) (l : bytes) : list bytes :=
  match n with O => [] | S n => take 4 l :: chunk4 n (drop 4 l) end.
Fixpoint round_keys (n : nat) (w : list bytes) : list bytes :=
  match n with O => [] | S n => mjoin (take 4 w) :: round_keys n (drop 4 w) end.
Definition aes_key_schedule (key : bytes) : list bytes :=
  round_keys 15 (rev (aes_expand 52 8 x01 (rev (chunk4 8 key)))).

Definition shift_rows (s : bytes) : bytes :=
  map (λ i, s !!! i) [0; 5; 10; 15; 4; 9; 14; 3; 8; 13; 2; 7; 12; 1; 6; 11].
Definition mix_column (c : bytes) : bytes :=
  match c with
  | [a; b; c; d] =>
      [x02 ⊗ a ⊕ x03 ⊗ b ⊕ c ⊕ d; a ⊕ x02 ⊗ b ⊕ x03 ⊗ c ⊕ d;
       a ⊕ b ⊕ x02 ⊗ c ⊕ x03 ⊗ d; x03 ⊗ a ⊕ b ⊕ c ⊕ x02 ⊗ d]
  | c => c
  end.
Definition mix_columns (s : bytes) : bytes := mjoin (map mix_column (chunk4 4 s)).

Fixpoint aes_rounds (s : bytes) (ks : list bytes) : bytes :=
  match ks with
  | [] => s
  | [k] => xor_bytes (shift_rows (map sbox s)) k
  | k :: ks => aes_rounds (xor_bytes (mix_columns (shift_rows (map sbox s))) k) ks
  end.
(** [cipher.Block.Encrypt] for the block cipher of [aes.NewCipher(key)]. *)
Definition aes_encrypt (key block : bytes) : bytes :=
  match aes_key_schedule key with
  | [] => block
  | k :: ks => aes_rounds (xor_bytes block k) ks
  end.

(** ** GCM over a block cipher [E] *)
(** Product in GF(2^128) with GCM's reflected bit order. *)
Fixpoint ghash_mul_loop (n : nat) (x v z : Z) : Z :=
  match n with
  | O => z
  | S n =>
      let z := if Z.testbit x (Z.of_nat n) then Z.lxor z v else z in
      let v' := Z.shiftr v 1 in
      let v := if Z.testbit v 0 then Z.lxor v' (Z.shiftl 0xe1 120) else v' in
      ghash_mul_loop n x v z
  end.
Definition ghash_mul (x y : Z) : Z := ghash_mul_loop 128 x y 0.

Fixpoint chunk16 (fuel : nat) (l : bytes) : list bytes :=
  match fuel with
  | O => []
  | S fuel =>
      match l with
      | [] => []
      | _ => let b := take 16 l in
             (b ++ replicate (16 - length b) x00) :: chunk16 fuel (drop 16 l)
      end
  end.
Definition ghash (h : Z) (blocks : list bytes) : Z :=
  foldl (λ y b, ghash_mul (Z.lxor y (be_combine b)) h) 0%Z blocks.

(** Counter mode from counter block [nonce || ctr]. *)
Fixpoint keystream (E : bytes → bytes) (nonce : bytes) (n : nat) (ctr : Z) : bytes :=
  match n with
  | O => []
  | S n => E (nonce ++ be_split 4 ctr) ++ keystream E nonce n (ctr + 1)
  end.
Definition ctr_xor (E : bytes → bytes) (nonce : bytes) (ctr : Z) (m : bytes) : bytes :=
  let ks := keystream E nonce (S (length m / 16)) ctr in
  imap (λ i b, b ⊕ ks !!! i) m.

(** The sixteen-byte tag over a ciphertext, with no additional data. *)
Definition gcm_tag (E : bytes → bytes) (nonce ct : bytes) : bytes :=
  let h := be_combine (E (replicate 16 x00)) in
  let lens := be_split 8 0 ++ be_split 8 (8 * Z.of_nat (length ct)) in
  let s := ghash h (chunk16 (length ct) ct ++ [lens]) in
  ctr_xor E nonce 1 (be_split 16 s).

Definition gcmTagSize : nat := 16.

(** [gcm.Seal(nil, nonce, plaintext, nil)] *)
Definition gcm_Seal (E : bytes → bytes) (nonce pt : bytes) : bytes :=
  let ct := ctr_xor E nonce 2 pt in ct ++ gcm_tag E nonce ct.

(** [gcm.Open(nil, nonce, ciphertext, nil)]; [None] is authentication failure. *)
Definition gcm_Open (E : bytes → bytes) (nonce sealed : bytes) : option bytes :=
  if length sealed <? gcmTagSize then None
  else
    let ct := take (length sealed - gcmTagSize) sealed in
    let tag := drop (length sealed - gcmTagSize) sealed in
    if bool_decide (tag = gcm_tag E nonce ct) then Some (ctr_xor E nonce 2 ct) else None.

(** Vectors 13 and 14 of the GCM specification. *)
Example gcm_vector_13 :
  be_combine (gcm_Seal (aes_encrypt (replicate 32 x00)) (replicate 12 x00) []) =
  0x530f8afbc74536b9a963b4f1c4cb738b%Z.
Proof. vm_compute. reflexivity. Qed.
Example gcm_vector_14 :
  be_combine (gcm_Seal (aes_encrypt (replicate 32 x00)) (replicate 12 x00) (replicate 16 x00)) =
  0xcea7403d4d606b6e074ec5d3baf39d18d0d1c8a799996bf0265b98b5d48ab919%Z.
Proof. vm_compute. reflexivity. Qed.

Lemma length_ctr_xor E nonce ctr m : length (ctr_xor E nonce ctr m) = length m.
Proof. apply length_imap. Qed.
Lemma ctr_xor_involutive E nonce ctr m : ctr_xor E nonce ctr (ctr_xor E nonce ctr m) = m.
Proof.
  rw {1}/ctr_xor length_ctr_xor /ctr_xor imap_imap. apply imap_id. intros. apply bxor_cancel.
Qed.
Lemma length_gcm_tag E nonce ct : length (gcm_tag E nonce ct) = gcmTagSize.
Proof. by rw length_ctr_xor length_be_split. Qed.
Lemma length_gcm_Seal E nonce pt : length (gcm_Seal E nonce pt) = length pt + gcmTagSize.
Proof. by rw length_app length_gcm_tag length_ctr_xor. Qed.

Lemma gcm_Open_Seal E nonce pt : gcm_Open E nonce (gcm_Seal E nonce pt) = Some pt.
Proof.
  rw /gcm_Open length_gcm_Seal. destruct (Nat.ltb_spec (length pt + gcmTagSize) gcmTagSize); [lia|].
  rw Nat.add_sub -(length_ctr_xor E nonce 2 pt) take_app_length drop_app_length.
  rw bool_decide_eq_true_2 // ctr_xor_involutive //.
Qed.

(** What [Open] accepts is what [Seal] produces: a sealed text is determined by
    its plaintext. *)
Lemma gcm_Open_Some E nonce sealed pt :
  gcm_Open E nonce sealed = Some pt → sealed = gcm_Seal E nonce pt.
Proof.
  rw /gcm_Open. destruct (length sealed <? gcmTagSize); [done|]. case_bool_decide as Ht; [|done].
  intros [= <-]. rw /gcm_Seal ctr_xor_involutive -Ht take_drop //.
Qed.

(** The cipher is used through the lemmas above and by evaluation only. *)
#[global] Opaque aes_encrypt ctr_xor gcm_tag gcm_Seal gcm_Open.
