(* ===== verification/Ciphertext.v ===== *)
(** [src/internal/crypto]: AES-256-GCM with a random nonce in front
    ([EncryptGCM]/[DecryptGCM]), the self-routing versioned ciphertext
    [version (4, BE) | nonce (12) | ciphertext+tag], the cipher suites, and the
    envelope helper [GenerateDataKey]. *)

From S2P Require Import Prelude GF256 SecureBuffer Hash AesGcm.

Definition gcmNonceSize : nat := 12.
Definition gcmKeySize : nat := 32.
Definition VersionPrefixSize : nat := 4.
Definition NonceSize : nat := 12.
Definition MinCiphertextSize : nat := VersionPrefixSize + NonceSize + 16.

Definition ErrCiphertextTooShort : error := Err_new "crypto: ciphertext too short".
Definition errKeyRequired : error := Err_new "crypto: key SecureBuffer must not be nil".
Definition errKeySize : error := Err_new "crypto: invalid AES key size".

(** The AEAD built inside the key closure: the key size check, then
    [aes.NewCipher] and [cipher.NewGCM], which cannot fail on 32 bytes. *)
Definition aes_block_of (secret : bytes) : result (bytes → bytes) :=
  if negb (length secret =? gcmKeySize) then Error errKeySize else Ok (aes_encrypt secret).

(** ** gcm.go *)
Definition EncryptGCM (key : SecureBuffer) (plaintext : bytes) : M entropy bytes :=
  nonce ← wrapM "crypto: generate nonce" (GenerateSecureRandom (Z.of_nat gcmNonceSize));
  ciphertext ← WithKey key (λ secret,
    E ← lift (aes_block_of secret); mret (gcm_Seal E nonce plaintext));
  mret (nonce ++ ciphertext).

(** [gcm.Open] with a nil destination returns a nil slice for an empty
    plaintext, which the check after the closure turns into an error. *)
Definition DecryptGCM (key : SecureBuffer) (ciphertext : bytes) : result SecureBuffer :=
  if length ciphertext <? gcmNonceSize then Error (Err_new "crypto: ciphertext too short")
  else
    let nonce := take gcmNonceSize ciphertext in
    let ct := drop gcmNonceSize ciphertext in
    plaintext ← wrap_err "crypto: decrypt failed" (WithKeyR key (λ secret,
      E ← aes_block_of secret;
      match gcm_Open E nonce ct with
      | Some pt => Ok pt
      | None => Error (Err_new "cipher: message authentication failed")
      end));
    match plaintext with
    | [] => Error (Err_new "crypto: decrypt succeeded but plaintext is nil (internal error)")
    | _ => Ok (NewSecureBuffer plaintext).1
    end.

(** ** versioned_ciphertext.go *)
Definition EncodeVersionedCiphertext (version : Z) (nonce ciphertext : bytes) : bytes :=
  be_split VersionPrefixSize version ++ nonce ++ ciphertext.

Definition DecodeVersionedCiphertext (raw : bytes) : result (Z * bytes * bytes) :=
  if length raw <? MinCiphertextSize then Error (Err_wrap "got too few bytes" ErrCiphertextTooShort)
  else Ok (be_combine (take VersionPrefixSize raw),
           take NonceSize (drop VersionPrefixSize raw),
           drop (VersionPrefixSize + NonceSize) raw).

Definition ExtractVersion (raw : bytes) : result Z :=
  if length raw <? VersionPrefixSize then Error (Err_wrap "cannot extract version" ErrCiphertextTooShort)
  else Ok (be_combine (take VersionPrefixSize raw)).

(** ** versioned_encrypt.go *)
Definition SafeUint32 (v : Z) : Z :=
  if bool_decide (v < 0)%Z || bool_decide (4294967295 < v)%Z then 0%Z else v.

(** The buffer starts as the version, the nonce is appended, then [Seal]
    appends the ciphertext in place. *)
Definition EncryptVersioned (key : SecureBuffer) (version : Z) (plaintext : bytes) : M entropy bytes :=
  nonce ← wrapM "crypto: generate nonce" (GenerateSecureRandom (Z.of_nat gcmNonceSize));
  WithKey key (λ secret,
    E ← lift (aes_block_of secret);
    let out := be_split VersionPrefixSize version in
    let out := out ++ nonce in
    mret (out ++ gcm_Seal E nonce plaintext)).

Definition DecryptVersioned (key : SecureBuffer) (raw : bytes) : result (SecureBuffer * Z) :=
  '(version, nonce, ciphertext) ← DecodeVersionedCiphertext raw;
  plaintext ← WithKeyR key (λ secret,
    E ← aes_block_of secret;
    match gcm_Open E nonce ciphertext with
    | Some pt => Ok (NewSecureBuffer pt).1
    | None => Error (Err_wrap "crypto: gcm.Open" (Err_new "cipher: message authentication failed"))
    end);
  Ok (plaintext, version).

(** ** suite.go, suite_standard.go, suite_gmsm.go *)
Record Cipher : Type := {
  cipher_Encrypt : SecureBuffer → bytes → M entropy bytes;
  cipher_Decrypt : SecureBuffer → bytes → result SecureBuffer;
  cipher_KeySize : Z;
  cipher_Name : string;
}.

Definition StandardCipher : Cipher := {|
  cipher_Encrypt := EncryptGCM;
  cipher_Decrypt := DecryptGCM;
  cipher_KeySize := 32;
  cipher_Name := "aes-256-gcm";
|}.

(** SM4 is the third-party block cipher [tjfoc/gmsm/sm4], a parameter: the block
    function of a 16-byte key. *)
Definition GMSM_Encrypt (sm4 : bytes → bytes → bytes) (key : SecureBuffer) (plaintext : bytes) :
    M entropy bytes :=
  WithKey key (λ k,
    if length k <? 16 then throw (Err_new "crypto: SM4 key must be 16 bytes")
    else
      nonce ← GenerateSecureRandom 12;
      mret (nonce ++ gcm_Seal (sm4 (take 16 k)) nonce plaintext)).

Definition GMSM_Decrypt (sm4 : bytes → bytes → bytes) (key : SecureBuffer) (ciphertext : bytes) :
    result SecureBuffer :=
  pt ← WithKeyR key (λ k,
    if length k <? 16 then Error (Err_new "crypto: SM4 key must be 16 bytes")
    else if length ciphertext <=? 12 then Error (Err_new "crypto: SM4 ciphertext too short")
    else match gcm_Open (sm4 (take 16 k)) (take 12 ciphertext) (drop 12 ciphertext) with
         | Some pt => Ok pt
         | None => Error (Err_new "cipher: message authentication failed")
         end);
  Ok (NewSecureBuffer pt).1.

Definition GMSMCipher (sm4 : bytes → bytes → bytes) : Cipher := {|
  cipher_Encrypt := GMSM_Encrypt sm4;
  cipher_Decrypt := GMSM_Decrypt sm4;
  cipher_KeySize := 16;
  cipher_Name := "sm4-gcm";
|}.

(** [NewSuite]: the cipher of the named suite; the gmsm suite exists only in
    builds tagged [gmsm], where it has an SM4 implementation. *)
Definition NewSuite (gmsm : option (bytes → bytes → bytes)) (suite : string) : result Cipher :=
  if bool_decide (suite = "standard") || bool_decide (suite = "") then Ok StandardCipher
  else if bool_decide (suite = "gmsm") then
    match gmsm with
    | Some sm4 => Ok (GMSMCipher sm4)
    | None => Error (Err_new "crypto: GM (SM2/SM3/SM4) support not compiled in (rebuild with -tags gmsm)")
    end
  else Error (Err_new "crypto: unsupported suite").

(** ** envelope.go *)
Definition encryptDEK (masterKey dek : SecureBuffer) : M entropy bytes :=
  WithKey dek (λ plaintext, EncryptGCM masterKey plaintext).

Definition GenerateDataKey (masterKey : option SecureBuffer) : M entropy (SecureBuffer * bytes) :=
  match masterKey with
  | None => throw errKeyRequired
  | Some masterKey =>
      plaintextDEK ← wrapM "crypto: generate DEK" (NewSecureBufferFromRandom 32);
      encryptedDEK ← wrapM "crypto: encrypt DEK" (encryptDEK masterKey plaintextDEK);
      mret (plaintextDEK, encryptedDEK)
  end.

(** ** Shapes of the ciphertexts *)
Lemma aes_block_of_ok secret E :
  aes_block_of secret = Ok E ↔ length secret = gcmKeySize ∧ E = aes_encrypt secret.
Proof.
  rw /aes_block_of. destruct (Nat.eqb_spec (length secret) gcmKeySize); simpl; naive_solver.
Qed.

Lemma random_nonce e e' n :
  GenerateSecureRandom (Z.of_nat gcmNonceSize) e = (e', Ok n) → e = n ++ e' ∧ length n = gcmNonceSize.
Proof. intros (-> & Hl & _)%GenerateSecureRandom_ok. split; [done|lia]. Qed.

Lemma EncryptGCM_ok key pt e e' ct : EncryptGCM key pt e = (e', Ok ct) ↔
  live key ∧ length (sb_data key) = gcmKeySize ∧ ∃ nonce, length nonce = gcmNonceSize ∧
  e = nonce ++ e' ∧ ct = nonce ++ gcm_Seal (aes_encrypt (sb_data key)) nonce pt.
Proof.
  split.
  - rw /EncryptGCM. intros H. inv_M. rw /WithKey in Hm0. destruct (sb_destroyed key) eqn:Hd; [done|].
    inv_M. apply aes_block_of_ok in Hm1 as [Hl ->].
    apply random_nonce in Hm as [-> Hn]. eauto 10.
  - intros (Hl & Hk & nonce & Hn & -> & ->). rw /EncryptGCM /mbind /M_bind /wrapM.
    rw GenerateSecureRandom_total; [rw length_app Hn; lia|].
    rw Nat2Z.id -Hn take_app_length drop_app_length /= WithKey_live //.
    by rw /lift (proj2 (aes_block_of_ok _ _) (conj Hk eq_refl)).
Qed.

Lemma EncryptVersioned_ok key v pt e e' ct : EncryptVersioned key v pt e = (e', Ok ct) ↔
  live key ∧ length (sb_data key) = gcmKeySize ∧ ∃ nonce, length nonce = gcmNonceSize ∧
  e = nonce ++ e' ∧
  ct = be_split VersionPrefixSize v ++ nonce ++ gcm_Seal (aes_encrypt (sb_data key)) nonce pt.
Proof.
  split.
  - rw /EncryptVersioned. intros H. inv_M. rw /WithKey in H. destruct (sb_destroyed key) eqn:Hd; [done|].
    inv_M. apply aes_block_of_ok in Hm0 as [Hl ->].
    apply random_nonce in Hm as [-> Hn]. do 2 (split; [done|]).
    eexists. split_and!; [done|done|]. by rw app_assoc.
  - intros (Hl & Hk & nonce & Hn & -> & ->). rw /EncryptVersioned /mbind /M_bind /wrapM.
    rw GenerateSecureRandom_total; [rw length_app Hn; lia|].
    rw Nat2Z.id -Hn take_app_length drop_app_length /= WithKey_live //.
    by rw /lift (proj2 (aes_block_of_ok _ _) (conj Hk eq_refl)) app_assoc.
Qed.

Lemma Decode_Encode v nonce ct : (0 ≤ v < 2 ^ 32)%Z → length nonce = NonceSize → 16 ≤ length ct →
  DecodeVersionedCiphertext (EncodeVersionedCiphertext v nonce ct) = Ok (v, nonce, ct).
Proof.
  intros Hv Hn Hc. rw /DecodeVersionedCiphertext /EncodeVersionedCiphertext.
  pose proof (length_be_split VersionPrefixSize v) as Hs. set (p := be_split _ _) in *.
  destruct (Nat.ltb_spec (length (p ++ nonce ++ ct)) MinCiphertextSize) as [H|_].
  { rw !length_app Hs Hn /MinCiphertextSize in H. lia. }
  rw (take_app_length' p) // (drop_app_length' p) // (take_app_length' nonce) //.
  rw -drop_drop (drop_app_length' p) // (drop_app_length' nonce) // be_combine_split Z.mod_small //.
Qed.

Lemma ExtractVersion_app v rest : (0 ≤ v < 2 ^ 32)%Z →
  ExtractVersion (be_split VersionPrefixSize v ++ rest) = Ok v.
Proof.
  intros Hv. rw /ExtractVersion. pose proof (length_be_split VersionPrefixSize v) as Hs.
  destruct (Nat.ltb_spec (length (be_split VersionPrefixSize v ++ rest)) VersionPrefixSize) as [H|_].
  { rw length_app in H. lia. }
  rw (take_app_length' (be_split VersionPrefixSize v)) // be_combine_split Z.mod_small //.
Qed.

Lemma Decode_ok raw v nonce ct : DecodeVersionedCiphertext raw = Ok (v, nonce, ct) →
  raw = EncodeVersionedCiphertext v nonce ct ∧ (0 ≤ v < 2 ^ 32)%Z ∧
  length nonce = NonceSize ∧ 16 ≤ length ct.
Proof.
  rw /DecodeVersionedCiphertext /EncodeVersionedCiphertext.
  destruct (Nat.ltb_spec (length raw) MinCiphertextSize) as [|Hl]; [done|]. intros E.
  assert (v = be_combine (take VersionPrefixSize raw) ∧
          nonce = take NonceSize (drop VersionPrefixSize raw) ∧
          ct = drop (VersionPrefixSize + NonceSize) raw) as (-> & -> & ->) by (split_and!; congruence).
  clear E. rw /MinCiphertextSize in Hl.
  assert (length (take VersionPrefixSize raw) = VersionPrefixSize) as Ht.
  { rw length_take. lia. }
  split_and!.
  - assert (be_split VersionPrefixSize (be_combine (take VersionPrefixSize raw)) =
            take VersionPrefixSize raw) as ->.
    { pose proof (be_split_combine (take VersionPrefixSize raw)) as H. by rw Ht in H. }
    assert (drop (VersionPrefixSize + NonceSize) raw = drop NonceSize (drop VersionPrefixSize raw)) as ->
      by (by rw drop_drop).
    by rw !take_drop.
  - apply be_combine_range.
  - pose proof (be_combine_range (take VersionPrefixSize raw)) as H. rw Ht in H. apply H.
  - rw length_take length_drop. lia.
  - rw length_drop. lia.
Qed.

Lemma DecryptVersioned_ok key raw sb v :
  DecryptVersioned key raw = Ok (sb, v) ↔
  live key ∧ length (sb_data key) = gcmKeySize ∧ live sb ∧ (0 ≤ v < 2 ^ 32)%Z ∧
  ∃ nonce, length nonce = gcmNonceSize ∧
    raw = EncodeVersionedCiphertext v nonce (gcm_Seal (aes_encrypt (sb_data key)) nonce (sb_data sb)).
Proof.
  split.
  - rw /DecryptVersioned. intros H. apply result_bind_ok in H as ([[v' nonce] ct] & Hd & H).
    apply result_bind_ok in H as (sb' & Hk & H). simplify_eq.
    rw /WithKeyR in Hk. destruct (sb_destroyed key) eqn:Hdk; [done|].
    apply result_bind_ok in Hk as (E & HE & Ho). apply aes_block_of_ok in HE as [? ->].
    destruct (gcm_Open _ _ _) as [pt|] eqn:Hopen; simplify_eq. apply gcm_Open_Some in Hopen as ->.
    apply Decode_ok in Hd as (-> & ? & ? & ?). split_and!; [done|done|done|lia|lia|by exists nonce].
  - intros (Hk & Hkl & Hsb & Hv & nonce & Hn & ->). rw /DecryptVersioned Decode_Encode //.
    { rw length_gcm_Seal /gcmTagSize. lia. }
    rw /= WithKeyR_live // (proj2 (aes_block_of_ok _ _) (conj Hkl eq_refl)) /= gcm_Open_Seal /=.
    by destruct sb as [d []].
Qed.

Lemma DecryptGCM_nonce key nonce pt : live key → length (sb_data key) = gcmKeySize →
  length nonce = gcmNonceSize → pt ≠ [] →
  DecryptGCM key (nonce ++ gcm_Seal (aes_encrypt (sb_data key)) nonce pt) = Ok (mkSB pt false).
Proof.
  intros Hk Hkl Hn Hpt. rw /DecryptGCM.
  destruct (Nat.ltb_spec (length (nonce ++ gcm_Seal (aes_encrypt (sb_data key)) nonce pt)) gcmNonceSize) as [H|_].
  { rw length_app in H. lia. }
  rw WithKeyR_live // (proj2 (aes_block_of_ok _ _) (conj Hkl eq_refl)) /=.
  rw (take_app_length' nonce) // (drop_app_length' nonce) // gcm_Open_Seal /=. by destruct pt.
Qed.

(** ** Theorems *)
(** A concrete 256-bit key, used by the witnesses. *)
Definition demo_key : SecureBuffer := mkSB (z2b ∘ Z.of_nat <$> seq 1 32) false.
Definition demo_entropy (n : nat) : entropy := (λ i, z2b (Z.of_nat (7 * i + 3))) <$> seq 0 n.

(** What [EncryptVersioned] produces, [DecryptVersioned] opens under the same
    key to the same plaintext (the empty one included) and the same version, and
    the output is never shorter than [MinCiphertextSize]. *)
Theorem Versioned_roundtrip key v pt e e' ct :
  (0 ≤ v < 2 ^ 32)%Z → EncryptVersioned key v pt e = (e', Ok ct) →
  DecryptVersioned key ct = Ok (mkSB pt false, v) ∧ ExtractVersion ct = Ok v ∧
  length ct = MinCiphertextSize + length pt.
Proof.
  intros Hv (Hk & Hl & nonce & Hn & -> & ->)%EncryptVersioned_ok. split_and!.
  - apply DecryptVersioned_ok. split_and!; [done|done|done|lia|lia|by exists nonce].
  - by apply ExtractVersion_app.
  - rw length_app length_app length_be_split Hn length_gcm_Seal.
    rw /MinCiphertextSize /gcmTagSize /gcmNonceSize /NonceSize. lia.
Qed.

Lemma Versioned_roundtrip_witness :
  ∃ ct, EncryptVersioned demo_key 7 [x68; x69] (demo_entropy 12) = ([], Ok ct) ∧
  DecryptVersioned demo_key ct = Ok (mkSB [x68; x69] false, 7%Z) ∧ ExtractVersion ct = Ok 7%Z ∧
  length ct = MinCiphertextSize + 2.
Proof.
  eexists. split; [vm_compute; reflexivity|].
  apply (Versioned_roundtrip demo_key 7 [x68; x69] (demo_entropy 12) []); [lia|].
  vm_compute. reflexivity.
Defined.

(** [EncryptVersioned] is the composition it optimises: on every key, plaintext
    and entropy (errors and panics included) it returns what [EncryptGCM]
    followed by [EncodeVersionedCiphertext] of the nonce and the body returns. *)
Theorem EncryptVersioned_reference key v pt e :
  EncryptVersioned key v pt e =
  (ct ← EncryptGCM key pt;
   mret (EncodeVersionedCiphertext v (take gcmNonceSize ct) (drop gcmNonceSize ct))) e.
Proof.
  rw /EncryptVersioned /EncryptGCM /EncodeVersionedCiphertext /mbind /M_bind /wrapM.
  destruct (GenerateSecureRandom _ e) as [e1 [nonce| |]] eqn:Hr; simpl; [|done..].
  apply random_nonce in Hr as [_ Hn]. rw /WithKey. destruct (sb_destroyed key); [done|].
  rw /lift. destruct (aes_block_of (sb_data key)) as [E| |]; [|done..]. simpl.
  rw take_app_length'; [done|]. rw drop_app_length'; [done|]. by rw /mret /M_ret app_assoc.
Qed.

(** [EncryptGCM] then [DecryptGCM] under the same key returns the plaintext,
    except that an empty plaintext encrypts but can never be decrypted. *)
Theorem GCM_roundtrip key pt e e' ct :
  EncryptGCM key pt e = (e', Ok ct) →
  match pt with
  | [] => ∃ err, DecryptGCM key ct = Error err
  | _ => DecryptGCM key ct = Ok (mkSB pt false)
  end.
Proof.
  intros (Hk & Hl & nonce & Hn & -> & ->)%EncryptGCM_ok.
  destruct pt as [|b pt]; [|by apply DecryptGCM_nonce].
  rw /DecryptGCM. rw length_app Hn /=. rw WithKeyR_live //.
  rw (proj2 (aes_block_of_ok _ _) (conj Hl eq_refl)) /=.
  rw (take_app_length' nonce) // (drop_app_length' nonce) // gcm_Open_Seal /=. eauto.
Qed.

Lemma GCM_roundtrip_witness :
  ∃ ct, EncryptGCM demo_key [x68] (demo_entropy 12) = ([], Ok ct) ∧
  DecryptGCM demo_key ct = Ok (mkSB [x68] false).
Proof.
  eexists. split; [vm_compute; reflexivity|].
  apply (GCM_roundtrip demo_key [x68] (demo_entropy 12) []). vm_compute. reflexivity.
Defined.

(** Decryption is exact: whatever [DecryptVersioned] accepts under a key is,
    byte for byte, a ciphertext of the returned plaintext under that key, some
    nonce and the returned version; and the version prefix is outside the
    authenticated part, so replacing it changes the reported version only. *)
Theorem DecryptVersioned_exact key raw sb v :
  DecryptVersioned key raw = Ok (sb, v) →
  (∃ nonce, length nonce = gcmNonceSize ∧
     raw = be_split VersionPrefixSize v ++ nonce ++
           gcm_Seal (aes_encrypt (sb_data key)) nonce (sb_data sb)) ∧
  ∀ v', (0 ≤ v' < 2 ^ 32)%Z →
    DecryptVersioned key (be_split VersionPrefixSize v' ++ drop VersionPrefixSize raw) = Ok (sb, v').
Proof.
  intros (Hk & Hkl & Hsb & Hv & nonce & Hn & ->)%DecryptVersioned_ok. split; [by exists nonce|].
  intros v' Hv'. apply DecryptVersioned_ok. split_and!; [done|done|done|lia|lia|].
  exists nonce. split; [done|]. rw /EncodeVersionedCiphertext.
  by rw (drop_app_length' (be_split VersionPrefixSize v)) ?length_be_split.
Qed.

Lemma DecryptVersioned_exact_witness :
  ∃ raw, DecryptVersioned demo_key raw = Ok (mkSB [x68] false, 1%Z) ∧
  DecryptVersioned demo_key (be_split VersionPrefixSize 2 ++ drop VersionPrefixSize raw)
    = Ok (mkSB [x68] false, 2%Z).
Proof.
  exists (match (EncryptVersioned demo_key 1 [x68] (demo_entropy 12)).2 with Ok c => c | _ => [] end).
  split; [vm_compute; reflexivity|].
  apply (DecryptVersioned_exact demo_key _ (mkSB [x68] false) 1); [vm_compute; reflexivity|lia].
Defined.
