(* ===== verification/Kek.v ===== *)
(** Key-encryption keys, [src/internal/seal/kek.go]: the [KEK] interface that the
    lifecycle layer wraps data keys with, its software implementation over a
    cipher suite and its HSM implementation over a [CryptoBackend], and the law
    every implementation owes its clients. *)

From S2P Require Import Prelude GF256 SecureBuffer Hash AesGcm Ciphertext.

Inductive KEKType : Type := KEKTypeSoftware | KEKTypeHSM.
#[export] Instance KEKType_eq_dec : EqDecision KEKType.
Proof. solve_decision. Defined.
(** [string(kek.Type())] *)
Definition KEKType_string (t : KEKType) : string :=
  match t with KEKTypeSoftware => "software" | KEKTypeHSM => "hsm" end.

(** The interface; [kek_KeySize] is present when the value also implements
    [KEKWithKeySize]. *)
Record KEK : Type := {
  kek_WrapDEK : SecureBuffer → M entropy bytes;
  kek_UnwrapDEK : bytes → result SecureBuffer;
  kek_Type : KEKType;
  kek_KeySize : option Z;
}.

(** [NewSoftwareKEKWithSuite]; [NewSoftwareKEK] is the standard suite. *)
Definition softwareKEK (cipher : Cipher) (cmk : SecureBuffer) : KEK := {|
  kek_WrapDEK plaintextDEK := WithKey plaintextDEK (λ dek, cipher_Encrypt cipher cmk dek);
  kek_UnwrapDEK ciphertext := cipher_Decrypt cipher cmk ciphertext;
  kek_Type := KEKTypeSoftware;
  kek_KeySize := Some (cipher_KeySize cipher);
|}.
Definition NewSoftwareKEK (cmk : SecureBuffer) : KEK := softwareKEK StandardCipher cmk.

(** The hardware module: outside the process, known only through its calls. *)
Record CryptoBackend : Type := {
  hsm_Wrap : bytes → M entropy bytes;
  hsm_Unwrap : bytes → result bytes;
}.
Definition hsmKEK (backend : CryptoBackend) : KEK := {|
  kek_WrapDEK plaintextDEK := WithKey plaintextDEK (hsm_Wrap backend);
  kek_UnwrapDEK ciphertext :=
    pt ← wrap_err "seal: hsm kek unwrap" (hsm_Unwrap backend ciphertext);
    Ok (NewSecureBuffer pt).1;
  kek_Type := KEKTypeHSM;
  kek_KeySize := None;
|}.

(** lifecycle/manager.go: the data-key length and algorithm a KEK asks for. *)
Definition dekSizeFromKEK (kek : KEK) : Z := default 32%Z (kek_KeySize kek).
Definition algorithmFromKEK (kek : KEK) : string :=
  match kek_KeySize kek with
  | Some size => if bool_decide (size = 16)%Z then "sm4-gcm" else "aes-256-gcm"
  | None => "aes-256-gcm"
  end.

(** What the lifecycle layer relies on: a wrapped non-empty key unwraps to itself,
    at any later time, into a live buffer. *)
Class LawfulKEK (kek : KEK) : Prop := {
  kek_roundtrip sb e e' ct :
    sb_data sb ≠ [] → kek_WrapDEK kek sb e = (e', Ok ct) →
    kek_UnwrapDEK kek ct = Ok (mkSB (sb_data sb) false);
  kek_size_pos : (0 < dekSizeFromKEK kek)%Z;
}.

(** The same law for a cipher under a given key. *)
Class LawfulCipher (c : Cipher) : Prop := {
  cipher_roundtrip key pt e e' ct :
    pt ≠ [] → cipher_Encrypt c key pt e = (e', Ok ct) →
    cipher_Decrypt c key ct = Ok (mkSB pt false);
  cipher_size_pos : (0 < cipher_KeySize c)%Z;
}.

#[export] Instance StandardCipher_lawful : LawfulCipher StandardCipher.
Proof.
  split; [|done]. intros key pt e e' ct Hpt (Hk & Hl & nonce & Hn & -> & ->)%EncryptGCM_ok.
  by apply DecryptGCM_nonce.
Qed.

#[export] Instance GMSMCipher_lawful sm4 : LawfulCipher (GMSMCipher sm4).
Proof.
  split; [|done]. simpl. rw /GMSM_Encrypt /GMSM_Decrypt /WithKey /WithKeyR. intros key pt e e' ct Hpt.
  destruct (sb_destroyed key); [done|]. destruct (length (sb_data key) <? 16); [done|].
  intros H. inv_M. apply GenerateSecureRandom_ok in Hm as (-> & Hn & _).
  destruct (Nat.leb_spec (length (a ++ gcm_Seal (sm4 (take 16 (sb_data key))) a pt)) 12) as [Hlen|_].
  { rw length_app length_gcm_Seal /gcmTagSize in Hlen. lia. }
  rw take_app_length'; [lia|]. rw drop_app_length'; [lia|]. by rw gcm_Open_Seal.
Qed.

#[export] Instance softwareKEK_lawful c cmk : LawfulCipher c → LawfulKEK (softwareKEK c cmk).
Proof.
  intros Hc. split; [|apply cipher_size_pos]. intros sb e e' ct Hne H. simpl in *.
  rw /WithKey in H. destruct (sb_destroyed sb); [done|]. by eapply cipher_roundtrip.
Qed.

(** The law of the hardware module itself, as documented: [Unwrap] inverts [Wrap]. *)
Class LawfulBackend (b : CryptoBackend) : Prop :=
  backend_roundtrip pt e e' ct : hsm_Wrap b pt e = (e', Ok ct) → hsm_Unwrap b ct = Ok pt.

#[export] Instance hsmKEK_lawful b : LawfulBackend b → LawfulKEK (hsmKEK b).
Proof.
  intros Hb. split; [|done]. intros sb e e' ct Hne H. simpl in *.
  rw /WithKey in H. destruct (sb_destroyed sb); [done|]. by rw (Hb _ _ _ _ H).
Qed.

(** Both software suites and any lawful HSM give a lawful KEK: a wrapped
    non-empty data key unwraps to itself; stated for the standard suite, the GM
    suite over any SM4 block function, and the HSM. *)
Theorem KEK_unwrap_wrap sm4 backend cmk kek sb e e' ct :
  LawfulBackend backend →
  kek = NewSoftwareKEK cmk ∨ kek = softwareKEK (GMSMCipher sm4) cmk ∨ kek = hsmKEK backend →
  sb_data sb ≠ [] → kek_WrapDEK kek sb e = (e', Ok ct) →
  kek_UnwrapDEK kek ct = Ok (mkSB (sb_data sb) false).
Proof.
  intros Hb Hk. assert (LawfulKEK kek) by (destruct Hk as [-> | [-> | ->]]; apply _).
  intros Hne Hw. by eapply kek_roundtrip.
Qed.

(** A module that keeps the key in the clear, to instantiate the law. *)
Definition demo_backend : CryptoBackend := {| hsm_Wrap pt := mret (x48 :: pt); hsm_Unwrap ct := Ok (tail ct) |}.
Lemma KEK_unwrap_wrap_witness :
  ∃ ct, kek_WrapDEK (NewSoftwareKEK demo_key) (mkSB [x01; x02] false) (demo_entropy 12) = ([], Ok ct) ∧
  kek_UnwrapDEK (NewSoftwareKEK demo_key) ct = Ok (mkSB [x01; x02] false).
Proof.
  eexists. split; [vm_compute; reflexivity|].
  apply (KEK_unwrap_wrap (λ _ b, b) demo_backend demo_key _ (mkSB [x01; x02] false) (demo_entropy 12) []).
  - intros pt e e' ct H. by injection H as _ <-.
  - by left.
  - done.
  - vm_compute. reflexivity.
Defined.
