(* ===== verification/Hsm.v ===== *)
(** Hardware security modules: the mock of [src/internal/seal/hsm_unsealer.go], the PKCS#11
    driver of [hsm_pkcs11.go], and the choice between them by build tag ([hsm_stub.go],
    [hsm_mock.go], [hsm_pkcs11_build.go]). The token behind crypto11 is a class with the
    documented behaviour of its calls. *)

From S2P Require Import Prelude SecureBuffer Hash AesGcm Ciphertext Kek.

(** ** The mock: a random AES-256 key in the process *)
Definition MockHSMBackend : Type := bytes.
Definition NewMockHSMBackend : M entropy MockHSMBackend := wrapM "seal: mock HSM generate key" (GenerateSecureRandom 32).
(** [aes.NewCipher] accepts the three AES key sizes; the mock's key has 32 bytes. *)
Definition MockWrap (m : MockHSMBackend) (plaintext : bytes) : M entropy bytes :=
  E ← wrapM "seal: mock HSM wrap" (lift (aes_block_of m));
  nonce ← wrapM "seal: mock HSM wrap nonce" (GenerateSecureRandom (Z.of_nat gcmNonceSize));
  mret (nonce ++ gcm_Seal E nonce plaintext).
Definition MockUnwrap (m : MockHSMBackend) (ciphertext : bytes) : result bytes :=
  E ← wrap_err "seal: mock HSM unwrap" (aes_block_of m);
  if length ciphertext <? gcmNonceSize then Error (Err_new "seal: mock HSM unwrap: ciphertext too short")
  else match gcm_Open E (take gcmNonceSize ciphertext) (drop gcmNonceSize ciphertext) with
       | Some plaintext => Ok plaintext
       | None => Error (Err_wrap "seal: mock HSM unwrap" (Err_new "cipher: message authentication failed"))
       end.
Definition MockClose (m : MockHSMBackend) : MockHSMBackend := clear m.
Definition mock_backend (m : MockHSMBackend) : CryptoBackend := {| hsm_Wrap := MockWrap m; hsm_Unwrap := MockUnwrap m |}.

(** ** crypto11 *)
(** An AEAD whose key is in the token, and a signing key: its public half and what the token
    signs. [Host] is everything behind the driver libraries, [Ctx] a configured session. *)
Record AEAD : Type := mkAEAD { aead_NonceSize : nat; aead_Seal : bytes → bytes → bytes; aead_Open : bytes → bytes → option bytes }.
Inductive public_key : Type := PubRSA (der : bytes) | PubECDSA (der : bytes) | PubOther (der : bytes).
Record signer : Type := mkSigner { sgn_Public : public_key; sgn_Sign : bytes → result bytes }.
Record secret_key : Type := mkSecretKey { sk_NewGCM : result AEAD }.
(** A token is found by its library and slot. *)
Definition token_id : Type := string * Z.
Class Crypto11 (Host Ctx : Type) : Type := {
  c11_Configure : string → Z → string → M Host Ctx;                 (* library, slot, PIN *)
  c11_Close : Ctx → M Host ();
  c11_FindKey : Ctx → bytes → M Host (option secret_key);
  c11_GenerateSecretKey : Ctx → bytes → Z → M Host secret_key;
  c11_GenerateRSAKeyPair : Ctx → bytes → Z → M Host signer;
  c11_GenerateECDSAKeyPair : Ctx → bytes → M Host signer;
  c11_FindKeyPair : Ctx → bytes → M Host (option signer);
  rsa_VerifyPKCS1v15 : bytes → bytes → bytes → bool;                (* key, digest, signature *)
  ecdsa_VerifyASN1 : bytes → bytes → bytes → bool;
  x509_MarshalPKIXPublicKey : public_key → result bytes;
  pem_PublicKey : bytes → bytes;
}.
(** What PKCS#11 promises. The objects of a token are its secret keys and its key pairs, by
    their id; a session works on the token of the library and slot it was configured with;
    opening and closing sessions and searching change no object; a search answers what the
    token holds; generating under an unused id adds that object and changes no other; the
    AEAD of a key inverts itself; an RSA or ECDSA signature verifies under the public half of
    its pair, and the generators make pairs of their type. Every call may also fail. *)
Class Crypto11Laws (Host Ctx : Type) `{!Crypto11 Host Ctx} : Type := {
  c11_token : Ctx → token_id;
  c11_keys : Host → token_id → bytes → option secret_key;
  c11_pairs : Host → token_id → bytes → option signer;
  c11_configure lib slot pin h h' r : c11_Configure lib slot pin h = (h', r) →
    c11_keys h' = c11_keys h ∧ c11_pairs h' = c11_pairs h ∧ ∀ ctx, r = Ok ctx → c11_token ctx = (lib, slot);
  c11_find ctx id h h' r : c11_FindKey ctx id h = (h', r) →
    c11_keys h' = c11_keys h ∧ c11_pairs h' = c11_pairs h ∧ ∀ o, r = Ok o → o = c11_keys h (c11_token ctx) id;
  c11_generate ctx id bits h h' k : c11_GenerateSecretKey ctx id bits h = (h', Ok k) → c11_keys h (c11_token ctx) id = None →
    c11_keys h' (c11_token ctx) id = Some k;
  c11_find_pair ctx id h h' r : c11_FindKeyPair ctx id h = (h', r) →
    c11_keys h' = c11_keys h ∧ c11_pairs h' = c11_pairs h ∧ ∀ o, r = Ok o → o = c11_pairs h (c11_token ctx) id;
  c11_generate_rsa ctx id bits h h' sg : c11_GenerateRSAKeyPair ctx id bits h = (h', Ok sg) → c11_pairs h (c11_token ctx) id = None →
    c11_pairs h' (c11_token ctx) id = Some sg ∧ ∃ k, sgn_Public sg = PubRSA k;
  c11_generate_ecdsa ctx id h h' sg : c11_GenerateECDSAKeyPair ctx id h = (h', Ok sg) → c11_pairs h (c11_token ctx) id = None →
    c11_pairs h' (c11_token ctx) id = Some sg ∧ ∃ k, sgn_Public sg = PubECDSA k;
  c11_gcm h tok id k a : c11_keys h tok id = Some k → sk_NewGCM k = Ok a →
    aead_NonceSize a > 0 ∧ ∀ nonce pt, length nonce = aead_NonceSize a → aead_Open a nonce (aead_Seal a nonce pt) = Some pt;
  c11_signer h tok id sg digest sig : c11_pairs h tok id = Some sg → sgn_Sign sg digest = Ok sig →
    match sgn_Public sg with
    | PubRSA k => rsa_VerifyPKCS1v15 k digest sig = true
    | PubECDSA k => ecdsa_VerifyASN1 k digest sig = true
    | PubOther _ => True
    end;
}.

Section PKCS11.
Context {Host Ctx : Type} `{!Crypto11 Host Ctx}.
(** ** hsm_pkcs11.go *)
Record pkcs11Backend : Type := mkP11 { p11_ctx : Ctx; p11_keyID : bytes; p11_key : option secret_key; p11_keyLen : Z }.
Definition P11Wrap (p : pkcs11Backend) (plaintext : bytes) : M entropy bytes :=
  match p11_key p with
  | None => throw (Err_new "seal: pkcs11: key not loaded")
  | Some key =>
      aead ← wrapM "seal: pkcs11: new GCM" (lift (sk_NewGCM key));
      nonce ← wrapM "seal: pkcs11: generate nonce" (GenerateSecureRandom (Z.of_nat (aead_NonceSize aead)));
      mret (nonce ++ aead_Seal aead nonce plaintext)
  end.
Definition P11Unwrap (p : pkcs11Backend) (ciphertext : bytes) : result bytes :=
  match p11_key p with
  | None => Error (Err_new "seal: pkcs11: key not loaded")
  | Some key =>
      aead ← wrap_err "seal: pkcs11: new GCM" (sk_NewGCM key);
      if length ciphertext <? aead_NonceSize aead then Error (Err_new "seal: pkcs11: ciphertext too short")
      else match aead_Open aead (take (aead_NonceSize aead) ciphertext) (drop (aead_NonceSize aead) ciphertext) with
           | Some plaintext => Ok plaintext
           | None => Error (Err_wrap "seal: pkcs11: GCM open" (Err_new "cipher: message authentication failed"))
           end
  end.
Definition p11_backend (p : pkcs11Backend) : CryptoBackend := {| hsm_Wrap := P11Wrap p; hsm_Unwrap := P11Unwrap p |}.
(** A step after which a failure closes the session. *)
Definition or_close {A} (ctx : Ctx) (m : M Host A) : M Host A :=
  r ← try_ m; match r with inl a => mret a | inr err => try_ (c11_Close ctx);; throw err end.
Definition NewPKCS11Backend (libPath : string) (slot : Z) (pin keyID : string) : M Host pkcs11Backend :=
  guardM (negb (bool_decide (libPath = ""))) (Err_new "seal: pkcs11: lib_path is required");;
  guardM (negb (bool_decide (pin = ""))) (Err_new "seal: pkcs11: pin is required");;
  guardM (negb (bool_decide (keyID = ""))) (Err_new "seal: pkcs11: key_id is required");;
  ctx ← wrapM "seal: pkcs11: configure" (c11_Configure libPath slot pin);
  key ← or_close ctx (wrapM "seal: pkcs11: find key" (c11_FindKey ctx (str_bytes keyID)));
  key ← match key with
        | Some key => mret key
        | None => or_close ctx (wrapM "seal: pkcs11: generate key" (c11_GenerateSecretKey ctx (str_bytes keyID) 256))
        end;
  mret (mkP11 ctx (str_bytes keyID) (Some key) 256).
Definition P11Close (p : pkcs11Backend) : M Host () := c11_Close (p11_ctx p).

Definition marshalPublicKey (pub : public_key) : result bytes :=
  der ← wrap_err "seal: pkcs11: marshal public key" (x509_MarshalPKIXPublicKey pub); Ok (pem_PublicKey der).
Definition GenerateSigningKey (p : pkcs11Backend) (keyID algo : string) : M Host bytes :=
  let id := str_bytes keyID in
  if bool_decide (algo = "rsa-2048") then
    sg ← wrapM "seal: pkcs11: generate RSA-2048" (c11_GenerateRSAKeyPair (p11_ctx p) id 2048); lift (marshalPublicKey (sgn_Public sg))
  else if bool_decide (algo = "rsa-4096") then
    sg ← wrapM "seal: pkcs11: generate RSA-4096" (c11_GenerateRSAKeyPair (p11_ctx p) id 4096); lift (marshalPublicKey (sgn_Public sg))
  else if bool_decide (algo = "ecdsa-p256") then
    sg ← wrapM "seal: pkcs11: generate ECDSA-P256" (c11_GenerateECDSAKeyPair (p11_ctx p) id); lift (marshalPublicKey (sgn_Public sg))
  else throw (Err_new "seal: pkcs11: unsupported signing algo").
Definition find_signer (p : pkcs11Backend) (keyID : string) : M Host signer :=
  sg ← wrapM "seal: pkcs11: find signing key" (c11_FindKeyPair (p11_ctx p) (str_bytes keyID));
  match sg with Some sg => mret sg | None => throw (Err_new "seal: pkcs11: signing key not found") end.
Definition HSMSign (p : pkcs11Backend) (keyID : string) (data : bytes) : M Host bytes :=
  sg ← find_signer p keyID; wrapM "seal: pkcs11: HSM sign" (lift (sgn_Sign sg (sha256 data))).
Definition HSMGetPublicKey (p : pkcs11Backend) (keyID : string) : M Host bytes :=
  sg ← find_signer p keyID; lift (marshalPublicKey (sgn_Public sg)).
Definition HSMVerify (p : pkcs11Backend) (keyID : string) (data signature : bytes) : M Host bool :=
  sg ← find_signer p keyID;
  match sgn_Public sg with
  | PubRSA key => mret (rsa_VerifyPKCS1v15 key (sha256 data) signature)
  | PubECDSA key => mret (ecdsa_VerifyASN1 key (sha256 data) signature)
  | PubOther _ => throw (Err_new "seal: pkcs11: unsupported public key type")
  end.

(** ** The backend of a build *)
Inductive hsm_tags : Type := NoHSM | HSMMock | HSMPKCS11.
Record HSMConfig : Type := mkHSMConfig { hc_Backend : string; hc_KeyID : string; hc_LibPath : string; hc_Slot : Z; hc_PIN : string }.
Definition BuildHSMBackend (tags : hsm_tags) (cfg : HSMConfig) : M (entropy * Host) CryptoBackend := fun '(e, t) =>
  let mock := let '(e, r) := NewMockHSMBackend e in ((e, t), k ← r; Ok (mock_backend k)) in
  match tags with
  | NoHSM => ((e, t), Error (Err_new "seal: HSM support not compiled in (rebuild with -tags hsm)"))
  | HSMMock => if bool_decide (hc_Backend cfg ∈ ["mock"; ""]) then mock
               else ((e, t), Error (Err_new "seal: unsupported hsm backend (rebuild with -tags 'hsm,pkcs11' for PKCS#11)"))
  | HSMPKCS11 => if bool_decide (hc_Backend cfg ∈ ["mock"; ""]) then mock
                 else if bool_decide (hc_Backend cfg = "pkcs11") then
                   let '(t, r) := NewPKCS11Backend (hc_LibPath cfg) (hc_Slot cfg) (hc_PIN cfg) (hc_KeyID cfg) t in
                   ((e, t), k ← r; Ok (p11_backend k))
                 else ((e, t), Error (Err_new "seal: unsupported hsm backend"))
  end.
End PKCS11.

(** ** The modules keep their contract *)
Lemma nonce_split {A} n (nonce rest : list A) : length nonce = n → take n (nonce ++ rest) = nonce ∧ drop n (nonce ++ rest) = rest.
Proof. intros <-. by rw take_app_length drop_app_length. Qed.
#[export] Instance mock_lawful m : LawfulBackend (mock_backend m).
Proof.
  intros pt e e' ct H. rw /= /MockWrap in H. inv_M. rw /= /MockUnwrap Hm /=.
  apply GenerateSecureRandom_ok in Hm0 as (_ & Hn & _). assert (length a0 = gcmNonceSize) as Hl by (rw /gcmNonceSize in Hn |- *; lia).
  destruct (Nat.ltb_spec (length (a0 ++ gcm_Seal a a0 pt)) gcmNonceSize); [rw length_app in H; lia|].
  destruct (nonce_split gcmNonceSize a0 (gcm_Seal a a0 pt) Hl) as [-> ->]. by rw gcm_Open_Seal.
Qed.

Section Restart.
Context {Host Ctx : Type} `{!Crypto11 Host Ctx, !Crypto11Laws Host Ctx}.
Lemma or_close_ok {A} ctx (m : M Host A) h h' a : or_close ctx m h = (h', Ok a) → m h = (h', Ok a).
Proof.
  rw /or_close. intros (h1 & r & H1 & H)%M_bind_ok. apply try_inv in H1 as (r1 & H1 & E). destruct r as [b|err].
  - injection H as <- <-. by destruct r1; simplify_eq/=.
  - by apply M_bind_ok in H as (? & ? & _ & ?).
Qed.

(** A start ends with the key that the token holds under the id. *)
Lemma NewPKCS11Backend_key lib slot pin id h h1 b : NewPKCS11Backend lib slot pin id h = (h1, Ok b) →
  ∃ k, p11_key b = Some k ∧ c11_token (p11_ctx b) = (lib, slot) ∧ c11_keys h1 (lib, slot) (str_bytes id) = Some k ∧
    ∀ k0, c11_keys h (lib, slot) (str_bytes id) = Some k0 → k = k0.
Proof.
  rw /NewPKCS11Backend. intros H. inv_M. apply c11_configure in Hm2 as (Ek & _ & Et). specialize (Et _ eq_refl).
  apply or_close_ok, wrapM_ok, c11_find in Hm3 as (Ek' & _ & Ef). specialize (Ef _ eq_refl). rw Ek Et in Ef.
  exists a4. split; [done|]. split; [done|]. destruct a3 as [k|].
  - injection Hm4 as <- <-. rw Ek' Ek. split; [done|]. by intros k0; rw -Ef; intros [= ->].
  - apply or_close_ok, wrapM_ok, c11_generate in Hm4; [|by rw Ek' Ek Et]. rw Et in Hm4. split; [done|]. by rw -Ef.
Qed.
Lemma p11_lawful h tok id (b : pkcs11Backend (Ctx := Ctx)) k : p11_key b = Some k → c11_keys h tok id = Some k → LawfulBackend (p11_backend b).
Proof.
  intros Eb Hk pt e e' ct H. rw /= /P11Wrap Eb in H. inv_M. rw /= /P11Unwrap Eb Hm /=.
  destruct (c11_gcm _ _ _ _ _ Hk Hm) as [Hpos Hopen]. apply GenerateSecureRandom_ok in Hm0 as (_ & Hn & _).
  assert (length a0 = aead_NonceSize a) as Hl by lia.
  destruct (Nat.ltb_spec (length (a0 ++ aead_Seal a a0 pt)) (aead_NonceSize a)); [rw length_app in H; lia|].
  destruct (nonce_split _ a0 (aead_Seal a a0 pt) Hl) as [-> ->]. by rw Hopen.
Qed.

(** A pair the driver generated is on the token, of a type it can verify, and the driver
    returned its public half. *)
Lemma GenerateSigningKey_pair p key algo h h1 pem : GenerateSigningKey p key algo h = (h1, Ok pem) →
  c11_pairs h (c11_token (p11_ctx p)) (str_bytes key) = None →
  ∃ sg, c11_pairs h1 (c11_token (p11_ctx p)) (str_bytes key) = Some sg ∧ marshalPublicKey (sgn_Public sg) = Ok pem ∧
    ∀ der, sgn_Public sg ≠ PubOther der.
Proof.
  rw /GenerateSigningKey. intros H Hn.
  assert (∀ bits h0 sg, c11_GenerateRSAKeyPair (p11_ctx p) (str_bytes key) bits h = (h0, Ok sg) → lift (marshalPublicKey (sgn_Public sg)) h0 = (h1, Ok pem) →
    ∃ sg, c11_pairs h1 (c11_token (p11_ctx p)) (str_bytes key) = Some sg ∧ marshalPublicKey (sgn_Public sg) = Ok pem ∧ ∀ der, sgn_Public sg ≠ PubOther der) as Hrsa.
  { intros bits h0 sg Hg [= <- Hp]. destruct (c11_generate_rsa _ _ _ _ _ _ Hg Hn) as [? [k Ek]]. exists sg. split_and!; [done..|]. by rw Ek. }
  repeat case_bool_decide; [..|done]; apply M_bind_ok in H as (h0 & sg & Hg & H); apply wrapM_ok in Hg; [by eapply Hrsa..|].
  injection H as <- Hp. destruct (c11_generate_ecdsa _ _ _ _ _ Hg Hn) as [? [k Ek]]. exists sg. split_and!; [done..|]. by rw Ek.
Qed.
(** A search for a pair answers what the token holds, or fails. *)
Lemma find_signer_inv p key h h1 r : find_signer p key h = (h1, r) → c11_pairs h1 = c11_pairs h ∧
  ∀ sg, c11_pairs h (c11_token (p11_ctx p)) (str_bytes key) = Some sg → r = Ok sg ∨ is_ok (c11_FindKeyPair (p11_ctx p) (str_bytes key) h).2 = false.
Proof.
  rw /find_signer. intros (h0 & r0 & H0 & H)%M_bind_inv. apply wrapM_inv in H0 as (r1 & H0 & ->).
  pose proof (c11_find_pair _ _ _ _ _ H0) as (_ & Ep & Ef). rw H0. destruct r1 as [o| |]; cbn in H; [|by destruct H as [-> _]; split; [done|right]..].
  specialize (Ef _ eq_refl). destruct o as [sg|]; injection H as <- <-; (split; [done|]); intros sg'; rw -Ef; [|done]. intros [= ->]. by left.
Qed.

(** C39: what a hardware module protects outlives the process. After a successful start of
    the driver, let another process be started with the same library, slot and key id on a
    host whose token still holds the object under that id, whatever else has happened to it
    and to the other tokens. Then, whether the first start found or generated the key, the
    second one gets the same key and the key-encryption key of the second process unwraps
    every data key that the first one wrapped. And a signing key that the driver generated
    under an unused id, while it stays on the token, has the public half the driver
    returned, and what it signs is accepted by the driver's verification, unless the module
    fails to answer. *)
Theorem hsm_outlives_process lib slot pin id h h1 b1 pin' h2 h3 b2 :
  NewPKCS11Backend lib slot pin id h = (h1, Ok b1) →
  c11_keys h2 (lib, slot) (str_bytes id) = c11_keys h1 (lib, slot) (str_bytes id) →
  NewPKCS11Backend lib slot pin' id h2 = (h3, Ok b2) →
  p11_key b2 = p11_key b1 ∧
  (∀ sb e e' ct, sb_data sb ≠ [] → kek_WrapDEK (hsmKEK (p11_backend b1)) sb e = (e', Ok ct) →
     kek_UnwrapDEK (hsmKEK (p11_backend b2)) ct = Ok (mkSB (sb_data sb) false)) ∧
  (∀ key algo g g1 pem, GenerateSigningKey b1 key algo g = (g1, Ok pem) → c11_pairs g (lib, slot) (str_bytes key) = None →
   ∀ u, c11_pairs u (lib, slot) (str_bytes key) = c11_pairs g1 (lib, slot) (str_bytes key) →
   (∀ u' pem', HSMGetPublicKey b2 key u = (u', Ok pem') → pem' = pem) ∧
   ∀ data u' sig, HSMSign b2 key data u = (u', Ok sig) →
     (HSMVerify b2 key data sig u').2 = Ok true ∨ is_ok (c11_FindKeyPair (p11_ctx b2) (str_bytes key) u').2 = false).
Proof.
  intros H1 Hsame H2. destruct (NewPKCS11Backend_key _ _ _ _ _ _ _ H1) as (k & E1 & T1 & Hk & _).
  destruct (NewPKCS11Backend_key _ _ _ _ _ _ _ H2) as (k' & E2 & T2 & _ & Hk'). rw Hsame in Hk'. rw (Hk' _ Hk) in E2. clear Hk' k'.
  split; [congruence|]. split.
  - intros sb e e' ct Hne Hw. pose proof (p11_lawful _ _ _ _ _ E2 Hk) as Hlaw. apply (kek_roundtrip (LawfulKEK := hsmKEK_lawful _ Hlaw) sb e e'); [done|].
    rewrite -Hw. cbn. rw /P11Wrap E1 E2 //.
  - intros key algo g g1 pem Hg Hn u Hu. rw -T1 in Hn. destruct (GenerateSigningKey_pair _ _ _ _ _ _ Hg Hn) as (sg & Hsg & Hpem & Hty).
    rw T1 -Hu in Hsg. split.
    + intros u' pem' (u1 & sg' & Hf & H)%M_bind_ok. pose proof (find_signer_inv _ _ _ _ _ Hf) as [_ Hf']. rw T2 in Hf'.
      destruct (Hf' _ Hsg) as [[= ->]|Hf2]; [injection H as _ H; congruence|].
      rw /find_signer in Hf. apply M_bind_ok in Hf as (? & ? & Hf%wrapM_ok & _). by rw Hf in Hf2.
    + intros data u' sig (u1 & sg' & Hf & H)%M_bind_ok. pose proof (find_signer_inv _ _ _ _ _ Hf) as [Eu Hf']. rw T2 in Hf'.
      assert (sg' = sg) as ->.
      { destruct (Hf' _ Hsg) as [[= ->]|Hf2]; [done|]. rw /find_signer in Hf. apply M_bind_ok in Hf as (? & ? & Hf%wrapM_ok & _). by rw Hf in Hf2. }
      apply wrapM_ok in H. injection H as <- Hs. pose proof (c11_signer _ _ _ _ _ _ Hsg Hs) as Hv.
      rw /HSMVerify. destruct (find_signer b2 key u1) as [u2 r] eqn:Ev. apply find_signer_inv in Ev as Hr. destruct Hr as [_ Hr]. rw T2 Eu in Hr.
      destruct (Hr _ Hsg) as [->|Hf2]; [left|by right]. rw (M_bind_step _ _ _ _ _ Ev).
      destruct (sgn_Public sg) as [kk|kk|kk] eqn:Ekk; [by rw Hv..|by destruct (Hty kk)].
Qed.
End Restart.

(** ** Tokens that behave as documented *)
(** A host with one driver library: each slot has its own token, an association list from
    ids to secret keys, and one of signing keys. A secret key is a mask on the blocks; a
    signature is the digest. *)
Definition demo_secret (mask : byte) : secret_key :=
  mkSecretKey (Ok (mkAEAD 12 (gcm_Seal (map (bxor mask))) (gcm_Open (map (bxor mask))))).
Definition demo_signer : signer := mkSigner (PubRSA [x30]) Ok.
Record demo_tokens : Type := mkTokens { dt_keys : list (Z * bytes * byte); dt_pairs : list (Z * bytes) }.
Definition find_mask (keys : list (Z * bytes * byte)) (slot : Z) (id : bytes) : option byte :=
  snd <$> head (filter (λ p, p.1 = (slot, id)) keys).
Definition find_pair (pairs : list (Z * bytes)) (slot : Z) (id : bytes) : option signer :=
  if bool_decide ((slot, id) ∈ pairs) then Some demo_signer else None.
#[export] Instance demo_crypto11 : Crypto11 demo_tokens Z := {
  c11_Configure lib slot _ := if bool_decide (lib = "/usr/lib/softhsm.so") then mret slot else throw (Err_new "pkcs11: could not open PKCS#11");
  c11_Close _ := mret tt;
  c11_FindKey slot id := gets (λ t, demo_secret <$> find_mask (dt_keys t) slot id);
  c11_GenerateSecretKey slot id _ := fun t =>
    let mask := z2b (Z.of_nat (length (dt_keys t)) + 1) in
    (mkTokens ((slot, id, mask) :: dt_keys t) (dt_pairs t), Ok (demo_secret mask));
  c11_GenerateRSAKeyPair slot id _ := fun t => (mkTokens (dt_keys t) ((slot, id) :: dt_pairs t), Ok demo_signer);
  c11_GenerateECDSAKeyPair _ _ := throw (Err_new "pkcs11: mechanism invalid");
  c11_FindKeyPair slot id := gets (λ t, find_pair (dt_pairs t) slot id);
  rsa_VerifyPKCS1v15 _ digest sig := bool_decide (digest = sig);
  ecdsa_VerifyASN1 _ _ _ := false;
  x509_MarshalPKIXPublicKey _ := Ok [x30];
  pem_PublicKey der := x2d :: der;
}.
#[export] Instance demo_crypto11_laws : Crypto11Laws demo_tokens Z.
Proof.
  refine {| c11_token slot := ("/usr/lib/softhsm.so", slot);
    c11_keys t tok id := demo_secret <$> find_mask (dt_keys t) tok.2 id; c11_pairs t tok id := find_pair (dt_pairs t) tok.2 id |}; cbn.
  - intros lib slot pin h h' r. case_bool_decide as E; intros [= <- <-]; (split_and!; [done..|]); [|done]. intros ctx [= <-]. by rw E.
  - intros ctx id h h' r [= <- <-]. split_and!; [done..|]. by intros o [= <-].
  - intros ctx id bits h h' k [= <- <-] _. cbn. rw /find_mask filter_cons_True //.
  - intros ctx id h h' r [= <- <-]. split_and!; [done..|]. by intros o [= <-].
  - intros ctx id bits h h' sg [= <- <-] _. split; [|by eexists]. rw /find_pair bool_decide_eq_true_2 //. apply list_elem_of_here.
  - done.
  - intros h tok id k a Hk Ha. destruct (find_mask (dt_keys h) tok.2 id) as [m|]; [|done]. injection Hk as <-. injection Ha as <-. split; [simpl; lia|].
    intros nonce pt _. apply gcm_Open_Seal.
  - intros h tok id sg digest sig. rw /find_pair. case_bool_decide; [|done]. intros [= <-] [= <-]. by apply bool_decide_eq_true_2.
Defined.

(** Two starts on the same slot, with a key generated on another slot in between. *)
Definition demo_first : demo_tokens * result (pkcs11Backend (Ctx := Z)) := NewPKCS11Backend "/usr/lib/softhsm.so" 0 "1234" "cmk" (mkTokens [] []).
Definition demo_between : demo_tokens := (NewPKCS11Backend (Ctx := Z) "/usr/lib/softhsm.so" 1 "1234" "cmk" demo_first.1).1.
Definition demo_cmk : pkcs11Backend (Ctx := Z) := mkP11 0%Z (str_bytes "cmk") (Some (demo_secret x01)) 256.
Lemma hsm_outlives_process_witness : ∃ ct, (P11Wrap demo_cmk [x01; x02] (demo_entropy 12)).2 = Ok ct ∧
  kek_UnwrapDEK (hsmKEK (p11_backend demo_cmk)) ct = Ok (mkSB [x01; x02] false).
Proof.
  destruct (hsm_outlives_process (Host := demo_tokens) (Ctx := Z) "/usr/lib/softhsm.so" 0 "1234" "cmk" (mkTokens [] []) demo_first.1 demo_cmk
    "4321" demo_between demo_between demo_cmk) as (_ & H & _); [reflexivity|reflexivity|reflexivity|].
  eexists. split; [vm_compute; reflexivity|].
  apply (H (mkSB [x01; x02] false) (demo_entropy 12) []); [discriminate|vm_compute; reflexivity].
Defined.
(** Another slot is another token: a restart that is given the wrong slot does not fail, it
    generates a key of its own there, and what was wrapped does not unwrap. *)
Example other_slot_other_key :
  match (NewPKCS11Backend (Ctx := Z) "/usr/lib/softhsm.so" 1 "1234" "cmk" demo_first.1).2, (P11Wrap demo_cmk [x01; x02] (demo_entropy 12)).2 with
  | Ok b, Ok ct => is_ok (P11Unwrap b ct) = false
  | _, _ => False
  end.
Proof. vm_compute. reflexivity. Qed.

(** ** What the other builds do *)
(** The key of the mock is drawn at every start: what one process wrapped, the next cannot unwrap. *)
Example mock_restart_loses :
  let first := (NewMockHSMBackend (demo_entropy 32)).2 in let second := (NewMockHSMBackend (rev (demo_entropy 32))).2 in
  match first, second with
  | Ok k1, Ok k2 => match (MockWrap k1 [x01; x02] (demo_entropy 12)).2 with
                    | Ok ct => MockUnwrap k1 ct = Ok [x01; x02] ∧ is_ok (MockUnwrap k2 ct) = false
                    | _ => False
                    end
  | _, _ => False
  end.
Proof. vm_compute. split; reflexivity. Qed.
(** Start-up gives the driver the backend and the key id only: without a library path and a PIN the
    PKCS#11 backend is refused whatever the token. *)
Lemma pkcs11_never_starts `{!Crypto11 Host Ctx} keyID (s : entropy * Host) :
  BuildHSMBackend HSMPKCS11 (mkHSMConfig "pkcs11" keyID "" 0 "") s = (s, Error (Err_new "seal: pkcs11: lib_path is required")).
Proof. by destruct s. Qed.
