(* ===== verification/Vault.v ===== *)
(** The seal state machine, [src/internal/seal/state.go]: [VaultState] with its
    share pool, its master key, the irreversible emergency flag and the timers
    that reseal automatically; every exported operation; a step relation for
    concurrent histories (each operation holds the vault's mutex, so histories
    are interleavings of whole operations and of timer events). *)

From S2P Require Import Prelude GF256 Lagrange SecureBuffer Shamir Hash AesGcm Ciphertext Kek.

Inductive State : Type := StateSealed | StateUnsealed | StateSealing.
#[export] Instance State_eq_dec : EqDecision State.
Proof. solve_decision. Defined.
Definition State_String (s : State) : string :=
  match s with StateSealed => "sealed" | StateUnsealed => "unsealed" | StateSealing => "sealing" end.

Record VaultState : Type := mkVault {
  vs_state : State;
  vs_masterKey : option SecureBuffer;
  vs_collected : list bytes;
  vs_threshold : Z;
  vs_total : Z;
  vs_autoReseal : Z;             (* nanoseconds, 0 disables *)
  vs_cancel : option nat;        (* the timer [cancelReseal] would cancel *)
  vs_suite : option Cipher;
  vs_emergency : bool;
  vs_callback : bool;            (* an emergency callback is installed *)
  vs_pending : list nat;         (* goroutines waiting in [autoResealLoop] *)
  vs_firing : list nat;          (* goroutines past their [select], about to [Seal] *)
  vs_next : nat;                 (* next timer identity *)
}.

Definition NewVaultState (total threshold autoReseal : Z) : VaultState :=
  mkVault StateSealed None [] threshold total autoReseal None None false false [] [] 0.

Definition set_state (s : State) (v : VaultState) : VaultState :=
  mkVault s (vs_masterKey v) (vs_collected v) (vs_threshold v) (vs_total v) (vs_autoReseal v)
    (vs_cancel v) (vs_suite v) (vs_emergency v) (vs_callback v) (vs_pending v) (vs_firing v) (vs_next v).
Definition set_masterKey (k : option SecureBuffer) (v : VaultState) : VaultState :=
  mkVault (vs_state v) k (vs_collected v) (vs_threshold v) (vs_total v) (vs_autoReseal v)
    (vs_cancel v) (vs_suite v) (vs_emergency v) (vs_callback v) (vs_pending v) (vs_firing v) (vs_next v).
Definition set_collected (l : list bytes) (v : VaultState) : VaultState :=
  mkVault (vs_state v) (vs_masterKey v) l (vs_threshold v) (vs_total v) (vs_autoReseal v)
    (vs_cancel v) (vs_suite v) (vs_emergency v) (vs_callback v) (vs_pending v) (vs_firing v) (vs_next v).
Definition set_emergency (v : VaultState) : VaultState :=
  mkVault (vs_state v) (vs_masterKey v) (vs_collected v) (vs_threshold v) (vs_total v) (vs_autoReseal v)
    (vs_cancel v) (vs_suite v) true (vs_callback v) (vs_pending v) (vs_firing v) (vs_next v).
Definition set_timers (cancel : option nat) (pending firing : list nat) (next : nat)
    (v : VaultState) : VaultState :=
  mkVault (vs_state v) (vs_masterKey v) (vs_collected v) (vs_threshold v) (vs_total v) (vs_autoReseal v)
    cancel (vs_suite v) (vs_emergency v) (vs_callback v) pending firing next.

(** ** Queries *)
Definition IsUnsealed (v : VaultState) : bool := bool_decide (vs_state v = StateUnsealed).
Definition IsSealed (v : VaultState) : bool := bool_decide (vs_state v = StateSealed).
Definition IsEmergencySealed (v : VaultState) : bool := vs_emergency v.
Definition CollectedCount (v : VaultState) : nat := length (vs_collected v).

Definition MasterKeyEqual (v : VaultState) (expected : option SecureBuffer) : result bool :=
  if negb (IsUnsealed v) then Ok false
  else match vs_masterKey v, expected with
       | Some k, Some e =>
           WithKeyR k (λ a, WithKeyR e (λ b,
             if negb (length a =? length b) then Ok false else Ok (bool_decide (a = b))))
       | _, _ => Ok false
       end.

(** ** Timers *)
(** [context.WithCancel] and [go autoResealLoop(ctx)] when a delay is set. *)
Definition startResealTimer (v : VaultState) : VaultState :=
  if bool_decide (0 < vs_autoReseal v)%Z
  then set_timers (Some (vs_next v)) (vs_pending v ++ [vs_next v]) (vs_firing v) (S (vs_next v)) v
  else v.
(** [if cancelReseal != nil { cancelReseal(); cancelReseal = nil }] *)
Definition cancelReseal (v : VaultState) : VaultState :=
  match vs_cancel v with
  | Some t => set_timers None (filter (λ u, u ≠ t) (vs_pending v)) (vs_firing v) (vs_next v) v
  | None => v
  end.

(** ** Unsealing *)
Definition errEmergency : error :=
  Err_new "seal: vault is emergency sealed, all operations refused until process restart".
Definition errAlreadyUnsealed : error := Err_new "seal: already unsealed".

Definition DirectUnseal (masterKey : option SecureBuffer) : M VaultState () := fun v =>
  match masterKey with
  | None => (v, Error (Err_new "seal: direct unseal with nil master key"))
  | Some k =>
      if vs_emergency v then (v, Error errEmergency)
      else if IsUnsealed v then (v, Error errAlreadyUnsealed)
      else (startResealTimer (set_state StateUnsealed (set_masterKey (Some k) v)), Ok tt)
  end.

(** The shares as they are left in memory after [wipeCollectedShares]. *)
Definition wiped_shares (v : VaultState) : list bytes := clear <$> vs_collected v.
Definition wipeCollectedShares (v : VaultState) : VaultState := set_collected [] v.

(** Returns [(unsealed, err)]; the "already unsealed" answer carries both. *)
Definition ProvideShare (share : bytes) (v : VaultState) : VaultState * (bool * option error) :=
  if length share =? 0 then (v, (false, Some (Err_new "seal: empty share")))
  else if vs_emergency v then (v, (false, Some errEmergency))
  else if IsUnsealed v then (v, (true, Some errAlreadyUnsealed))
  else
    let v := set_collected (vs_collected v ++ [share]) v in
    if bool_decide (Z.of_nat (length (vs_collected v)) < vs_threshold v)%Z then (v, (false, None))
    else
      match CombineWithThreshold (vs_collected v) (vs_threshold v) with
      | Ok combined =>
          let v := set_state StateUnsealed (set_masterKey (Some combined) v) in
          (wipeCollectedShares (startResealTimer v), (true, None))
      | Error e => (wipeCollectedShares v, (false, Some (Err_wrap "seal: combine shares" e)))
      | Panic m => (wipeCollectedShares v, (false, Some (Err_new m)))
      end.

(** ** Sealing *)
(** What sealing leaves behind in memory: the released key buffer and shares. *)
Record released : Type := mkReleased { rel_key : option SecureBuffer; rel_shares : list bytes }.

(** Wipe the master key, drop it, wipe and drop the pool. *)
Definition wipe_secrets (v : VaultState) : VaultState * released :=
  (wipeCollectedShares (set_masterKey None v), mkReleased (Wipe <$> vs_masterKey v) (wiped_shares v)).

Definition Seal (v : VaultState) : VaultState * released :=
  if IsSealed v then (v, mkReleased None [])
  else
    let v := set_state StateSealing v in
    let v := cancelReseal v in
    let '(v, rel) := wipe_secrets v in
    (set_state StateSealed v, rel).

(** The flag is raised first; [called] tells whether the callback ran. *)
Definition EmergencySeal (v : VaultState) : VaultState * (released * bool) :=
  let v := set_state StateSealing (set_emergency v) in
  let v := cancelReseal v in
  let '(v, rel) := wipe_secrets v in
  (set_state StateSealed v, (rel, vs_callback v)).

Definition SetEmergencySealCallback (v : VaultState) : VaultState :=
  mkVault (vs_state v) (vs_masterKey v) (vs_collected v) (vs_threshold v) (vs_total v) (vs_autoReseal v)
    (vs_cancel v) (vs_suite v) (vs_emergency v) true (vs_pending v) (vs_firing v) (vs_next v).
Definition SetCryptoSuite (c : option Cipher) (v : VaultState) : VaultState :=
  mkVault (vs_state v) (vs_masterKey v) (vs_collected v) (vs_threshold v) (vs_total v) (vs_autoReseal v)
    (vs_cancel v) c (vs_emergency v) (vs_callback v) (vs_pending v) (vs_firing v) (vs_next v).

(** [autoResealLoop]: a goroutine whose timer expires leaves its [select]; it then
    seals, whatever happened to its context in between. *)
Definition timer_expire (t : nat) (v : VaultState) : VaultState :=
  if bool_decide (t ∈ vs_pending v)
  then set_timers (vs_cancel v) (filter (λ u, u ≠ t) (vs_pending v)) (vs_firing v ++ [t]) (vs_next v) v
  else v.
Definition timer_seal (t : nat) (v : VaultState) : VaultState :=
  if bool_decide (t ∈ vs_firing v)
  then (Seal (set_timers (vs_cancel v) (vs_pending v) (filter (λ u, u ≠ t) (vs_firing v)) (vs_next v) v)).1
  else v.

(** ** Using the key *)
Definition errSealedKey : error := Err_new "seal: vault is sealed, master key unavailable".
Definition errSealedKEK : error := Err_new "seal: vault is sealed, kek unavailable".

Definition MasterKeyRef {S A} (v : VaultState) (action : SecureBuffer → M S A) : M S A :=
  match vs_masterKey v with
  | Some k => if IsUnsealed v then action k else throw errSealedKey
  | None => throw errSealedKey
  end.

Definition getKEK (v : VaultState) (k : SecureBuffer) : KEK :=
  match vs_suite v with Some c => softwareKEK c k | None => NewSoftwareKEK k end.

Definition KEKRef {S A} (v : VaultState) (action : KEK → M S A) : M S A :=
  match vs_masterKey v with
  | Some k => if IsUnsealed v then action (getKEK v k) else throw errSealedKEK
  | None => throw errSealedKEK
  end.

(** ** Histories *)
Inductive vault_event : Type :=
  | EvProvide (share : bytes)
  | EvDirect (key : SecureBuffer)
  | EvSeal
  | EvEmergency
  | EvExpire (t : nat)
  | EvTimerSeal (t : nat)
  | EvCallback
  | EvSuite (c : option Cipher).

Definition vault_apply (ev : vault_event) (v : VaultState) : VaultState :=
  match ev with
  | EvProvide s => (ProvideShare s v).1
  | EvDirect k => (DirectUnseal (Some k) v).1
  | EvSeal => (Seal v).1
  | EvEmergency => (EmergencySeal v).1
  | EvExpire t => timer_expire t v
  | EvTimerSeal t => timer_seal t v
  | EvCallback => SetEmergencySealCallback v
  | EvSuite c => SetCryptoSuite c v
  end.

(** A step: any event; [DirectUnseal] is handed a buffer nobody has wiped. *)
Inductive vault_step : VaultState → VaultState → Prop :=
  | vault_step_ev ev v : (∀ k, ev = EvDirect k → live k) → vault_step v (vault_apply ev v).
Definition vault_reach : VaultState → VaultState → Prop := rtc vault_step.

(** ** The invariant *)
Record vault_inv (v : VaultState) : Prop := {
  vi_key : vs_state v = StateUnsealed ↔ is_Some (vs_masterKey v);
  vi_settled : vs_state v ≠ StateSealing;
  vi_live : ∀ k, vs_masterKey v = Some k → live k;
  vi_pool : vs_collected v = [] ∨ (Z.of_nat (length (vs_collected v)) < vs_threshold v)%Z;
  vi_emergency : vs_emergency v = true → vs_state v = StateSealed ∧ vs_collected v = [];
  vi_timer : vs_pending v = [] ∨ ∃ t, vs_pending v = [t] ∧ vs_cancel v = Some t;
  vi_cancel : is_Some (vs_cancel v) → vs_state v = StateUnsealed;
}.

Lemma vault_inv_new total threshold d : vault_inv (NewVaultState total threshold d).
Proof. split; simpl; naive_solver. Qed.

Lemma vi_no_timer v : vault_inv v → vs_state v ≠ StateUnsealed →
  vs_cancel v = None ∧ vs_pending v = [] ∧ vs_masterKey v = None.
Proof.
  intros [Hk _ _ _ _ Ht Hc] Hs.
  assert (vs_cancel v = None) as E.
  { destruct (vs_cancel v) eqn:E; [|done]. destruct Hs. apply Hc. eauto. }
  split_and!; [done| |].
  - destruct Ht as [|(t & _ & Ht)]; [done|congruence].
  - destruct (vs_masterKey v) eqn:Ek; [|done]. destruct Hs. apply Hk. eauto.
Qed.

(** Entering the unsealed state with a live key, from a settled sealed vault. *)
Lemma vault_inv_unseal v k l :
  vault_inv v → vs_state v ≠ StateUnsealed → vs_emergency v = false → live k →
  l = [] ∨ (Z.of_nat (length l) < vs_threshold v)%Z →
  vault_inv (set_collected l (startResealTimer (set_state StateUnsealed (set_masterKey (Some k) v)))).
Proof.
  intros Hi Hs He Hk Hl. destruct (vi_no_timer v Hi Hs) as (Hc & Hp & _).
  rw /startResealTimer /=. case_bool_decide; split; simpl; try done; rw ?Hp ?Hc;
    try naive_solver.
  all: by rw He.
Qed.

Lemma set_collected_id v : set_collected (vs_collected v) v = v.
Proof. by destruct v. Qed.
Lemma collected_startResealTimer v : vs_collected (startResealTimer v) = vs_collected v.
Proof. rw /startResealTimer. by case_bool_decide. Qed.

Lemma CombineWithThreshold_live l t sb : CombineWithThreshold l t = Ok sb → live sb.
Proof.
  rw /CombineWithThreshold. case_match; [done|]. intros Hc.
  pose proof (Combine_sound _ _ Hc) as Hv. rw Combine_valid // in Hc. by simplify_eq.
Qed.

Lemma vault_inv_pool v l : vault_inv v → vs_emergency v = false →
  l = [] ∨ (Z.of_nat (length l) < vs_threshold v)%Z → vault_inv (set_collected l v).
Proof. intros [] He Hl. split; simpl; try done. by rw He. Qed.

Lemma vault_inv_ProvideShare s v : vault_inv v → vault_inv (ProvideShare s v).1.
Proof.
  intros Hi. rw /ProvideShare. destruct (length s =? 0); [done|].
  destruct (vs_emergency v) eqn:He; [done|]. rw /IsUnsealed. case_bool_decide as Hs; [done|]. simpl.
  case_bool_decide as Hlt; [by apply vault_inv_pool; auto|].
  destruct (CombineWithThreshold _ _) as [k|e|m] eqn:Hc; simpl.
  - apply CombineWithThreshold_live in Hc. rw /wipeCollectedShares.
    assert (vault_inv (set_collected [] v)) as Hi' by (apply vault_inv_pool; auto).
    assert (∀ l, set_collected [] (startResealTimer (set_state StateUnsealed (set_masterKey (Some k)
      (set_collected l v)))) =
      set_collected [] (startResealTimer (set_state StateUnsealed (set_masterKey (Some k) v)))) as ->.
    { intros l. rw /startResealTimer /=. by case_bool_decide. }
    apply vault_inv_unseal; auto.
  - apply (vault_inv_pool v []); auto.
  - apply (vault_inv_pool v []); auto.
Qed.

Lemma vault_inv_sealed v : vs_state v = StateSealed → vs_masterKey v = None →
  vs_collected v = [] → vs_cancel v = None → vs_pending v = [] → vault_inv v.
Proof.
  intros Hs Hk Hc Ht Hp. split; rw ?Hs ?Hk ?Hc ?Ht ?Hp; try done; try (by left).
Qed.

(** Cancelling the timer leaves no goroutine waiting. *)
Lemma cancelReseal_none v :
  vs_pending v = [] ∨ (∃ t, vs_pending v = [t] ∧ vs_cancel v = Some t) →
  vs_cancel (cancelReseal v) = None ∧ vs_pending (cancelReseal v) = [].
Proof.
  intros Ht. rw /cancelReseal. destruct (vs_cancel v) as [t|] eqn:Ec.
  - simpl. split; [done|]. destruct Ht as [->|(t' & -> & E)]; [done|]. injection E as <-.
    rw filter_cons. by case_decide.
  - split; [done|]. by destruct Ht as [|(t' & _ & E)].
Qed.

Lemma cancelReseal_same v :
  vs_masterKey (cancelReseal v) = vs_masterKey v ∧ vs_emergency (cancelReseal v) = vs_emergency v ∧
  vs_suite (cancelReseal v) = vs_suite v ∧ vs_collected (cancelReseal v) = vs_collected v ∧
  vs_threshold (cancelReseal v) = vs_threshold v ∧ vs_callback (cancelReseal v) = vs_callback v.
Proof. rw /cancelReseal. by destruct (vs_cancel v). Qed.

Lemma Seal_spec v : vault_inv v →
  let '(v', rel) := Seal v in
  vault_inv v' ∧ vs_state v' = StateSealed ∧ vs_masterKey v' = None ∧
  vs_emergency v' = vs_emergency v ∧ rel_key rel = Wipe <$> vs_masterKey v.
Proof.
  intros Hi. rw /Seal /IsSealed. case_bool_decide as Hs.
  - destruct (vi_no_timer v Hi) as (_ & _ & ->); [congruence|]. done.
  - simpl. destruct (cancelReseal_none (set_state StateSealing v)) as [Hc Hp]; [apply (vi_timer v Hi)|].
    destruct (cancelReseal_same (set_state StateSealing v)) as (Hk & He & _).
    rw Hk He. split; [|done]. by apply vault_inv_sealed.
Qed.

Lemma EmergencySeal_spec v : vault_inv v →
  let '(v', (rel, called)) := EmergencySeal v in
  vault_inv v' ∧ vs_emergency v' = true ∧ vs_state v' = StateSealed ∧ vs_masterKey v' = None ∧
  rel_key rel = Wipe <$> vs_masterKey v ∧ rel_shares rel = clear <$> vs_collected v ∧
  called = vs_callback v.
Proof.
  intros Hi. rw /EmergencySeal. set (w := set_state StateSealing (set_emergency v)).
  destruct (cancelReseal_none w) as [Hc Hp]; [apply (vi_timer v Hi)|].
  destruct (cancelReseal_same w) as (Hk & He & _ & Hcl & _ & Hcb). cbn -[cancelReseal w].
  split; [by apply vault_inv_sealed|]. rw /wiped_shares Hk He Hcl Hcb. done.
Qed.

Lemma vault_inv_apply ev v : (∀ k, ev = EvDirect k → live k) →
  vault_inv v → vault_inv (vault_apply ev v).
Proof.
  intros Hl Hi. destruct ev as [s|k| | |t|t| |c]; cbn [vault_apply].
  - by apply vault_inv_ProvideShare.
  - rw /DirectUnseal. destruct (vs_emergency v) eqn:He; [done|]. rw /IsUnsealed.
    case_bool_decide; [done|].
    rw -(set_collected_id (fst _)) /= collected_startResealTimer /=.
    apply vault_inv_unseal; auto. apply (vi_pool v Hi).
  - pose proof (Seal_spec v Hi) as H. destruct (Seal v). apply H.
  - pose proof (EmergencySeal_spec v Hi) as H. destruct (EmergencySeal v) as [? [??]]. apply H.
  - rw /timer_expire. case_bool_decide as Ht; [|done]. destruct Hi as [????? Htm ?].
    split; simpl; try done. left. destruct Htm as [Hp|(u & Hp & _)]; rw Hp; [done|].
    rw Hp list_elem_of_singleton in Ht. subst u. rw filter_cons. by case_decide.
  - rw /timer_seal. case_bool_decide; [|done]. set (w := set_timers _ _ _ _ _).
    assert (vault_inv w) as Hw by (destruct Hi; by split).
    pose proof (Seal_spec w Hw) as H'. destruct (Seal w). apply H'.
  - destruct Hi; by split.
  - destruct Hi; by split.
Qed.

Lemma vault_inv_reach v v' : vault_inv v → vault_reach v v' → vault_inv v'.
Proof.
  intros Hi Hr. induction Hr as [|v1 v2 v3 [ev v Hev] _ IH]; [done|].
  by apply IH, vault_inv_apply.
Qed.

Lemma emergency_Seal v : vs_emergency (Seal v).1 = vs_emergency v.
Proof.
  rw /Seal. destruct (IsSealed v); [done|]. cbn -[cancelReseal].
  by rw (proj1 (proj2 (cancelReseal_same _))).
Qed.

(** The emergency flag is never lowered. *)
Lemma emergency_apply ev v : vs_emergency v = true → vs_emergency (vault_apply ev v) = true.
Proof.
  intros He. destruct ev as [s|k| | |t|t| |c]; cbn [vault_apply].
  - rw /ProvideShare He. by destruct (length s =? 0).
  - by rw /DirectUnseal He.
  - by rw emergency_Seal.
  - rw /EmergencySeal /cancelReseal /=. by destruct (vs_cancel v).
  - rw /timer_expire. by case_bool_decide.
  - rw /timer_seal. case_bool_decide; [|done]. by rw emergency_Seal.
  - done.
  - done.
Qed.

Lemma KEKRef_sealed {S A} v (f : KEK → M S A) s : vault_inv v → vs_state v ≠ StateUnsealed →
  KEKRef v f s = (s, Error errSealedKEK).
Proof. intros Hi Hs. destruct (vi_no_timer v Hi Hs) as (_ & _ & Hk). by rw /KEKRef Hk. Qed.

(** Submitting shares below the threshold only fills the pool. *)
Definition provide_all (shares : list bytes) (v : VaultState) : VaultState * list (bool * option error) :=
  foldl (λ '(v, out) s, let '(v', r) := ProvideShare s v in (v', out ++ [r])) (v, []) shares.

Lemma provide_below shares v out :
  vs_emergency v = false → vs_state v = StateSealed → [] ∉ shares →
  (Z.of_nat (length (vs_collected v) + length shares) < vs_threshold v)%Z →
  foldl (λ '(v, out) s, let '(v', r) := ProvideShare s v in (v', out ++ [r])) (v, out) shares =
  (set_collected (vs_collected v ++ shares) v, out ++ replicate (length shares) (false, None)).
Proof.
  revert v out. induction shares as [|s shares IH]; intros v out He Hs Hne Hlt; simpl.
  { by rw !app_nil_r set_collected_id. }
  assert (ProvideShare s v = (set_collected (vs_collected v ++ [s]) v, (false, None))) as ->.
  { rw /ProvideShare He /IsUnsealed Hs /=. destruct s as [|b s]; [set_solver|]. simpl.
    rw bool_decide_eq_true_2 //. rw length_app /=. simpl in Hlt. lia. }
  rw IH //; [set_solver|simpl; rw length_app /=; simpl in Hlt; lia|].
  simpl. by rw -!app_assoc.
Qed.

(** ** Theorems *)
(** C4: in every reachable vault (any interleaving of share submissions, direct
    unseals, seals, emergency seals and timer events from a fresh vault) the
    vault is unsealed exactly when it holds a master key, that key is live, no
    operation leaves it in [Sealing], the pool never reaches the threshold, an
    emergency-sealed vault is sealed with an empty pool, and at most one reseal
    goroutine waits, only while unsealed. *)
Theorem vault_invariant total threshold d v :
  vault_reach (NewVaultState total threshold d) v → vault_inv v.
Proof. apply vault_inv_reach, vault_inv_new. Qed.

Lemma vault_invariant_witness :
  vault_inv (vault_apply EvSeal (vault_apply (EvDirect demo_key) (NewVaultState 5 3 1000))).
Proof.
  apply (vault_invariant 5 3 1000).
  eapply rtc_l; [apply (vault_step_ev (EvDirect demo_key)); by intros k [= <-]|].
  eapply rtc_l; [by apply (vault_step_ev EvSeal)|]. apply rtc_refl.
Defined.

(** C5: an emergency seal is irreversible: whatever happens afterwards, the vault
    stays emergency sealed, holds no key, refuses every share and every direct
    unseal, and [KEKRef] runs no action. *)
Theorem emergency_irreversible v v' :
  vault_inv v → vault_reach (EmergencySeal v).1 v' →
  IsEmergencySealed v' = true ∧ vs_masterKey v' = None ∧
  (∀ s, ∃ e, ProvideShare s v' = (v', (false, Some e))) ∧
  (∀ k, ∃ e, DirectUnseal k v' = (v', Error e)) ∧
  (∀ S A (f : KEK → M S A) s, KEKRef v' f s = (s, Error errSealedKEK)).
Proof.
  intros Hi Hr. pose proof (EmergencySeal_spec v Hi) as Hs.
  destruct (EmergencySeal v) as [w [rel called]]. destruct Hs as (Hw & He & _).
  pose proof (vault_inv_reach _ _ Hw Hr) as Hi'.
  assert (vs_emergency v' = true) as He'.
  { clear Hw Hi' Hi. simpl in Hr. induction Hr as [|a b c [ev x _] _ IH]; [done|].
    by apply IH, emergency_apply. }
  destruct (vi_emergency v' Hi' He') as [Hst _].
  destruct (vi_no_timer v' Hi') as (_ & _ & Hk); [congruence|]. split_and!; [done|done|..].
  - intros s. rw /ProvideShare He'. destruct (length s =? 0); eauto.
  - intros [k|]; simpl; rw ?He'; eauto.
  - intros S A f s. apply KEKRef_sealed; [done|congruence].
Qed.

Lemma emergency_irreversible_witness :
  ∃ v', vault_reach (EmergencySeal (NewVaultState 5 3 0)).1 v' ∧ IsEmergencySealed v' = true.
Proof.
  eexists. split; [eapply rtc_l; [by apply (vault_step_ev (EvProvide [x01; x02]))|apply rtc_refl]|].
  apply (emergency_irreversible (NewVaultState 5 3 0)).
  - apply vault_inv_new.
  - eapply rtc_l; [by apply (vault_step_ev (EvProvide [x01; x02]))|apply rtc_refl].
Defined.

(** C12: the unseal ceremony: on a sealed vault with an empty pool, submitting
    exactly [threshold] distinct shares of one dealing, in any order, answers
    "not yet" until the last one and then unseals with the dealt master key,
    leaving the pool empty. *)
Theorem unseal_ceremony v sb parts e e' shares sel :
  vs_state v = StateSealed → vs_emergency v = false → vs_collected v = [] →
  Split (Some sb) parts (vs_threshold v) e = (e', Ok shares) →
  NoDup sel → sel ⊆ shares → Z.of_nat (length sel) = vs_threshold v →
  let '(v', answers) := provide_all sel v in
  vs_state v' = StateUnsealed ∧ vs_masterKey v' = Some (mkSB (sb_data sb) false) ∧
  vs_collected v' = [] ∧
  answers = replicate (length sel - 1) (false, None) ++ [(true, None)].
Proof.
  intros Hs He Hc Hsplit Hnd Hsub Hlen. pose proof (Split_ok _ _ _ _ _ _ Hsplit) as (_ & _ & Ht & _ & polys & _ & Hsh).
  assert ([] ∉ sel) as Hne.
  { intros H%Hsub. rw Hsh in H. by apply list_elem_of_fmap in H as (i & ? & _). }
  destruct sel as [|last sel _] using rev_ind; [simpl in Hlen; lia|].
  rw length_app /= in Hlen. rw /provide_all foldl_app provide_below //; [set_solver|rw Hc /=; lia|].
  rw Hc /= length_app /= Nat.add_sub. rw /ProvideShare /= He /IsUnsealed Hs /=.
  destruct (Nat.eqb_spec (length last) 0) as [E%nil_length_inv|_]; [set_solver|].
  assert (bool_decide (Z.of_nat (length (sel ++ [last])) < vs_threshold v)%Z = false) as Hge.
  { apply bool_decide_eq_false. rw length_app /=. lia. }
  rw Hge /CombineWithThreshold Hge andb_false_r.
  rw (Split_Combine_gen sb parts (vs_threshold v) e e' shares (sel ++ [last])) //; [rw length_app /=; lia|].
  rw /startResealTimer /=. destruct (bool_decide (0 < vs_autoReseal v)%Z); done.
Qed.

Lemma unseal_ceremony_witness :
  let v := NewVaultState 3 2 0 in
  let sel := [[x03; x1f; x61]; [x01; x39; x25]] in
  let '(v', answers) := provide_all sel v in
  vs_state v' = StateUnsealed ∧ vs_masterKey v' = Some (mkSB [x2a; x07] false) ∧
  vs_collected v' = [] ∧ answers = replicate (length sel - 1) (false, None) ++ [(true, None)].
Proof.
  apply (unseal_ceremony (NewVaultState 3 2 0) (mkSB [x2a; x07] false) 3 [x13; x22] []
    [[x01; x39; x25]; [x02; x0c; x43]; [x03; x1f; x61]]); try reflexivity.
  - apply (bool_decide_unpack _). vm_compute. exact I.
  - intros s Hs. rw !elem_of_cons in Hs. rw !elem_of_cons. tauto.
Defined.

(** A failed recombination never unseals and never keeps shares: when the
    submitted share completes the pool and [Combine] refuses it, the vault stays
    sealed without a key, the pool is emptied and the error is reported. *)
Theorem failed_combine_wipes v share :
  vault_inv v → vs_state v = StateSealed → vs_emergency v = false → share ≠ [] →
  (vs_threshold v ≤ Z.of_nat (length (vs_collected v ++ [share])))%Z →
  ¬ valid_shares (vs_collected v ++ [share]) →
  let '(v', (unsealed, err)) := ProvideShare share v in
  unsealed = false ∧ is_Some err ∧ vs_state v' = StateSealed ∧
  vs_masterKey v' = None ∧ vs_collected v' = [].
Proof.
  intros Hi Hs He Hne Hlen Hv. rw /ProvideShare He /IsUnsealed Hs /=.
  destruct share as [|b share]; [done|]. simpl.
  rw bool_decide_eq_false_2; [lia|]. rw /CombineWithThreshold.
  rw (bool_decide_eq_false_2 (Z.of_nat (length (vs_collected v ++ [b :: share])) < vs_threshold v)%Z); [lia|].
  rw andb_false_r. destruct (Combine_invalid _ Hv) as (er & -> & _). simpl.
  destruct (vi_no_timer v Hi) as (_ & _ & ->); [congruence|]. split_and!; eauto.
Qed.

Lemma failed_combine_wipes_witness :
  let '(v', (unsealed, err)) := ProvideShare [x01; x39] (vault_apply (EvProvide [x01; x39]) (NewVaultState 3 2 0)) in
  unsealed = false ∧ is_Some err ∧ vs_state v' = StateSealed ∧ vs_masterKey v' = None ∧ vs_collected v' = [].
Proof.
  apply (failed_combine_wipes (vault_apply (EvProvide [x01; x39]) (NewVaultState 3 2 0)) [x01; x39]);
    try reflexivity; try done.
  - by apply vault_inv_apply, vault_inv_new.
  - intros [_ _ _ _ H]. by apply (bool_decide_pack _) in H.
Defined.

(** Sealing destroys the key material: after [Seal] of an unsealed vault, or
    after [EmergencySeal], the released key buffer is destroyed and zeroed, the
    vault holds no key, and every [KEKRef] and [MasterKeyRef] fails. *)
Theorem sealing_wipes v k :
  vault_inv v → vs_masterKey v = Some k →
  ∀ v' rel, Seal v = (v', rel) ∨ (∃ called, EmergencySeal v = (v', (rel, called))) →
  vs_state v' = StateSealed ∧
  (∃ k', rel_key rel = Some k' ∧ IsDestroyed k' = true ∧ Forall (λ b, b = x00) (sb_data k') ∧
         length (sb_data k') = length (sb_data k)) ∧
  (∀ S A (f : KEK → M S A) s, KEKRef v' f s = (s, Error errSealedKEK)) ∧
  (∀ S A (f : SecureBuffer → M S A) s, MasterKeyRef v' f s = (s, Error errSealedKey)).
Proof.
  intros Hi Hk v' rel Hor.
  assert (vs_state v' = StateSealed ∧ vs_masterKey v' = None ∧ rel_key rel = Wipe <$> vs_masterKey v)
    as (Hs & Hn & Hr).
  { destruct Hor as [E|[called E]].
    - pose proof (Seal_spec v Hi) as H. rw E in H. naive_solver.
    - pose proof (EmergencySeal_spec v Hi) as H. rw E in H. naive_solver. }
  pose proof (vi_live v Hi k Hk) as Hl. split_and!; [done| |..].
  - rw Hr Hk /=. eexists. split_and!; [done|apply Wipe_destroyed|..]; rw /Wipe Hl /=.
    + apply clear_zero.
    + apply length_replicate.
  - intros. by rw /KEKRef Hn.
  - intros. by rw /MasterKeyRef Hn.
Qed.

Lemma sealing_wipes_witness :
  let v := vault_apply (EvDirect demo_key) (NewVaultState 5 3 1000) in
  vs_state (Seal v).1 = StateSealed.
Proof.
  apply (sealing_wipes (vault_apply (EvDirect demo_key) (NewVaultState 5 3 1000)) demo_key) with
    (rel := (Seal (vault_apply (EvDirect demo_key) (NewVaultState 5 3 1000))).2).
  - apply vault_inv_apply; [by intros k [= <-]|apply vault_inv_new].
  - reflexivity.
  - left. reflexivity.
Defined.
