(* ===== verification/Backup.v ===== *)
(** The Shamir cold backup of the wrapped master key, [src/internal/seal/backup.go]:
    the share file format and the two commands that write and read it, over a host
    with a file system whose calls can fail. *)

From S2P Require Import Prelude SecureBuffer Hash Shamir.

(** ** The host
    A file is its contents and whether its owner may write it. [h_io] lists the
    outcomes of the coming system calls: [Some n] is a call that fails, after
    [n] bytes when it is a write; calls beyond the list succeed. *)
Record Host : Type := mkHost {
  h_rand : entropy;
  h_files : gmap string (bytes * bool);
  h_io : list (option nat);
}.
Definition set_files (m : gmap string (bytes * bool)) (h : Host) : Host := mkHost (h_rand h) m (h_io h).
Definition errOS : error := Err_new "os".

Definition os_call : M Host (option nat) := fun h =>
  match h_io h with
  | [] => (h, Ok None)
  | o :: io => (mkHost (h_rand h) (h_files h) io, Ok o)
  end.
Definition os_MkdirAll : M Host () :=
  o ← os_call; match o with None => mret tt | Some _ => throw errOS end.
Definition os_ReadFile (path : string) : M Host bytes :=
  o ← os_call;
  match o with
  | Some _ => throw errOS
  | None => fun h => (h, match h_files h !! path with Some (d, _) => Ok d | None => Error errOS end)
  end.
(** A new file takes the given permission, an existing one is truncated. *)
Definition write_file (path : string) (content : bytes) (writable : bool) (o : option nat) : M Host () := fun h =>
  match h_files h !! path with
  | Some (_, false) => (h, Error errOS)
  | old =>
      let mode := from_option snd writable old in
      match o with
      | None => (set_files (<[path := (content, mode)]> (h_files h)) h, Ok tt)
      | Some n => (set_files (<[path := (take n content, mode)]> (h_files h)) h, Error errOS)
      end
  end.
Definition os_WriteFile (path : string) (content : bytes) (writable : bool) : M Host () :=
  o ← os_call; write_file path content writable o.
Definition onHostRand {A} (m : M entropy A) : M Host A := fun h =>
  let '(e, r) := m (h_rand h) in (mkHost e (h_files h) (h_io h), r).

(** ** The file format *)
Definition backupMagic : bytes := str_bytes "YVSB".
Definition backupVersion : byte := x01.
Definition backupIntegrityKey : bytes := str_bytes "yvonne-cold-backup-integrity-check-v1".

Record BackupShare : Type := mkBackup {
  bs_Version : byte; bs_Total : byte; bs_Threshold : byte; bs_ShareIdx : byte; bs_HMAC : bytes; bs_Share : bytes
}.

Definition encodeBackupShare (total threshold index : byte) (hmacSum share : bytes) : bytes :=
  backupMagic ++ [backupVersion; total; threshold; index] ++ hmacSum ++ share.

Definition decodeBackupShare (content : bytes) : result BackupShare :=
  if length content <? 40 then Error (Err_new "seal: file too short")
  else if negb (bool_decide (take 4 content = backupMagic))
  then Error (Err_new "seal: invalid magic (not a Yvonne backup file)")
  else if negb (bool_decide (content !!! 4 = backupVersion))
  then Error (Err_new "seal: unsupported backup version")
  else Ok (mkBackup (content !!! 4) (content !!! 5) (content !!! 6) (content !!! 7)
             (take 32 (drop 8 content)) (drop 40 content)).

(** ** Writing the shares *)
(** [fmt.Sprintf("backup-%03d.dat", i+1)] in a clean, non-empty directory path. *)
Definition backup_path (outDir : string) (i : nat) : string :=
  outDir +:+ "/backup-" +:+ (if S i <? 10 then "00" else if S i <? 100 then "0" else "")
    +:+ pretty (S i) +:+ ".dat".

Fixpoint write_shares (outDir : string) (total threshold : Z) (i : nat) (shares : list bytes) : M Host (list string) :=
  match shares with
  | [] => mret []
  | shareBytes :: shares =>
      let hmacSum := hmac_sha256 backupIntegrityKey shareBytes in
      let content := encodeBackupShare (z2b total) (z2b threshold) (z2b (Z.of_nat i)) hmacSum shareBytes in
      let filename := backup_path outDir i in
      wrapM "seal: write share" (os_WriteFile filename content false);;
      paths ← write_shares outDir total threshold (S i) shares;
      mret (filename :: paths)
  end.

Definition SplitWrappedCMKToFiles (wrappedCMK : bytes) (total threshold : Z) (outDir : string) : M Host (list string) :=
  guardM (negb (bool_decide (total < 2)%Z || bool_decide (255 < total)%Z)) (Err_new "seal: total must be 2-255");;
  guardM (negb (bool_decide (threshold < 2)%Z || bool_decide (total < threshold)%Z)) (Err_new "seal: threshold must be 2-total");;
  guardM (negb (length wrappedCMK =? 0)) (Err_new "seal: empty wrapped CMK");;
  let sb := (NewSecureBuffer wrappedCMK).1 in
  shares ← wrapM "seal: shamir split" (onHostRand (Split (Some sb) total threshold));
  guardM (negb (bool_decide (total < 1)%Z || bool_decide (255 < total)%Z)) (Err_new "seal: total must be 1-255");;
  guardM (negb (bool_decide (threshold < 1)%Z || bool_decide (255 < threshold)%Z)) (Err_new "seal: threshold must be 1-255");;
  wrapM "seal: mkdir" os_MkdirAll;;
  write_shares outDir total threshold 0 shares.

(** ** Reading them back *)
Fixpoint read_shares (paths : list string) : M Host (list bytes) :=
  match paths with
  | [] => mret []
  | path :: paths =>
      content ← wrapM "seal: read" (os_ReadFile path);
      share ← wrapM "seal: decode" (lift (decodeBackupShare content));
      guardM (bool_decide (bs_HMAC share = hmac_sha256 backupIntegrityKey (bs_Share share)))
        (Err_new "seal: HMAC verification failed (data corrupted or tampered)");;
      shares ← read_shares paths;
      mret (bs_Share share :: shares)
  end.

Definition CombineWrappedCMKFromFiles (paths : list string) : M Host bytes :=
  guardM (negb (length paths <? 2)) (Err_new "seal: need at least 2 share files");;
  shares ← read_shares paths;
  sb ← wrapM "seal: shamir combine" (lift (Combine shares));
  WithKey sb mret.

(** ** Lemmas *)
(** The format is exact: what decodes is what encodes. *)
Lemma decode_encode t k i mac share : length mac = 32 →
  decodeBackupShare (encodeBackupShare t k i mac share) = Ok (mkBackup backupVersion t k i mac share).
Proof.
  intros Hm. rw /decodeBackupShare /encodeBackupShare /= !length_app Hm. simpl.
  by rw take_app_length' // drop_app_length'.
Qed.
Lemma decode_inv content b : decodeBackupShare content = Ok b →
  content = encodeBackupShare (bs_Total b) (bs_Threshold b) (bs_ShareIdx b) (bs_HMAC b) (bs_Share b) ∧
  length (bs_HMAC b) = 32.
Proof.
  rw /decodeBackupShare. destruct (Nat.ltb_spec (length content) 40) as [|Hl]; [done|].
  case_bool_decide as Hm; [|done]. case_bool_decide as Hv; [|done]. intros [= <-]. simpl.
  do 8 (destruct content as [|? content]; [simpl in Hl; lia|]). simpl in *. rw drop_0 in Hm |- *.
  injection Hm as -> -> -> ->. rw Hv length_take. split; [|lia].
  rw /encodeBackupShare /= take_drop. done.
Qed.

(** A file that [read_shares] takes the share [s] from. *)
Definition holds_share (h : Host) (path : string) (s : bytes) : Prop :=
  ∃ t k i mode, h_files h !! path =
    Some (encodeBackupShare t k i (hmac_sha256 backupIntegrityKey s) s, mode).

Lemma os_call_ok h : h_io h = [] → os_call h = (h, Ok None).
Proof. rw /os_call. by intros ->. Qed.
Lemma os_ReadFile_ok h p d mode : h_io h = [] → h_files h !! p = Some (d, mode) → os_ReadFile p h = (h, Ok d).
Proof. intros Hio Hp. rw /os_ReadFile (M_bind_step _ _ _ _ _ (os_call_ok _ Hio)). by rw Hp. Qed.
Lemma os_ReadFile_inv h p h' d : os_ReadFile p h = (h', Ok d) →
  h_files h' = h_files h ∧ ∃ mode, h_files h !! p = Some (d, mode).
Proof.
  rw /os_ReadFile /mbind /M_bind /os_call. destruct (h_io h) as [|[n|] io]; simpl; [|done|];
    destruct (h_files h !! p) as [[d' mode]|] eqn:E; intros [= <- <-]; rw ?E; eauto.
Qed.

(** What a successful read has checked, and that genuine files are read. *)
Lemma read_shares_inv paths h h' shares : read_shares paths h = (h', Ok shares) →
  h_files h' = h_files h ∧ Forall2 (holds_share h) paths shares.
Proof.
  revert h h' shares. induction paths as [|p paths IH]; intros h h' shares H; simpl in H.
  { inv_M. split; [done|constructor]. }
  inv_M. apply os_ReadFile_inv in Hm as (Hf & mode & Hp).
  apply IH in Hm2 as [Hf' Hall]. apply bool_decide_eq_true in Hm1.
  apply decode_inv in Hm0 as [-> _]. split; [congruence|]. constructor.
  - eexists _, _, _, _. by rw -Hm1 Hp.
  - eapply list.Forall2_impl; [exact Hall|]. intros q x (t & k & i & md & E). eexists _, _, _, _. by rw -Hf E.
Qed.
Lemma read_shares_run paths h shares : h_io h = [] → Forall2 (holds_share h) paths shares →
  read_shares paths h = (h, Ok shares).
Proof.
  intros Hio. induction 1 as [|p s paths shares (t & k & i & mode & Hp) _ IH]; [done|]. simpl.
  erewrite M_bind_step; [|apply wrapM_ok, (os_ReadFile_ok _ _ _ _ Hio Hp)].
  erewrite M_bind_step; [|apply wrapM_ok, lift_ok; split; [apply decode_encode, length_hmac_sha256|done]].
  erewrite (M_bind_step _ _ _ _ tt); [|apply guardM_ok; split; [by apply bool_decide_eq_true_2|done]].
  by rw (M_bind_step _ _ _ _ _ IH).
Qed.

Lemma backup_paths_distinct : NoDup (backup_path "" <$> seq 0 255).
Proof. eapply bool_decide_eq_true_1. vm_compute. reflexivity. Qed.
Lemma backup_path_dir dir i : backup_path dir i = dir +:+ backup_path "" i.
Proof. done. Qed.
Lemma backup_path_inj dir i j : i < 255 → j < 255 → backup_path dir i = backup_path dir j → i = j.
Proof.
  intros Hi Hj E. rw (backup_path_dir dir i) (backup_path_dir dir j) in E.
  apply (inj (String.append dir)) in E. pose proof backup_paths_distinct as Hnd.
  rw NoDup_alt in Hnd. apply (Hnd i j (backup_path "" i)).
  - by rw list_lookup_fmap lookup_seq_lt.
  - by rw list_lookup_fmap lookup_seq_lt // E.
Qed.

Lemma os_WriteFile_inv p d h h' : os_WriteFile p d false h = (h', Ok tt) →
  ∃ mode, h_files h' = <[p := (d, mode)]> (h_files h).
Proof.
  rw /os_WriteFile /mbind /M_bind /os_call. destruct (h_io h) as [|o io]; simpl; rw /write_file /=;
    destruct (h_files h !! p) as [[? []]|]; try destruct o; intros E; simplify_eq; by eexists.
Qed.

Lemma write_shares_inv dir t k shares i h h' paths : i + length shares ≤ 255 →
  write_shares dir t k i shares h = (h', Ok paths) →
  paths = backup_path dir <$> seq i (length shares) ∧ Forall2 (holds_share h') paths shares ∧
  ∀ q, q ∉ paths → h_files h' !! q = h_files h !! q.
Proof.
  revert i h h' paths. induction shares as [|s shares IH]; intros i h h' paths Hi H; simpl in *.
  { inv_M. split_and!; [done|constructor|done]. }
  inv_M. destruct a. apply os_WriteFile_inv in Hm as [mode Hf].
  apply IH in Hm0 as (-> & Hall & Hold); [|lia]. split_and!; [done| |].
  - constructor; [|done]. eexists _, _, _, mode. rw Hold; [|rw Hf; apply lookup_insert_eq].
    intros (j & E & Hj%elem_of_seq)%list_elem_of_fmap. apply backup_path_inj in E; lia.
  - intros q Hq. apply not_elem_of_cons in Hq as [Hq1 Hq2]. by rw Hold // Hf lookup_insert_ne.
Qed.

(** The files of a successful split: one genuine share of one dealing each. *)
Lemma Split_files_inv cmk total t dir h h' paths :
  SplitWrappedCMKToFiles cmk total t dir h = (h', Ok paths) →
  ∃ e e' polys n, Split (Some (mkSB cmk false)) total t e = (e', Ok (deal_share polys <$> seq 0 n)) ∧
    n ≤ 255 ∧ paths = backup_path dir <$> seq 0 n ∧
    ∀ i, i < n → holds_share h' (backup_path dir i) (deal_share polys i).
Proof.
  intros H. rw /SplitWrappedCMKToFiles in H. inv_M. rw /onHostRand in Hm2. change (NewSecureBuffer cmk).1 with (mkSB cmk false) in Hm2.
  destruct (Split _ _ _ _) as [e' r] eqn:HS. simplify_eq.
  pose proof (Split_ok _ _ _ _ _ _ HS) as (_ & _ & ? & ? & polys & _ & ->).
  assert (length (deal_share polys <$> seq 0 (Z.to_nat total)) = Z.to_nat total) as Hl
    by rw length_fmap length_seq //.
  apply write_shares_inv in H as (-> & Hall & _); [|lia]. rw Hl in Hall |- *.
  eexists _, _, _, _. split_and!; [exact HS|lia|done|].
  intros i Hi. rw Forall2_fmap in Hall.
  apply (Forall2_lookup_lr _ _ _ i i i Hall); by apply lookup_seq_lt.
Qed.
Lemma select_paths dir n sel : sel ⊆ (backup_path dir <$> seq 0 n) →
  ∃ ks, sel = backup_path dir <$> ks ∧ ∀ i, i ∈ ks → i < n.
Proof.
  intros Hsub. induction sel as [|p sel IH]; [exists []; set_solver|].
  destruct IH as (ks & -> & Hks); [set_solver|].
  destruct (proj1 (list_elem_of_fmap _ _ _) (Hsub p ltac:(set_solver))) as (i & -> & Hi).
  apply elem_of_seq in Hi. exists (i :: ks). split; [done|].
  intros j [->|]%elem_of_cons; [lia|auto].
Qed.

(** Any [threshold] of the files of a split, unchanged, give back the key. *)
Lemma backup_restores cmk total t dir h h' paths sel host :
  SplitWrappedCMKToFiles cmk total t dir h = (h', Ok paths) →
  NoDup sel → sel ⊆ paths → (t ≤ Z.of_nat (length sel))%Z →
  h_io host = [] → (∀ p, p ∈ sel → h_files host !! p = h_files h' !! p) →
  CombineWrappedCMKFromFiles sel host = (host, Ok cmk).
Proof.
  intros (e & e' & polys & n & HS & Hn & -> & Hf)%Split_files_inv Hnd Hsub Hlen Hio Hsame.
  destruct (select_paths _ _ _ Hsub) as (ks & -> & Hks). apply NoDup_fmap_1 in Hnd. rw length_fmap in Hlen.
  assert (Forall2 (holds_share host) (backup_path dir <$> ks) (deal_share polys <$> ks)) as Hall.
  { rw Forall2_fmap. apply Forall_Forall2_diag, list.Forall_forall. intros i Hi.
    destruct (Hf i (Hks i Hi)) as (a & b & c & d & E). eexists _, _, _, _. rw Hsame; [|exact E].
    by apply list_elem_of_fmap_2. }
  pose proof (Split_ok _ _ _ _ _ _ HS) as (_ & _ & Ht & _).
  rw /CombineWrappedCMKFromFiles /mbind /M_bind /guardM length_fmap.
  destruct (Nat.ltb_spec (length ks) 2); [lia|]. simpl. rw (read_shares_run _ _ _ Hio Hall).
  rw /wrapM /lift (Split_Combine_gen _ _ _ _ _ _ _ HS) //.
  - apply NoDup_fmap_2_strong; [|done]. intros i j Hi%Hks Hj%Hks E. injection E as E _. apply deal_x_inj in E; lia.
  - intros x (i & -> & Hi%Hks)%list_elem_of_fmap. apply list_elem_of_fmap_2, elem_of_seq. lia.
  - by rw length_fmap.
Qed.

(** ** Theorems *)
(** The cold backup is recoverable: after a successful split into files, any
    [threshold] or more of the written files, in any order and on any host that
    still holds them unchanged, give back the wrapped master key. *)
Theorem backup_roundtrip cmk total t dir h h' paths sel host :
  SplitWrappedCMKToFiles cmk total t dir h = (h', Ok paths) →
  NoDup sel → sel ⊆ paths → (t ≤ Z.of_nat (length sel))%Z →
  h_io host = [] → (∀ p, p ∈ sel → h_files host !! p = h_files h' !! p) →
  CombineWrappedCMKFromFiles sel host = (host, Ok cmk).
Proof. apply backup_restores. Qed.

Definition demo_host : Host := mkHost [x13; x22] ∅ [].
Definition demo_backup : Host * result (list string) :=
  SplitWrappedCMKToFiles [x2a; x07] 3 2 "/mnt" demo_host.
Lemma backup_roundtrip_witness :
  CombineWrappedCMKFromFiles ["/mnt/backup-003.dat"; "/mnt/backup-001.dat"] demo_backup.1 =
  (demo_backup.1, Ok [x2a; x07]).
Proof.
  apply (backup_roundtrip [x2a; x07] 3 2 "/mnt" demo_host demo_backup.1
    ["/mnt/backup-001.dat"; "/mnt/backup-002.dat"; "/mnt/backup-003.dat"]).
  - vm_compute. reflexivity.
  - apply (bool_decide_eq_true_1 _). vm_compute. reflexivity.
  - intros p Hp. apply elem_of_cons in Hp as [->|[->|Hp%elem_of_nil]%elem_of_cons]; [..|done];
      repeat (apply list_elem_of_here || apply list_elem_of_further).
  - done.
  - vm_compute. reflexivity.
  - done.
Defined.

(** Exactly the genuine files are accepted: on a host whose calls succeed,
    recombination returns [data] if and only if at least two files were named, each
    holds the magic, the version and a share with its own HMAC, and those shares
    combine to [data]. A file damaged in its magic, version, HMAC or share bytes is
    therefore refused, unless the damaged share has the HMAC stored beside it. *)
Theorem backup_accepts_exactly paths h data : h_io h = [] →
  CombineWrappedCMKFromFiles paths h = (h, Ok data) ↔
  2 ≤ length paths ∧ ∃ shares, Forall2 (holds_share h) paths shares ∧ Combine shares = Ok (mkSB data false).
Proof.
  intros Hio. rw /CombineWrappedCMKFromFiles. split.
  - intros H. inv_M. apply negb_true_iff, Nat.ltb_ge in Hm. split; [done|].
    apply read_shares_inv in Hm0 as [_ Hall]. exists a0. split; [done|].
    pose proof (Combine_sound _ _ Hm1) as Hv. rw Combine_valid // in Hm1. injection Hm1 as <-.
    rw Combine_valid //. by injection H as _ ->.
  - intros (Hl & shares & Hall & HC).
    erewrite (M_bind_step _ _ _ _ tt); [|apply guardM_ok; split; [by apply negb_true_iff, Nat.ltb_ge|done]].
    rw (M_bind_step _ _ _ _ _ (read_shares_run _ _ _ Hio Hall)).
    erewrite M_bind_step; [|apply wrapM_ok, lift_ok; split; [exact HC|done]]. done.
Qed.
Lemma backup_accepts_exactly_witness :
  2 ≤ 2 ∧ ∃ shares, Forall2 (holds_share demo_backup.1) ["/mnt/backup-001.dat"; "/mnt/backup-002.dat"] shares ∧
    Combine shares = Ok (mkSB [x2a; x07] false).
Proof.
  apply (backup_accepts_exactly ["/mnt/backup-001.dat"; "/mnt/backup-002.dat"] demo_backup.1 [x2a; x07]);
    vm_compute; reflexivity.
Defined.

(** The threshold in the file header is not consulted: two files of a
    three-of-three backup combine, without an error, to a different key. *)
Example backup_below_threshold :
  let '(h, r) := SplitWrappedCMKToFiles [x2a] 3 3 "/mnt" (mkHost [x13; x22] ∅ []) in
  r = Ok ["/mnt/backup-001.dat"; "/mnt/backup-002.dat"; "/mnt/backup-003.dat"] ∧
  (CombineWrappedCMKFromFiles ["/mnt/backup-001.dat"; "/mnt/backup-002.dat"] h).2 = Ok [x6e].
Proof. vm_compute. split; reflexivity. Qed.
