(* ===== verification/Store.v ===== *)
(** Key-value storage, [src/internal/storage]: the [KVStore] interface as a class
    with its laws, and [MemoryStore] ([memory.go]) at the level of its buffers, so
    that crypto-shredding (overwrite before release) is visible: the map holds
    addresses, the heap holds every buffer the store ever allocated. *)

From stdpp Require Import sorting fin_maps.
From S2P Require Import Prelude SecureBuffer.

(** ** Stored values
    Values are the JSON documents the program writes, kept as syntax trees: the
    text that [encoding/json] prints and parses is identified with its tree.
    [JTime] and [JBytes] are the strings that [time.Time] and [[]byte] marshal to. *)
Inductive json : Type :=
  | JNull
  | JNum (n : Z)
  | JStr (s : string)
  | JBytes (b : bytes)
  | JTime (t : Z)
  | JArr (l : list string)
  | JObj (fields : list (string * json)).

(** A stored slice: a document, some other bytes, or a buffer that [clear] has
    overwritten with zeros (non-empty, and no JSON text). *)
Inductive data : Type :=
  | Doc (j : json)
  | Raw (b : bytes)
  | Cleared.

(** [len(value) == 0] *)
Definition data_empty (v : data) : bool := match v with Raw [] => true | _ => false end.
Definition clear_data (v : data) : data := match v with Raw [] => Raw [] | _ => Cleared end.

Definition ErrNotFound : error := Err_new "storage: key not found".
Definition errEmptyKey : error := Err_new "storage: empty key".

(** ** The interface *)
(** What becomes of a call to a server: it takes effect, it does not, or it does and the answer
    is lost, so that the caller sees an error. *)
Inductive fate : Type := Works | Fails | Lost.
#[export] Instance fate_eq_dec : EqDecision fate.
Proof. solve_decision. Defined.
Definition next_fate (fs : list fate) : fate * list fate := match fs with [] => (Works, []) | f :: fs => (f, fs) end.

Class KVStore (S : Type) : Type := {
  kv_map : S → gmap string data;
  kv_Put : string → data → M S ();
  kv_Get : string → M S data;
  kv_Delete : string → M S ();
  (** [WithTx]: the closure may also touch the caller's own state [X]. *)
  kv_WithTx : ∀ {X A : Type}, M (S * X) A → M (S * X) A;
  kv_ScanPrefix : string → M S (gmap string data);
  kv_ScanPrefixPaged : string → Z → Z → M S (list (string * data) * Z);
  (** the order in which pages are cut ([ORDER BY key]) *)
  kv_enum : string → gmap string data → list (string * data);
  (** the transaction object implements [TxNotifier] *)
  kv_txNotifies : bool;
  (** a transaction started now is all or nothing *)
  kv_rollback : S → bool;
}.

(** [strings.HasPrefix] and its slicing form [k[:len(prefix)] == prefix]. *)
Definition has_prefix (p k : string) : bool := String.prefix p k.

(** A prefix without the wildcards of SQL patterns: scans of other prefixes differ between stores. *)
Definition plain_prefix (p : string) : bool :=
  forallb (λ c, negb (existsb (Byte.eqb c) [x25; x5f; x5c])) (String.list_byte_of_string p).

(** What the clients of a store rely on. *)
Class KVStoreLaws (S : Type) `{!KVStore S} : Prop := {
  kv_put_ok k v (s s' : S) u : data_empty v = false →
    kv_Put k v s = (s', Ok u) → kv_map s' = <[k := v]> (kv_map s);
  kv_put_err k v (s s' : S) r : data_empty v = false → kv_Put k v s = (s', r) → is_ok r = false →
    kv_map s' = kv_map s ∨ kv_map s' = <[k := v]> (kv_map s);
  kv_get_map k (s s' : S) r : kv_Get k s = (s', r) → kv_map s' = kv_map s;
  kv_get_ok k (s s' : S) v : kv_Get k s = (s', Ok v) → kv_map s !! k = Some v;
  kv_get_notfound k (s s' : S) e :
    kv_Get k s = (s', Error e) → errors_Is e ErrNotFound = true → kv_map s !! k = None;
  kv_delete_ok k (s s' : S) u : kv_Delete k s = (s', Ok u) → kv_map s' = delete k (kv_map s);
  kv_delete_err k (s s' : S) r : kv_Delete k s = (s', r) → is_ok r = false →
    kv_map s' = kv_map s ∨ kv_map s' = delete k (kv_map s);
  kv_tx_ok {X A} (fn : M (S * X) A) s x s' x' a : kv_WithTx fn (s, x) = ((s', x'), Ok a) →
    ∃ s0 s1, kv_map s0 = kv_map s ∧ fn (s0, x) = ((s1, x'), Ok a) ∧ kv_map s' = kv_map s1;
  (** A failed transaction: rolled back, or left where it stopped, or committed with the answer lost. *)
  kv_tx_err {X A} (fn : M (S * X) A) s x s' x' r :
    kv_WithTx fn (s, x) = ((s', x'), r) → is_ok r = false →
    (kv_map s' = kv_map s ∧
     (x' = x ∨ ∃ s0 s1 r0, kv_map s0 = kv_map s ∧ fn (s0, x) = ((s1, x'), r0))) ∨
    (kv_rollback s = false ∧
     ∃ s0 s1, kv_map s0 = kv_map s ∧ fn (s0, x) = ((s1, x'), r) ∧ kv_map s' = kv_map s1) ∨
    (∃ s0 s1 a, kv_map s0 = kv_map s ∧ fn (s0, x) = ((s1, x'), Ok a) ∧ kv_map s' = kv_map s1);
  kv_scan_map p (s s' : S) r : kv_ScanPrefix p s = (s', r) → kv_map s' = kv_map s;
  kv_scan_ok p (s s' : S) m : plain_prefix p = true → kv_ScanPrefix p s = (s', Ok m) →
    m = filter (λ kv, has_prefix p kv.1 = true) (kv_map s);
  kv_paged_map p o l (s s' : S) r : kv_ScanPrefixPaged p o l s = (s', r) → kv_map s' = kv_map s;
  kv_enum_perm p m : plain_prefix p = true →
    kv_enum (S := S) p m ≡ₚ map_to_list (filter (λ kv, has_prefix p kv.1 = true) m);
  kv_paged_ok p o l (s s' : S) items total : (0 ≤ o)%Z → (0 < l)%Z →
    kv_ScanPrefixPaged p o l s = (s', Ok (items, total)) →
    items = take (Z.to_nat l) (drop (Z.to_nat o) (kv_enum (S := S) p (kv_map s)));
}.

(** A store that always answers: what the in-memory store guarantees on top. *)
Class ReliableStore (S : Type) `{!KVStore S} : Prop := {
  rel_put k v (s : S) : k ≠ "" → ∃ s', kv_Put k v s = (s', Ok tt);
  rel_get k (s : S) : kv_Get k s = (s, match kv_map s !! k with Some v => Ok v | None => Error ErrNotFound end);
  rel_delete k (s : S) : ∃ s', kv_Delete k s = (s', Ok tt);
  rel_tx {X A} (fn : M (S * X) A) s x : kv_WithTx fn (s, x) = fn (s, x);
  rel_paged p o l (s : S) : ∃ items total, kv_ScanPrefixPaged p o l s = (s, Ok (items, total));
  rel_scan p (s : S) : ∃ m, kv_ScanPrefix p s = (s, Ok m);
}.

(** ** MemoryStore *)
Module Memory.

Record MemoryStore : Type := mkMem {
  ms_data : gmap string nat;   (* key to buffer address *)
  ms_heap : gmap nat data;     (* every buffer ever allocated by the store *)
  ms_next : nat;
}.

Definition NewMemoryStore : MemoryStore := mkMem ∅ ∅ 0.

(** [clear(buf); runtime.KeepAlive(buf)] *)
Definition clear_at (a : nat) (m : MemoryStore) : MemoryStore :=
  mkMem (ms_data m) (alter clear_data a (ms_heap m)) (ms_next m).

Definition Delete (key : string) : M MemoryStore () := fun m =>
  match ms_data m !! key with
  | None => (m, Ok tt)
  | Some a =>
      let m := clear_at a m in
      (mkMem (delete key (ms_data m)) (ms_heap m) (ms_next m), Ok tt)
  end.

Definition Put (key : string) (value : data) : M MemoryStore () := fun m =>
  if bool_decide (key = "") then (m, Error errEmptyKey)
  else if data_empty value then Delete key m
  else
    let cp := ms_next m in
    let m := mkMem (ms_data m) (<[cp := value]> (ms_heap m)) (S cp) in
    let m := match ms_data m !! key with Some old => clear_at old m | None => m end in
    (mkMem (<[key := cp]> (ms_data m)) (ms_heap m) (ms_next m), Ok tt).

Definition Get (key : string) : M MemoryStore data := fun m =>
  match ms_data m !! key ≫= (ms_heap m !!.) with
  | Some v => (m, Ok v)
  | None => (m, Error ErrNotFound)
  end.

(** The closure runs under the store's lock; a failing closure is not undone. *)
Definition WithTx {X A} (fn : M (MemoryStore * X) A) : M (MemoryStore * X) A := fn.

(** The map the store presents. *)
Definition contents (m : MemoryStore) : gmap string data :=
  omap (ms_heap m !!.) (ms_data m).

Definition ScanPrefix (prefix : string) : M MemoryStore (gmap string data) := fun m =>
  (m, Ok (filter (λ kv, has_prefix prefix kv.1 = true) (contents m))).

(** [sort.Strings] of the keys with the prefix. *)
Definition sort_prefix (prefix : string) (keys : gset string) : list string :=
  merge_sort String.le (filter (λ k, has_prefix prefix k = true) (elements keys)).
Definition sorted_keys (prefix : string) (m : MemoryStore) : list string :=
  sort_prefix prefix (dom (ms_data m)).

Definition ScanPrefixPaged (prefix : string) (offset limit : Z) :
    M MemoryStore (list (string * data) * Z) := fun m =>
  let limit := if bool_decide (limit <= 0)%Z then 1000%Z else limit in
  let keys := sorted_keys prefix m in
  let total := Z.of_nat (length keys) in
  if bool_decide (total <= offset)%Z then (m, Ok ([], total))
  else
    let end_ := Z.min (offset + limit) total in
    let page := take (Z.to_nat (end_ - offset)) (drop (Z.to_nat offset) keys) in
    (m, Ok (omap (λ k, (λ v, (k, v)) <$> contents m !! k) page, total)).

(** ** Invariant: addresses are allocated and not shared, and every buffer that no
    key refers to any more has been overwritten. *)
Record mem_wf (m : MemoryStore) : Prop := {
  wf_alloc k a : ms_data m !! k = Some a → is_Some (ms_heap m !! a);
  wf_inj k k' a : ms_data m !! k = Some a → ms_data m !! k' = Some a → k = k';
  wf_next a : is_Some (ms_heap m !! a) → a < ms_next m;
  wf_shred a v : ms_heap m !! a = Some v → (∀ k, ms_data m !! k ≠ Some a) → v = Cleared;
  wf_nonempty a v : ms_heap m !! a = Some v → data_empty v = false;
}.

Lemma clear_data_cleared v : data_empty v = false → clear_data v = Cleared.
Proof. by destruct v as [| [|]|]. Qed.

Lemma contents_lookup m k : contents m !! k = ms_data m !! k ≫= (ms_heap m !!.).
Proof. by rw /contents lookup_omap. Qed.

Lemma contents_Some m k : mem_wf m → (contents m !! k = None ↔ ms_data m !! k = None).
Proof.
  intros Hw. rw contents_lookup. destruct (ms_data m !! k) as [a|] eqn:E; simpl; [|done].
  destruct (wf_alloc m Hw k a E) as [v ->]. done.
Qed.

Lemma lookup_alter_clear (h : gmap nat data) a b v :
  alter clear_data a h !! b = Some v →
  (a = b ∧ ∃ w, h !! a = Some w ∧ v = clear_data w) ∨ (a ≠ b ∧ h !! b = Some v).
Proof.
  destruct (decide (a = b)) as [->|Hne].
  - rw lookup_alter_eq. intros (w & ? & ?)%fmap_Some. left. eauto.
  - rw lookup_alter_ne //. auto.
Qed.

Lemma is_Some_alter_clear (h : gmap nat data) a b :
  is_Some (alter clear_data a h !! b) ↔ is_Some (h !! b).
Proof.
  destruct (decide (a = b)) as [->|Hne]; [|by rw lookup_alter_ne].
  by rw lookup_alter_eq fmap_is_Some.
Qed.

Lemma Delete_spec key m m' r : mem_wf m → Delete key m = (m', r) →
  r = Ok tt ∧ mem_wf m' ∧ contents m' = delete key (contents m).
Proof.
  intros Hw. rw /Delete. destruct (ms_data m !! key) as [a|] eqn:Ea; intros [= <- <-].
  2: { split_and!; [done..|]. rw delete_id //. by apply contents_Some. }
  split; [done|]. pose proof Hw as [Hal Hinj Hnx Hsh Hne]. split; [split|]; simpl.
  - intros k b Hk. apply is_Some_alter_clear, (Hal k).
    by apply lookup_delete_Some in Hk as [_ ?].
  - intros k k' b [_ Hk]%lookup_delete_Some [_ Hk']%lookup_delete_Some. eauto.
  - intros b Hb%is_Some_alter_clear. auto.
  - intros b v [(<- & w & Hw' & ->)|[Hab Hb]]%lookup_alter_clear Hun.
    { apply clear_data_cleared; eauto. }
    apply (Hsh b); [done|]. intros k Hk. apply (Hun k), lookup_delete_Some. split; [|done].
    intros ->. congruence.
  - intros b v [(<- & w & Hw' & ->)|[Hab Hb]]%lookup_alter_clear; [|eauto].
    rw clear_data_cleared; eauto.
  - apply map_eq. intros k. rw contents_lookup /= !lookup_delete contents_lookup.
    case_decide as Hk; [done|]. destruct (ms_data m !! k) as [b|] eqn:Eb; simpl; [|done].
    rw lookup_alter_ne //. intros ->. by destruct Hk; eapply Hinj.
Qed.

Lemma Put_spec key v m m' r : mem_wf m → Put key v m = (m', r) →
  mem_wf m' ∧
  (key = "" ∧ r = Error errEmptyKey ∧ m' = m ∨
   key ≠ "" ∧ data_empty v = true ∧ r = Ok tt ∧ contents m' = delete key (contents m) ∨
   key ≠ "" ∧ data_empty v = false ∧ r = Ok tt ∧ contents m' = <[key := v]> (contents m)).
Proof.
  intros Hw. rw /Put. case_bool_decide as Hk; [intros [= <- <-]; auto|].
  destruct (data_empty v) eqn:Hv.
  { intros (-> & ? & ?)%Delete_spec; [|done]. split; [done|]. right; left; auto. }
  pose proof Hw as [Hal Hinj Hnx Hsh Hne].
  assert (ms_heap m !! ms_next m = None) as Hfresh.
  { destruct (ms_heap m !! ms_next m) eqn:E; [|done].
    pose proof (Hnx (ms_next m) ltac:(eauto)). lia. }
  assert (∀ k a, ms_data m !! k = Some a → a ≠ ms_next m) as Hnf.
  { intros k a Ha ->. destruct (Hal _ _ Ha) as [? ?]. congruence. }
  (* the heap after the old buffer, if any, has been cleared *)
  set (h := match ms_data m !! key with
            | Some old => alter clear_data old (<[ms_next m := v]> (ms_heap m))
            | None => <[ms_next m := v]> (ms_heap m) end).
  intros E. assert (m' = mkMem (<[key := ms_next m]> (ms_data m)) h (S (ms_next m)) ∧ r = Ok tt) as [-> ->].
  { rw /h. simpl in E. by destruct (ms_data m !! key); injection E as <- <-. }
  assert (∀ b w, h !! b = Some w →
    b = ms_next m ∧ w = v ∨
    b ≠ ms_next m ∧ (ms_data m !! key = Some b ∧ w = Cleared ∨ ms_data m !! key ≠ Some b ∧ ms_heap m !! b = Some w)) as Hh.
  { intros b w Hb. rw /h in Hb. destruct (ms_data m !! key) as [old|] eqn:Eo.
    - apply lookup_alter_clear in Hb as [(<- & w' & Hw' & ->)|[Hob Hb]].
      + rw lookup_insert_ne in Hw'; [by intros <-; eapply Hnf|].
        right. split; [by eapply Hnf|]. left. split; [done|]. apply clear_data_cleared; eauto.
      + apply lookup_insert_Some in Hb as [[<- <-]|[? ?]]; [by left|]. right. split; [done|].
        right. split; [congruence|done].
    - apply lookup_insert_Some in Hb as [[<- <-]|[? ?]]; [by left|]. right. split; [done|]. by right. }
  assert (∀ b, is_Some (h !! b) ↔ b = ms_next m ∨ is_Some (ms_heap m !! b)) as Hdom.
  { intros b. rw /h. assert (is_Some (<[ms_next m := v]> (ms_heap m) !! b) ↔
      b = ms_next m ∨ is_Some (ms_heap m !! b)) as Hi.
    { rw lookup_insert_is_Some'. naive_solver. }
    destruct (ms_data m !! key); [by rw is_Some_alter_clear|done]. }
  split.
  - split; simpl.
    + intros k a [[<- <-]|[? ?]]%lookup_insert_Some; apply Hdom; eauto.
    + intros k k' a [[<- <-]|[? Hka]]%lookup_insert_Some [[<- E2]|[? ?]]%lookup_insert_Some; eauto.
      * exfalso. by eapply Hnf.
      * subst. exfalso. by eapply Hnf.
    + intros a [->|Ha%Hnx]%Hdom; lia.
    + intros a w [[-> ->]|[Hna [[_ ->]|[Hko Ha]]]]%Hh Hun; [|done|].
      * destruct (Hun key). apply lookup_insert_eq.
      * apply (Hsh a); [done|]. intros k Hka. apply (Hun k).
        rw lookup_insert_ne //. intros ->. congruence.
    + intros a w [[-> ->]|[Hna [[_ ->]|[_ Ha]]]]%Hh; eauto.
  - right; right. split_and!; [done..|]. apply map_eq. intros k. rw contents_lookup /=.
    destruct (decide (key = k)) as [<-|Hne'].
    + rw !lookup_insert_eq /=. destruct (proj2 (Hdom (ms_next m))) as [w Hw']; [by left|].
      rw Hw'. apply Hh in Hw' as [[_ ->]|[? _]]; done.
    + rw !lookup_insert_ne // contents_lookup. destruct (ms_data m !! k) as [b|] eqn:Eb; [|done]. simpl.
      destruct (proj2 (Hdom b)) as [w Hw']; [right; eauto|]. rw Hw'.
      apply Hh in Hw' as [[-> _]|[_ [[Ek _]|[_ ->]]]]; [by exfalso; eapply Hnf| |done].
      destruct Hne'. by eapply Hinj.
Qed.
End Memory.

(** ** The interface implemented by well-formed memory stores *)
Module MemoryKV.
Import Memory.

Record WMem : Type := mkWMem { wm : MemoryStore; wm_wf : mem_wf wm }.

Lemma mem_wf_new : mem_wf NewMemoryStore.
Proof.
  split; simpl.
  - by intros k a.
  - by intros k k' a.
  - by intros a [? ?].
  - by intros a v.
  - by intros a v.
Qed.
Definition empty : WMem := mkWMem NewMemoryStore mem_wf_new.

Lemma Put_wf key v m : mem_wf m → mem_wf (Put key v m).1.
Proof.
  intros Hw. destruct (Put key v m) as [m' r] eqn:E. by eapply Put_spec in E as [? _].
Qed.
Lemma Delete_wf key m : mem_wf m → mem_wf (Delete key m).1.
Proof.
  intros Hw. destruct (Delete key m) as [m' r] eqn:E. by eapply Delete_spec in E as (_ & ? & _).
Qed.

#[export] Instance WMem_KVStore : KVStore WMem := {|
  kv_map s := contents (wm s);
  kv_Put k v := fun s => (mkWMem (Put k v (wm s)).1 (Put_wf k v _ (wm_wf s)), (Put k v (wm s)).2);
  kv_Get k := fun s => (s, (Get k (wm s)).2);
  kv_Delete k := fun s =>
    (mkWMem (Delete k (wm s)).1 (Delete_wf k _ (wm_wf s)), (Delete k (wm s)).2);
  kv_WithTx X A fn := fn;
  kv_ScanPrefix p := fun s => (s, (ScanPrefix p (wm s)).2);
  kv_ScanPrefixPaged p o l := fun s => (s, (ScanPrefixPaged p o l (wm s)).2);
  kv_enum p m := omap (λ k, (λ v, (k, v)) <$> m !! k) (sort_prefix p (dom m));
  kv_txNotifies := false;
  kv_rollback _ := false;
|}.

Lemma Get_contents k m :
  (Get k m).2 = match contents m !! k with Some v => Ok v | None => Error ErrNotFound end.
Proof. rw /Get contents_lookup. by destruct (_ ≫= _). Qed.

Lemma Put_nonempty k v m : mem_wf m → data_empty v = false → is_ok (Put k v m).2 = true →
  contents (Put k v m).1 = <[k := v]> (contents m).
Proof.
  intros Hw Hv Hr. destruct (Put k v m) as [m' r] eqn:E.
  apply Put_spec in E as [_ [(_ & -> & _)|[(_ & H & _)|(_ & _ & _ & H)]]]; [done|congruence|done|done].
Qed.

Lemma enum_perm p (m : gmap string data) :
  omap (λ k, (λ v, (k, v)) <$> m !! k) (sort_prefix p (dom m)) ≡ₚ
  map_to_list (filter (λ kv, has_prefix p kv.1 = true) m).
Proof.
  rw /sort_prefix merge_sort_Permutation. apply NoDup_Permutation; [|apply NoDup_map_to_list|].
  - assert (∀ ks : list string, NoDup ks → NoDup (omap (λ k, (λ v, (k, v)) <$> m !! k) ks)) as H.
    { induction ks as [|k ks IH]; [constructor|]. intros [Hk Hks]%list.NoDup_cons. simpl.
      destruct (m !! k) as [v|]; [|by apply IH]. simpl. apply list.NoDup_cons. split; [|by apply IH].
      intros (k' & Hk' & (v' & _ & [= <- <-])%fmap_Some)%list_elem_of_omap. done. }
    apply H, list.NoDup_filter, NoDup_elements.
  - intros [k v]. rw elem_of_map_to_list map_lookup_filter_Some list_elem_of_omap. simpl. split.
    + intros (k' & Hk' & (v' & Hv' & [= <- <-])%fmap_Some).
      apply list_elem_of_filter in Hk' as [? _]. done.
    + intros [Hv Hp]. exists k. rw list_elem_of_filter elem_of_elements Hv. split; [|done].
      split; [done|]. by eapply elem_of_dom_2.
Qed.

Lemma omap_drop_take {A B} (f : A → option B) l i n : Forall (λ x, is_Some (f x)) l →
  omap f (take n (drop i l)) = take n (drop i (omap f l)).
Proof.
  revert i n. induction l as [|x l IH]; intros i n Hf; [by destruct i, n|].
  apply list.Forall_cons in Hf as [[y Hy] Hf]. destruct i as [|i].
  - destruct n as [|n]; [done|]. simpl. rw Hy /=. f_equal. by apply (IH 0 n).
  - simpl. rw Hy /=. by apply IH.
Qed.

Lemma paged_enum p o l m items total : mem_wf m → (0 ≤ o)%Z → (0 < l)%Z →
  (ScanPrefixPaged p o l m).2 = Ok (items, total) →
  items = take (Z.to_nat l) (drop (Z.to_nat o)
    (omap (λ k, (λ v, (k, v)) <$> contents m !! k) (sort_prefix p (dom (contents m))))).
Proof.
  intros Hw Ho Hl. rw /ScanPrefixPaged /sorted_keys (bool_decide_eq_false_2 (l <= 0)%Z); [lia|].
  assert (dom (contents m) = dom (ms_data m)) as Hd.
  { apply leibniz_equiv. intros k. rw !elem_of_dom -!not_eq_None_Some contents_Some //. }
  rw Hd. set (ks := sort_prefix p (dom (ms_data m))).
  assert (Forall (λ k, is_Some ((λ v, (k, v)) <$> contents m !! k)) ks) as Hks.
  { apply list.Forall_forall. intros k Hk. apply fmap_is_Some. rw /ks /sort_prefix merge_sort_Permutation in Hk.
    apply list_elem_of_filter in Hk as [_ Hk]. apply elem_of_elements in Hk. rw -Hd in Hk. by apply elem_of_dom. }
  rw -omap_drop_take //. case_bool_decide; intros [= <- <-].
  - rw drop_ge; [lia|]. by rw take_nil.
  - destruct (decide (o + l ≤ Z.of_nat (length ks))%Z).
    + by replace (Z.min (o + l) (Z.of_nat (length ks)) - o)%Z with l by lia.
    + f_equal. replace (Z.min (o + l) (Z.of_nat (length ks)) - o)%Z with (Z.of_nat (length ks) - o)%Z by lia.
      rw !take_ge // length_drop; lia.
Qed.

#[export] Instance WMem_laws : KVStoreLaws WMem.
Proof.
  split; cbn.
  - intros k v s s' u Hv E. injection E as <- Hr. apply Put_nonempty; [apply wm_wf|done|by rw Hr].
  - intros k v s s' r _ E Hr. left. injection E as <- <-. simpl. destruct (Put k v (wm s)) as [m' r] eqn:E.
    apply Put_spec in E as [_ [(_ & -> & ->)|[(_ & _ & -> & _)|(_ & _ & -> & _)]]]; [done..|apply wm_wf].
  - by intros k s s' r [= <- _].
  - intros k s s' v. rw Get_contents. destruct (contents (wm s) !! k) eqn:E; intros [= _ <-]; done.
  - intros k s s' e. rw Get_contents. destruct (contents (wm s) !! k) eqn:E; by intros [= _ <-].
  - intros k s s' u E. injection E as <- _. simpl. destruct (Delete k (wm s)) as [m' r] eqn:E.
    apply Delete_spec in E as (_ & _ & ?); [done|apply wm_wf].
  - intros k s s' r E Hr. injection E as <- <-. simpl. destruct (Delete k (wm s)) as [m' r] eqn:E.
    apply Delete_spec in E as (-> & _ & _); [done|apply wm_wf].
  - intros X A fn s x s' x' a E. exists s, s'. done.
  - intros X A fn s x s' x' r E Hr. right; left. split; [done|]. exists s, s'. done.
  - by intros p s s' r [= <- _].
  - by intros p s s' m _ [= _ <-].
  - by intros p o l s s' r [= <- _].
  - intros p m _. apply enum_perm.
  - intros p o l s s' items total Ho Hl E. injection E as _ E.
    by eapply paged_enum in E; [|apply wm_wf|..].
Qed.

#[export] Instance WMem_reliable : ReliableStore WMem.
Proof.
  split; cbn.
  - intros k v s Hk. eexists. f_equal. destruct (Put k v (wm s)) as [m' r] eqn:E.
    apply Put_spec in E as [_ [(? & _)|[(_ & _ & -> & _)|(_ & _ & -> & _)]]]; [done..|apply wm_wf].
  - intros k s. by rw Get_contents.
  - intros k s. eexists. f_equal. destruct (Delete k (wm s)) as [m' r] eqn:E.
    apply Delete_spec in E as (-> & _ & _); [done|apply wm_wf].
  - done.
  - intros p o l s. rw /ScanPrefixPaged. case_bool_decide; eauto.
  - eauto.
Qed.

(** ** Histories of the in-memory store *)
Inductive mem_op : Type := OpPut (k : string) (v : data) | OpDelete (k : string).
Definition mem_run (ops : list mem_op) (m : MemoryStore) : MemoryStore :=
  foldl (λ m op, match op with OpPut k v => (Put k v m).1 | OpDelete k => (Delete k m).1 end) m ops.

(** The reference behaviour: a finite map, empty values delete, the empty key is refused. *)
Definition spec_run (ops : list mem_op) (f : gmap string data) : gmap string data :=
  foldl (λ f op, match op with
    | OpPut k v => if bool_decide (k = "") then f else if data_empty v then delete k f else <[k := v]> f
    | OpDelete k => delete k f end) f ops.

Lemma mem_run_spec ops m : mem_wf m →
  mem_wf (mem_run ops m) ∧ contents (mem_run ops m) = spec_run ops (contents m).
Proof.
  revert m. induction ops as [|op ops IH]; intros m Hw; [done|]. simpl. destruct op as [k v|k].
  - destruct (Put k v m) as [m' r] eqn:E. apply Put_spec in E as [Hw' Hc]; [|done].
    destruct (IH m' Hw') as [? E]. split; [done|]. etrans; [exact E|]. rw /spec_run /=. f_equal.
    destruct Hc as [(-> & _ & ->)|[(? & -> & _ & ->)|(? & -> & _ & ->)]];
      [done|by rw bool_decide_eq_false_2..].
  - destruct (Delete k m) as [m' r] eqn:E. apply Delete_spec in E as (_ & Hw' & <-); [|done].
    by apply IH.
Qed.

(** C13: the in-memory store refines a finite map and shreds: after any history of
    puts and deletes from an empty store, its contents are those of the reference
    map, and every buffer it ever allocated that no key refers to any more (an
    overwritten or deleted value) has been overwritten with zeros. *)
Theorem MemoryStore_refines_and_shreds ops :
  let m := mem_run ops NewMemoryStore in
  contents m = spec_run ops ∅ ∧
  (∀ k, (Get k m).2 = match spec_run ops ∅ !! k with Some v => Ok v | None => Error ErrNotFound end) ∧
  (∀ a v, ms_heap m !! a = Some v → (∀ k, ms_data m !! k ≠ Some a) → v = Cleared).
Proof.
  destruct (mem_run_spec ops NewMemoryStore mem_wf_new) as [Hw Hc]. intros m.
  assert (contents m = spec_run ops ∅) as Hm by done. split_and!; [done| |].
  - intros k. by rw Get_contents Hm.
  - apply (wf_shred m Hw).
Qed.
End MemoryKV.
