(* ===== verification/Postgres.v ===== *)
(** The PostgreSQL store, [src/internal/storage/pg_kvstore.go]. The table is a finite
    map; the server is seen through its documented behaviour: a call works, fails, or
    takes effect while its answer is lost (the stream [pg_faults] says what becomes of
    the coming calls); a statement that is not answered aborts the transaction it runs
    in; a transaction that is rolled back leaves the table as it was, and one whose
    [COMMIT] is not answered is committed or not. *)

From stdpp Require Import sorting fin_maps.
From S2P Require Import Prelude SecureBuffer Store.

Record Pg : Type := mkPg {
  pg_table : gmap string data;
  pg_healthy : bool;             (* [p.health] *)
  pg_faults : list fate;         (* of the coming calls; exhausted: they work *)
  pg_tx : option bool;           (* inside a transaction; [Some true]: aborted *)
}.
Definition pg_set_table (t : gmap string data) (p : Pg) : Pg := mkPg t (pg_healthy p) (pg_faults p) (pg_tx p).
Definition pg_set_tx (x : option bool) (p : Pg) : Pg := mkPg (pg_table p) (pg_healthy p) (pg_faults p) x.
Definition markUnhealthy (p : Pg) : Pg := mkPg (pg_table p) false (pg_faults p) (pg_tx p).
Definition IsHealthy (p : Pg) : bool := pg_healthy p.

(** One round trip to the server: the connection afterwards, and the fate of the call. *)
Definition pg_call (p : Pg) : Pg * fate :=
  match pg_tx p with
  | Some true => (p, Fails)
  | tx =>
      let '(f, fs) := next_fate (pg_faults p) in
      (mkPg (pg_table p) (pg_healthy p) fs (if bool_decide (f = Works) then tx else match tx with Some _ => Some true | None => None end), f)
  end.
(** The table after a statement that was not answered: inside a transaction it is undone. *)
Definition pg_unanswered (f : fate) (t : gmap string data) (p : Pg) : Pg :=
  match f, pg_tx p with Lost, None => pg_set_table t p | _, _ => p end.
(** Statements on the pool flag the store as unhealthy when they fail; those of a
    transaction do not. *)
Definition pg_fail {A} (marks : bool) (ctx : string) (p : Pg) : Pg * result A :=
  (match pg_tx p with None => if marks then markUnhealthy p else p | Some _ => p end,
   Error (Err_wrap ctx (Err_new "pgx"))).

Definition Delete (key : string) : M Pg () := fun p =>
  let '(p, f) := pg_call p in
  if bool_decide (f = Works) then (pg_set_table (delete key (pg_table p)) p, Ok tt)
  else pg_fail false "postgres: delete" (pg_unanswered f (delete key (pg_table p)) p).
Definition Put (key : string) (value : data) : M Pg () := fun p =>
  if bool_decide (key = "") then (p, Error errEmptyKey)
  else if data_empty value then Delete key p
  else
    let '(p, f) := pg_call p in
    if bool_decide (f = Works) then (pg_set_table (<[key := value]> (pg_table p)) p, Ok tt)
    else pg_fail true "postgres: put" (pg_unanswered f (<[key := value]> (pg_table p)) p).
Definition Get (key : string) : M Pg data := fun p =>
  let '(p, f) := pg_call p in
  if bool_decide (f = Works) then (p, match pg_table p !! key with Some v => Ok v | None => Error ErrNotFound end)
  else pg_fail true "postgres: get" p.

(** Inside a transaction the closure just runs; otherwise begin, run, commit, with
    the deferred rollback on every other way out. Rolling back what was committed without an
    answer does nothing. *)
Definition WithTx {X A} (fn : M (Pg * X) A) : M (Pg * X) A := fun '(p, x) =>
  match pg_tx p with
  | Some _ => fn (p, x)
  | None =>
      let '(p1, f) := pg_call p in
      if negb (bool_decide (f = Works)) then ((p1, x), Error (Err_wrap "postgres: begin tx" (Err_new "pgx")))
      else
        let '((p2, x'), r) := fn (pg_set_tx (Some false) p1, x) in
        let rollback p := pg_set_tx None (pg_set_table (pg_table p1) p) in
        match r with
        | Ok a =>
            match pg_call p2 with
            | (p3, Works) => ((pg_set_tx None p3, x'), Ok a)
            | (p3, Lost) => ((pg_set_tx None p3, x'), Error (Err_wrap "postgres: commit" (Err_new "pgx")))
            | (p3, Fails) => ((rollback p3, x'), Error (Err_wrap "postgres: commit" (Err_new "pgx")))
            end
        | r => ((rollback p2, x'), r)
        end
  end.

(** [LIKE]: percent signs, underscores and backslashes of the pattern are special. *)
Fixpoint like (p s : bytes) : bool :=
  match p with
  | [] => match s with [] => true | _ => false end
  | x25 :: p => (fix any (s : bytes) : bool := like p s || match s with [] => false | _ :: s => any s end) s
  | x5f :: p => match s with _ :: s => like p s | [] => false end
  | x5c :: p => match p, s with e :: p, c :: s => Byte.eqb c e && like p s | _, _ => false end
  | b :: p => match s with c :: s => Byte.eqb c b && like p s | [] => false end
  end.
(** [k LIKE prefix || '%'] *)
Definition pg_match (prefix k : string) : bool := like (String.list_byte_of_string prefix ++ [x25]) (String.list_byte_of_string k).
Definition pg_prefix (p : string) (t : gmap string data) : gmap string data := filter (λ kv, pg_match p kv.1 = true) t.
Definition ScanPrefix (prefix : string) : M Pg (gmap string data) := fun p =>
  let '(p, f) := pg_call p in
  if bool_decide (f = Works) then (p, Ok (pg_prefix prefix (pg_table p)))
  else pg_fail false "postgres: scan prefix" p.

(** [ORDER BY k] of the matching rows. *)
Definition pg_rows (prefix : string) (t : gmap string data) : list (string * data) :=
  let t := pg_prefix prefix t in omap (λ k, (λ v, (k, v)) <$> t !! k) (Memory.sort_prefix "" (dom t)).
Definition ScanPrefixPaged (prefix : string) (offset limit : Z) : M Pg (list (string * data) * Z) := fun p =>
  let limit := if bool_decide (limit <= 0)%Z then 1000%Z else limit in
  let '(p, f) := pg_call p in
  if negb (bool_decide (f = Works)) then pg_fail false "postgres: count prefix" p
  else
    let total := Z.of_nat (size (pg_prefix prefix (pg_table p))) in
    if bool_decide (total <= offset)%Z then (p, Ok ([], total))
    else
      let '(p, f) := pg_call p in
      if negb (bool_decide (f = Works)) then pg_fail false "postgres: scan prefix paged" p
      else (p, Ok (take (Z.to_nat limit) (drop (Z.to_nat offset) (pg_rows prefix (pg_table p))), total)).

#[export] Instance Pg_KVStore : KVStore Pg := {|
  kv_map := pg_table;
  kv_Put := Put;
  kv_Get := Get;
  kv_Delete := Delete;
  kv_WithTx X A := WithTx;
  kv_ScanPrefix := ScanPrefix;
  kv_ScanPrefixPaged := ScanPrefixPaged;
  kv_enum := pg_rows;
  kv_txNotifies := true;
  kv_rollback p := match pg_tx p with None => true | Some _ => false end;
|}.

Lemma pg_call_table p p' b : pg_call p = (p', b) → pg_table p' = pg_table p.
Proof. rw /pg_call. destruct (pg_tx p) as [[|]|], (next_fate (pg_faults p)); by intros [= <- _]. Qed.
Lemma pg_unanswered_table f t p : pg_table (pg_unanswered f t p) = pg_table p ∨ pg_table (pg_unanswered f t p) = t.
Proof. rw /pg_unanswered. destruct f, (pg_tx p); auto. Qed.
Lemma pg_fail_spec {A} marks ctx p p' (r : result A) : pg_fail marks ctx p = (p', r) →
  pg_table p' = pg_table p ∧ r = Error (Err_wrap ctx (Err_new "pgx")).
Proof. rw /pg_fail. intros [= <- <-]. split; [|done]. by destruct (pg_tx p), marks. Qed.

(** A successful statement, and a failed one. *)
Lemma pg_Put_spec k v p p' r : data_empty v = false → Put k v p = (p', r) →
  (r = Ok tt ∧ pg_table p' = <[k := v]> (pg_table p)) ∨
  (is_ok r = false ∧ (pg_table p' = pg_table p ∨ pg_table p' = <[k := v]> (pg_table p))).
Proof.
  intros Hv. rw /Put Hv. case_bool_decide; [intros [= <- <-]; right; auto|].
  destruct (pg_call p) as [p1 f] eqn:E; apply pg_call_table in E. case_bool_decide.
  - intros [= <- <-]. left. by rw /= E.
  - intros [-> ->]%pg_fail_spec. right. split; [done|]. rewrite -E. apply pg_unanswered_table.
Qed.
Lemma pg_Delete_spec k p p' r : Delete k p = (p', r) →
  (r = Ok tt ∧ pg_table p' = delete k (pg_table p)) ∨
  (is_ok r = false ∧ (pg_table p' = pg_table p ∨ pg_table p' = delete k (pg_table p))).
Proof.
  rw /Delete. destruct (pg_call p) as [p1 f] eqn:E; apply pg_call_table in E. case_bool_decide.
  - intros [= <- <-]. left. by rw /= E.
  - intros [-> ->]%pg_fail_spec. right. split; [done|]. rewrite -E. apply pg_unanswered_table.
Qed.
Lemma pg_Get_spec k p p' r : Get k p = (p', r) → pg_table p' = pg_table p ∧
  (r = match pg_table p !! k with Some v => Ok v | None => Error ErrNotFound end ∨
   r = Error (Err_wrap "postgres: get" (Err_new "pgx"))).
Proof.
  rw /Get. destruct (pg_call p) as [p1 f] eqn:E; apply pg_call_table in E. case_bool_decide.
  - intros [= <- <-]. rw E. split; [done|by left].
  - intros [Et ->]%pg_fail_spec. split; [congruence|by right].
Qed.

Lemma pg_WithTx_nested {X A} (fn : M (Pg * X) A) p x b : pg_tx p = Some b → WithTx fn (p, x) = fn (p, x).
Proof. rw /WithTx. by intros ->. Qed.

(** A transaction outside any other: committed, or without a trace, or committed without an answer. *)
Lemma pg_WithTx_spec {X A} (fn : M (Pg * X) A) p x p' x' r : pg_tx p = None → WithTx fn (p, x) = ((p', x'), r) →
  (is_ok r = true ∧ ∃ p0 p1, pg_table p0 = pg_table p ∧ fn (p0, x) = ((p1, x'), r) ∧ pg_table p' = pg_table p1) ∨
  (is_ok r = false ∧ pg_table p' = pg_table p ∧
   (x' = x ∨ ∃ p0 p1 r0, pg_table p0 = pg_table p ∧ fn (p0, x) = ((p1, x'), r0))) ∨
  (is_ok r = false ∧ ∃ p0 p1 a, pg_table p0 = pg_table p ∧ fn (p0, x) = ((p1, x'), Ok a) ∧ pg_table p' = pg_table p1).
Proof.
  intros Htx. rw /WithTx Htx. destruct (pg_call p) as [p1 f] eqn:E; apply pg_call_table in E. case_bool_decide; cbn [negb].
  2: { intros [= <- <- <-]. right; left. by split_and!; [|..|left]. }
  destruct (fn (pg_set_tx (Some false) p1, x)) as [[p2 x2] [a|e|m]] eqn:Ef.
  - destruct (pg_call p2) as [p3 []] eqn:E3; apply pg_call_table in E3; intros [= <- <- <-].
    + left. split; [done|]. by exists (pg_set_tx (Some false) p1), p2.
    + right; left. split_and!; [done|done|]. right. by eexists (pg_set_tx (Some false) p1), p2, (Ok a).
    + right; right. split; [done|]. by exists (pg_set_tx (Some false) p1), p2, a.
  - intros [= <- <- <-]. right; left. split_and!; [done|done|]. right. by eexists (pg_set_tx (Some false) p1), p2, _.
  - intros [= <- <- <-]. right; left. split_and!; [done|done|]. right. by eexists (pg_set_tx (Some false) p1), p2, _.
Qed.

Lemma pg_rows_perm p t : pg_rows p t ≡ₚ map_to_list (pg_prefix p t).
Proof. rw /pg_rows MemoryKV.enum_perm. f_equiv. apply map_filter_id. intros k v _. by destruct k. Qed.
(** Without wildcards a pattern is a prefix. *)
Lemma like_rest s : like [x25] s = true.
Proof. induction s as [|c s IH]; [done|exact IH]. Qed.
Lemma like_plain (p s : bytes) : forallb (λ c, negb (existsb (Byte.eqb c) [x25; x5f; x5c])) p = true →
  like (p ++ [x25]) s = true ↔ ∃ r, s = p ++ r.
Proof.
  revert s. induction p as [|b p IH]; intros s Hp; [rw like_rest; split; [by exists s|done]|].
  cbn [forallb] in Hp. apply andb_true_iff in Hp as [Hb Hp]. specialize (IH) with (1 := Hp).
  assert (like ((b :: p) ++ [x25]) s = match s with c :: s => Byte.eqb c b && like (p ++ [x25]) s | [] => false end) as -> by by destruct b.
  destruct s as [|c s]; [split; [done|by intros [r ?]]|]. rw andb_true_iff IH. split.
  - intros [->%Byte.byte_dec_bl [r ->]]. by exists r.
  - intros [r [= -> ->]]. split; [by apply Byte.byte_dec_lb|by exists r].
Qed.
Lemma pg_match_plain p k : plain_prefix p = true → pg_match p k = true ↔ has_prefix p k = true.
Proof.
  intros Hp. rw /pg_match (like_plain _ _ Hp) /has_prefix. clear Hp. revert k. induction p as [|a p IH]; intros k; [split; [by destruct k|by eexists]|].
  destruct k as [|b k]; [split; [by intros [r ?]|done]|]. cbn. destruct (Ascii.ascii_dec a b) as [->|Hne].
  - rw -IH. split; intros [r Hr]; [injection Hr as Hr; by exists r|exists r; exact (f_equal (cons (Ascii.byte_of_ascii b)) Hr)].
  - split; [|done]. intros [r Hr]. injection Hr as Hab _. apply (f_equal Ascii.ascii_of_byte) in Hab. by rw !Ascii.ascii_of_byte_of_ascii in Hab.
Qed.
Lemma pg_prefix_plain p t : plain_prefix p = true → pg_prefix p t = filter (λ kv, has_prefix p kv.1 = true) t.
Proof. intros Hp. apply map_filter_ext. intros k v _. by apply pg_match_plain. Qed.

Lemma pg_Paged_spec p o l s s' r : ScanPrefixPaged p o l s = (s', r) → pg_table s' = pg_table s ∧
  ∀ items total, r = Ok (items, total) → (0 ≤ o)%Z → (0 < l)%Z →
    items = take (Z.to_nat l) (drop (Z.to_nat o) (pg_rows p (pg_table s))).
Proof.
  rw /ScanPrefixPaged. destruct (pg_call s) as [s1 f] eqn:E; apply pg_call_table in E. case_bool_decide; cbn [negb].
  2: { intros [Et ->]%pg_fail_spec. split; [congruence|done]. }
  case_bool_decide as Hto.
  { intros [= <- <-]. split; [done|]. intros items total [= <- <-] Ho Hl.
    rw drop_ge; [|by rw take_nil]. rw (pg_rows_perm p) length_map_to_list. rw E in Hto. lia. }
  destruct (pg_call s1) as [s2 f2] eqn:E2; apply pg_call_table in E2. case_bool_decide; cbn [negb].
  2: { intros [Et ->]%pg_fail_spec. split; [congruence|done]. }
  intros [= <- <-]. split; [congruence|]. intros items total [= <- <-] Ho Hl.
  rw bool_decide_eq_false_2; [lia|]. by rw E2 E.
Qed.

#[export] Instance Pg_laws : KVStoreLaws Pg.
Proof.
  split; cbn -[WithTx Put Get Delete ScanPrefix ScanPrefixPaged].
  - intros k v s s' u Hv [[_ ?]|[? _]]%pg_Put_spec; done.
  - by intros k v s s' r Hv [[-> _]|[_ ?]]%pg_Put_spec.
  - by intros k s s' r [? _]%pg_Get_spec.
  - intros k s s' v [_ [H|?]]%pg_Get_spec; [|done]. by destruct (pg_table s !! k); simplify_eq.
  - intros k s s' e [_ [H|[= ->]]]%pg_Get_spec Hi; [|done]. by destruct (pg_table s !! k).
  - intros k s s' u [[_ ?]|[? _]]%pg_Delete_spec; done.
  - intros k s s' r [[-> _]|[_ ?]]%pg_Delete_spec; done.
  - intros X A fn s x s' x' a H. destruct (pg_tx s) as [b|] eqn:Et.
    + rw (pg_WithTx_nested _ _ _ _ Et) in H. by exists s, s'.
    + apply pg_WithTx_spec in H as [[_ ?]|[[? _]|[? _]]]; done.
  - intros X A fn s x s' x' r H Hr. destruct (pg_tx s) as [b|] eqn:Et.
    + rw (pg_WithTx_nested _ _ _ _ Et) in H. right; left. split; [done|]. by exists s, s'.
    + apply pg_WithTx_spec in H as [[? _]|[(_ & ? & ?)|[_ ?]]]; [congruence|by left|by right; right|done].
  - intros p s s' r. rw /ScanPrefix. destruct (pg_call s) as [s1 f] eqn:E; apply pg_call_table in E. case_bool_decide.
    + by intros [= <- _].
    + intros [Et _]%pg_fail_spec. congruence.
  - intros p s s' m Hp. rw /ScanPrefix. destruct (pg_call s) as [s1 f] eqn:E; apply pg_call_table in E. case_bool_decide.
    + intros [= _ <-]. by rw E pg_prefix_plain.
    + by intros [_ ?]%pg_fail_spec.
  - by intros p o l s s' r [? _]%pg_Paged_spec.
  - intros p m Hp. by rw pg_rows_perm pg_prefix_plain.
  - intros p o l s s' items total Ho Hl [_ H]%pg_Paged_spec. by eapply H.
Qed.

Definition pg_empty (faults : list fate) : Pg := mkPg ∅ true faults None.
(** An underscore of a prefix matches any character; the in-memory store takes it literally. *)
Example like_is_not_prefix : pg_match "mfa_" "mfa:ops" = true ∧ has_prefix "mfa_" "mfa:ops" = false ∧ pg_match "key:" "key:k:v1" = true.
Proof. vm_compute. split_and!; reflexivity. Qed.
