(* ===== verification/Metadata.v ===== *)
(** Key metadata of [src/internal/lifecycle/manager.go] with its JSON form, the
    storage keys it is filed under, and the metadata cache of
    [src/internal/lifecycle/cache.go]. *)

From S2P Require Import Prelude SecureBuffer Store.

(** Times are nanoseconds since the zero [time.Time]; [IsZero] is [t = 0]. *)
Definition time_IsZero (t : Z) : bool := bool_decide (t = 0)%Z.
(** Two's complement wrap-around of [int64] ([time.Duration]) arithmetic. *)
Definition int64 (z : Z) : Z := (z + 2 ^ 63) `mod` 2 ^ 64 - 2 ^ 63.
(** [time.Duration(days) * 24 * time.Hour] *)
Definition days_duration (days : Z) : Z := int64 (int64 (days * 24) * 3600000000000).
Definition DefaultSoftDeleteTTL : Z := days_duration 90.
(** [t.UnixNano()] *)
Definition time_UnixNano (t : Z) : Z := int64 (t - 62135596800 * 1000000000).

(** [type KeyState string] *)
Abbreviation KeyState := string.
Definition StateActive : KeyState := "Active".
Definition StateDeactivated : KeyState := "Deactivated".
Definition StateSoftDeleted : KeyState := "SoftDeleted".
Definition StateDestroyed : KeyState := "Destroyed".

Record KeyMetadata : Type := mkMeta {
  km_KeyID : string;
  km_Version : Z;
  km_State : KeyState;
  km_KeyType : string;
  km_Algorithm : string;
  km_KeyUsage : list string;
  km_Material : bytes;          (* a nil slice is the empty list *)
  km_KEKType : string;
  km_PublicKey : bytes;
  km_CreatedAt : Z;
  km_DeletedAt : Z;
  km_RotationDays : Z;
  km_NextRotationAt : Z;
}.

#[export] Instance KeyMetadata_eq_dec : EqDecision KeyMetadata.
Proof. solve_decision. Defined.

Definition meta_set_state (st : KeyState) (deletedAt : Z) (m : KeyMetadata) : KeyMetadata :=
  mkMeta (km_KeyID m) (km_Version m) st (km_KeyType m) (km_Algorithm m) (km_KeyUsage m)
    (km_Material m) (km_KEKType m) (km_PublicKey m) (km_CreatedAt m) deletedAt
    (km_RotationDays m) (km_NextRotationAt m).
Definition meta_destroy (m : KeyMetadata) : KeyMetadata :=
  mkMeta (km_KeyID m) (km_Version m) StateDestroyed (km_KeyType m) (km_Algorithm m) (km_KeyUsage m)
    [] (km_KEKType m) (km_PublicKey m) (km_CreatedAt m) (km_DeletedAt m)
    (km_RotationDays m) (km_NextRotationAt m).

(** ** JSON form: the struct tags of [KeyMetadata] *)
Definition omit_str (k s : string) : list (string * json) :=
  if bool_decide (s = "") then [] else [(k, JStr s)].
Definition json_bytes (b : bytes) : json := match b with [] => JNull | _ => JBytes b end.

Definition marshal_meta (m : KeyMetadata) : data := Doc (JObj (
  [("key_id", JStr (km_KeyID m)); ("version", JNum (km_Version m));
   ("state", JStr (km_State m)); ("key_type", JStr (km_KeyType m))]
  ++ omit_str "algorithm" (km_Algorithm m)
  ++ (match km_KeyUsage m with [] => [] | l => [("key_usage", JArr l)] end)
  ++ [("encrypted_material", json_bytes (km_Material m))]
  ++ omit_str "kek_type" (km_KEKType m)
  ++ (match km_PublicKey m with [] => [] | b => [("public_key", JBytes b)] end)
  ++ [("created_at", JTime (km_CreatedAt m)); ("deleted_at", JTime (km_DeletedAt m))]
  ++ (if bool_decide (km_RotationDays m = 0)%Z then [] else [("rotation_rotation_days", JNum (km_RotationDays m))])
  ++ [("next_rotation_at", JTime (km_NextRotationAt m))])).

(** [json.Unmarshal] into a zero struct: a missing or null member keeps the zero
    value, a member of the wrong type is an error. *)
Fixpoint jfield (k : string) (l : list (string * json)) : json :=
  match l with
  | [] => JNull
  | (k', v) :: l => if bool_decide (k' = k) then v else jfield k l
  end.
Definition un_str (j : json) : option string :=
  match j with JNull => Some "" | JStr s => Some s | _ => None end.
Definition un_num (j : json) : option Z :=
  match j with JNull => Some 0%Z | JNum n => Some n | _ => None end.
Definition un_bytes (j : json) : option bytes :=
  match j with JNull => Some [] | JBytes b => Some b | _ => None end.
Definition un_time (j : json) : option Z :=
  match j with JNull => Some 0%Z | JTime t => Some t | _ => None end.
Definition un_arr (j : json) : option (list string) :=
  match j with JNull => Some [] | JArr l => Some l | _ => None end.

Definition unmarshal_fields (l : list (string * json)) : option KeyMetadata :=
  kid ← un_str (jfield "key_id" l);
  ver ← un_num (jfield "version" l);
  st ← un_str (jfield "state" l);
  ty ← un_str (jfield "key_type" l);
  alg ← un_str (jfield "algorithm" l);
  usage ← un_arr (jfield "key_usage" l);
  mat ← un_bytes (jfield "encrypted_material" l);
  kek ← un_str (jfield "kek_type" l);
  pk ← un_bytes (jfield "public_key" l);
  created ← un_time (jfield "created_at" l);
  deleted ← un_time (jfield "deleted_at" l);
  rot ← un_num (jfield "rotation_rotation_days" l);
  next ← un_time (jfield "next_rotation_at" l);
  Some (mkMeta kid ver st ty alg usage mat kek pk created deleted rot next).

Definition unmarshal_meta (d : data) : result KeyMetadata :=
  match d with
  | Doc JNull => Ok (mkMeta "" 0 "" "" "" [] [] "" [] 0 0 0 0)
  | Doc (JObj l) =>
      match unmarshal_fields l with Some m => Ok m | None => Error (Err_new "json: cannot unmarshal") end
  | _ => Error (Err_new "json: invalid")
  end.

(** The version index stores a bare integer. *)
Definition marshal_int (v : Z) : data := Doc (JNum v).
Definition unmarshal_int (d : data) : result Z :=
  match d with
  | Doc (JNum v) => Ok v
  | Doc JNull => Ok 0%Z
  | _ => Error (Err_new "json: cannot unmarshal into int")
  end.

Lemma unmarshal_marshal_meta m : unmarshal_meta (marshal_meta m) = Ok m.
Proof.
  destruct m as [kid ver st ty alg usage mat kek pk cr del rot nx].
  rw /marshal_meta /omit_str /json_bytes /=.
  destruct (decide (alg = "")) as [->|Ha]; [|rw (bool_decide_eq_false_2 _ Ha)];
  destruct (decide (kek = "")) as [->|Hk]; rw ?(bool_decide_eq_false_2 _ Hk);
  destruct (decide (rot = 0%Z)) as [->|Hr]; rw ?(bool_decide_eq_false_2 _ Hr);
  destruct usage, mat, pk; reflexivity.
Qed.

Lemma marshal_meta_inj m m' : marshal_meta m = marshal_meta m' → m = m'.
Proof. intros E%(f_equal unmarshal_meta). rw !unmarshal_marshal_meta in E. by injection E. Qed.
Lemma data_empty_meta m : data_empty (marshal_meta m) = false.
Proof. done. Qed.

(** ** Storage keys *)
Definition metadataKey (keyID : string) (version : Z) : string :=
  "key:" +:+ keyID +:+ ":v:" +:+ pretty version.
Definition latestVersionMetadataKey (keyID : string) : string := "meta:latest:" +:+ keyID.

(** ** cache.go *)
Record dekCache : Type := mkCache {
  dc_data : gmap string KeyMetadata;
  dc_negative : gmap string Z;      (* key to expiry time *)
  dc_negativeTTL : Z;
}.
Definition newDekCache : dekCache := mkCache ∅ ∅ 5000000000.
Definition cache_get (key : string) (c : dekCache) : option KeyMetadata := dc_data c !! key.
Definition cache_put (key : string) (meta : KeyMetadata) (c : dekCache) : dekCache :=
  mkCache (<[key := meta]> (dc_data c)) (delete key (dc_negative c)) (dc_negativeTTL c).
Definition cache_putNegative (now : Z) (key : string) (c : dekCache) : dekCache :=
  mkCache (dc_data c) (<[key := (now + dc_negativeTTL c)%Z]> (dc_negative c)) (dc_negativeTTL c).
Definition cache_isNegative (now : Z) (key : string) (c : dekCache) : bool :=
  match dc_negative c !! key with
  | None => false
  | Some expiry => negb (bool_decide (expiry < now)%Z)
  end.
Definition cache_prefix (keyID : string) : string := "key:" +:+ keyID +:+ ":v:".
Definition cache_invalidate (keyID : string) (c : dekCache) : dekCache :=
  mkCache (filter (λ kv, has_prefix (cache_prefix keyID) kv.1 = false) (dc_data c))
    (delete (latestVersionMetadataKey keyID)
       (filter (λ kv, has_prefix (cache_prefix keyID) kv.1 = false) (dc_negative c)))
    (dc_negativeTTL c).
Definition cache_clear (c : dekCache) : dekCache := mkCache ∅ ∅ (dc_negativeTTL c).

(** ** Keys of different versions and of different key ids are different *)
Abbreviation chars := String.list_ascii_of_string.
Definition colon : Ascii.ascii := Ascii.ascii_of_nat 58.

Lemma chars_app s1 s2 : chars (s1 +:+ s2) = chars s1 ++ chars s2.
Proof. induction s1 as [|c s1 IH]; [done|]. simpl. by rw -IH. Qed.
Lemma chars_inj s1 s2 : chars s1 = chars s2 → s1 = s2.
Proof.
  intros H. by rw -(String.string_of_list_ascii_of_string s1)
    -(String.string_of_list_ascii_of_string s2) H.
Qed.

Lemma has_prefix_chars p s : has_prefix p s = true ↔ ∃ r, chars s = chars p ++ r.
Proof.
  rw /has_prefix. revert s. induction p as [|c p IH]; intros s; simpl.
  { split; [eauto|]. by destruct s. }
  destruct s as [|d s]; simpl; [split; [done|by intros [r ?]]|].
  destruct (Ascii.ascii_dec c d) as [->|Hne].
  - rw IH. split; intros [r E]; exists r; [by rw E|by injection E].
  - split; [done|]. intros [r E]. by injection E.
Qed.

Lemma pretty_N_char_colon n : pretty_N_char n ≠ colon.
Proof. rw /pretty_N_char. by repeat case_match. Qed.

Lemma pretty_N_go_colon x : ∀ s, colon ∉ chars s → colon ∉ chars (pretty_N_go x s).
Proof.
  induction (N.lt_wf_0 x) as [x _ IH]. intros s Hs.
  destruct (decide (x = 0)%N) as [->|Hx]; [by rw pretty_N_go_0|].
  rw pretty_N_go_step; [lia|]. apply IH; [apply N.div_lt; lia|].
  simpl. rw not_elem_of_cons. split; [|done]. intros E. by apply (pretty_N_char_colon (x `mod` 10)).
Qed.

Lemma pretty_colon (v : Z) : colon ∉ chars (pretty v).
Proof.
  assert (∀ n : N, colon ∉ chars (pretty n)) as Hn.
  { intros n. rw /pretty /pretty_N. case_decide; [by vm_compute; set_solver|].
    apply pretty_N_go_colon. set_solver. }
  rw /pretty /pretty_Z. destruct v as [|p|p]; [vm_compute; set_solver|apply (Hn (Npos p))|].
  rw chars_app elem_of_app. intros [H|H]; [vm_compute in H; set_solver|by apply (Hn (Npos p))].
Qed.

Lemma split_at_first {A} (c : A) l1 l2 r1 r2 : c ∉ l1 → c ∉ l2 →
  l1 ++ c :: r1 = l2 ++ c :: r2 → l1 = l2 ∧ r1 = r2.
Proof.
  revert l2. induction l1 as [|a l1 IH]; intros [|b l2] H1 H2 E; simplify_eq/=; [done|set_solver..|].
  destruct (IH l2) as [-> ->]; set_solver.
Qed.

Lemma metadataKey_inj k v k' v' : metadataKey k v = metadataKey k' v' → k = k' ∧ v = v'.
Proof.
  intros E. apply (f_equal (λ s, rev (chars s))) in E.
  rw /metadataKey !chars_app in E.
  rw !rev_app_distr -!app_assoc in E.
  change (rev (chars ":v:")) with ([colon; Ascii.ascii_of_nat 118; colon]) in E. simpl in E.
  apply split_at_first in E as [Ev Ek]; [|rw list_elem_of_In -in_rev -list_elem_of_In; apply pretty_colon..].
  apply (f_equal (@rev _)) in Ev. rw !rev_involutive in Ev. apply chars_inj, (inj pretty) in Ev.
  injection Ek as Ek. apply app_inv_tail in Ek. apply (f_equal (@rev _)) in Ek.
  rw !rev_involutive in Ek. split; [by apply chars_inj|done].
Qed.

Lemma metadataKey_prefix k v : has_prefix (cache_prefix k) (metadataKey k v) = true.
Proof.
  apply has_prefix_chars. rw /cache_prefix /metadataKey !chars_app. eexists. by rw -!app_assoc.
Qed.
Lemma metadataKey_key k v : has_prefix "key:" (metadataKey k v) = true.
Proof. apply has_prefix_chars. rw /metadataKey chars_app. eauto. Qed.
Lemma metadataKey_latest k v k' : metadataKey k v ≠ latestVersionMetadataKey k'.
Proof. done. Qed.
Lemma latest_inj k k' : latestVersionMetadataKey k = latestVersionMetadataKey k' → k = k'.
Proof. apply (inj (String.append "meta:latest:")). Qed.
Lemma latest_not_key k : has_prefix "key:" (latestVersionMetadataKey k) = false.
Proof. done. Qed.
Lemma metadataKey_nonempty k v : metadataKey k v ≠ "".
Proof. done. Qed.

Lemma cache_invalidate_gone k v c : dc_data (cache_invalidate k c) !! metadataKey k v = None.
Proof.
  rw /cache_invalidate /=. apply map_lookup_filter_None. right. intros m _ H.
  change (has_prefix (cache_prefix k) (metadataKey k v) = false) in H. by rw metadataKey_prefix in H.
Qed.
Lemma cache_invalidate_sub k c key m :
  dc_data (cache_invalidate k c) !! key = Some m → dc_data c !! key = Some m.
Proof. simpl. by intros [? _]%map_lookup_filter_Some. Qed.

#[global] Opaque metadataKey latestVersionMetadataKey unmarshal_meta.
