(* ===== verification/Oaep.v ===== *)
(** RSA-OAEP with SHA-256, as [crypto/rsa] of Go's standard library computes it: the key
    transport of the import protocol ([src/internal/lifecycle/transit.go], with the empty
    label) and of the master key ([src/internal/seal/local_pki.go]). The round trip is proved for every key
    whose exponents invert each other. *)

From Stdlib Require Import Zpow_facts.
From S2P Require Import Prelude Hash.

Record RSAKey : Type := mkRSA { rsa_N : Z; rsa_E : Z; rsa_D : Z }.
Definition rsa_public (k : RSAKey) : Z * Z := (rsa_N k, rsa_E k).

(** What [rsa.GenerateKey] guarantees of a key: the exponents are inverse on the
    residues of the modulus. *)
Definition rsa_valid (k : RSAKey) : Prop :=
  (1 < rsa_N k ∧ 0 ≤ rsa_E k ∧ 0 ≤ rsa_D k ∧
   ∀ m, 0 ≤ m < rsa_N k → ((m ^ rsa_E k) `mod` rsa_N k) ^ rsa_D k `mod` rsa_N k = m)%Z.

(** [pub.Size()] *)
Definition rsa_Size (N : Z) : nat := Z.to_nat (Z.log2 N / 8 + 1).
Definition hLen : nat := 32.
Definition ErrMessageTooLong : error := Err_new "crypto/rsa: message too long for RSA key size".
Definition ErrDecryption : error := Err_new "crypto/rsa: decryption error".

(** [mgf1XOR] *)
Definition mgf1 (n : nat) (seed : bytes) : bytes :=
  take n (mjoin ((λ i, sha256 (seed ++ be_split 4 (Z.of_nat i))) <$> seq 0 (n / hLen + 1))).
Definition xor_bytes (a b : bytes) : bytes := zip_with bxor a b.
Definition mgf1XOR (out seed : bytes) : bytes := xor_bytes out (mgf1 (length out) seed).

Definition oaep_db (label : bytes) (k : nat) (msg : bytes) : bytes :=
  sha256 label ++ replicate (k - length msg - 2 * hLen - 2) x00 ++ x01 :: msg.
Definition EncryptOAEP (label : bytes) (pub : Z * Z) (seed msg : bytes) : result bytes :=
  let k := rsa_Size pub.1 in
  if k <? length msg + 2 * hLen + 2 then Error ErrMessageTooLong
  else
    let db := mgf1XOR (oaep_db label k msg) seed in
    let em := x00 :: mgf1XOR seed db ++ db in
    Ok (be_split k (Zpow_mod (be_combine em) pub.2 pub.1)).

Fixpoint oaep_unpad (rest : bytes) : option bytes :=
  match rest with
  | [] => None
  | b :: rest =>
      if Byte.eqb b x00 then oaep_unpad rest else if Byte.eqb b x01 then Some rest else None
  end.
Definition oaep_decode (label em : bytes) : result bytes :=
  match em with
  | y :: em =>
      let seed := mgf1XOR (take hLen em) (drop hLen em) in
      let db := mgf1XOR (drop hLen em) seed in
      if Byte.eqb y x00 && bool_decide (take hLen db = sha256 label)
      then match oaep_unpad (drop hLen db) with Some msg => Ok msg | None => Error ErrDecryption end
      else Error ErrDecryption
  | [] => Error ErrDecryption
  end.
Definition DecryptOAEP (label : bytes) (key : RSAKey) (ciphertext : bytes) : result bytes :=
  let k := rsa_Size (rsa_N key) in
  let c := be_combine ciphertext in
  if (k <? length ciphertext) || (k <? 2 * hLen + 2) then Error ErrDecryption
  else if bool_decide (rsa_N key ≤ c)%Z then Error ErrDecryption
  else oaep_decode label (be_split k (Zpow_mod c (rsa_D key) (rsa_N key))).

(** ** The round trip *)
#[local] Opaque sha256.
Lemma size_low N : (1 < N)%Z → (256 ^ Z.of_nat (rsa_Size N - 1) ≤ N)%Z.
Proof.
  intros HN. pose proof (Z.log2_nonneg N). assert (0 ≤ Z.log2 N / 8)%Z by (apply Z.div_pos; lia).
  rw /rsa_Size. replace (Z.of_nat (Z.to_nat (Z.log2 N / 8 + 1) - 1)) with (Z.log2 N / 8)%Z by lia.
  change 256%Z with (2 ^ 8)%Z. rw -Z.pow_mul_r; [lia..|].
  etrans; [|by apply Z.log2_spec; lia]. apply Z.pow_le_mono_r; [done|]. apply Z.mul_div_le. done.
Qed.
Lemma size_high N : (1 < N)%Z → (N < 256 ^ Z.of_nat (rsa_Size N))%Z.
Proof.
  intros HN. pose proof (Z.log2_nonneg N). assert (0 ≤ Z.log2 N / 8)%Z by (apply Z.div_pos; lia).
  rw /rsa_Size Z2Nat.id; [lia|]. change 256%Z with (2 ^ 8)%Z. rw -Z.pow_mul_r; [lia..|].
  eapply Z.lt_le_trans; [by apply Z.log2_spec; lia|]. apply Z.pow_le_mono_r; [done|].
  pose proof (Z.mod_pos_bound (Z.log2 N) 8 ltac:(done)). pose proof (Z.div_mod (Z.log2 N) 8 ltac:(done)). lia.
Qed.

Lemma length_mgf1 n seed : length (mgf1 n seed) = n.
Proof.
  rw /mgf1 length_take. apply Nat.min_l.
  assert (∀ l, length (mjoin ((λ i, sha256 (seed ++ be_split 4 (Z.of_nat i))) <$> l)) = hLen * length l) as ->.
  { induction l as [|i l IH]; [done|]. cbn [fmap list_fmap mjoin list_join]. rw length_app IH length_sha256 /hLen. simpl. lia. }
  rw length_seq. pose proof (Nat.div_mod_eq n hLen). pose proof (Nat.mod_upper_bound n hLen ltac:(done)). lia.
Qed.
Lemma xor_cancel a b : length a = length b → xor_bytes (xor_bytes a b) b = a.
Proof.
  revert b. induction a as [|x a IH]; intros [|y b] Hl; try done. injection Hl as Hl. simpl.
  by rw bxor_cancel IH.
Qed.
Lemma length_mgf1XOR out seed : length (mgf1XOR out seed) = length out.
Proof. rw /mgf1XOR /xor_bytes length_zip_with length_mgf1. lia. Qed.
Lemma mgf1XOR_cancel out seed : mgf1XOR (mgf1XOR out seed) seed = out.
Proof. rw {1}/mgf1XOR length_mgf1XOR. apply xor_cancel. by rw length_mgf1. Qed.

#[local] Opaque mgf1XOR.

Lemma oaep_unpad_ok n msg : oaep_unpad (replicate n x00 ++ x01 :: msg) = Some msg.
Proof. by induction n. Qed.
Lemma length_oaep_db label k msg : length msg + 2 * hLen + 2 ≤ k → length (oaep_db label k msg) = k - hLen - 1.
Proof. intros Hk. rw /oaep_db. pose proof (length_sha256 label) as Hl. generalize dependent (sha256 label). intros h Hl.
  rw !length_app Hl length_replicate /=. rw /hLen in Hk |- *. lia. Qed.

Lemma oaep_decode_encode label k seed msg : length seed = hLen →
  let db := mgf1XOR (oaep_db label k msg) seed in
  oaep_decode label (x00 :: mgf1XOR seed db ++ db) = Ok msg.
Proof.
  intros Hs db. rw /oaep_decode. assert (length (mgf1XOR seed db) = hLen) as Hl by rw length_mgf1XOR //.
  rw take_app_length' // drop_app_length' // mgf1XOR_cancel /db mgf1XOR_cancel. clear.
  rw /oaep_db. pose proof (length_sha256 label) as Hh. generalize dependent (sha256 label). intros h Hh.
  rw take_app_length' // drop_app_length' //. by rw bool_decide_eq_true_2 // oaep_unpad_ok.
Qed.

Lemma OAEP_roundtrip label key seed msg ct : rsa_valid key → length seed = hLen →
  EncryptOAEP label (rsa_public key) seed msg = Ok ct → DecryptOAEP label key ct = Ok msg.
Proof.
  intros (HN & HE & HD & Hv) Hs. rw /EncryptOAEP /rsa_public. cbn [fst snd].
  destruct (Nat.ltb_spec (rsa_Size (rsa_N key)) (length msg + 2 * hLen + 2)) as [|Hk]; [done|].
  set (k := rsa_Size (rsa_N key)) in *. set (db := mgf1XOR (oaep_db label k msg) seed).
  set (em := x00 :: mgf1XOR seed db ++ db). intros [= <-].
  assert (length em = k) as Hem.
  { pose proof (length_oaep_db label k msg Hk) as Hl. rw -(length_mgf1XOR _ seed) -/db in Hl.
    pose proof (length_mgf1XOR seed db) as Hl'. rw /em length_cons length_app Hl Hl' Hs. rw /hLen in Hk |- *. lia. }
  assert (0 ≤ be_combine em < rsa_N key)%Z as Hm.
  { pose proof (size_low _ HN). rw /em be_combine_cons.
    pose proof (be_combine_range (mgf1XOR seed db ++ db)) as Hr.
    replace (length (mgf1XOR seed db ++ db)) with (k - 1) in Hr |- * by (rw /em length_cons in Hem; lia).
    change (b2z x00) with 0%Z. rw /k in Hr |- *. lia. }
  rw /DecryptOAEP -/k length_be_split Nat.ltb_irrefl. destruct (Nat.ltb_spec k (2 * hLen + 2)) as [|_]; [lia|]. cbn [orb].
  rw !Zpow_mod_correct; [lia..|]. set (c := (be_combine em ^ rsa_E key `mod` rsa_N key)%Z).
  assert (0 ≤ c < rsa_N key)%Z as Hc by (apply Z.mod_pos_bound; lia).
  rw be_combine_split Z.mod_small; [pose proof (size_high _ HN); rw /k; lia|].
  rw bool_decide_eq_false_2; [lia|]. rw /c Hv //.
  rw -{1}Hem be_split_combine. by apply oaep_decode_encode.
Qed.
