(* ===== verification/AuditLog.v ===== *)
(** The tamper-evident audit log, [src/internal/audit]: the hash chain (chain.go), the
    logger whose [Record] signs under the chain lock and writes outside it
    (logger.go), daily file rotation and the loop that removes old files
    (file_rotator.go), and queries over the log files (query.go). *)

From S2P Require Import Prelude SecureBuffer Hash Json Rfc3339 Metadata.

(** ** [encoding/hex] *)
Definition hex_EncodeToString (b : bytes) : bytes :=
  b ≫= λ x, [hexc (Z.shiftr (b2z x) 4); hexc (Z.land (b2z x) 15)].
Definition errHex : error := Err_new "encoding/hex: invalid".
Fixpoint hex_DecodeString (s : bytes) : result bytes :=
  match s with
  | [] => Ok []
  | [_] => Error errHex
  | a :: b :: s =>
      match hex_val a, hex_val b with
      | Some x, Some y => r ← hex_DecodeString s; Ok (z2b (x * 16 + y) :: r)
      | _, _ => Error errHex
      end
  end.

(** ** Log entries and their envelopes *)
Record LogEntry : Type := mkEntry {
  le_TraceID : string;
  le_Timestamp : Z;
  le_ClientIP : string;
  le_Actor : string;
  le_Resource : string;
  le_Action : string;
  le_Result : string;
  le_KeyID : string;
  le_Status : string;
}.
Record signedEnvelope : Type := mkEnv {
  ev_Payload : bytes;
  ev_Signature : bytes;
  ev_PrevSignature : bytes;
  ev_ChainSeq : Z;
}.

Definition jstr (k : string) (s : string) : bytes * jval := (str_bytes k, JString (str_bytes s)).
Definition omit_empty (k : string) (s : string) : jobj := if bool_decide (s = "") then [] else [jstr k s].
(** [json.Marshal(entry)]; it fails on a year that RFC 3339 cannot write. *)
Definition entry_obj (e : LogEntry) (time : bytes) : jobj :=
  [jstr "trace_id" (le_TraceID e); (str_bytes "timestamp", JString time); jstr "client_ip" (le_ClientIP e);
   jstr "actor" (le_Actor e); jstr "resource" (le_Resource e); jstr "action" (le_Action e);
   jstr "result" (le_Result e)] ++ omit_empty "key_id" (le_KeyID e) ++ omit_empty "status" (le_Status e).
Definition marshal_entry (e : LogEntry) : result bytes :=
  match format_time (le_Timestamp e) with
  | Some time => Ok (render_obj (entry_obj e time))
  | None => Error (Err_new "Time.MarshalJSON: year outside of range [0,9999]")
  end.
Definition marshal_envelope (v : signedEnvelope) : bytes :=
  render_obj [(str_bytes "payload", JString (ev_Payload v)); (str_bytes "signature", JString (ev_Signature v));
              (str_bytes "prev_signature", JString (ev_PrevSignature v));
              (str_bytes "chain_seq", JNat (Z.to_N (ev_ChainSeq v)))].

(** [json.Unmarshal]: a missing or null member leaves the zero value. *)
Definition to_str (v : jval) : option bytes :=
  match v with JString s => Some s | JNil => Some [] | JNat _ => None end.
Definition to_string (v : jval) : option string := String.string_of_list_byte <$> to_str v.
Definition to_time (v : jval) : option Z :=
  match v with JString s => parse_time s | JNil => Some 0%Z | JNat _ => None end.
Definition to_uint64 (v : jval) : option Z :=
  match v with
  | JNat n => if bool_decide (Z.of_N n < 2 ^ 64)%Z then Some (Z.of_N n) else None
  | JNil => Some 0%Z
  | JString _ => None
  end.
Definition unmarshal_envelope (line : bytes) : option signedEnvelope :=
  o ← parse_obj line;
  p ← to_str (member "payload" o); s ← to_str (member "signature" o);
  q ← to_str (member "prev_signature" o); n ← to_uint64 (member "chain_seq" o);
  Some (mkEnv p s q n).
Definition unmarshal_entry (payload : bytes) : option LogEntry :=
  o ← parse_obj payload;
  trace ← to_string (member "trace_id" o); t ← to_time (member "timestamp" o);
  ip ← to_string (member "client_ip" o); actor ← to_string (member "actor" o);
  res ← to_string (member "resource" o); action ← to_string (member "action" o);
  result ← to_string (member "result" o); key ← to_string (member "key_id" o);
  status ← to_string (member "status" o);
  Some (mkEntry trace t ip actor res action result key status).

(** ** chain.go *)
Record hashChain : Type := mkChain {
  hc_lastSignature : bytes;
  hc_mac : bytes → bytes → bytes;    (* [hmac.New(newHash, key)] over a message *)
  hc_anchorHash : bytes → bytes;
}.
Definition newHashChain (chainKey : bytes) : hashChain := mkChain (sha256 chainKey) hmac_sha256 sha256.
Definition newHashChainWithHash (chainKey : bytes) (mac : bytes → bytes → bytes) (anchorHash : bytes → bytes) : hashChain :=
  mkChain (anchorHash chainKey) mac anchorHash.
(** Returns [(currentSig, prevSig)] in hexadecimal. *)
Definition computeAndAdvance (chainKey payload : bytes) (c : hashChain) : hashChain * (bytes * bytes) :=
  let prevSig := hex_EncodeToString (hc_lastSignature c) in
  let sig := hc_mac c chainKey (hc_lastSignature c ++ payload) in
  (mkChain sig (hc_mac c) (hc_anchorHash c), (hex_EncodeToString sig, prevSig)).
Definition LastSignatureHex (c : hashChain) : bytes := hex_EncodeToString (hc_lastSignature c).
Definition SetLastSignature (sig : bytes) (c : hashChain) : hashChain := mkChain sig (hc_mac c) (hc_anchorHash c).
Definition Reset_chain (chainKey : bytes) (c : hashChain) : hashChain :=
  mkChain (hc_anchorHash c chainKey) (hc_mac c) (hc_anchorHash c).

(** ** file_rotator.go *)
(** A directory; the writer appends to the file [fr_filename]. *)
Record FileRotator : Type := mkRotator {
  fr_filename : string;
  fr_today : bytes;                     (* YYYYMMDD *)
  fr_files : gmap string bytes;
}.
Definition highRiskActions : list string := ["Rotate"; "ShredKey"; "SysUnseal"; "EmergencySeal"; "AUDIT_LOG_PRUNE"].
(** [t.UTC().Format("20060102")] for years 0 to 9999 *)
Definition day_number (t : Z) : Z := ((t `div` nano) `div` 86400)%Z.
Definition date_text (day : Z) : bytes :=
  let '(y, m, d) := civil day in dec_digits 4 y ++ dec_digits 2 m ++ dec_digits 2 d.
Definition archive_name (date : bytes) : string := "audit-" +:+ String.string_of_list_byte date +:+ ".log".

Definition openCurrent (now : Z) (r : FileRotator) : FileRotator :=
  mkRotator (fr_filename r) (date_text (day_number now))
    (<[fr_filename r := default [] (fr_files r !! fr_filename r)]> (fr_files r)).
Definition NewFileRotator (now : Z) (filename : string) (dir : gmap string bytes) : FileRotator :=
  openCurrent now (mkRotator filename [] dir).
(** Close, rename over any earlier archive of the same day, reopen. *)
Definition rotateLocked (now : Z) (r : FileRotator) : FileRotator :=
  let files := match fr_files r !! fr_filename r with
               | Some content => <[archive_name (fr_today r) := content]> (delete (fr_filename r) (fr_files r))
               | None => fr_files r
               end in
  openCurrent now (mkRotator (fr_filename r) (fr_today r) files).
Definition sanitizeCRLF (content : bytes) : bytes :=
  (λ b, if bool_decide (b = x0d) || bool_decide (b = x0a) then x20 else b) <$> content.
(** How the system calls of one write go: all well, the write stops after so many
    bytes, or the [Sync] of a high-risk action fails. *)
Inductive io : Type := IoOk | IoWrite (n : nat) | IoSync.
#[export] Instance io_eq_dec : EqDecision io.
Proof. solve_decision. Defined.
Definition append_file (content : bytes) (r : FileRotator) : FileRotator :=
  mkRotator (fr_filename r) (fr_today r)
    (<[fr_filename r := default [] (fr_files r !! fr_filename r) ++ content]> (fr_files r)).
Definition Write (now : Z) (fault : io) (content : bytes) (action : string) (r : FileRotator) : FileRotator * result () :=
  let content := sanitizeCRLF content in
  let r := if bool_decide (date_text (day_number now) = fr_today r) then r else rotateLocked now r in
  match fault with
  | IoWrite n => (append_file (take n (content ++ [x0a])) r, Error (Err_wrap "audit: file write" (Err_new "os")))
  | _ =>
      let r := append_file (content ++ [x0a]) r in
      if bool_decide (action ∈ highRiskActions) && bool_decide (fault = IoSync)
      then (r, Error (Err_wrap "audit: file sync" (Err_new "os"))) else (r, Ok tt)
  end.

(** The archives older than the retention; [time.Parse("20060102", ...)] accepts
    exactly the calendar dates. *)
Definition parse_date (l : bytes) : option Z :=
  '(y, l) ← num 4 l; '(m, l) ← num 2 l; '(d, l) ← num 2 l;
  if bool_decide (l = []) && bool_decide (1 ≤ m ≤ 12)%Z && bool_decide (1 ≤ d ≤ days_in y m)%Z
  then Some (days_from_civil y m d) else None.
Definition archive_date (name : string) : option Z :=
  let b := str_bytes name in
  if (length b <? 11)%nat || negb (bool_decide (take 6 b = str_bytes "audit-")) ||
     negb (bool_decide (drop (length b - 4) b = str_bytes ".log")) then None
  else parse_date (take (length b - 10) (drop 6 b)).
Definition prunable (now : Z) (retentionDays : Z) (name : string) : bool :=
  match archive_date name with
  | Some day => bool_decide (day * 86400 * nano < now - retentionDays * 86400 * nano)%Z
  | None => false
  end.
Definition pruneOldFiles (now : Z) (retentionDays : Z) (r : FileRotator) : FileRotator * nat :=
  (mkRotator (fr_filename r) (fr_today r) (filter (λ kv, prunable now retentionDays kv.1 = false) (fr_files r)),
   size (filter (λ kv, prunable now retentionDays kv.1 = true) (fr_files r))).

(** ** logger.go *)
(** Where envelopes go: the rotator, or the fallback writer's output. *)
Inductive sink : Type := ToFile (r : FileRotator) | ToWriter (out : bytes).
Record AuditLogger : Type := mkLogger {
  al_auditKey : option SecureBuffer;    (* nil after [Close] *)
  al_chain : hashChain;
  al_chainSeq : Z;                      (* uint64 *)
  al_sink : sink;
  al_anchorFile : bool;                 (* a path is configured *)
  al_anchor : option bytes;             (* contents of that file *)
}.
Definition set_sink (k : sink) (l : AuditLogger) : AuditLogger :=
  mkLogger (al_auditKey l) (al_chain l) (al_chainSeq l) k (al_anchorFile l) (al_anchor l).

Definition NewAuditLogger : M entropy AuditLogger :=
  key ← wrapM "audit: generate audit key" (NewSecureBufferFromRandom 32);
  mret (mkLogger (Some key) (newHashChain (sb_data key)) 0 (ToWriter []) false None).
Definition NewAuditLoggerWithHash (mac : bytes → bytes → bytes) (anchorHash : bytes → bytes) : M entropy AuditLogger :=
  key ← wrapM "audit: generate audit key" (NewSecureBufferFromRandom 32);
  mret (mkLogger (Some key) (newHashChainWithHash (sb_data key) mac anchorHash) 0 (ToWriter []) false None).

(** [strings.TrimSpace] on the anchor text is the identity on what [saveAnchor] wrote. *)
Definition anchor_ws (b : byte) : bool := bool_decide (b = x20) || bool_decide (9 ≤ b2z b ≤ 13)%Z.
Fixpoint trim_ws (l : bytes) : bytes :=
  match l with b :: l' => if anchor_ws b then trim_ws l' else l | [] => [] end.
Definition loadAnchor (content : bytes) (c : hashChain) : result hashChain :=
  sig ← hex_DecodeString (rev (trim_ws (rev (trim_ws content))));
  if (length sig =? 32)%nat then Ok (SetLastSignature sig c) else Error (Err_new "audit: anchor signature length").
Definition saveAnchor (l : AuditLogger) : AuditLogger :=
  if al_anchorFile l
  then mkLogger (al_auditKey l) (al_chain l) (al_chainSeq l) (al_sink l) true (Some (LastSignatureHex (al_chain l)))
  else l.

(** [Record] in its phases: filling the time and signing under the chain lock, saving
    the anchor, writing. Other calls may run between the phases. *)
Definition fill_time (now : Z) (e : LogEntry) : LogEntry :=
  if time_IsZero (le_Timestamp e)
  then mkEntry (le_TraceID e) now (le_ClientIP e) (le_Actor e) (le_Resource e) (le_Action e) (le_Result e) (le_KeyID e) (le_Status e)
  else e.
Definition uint64_succ (n : Z) : Z := ((n + 1) `mod` 2 ^ 64)%Z.
Definition record_sign (now : Z) (e : LogEntry) (l : AuditLogger) : AuditLogger * result signedEnvelope :=
  match marshal_entry (fill_time now e) with
  | Ok payload =>
      match al_auditKey l with
      | None => (l, Panic "nil audit key")
      | Some key =>
          if sb_destroyed key then (l, Panic "FATAL: Use after free in SecureBuffer")
          else
            let '(chain, (sig, prevSig)) := computeAndAdvance (sb_data key) payload (al_chain l) in
            let seq := uint64_succ (al_chainSeq l) in
            (mkLogger (Some key) chain seq (al_sink l) (al_anchorFile l) (al_anchor l),
             Ok (mkEnv payload sig prevSig seq))
      end
  | Error err => (l, Error (Err_wrap "audit: marshal entry" err))
  | Panic m => (l, Panic m)
  end.
Definition record_write (now : Z) (fault : io) (v : signedEnvelope) (action : string) (l : AuditLogger) : AuditLogger * result () :=
  let out := marshal_envelope v in
  match al_sink l with
  | ToFile r => let '(r, res) := Write now fault out action r in
                (set_sink (ToFile r) l, wrap_err "audit: file write" res)
  | ToWriter w =>
      match fault with
      | IoWrite n => (set_sink (ToWriter (w ++ take n (out ++ [x0a]))) l, Error (Err_wrap "audit: fallback write" (Err_new "os")))
      | _ => (set_sink (ToWriter (w ++ out ++ [x0a])) l, Ok tt)
      end
  end.
Definition Record (now : Z) (fault : io) (e : LogEntry) (l : AuditLogger) : AuditLogger * result () :=
  match record_sign now e l with
  | (l, Ok v) => record_write now fault v (le_Action e) (saveAnchor l)
  | (l, Error err) => (l, Error err)
  | (l, Panic m) => (l, Panic m)
  end.

(** The logger with the goroutine of [StartPruneLoop]. [rt_key] is the buffer that the callback
    captured; the logger drops its own reference in [Close], after wiping the buffer. *)
Record Retaining : Type := mkRetaining {
  rt_log : AuditLogger;
  rt_key : SecureBuffer;
  rt_days : Z;            (* the [retentionDays] the loop was started with *)
  rt_stopped : bool;      (* [pruneStop] is closed *)
  rt_looping : bool;      (* the goroutine runs *)
}.
Definition StartPruneLoop (retentionDays : Z) (l : AuditLogger) (key : SecureBuffer) : Retaining := mkRetaining l key retentionDays false true.
Definition set_log (l : AuditLogger) (y : Retaining) : Retaining := mkRetaining l (rt_key y) (rt_days y) (rt_stopped y) (rt_looping y).
(** The callback works on a second logger, which shares all but the sequence counter. *)
Definition prune_logger (y : Retaining) : AuditLogger :=
  mkLogger (Some (rt_key y)) (al_chain (rt_log y)) 0 (al_sink (rt_log y)) (al_anchorFile (rt_log y)) (al_anchor (rt_log y)).
Definition prune_entry (now : Z) (deleted : nat) : LogEntry :=
  mkEntry "" now "" "" "" "AUDIT_LOG_PRUNE" ("deleted " +:+ pretty deleted +:+ " files") "" "".
(** It drops the error of [Record], not its panic. *)
Definition onPrune (now : Z) (fault : io) (deleted : nat) (y : Retaining) : result Retaining :=
  match Record now fault (prune_entry now deleted) (prune_logger y) with
  | (_, Panic m) => Panic m
  | (l, _) => Ok (set_log (mkLogger (al_auditKey (rt_log y)) (al_chain l) (al_chainSeq (rt_log y)) (al_sink l) (al_anchorFile l) (al_anchor l)) y)
  end.
(** One tick of [pruneLoop]. *)
Definition prune_tick (now : Z) (fault : io) (y : Retaining) : result Retaining :=
  match al_sink (rt_log y) with
  | ToWriter _ => Ok y
  | ToFile r =>
      let '(r, deleted) := pruneOldFiles now (rt_days y) r in
      let y := set_log (set_sink (ToFile r) (rt_log y)) y in
      if (0 <? deleted)%nat then onPrune now fault deleted y else Ok y
  end.

(** The directory as the last process left it: its log files and its anchor. *)
Definition NewDualWriteLogger (now : Z) (filename : string) (retentionDays : Z) (dir : gmap string bytes) (anchor : option bytes) :
    M entropy Retaining :=
  key ← wrapM "audit: generate audit key" (NewSecureBufferFromRandom 32);
  let rotator := NewFileRotator now filename dir in
  let chain := newHashChain (sb_data key) in
  chain ← match anchor with
          | None => mret chain
          | Some content => wrapM "audit: anchor file corrupted" (lift (loadAnchor content chain))
          end;
  mret (StartPruneLoop retentionDays (mkLogger (Some key) chain 0 (ToFile rotator) true anchor) key).

(** Signature checks. *)
Definition withAuditKey {A} (l : AuditLogger) (f : bytes → result A) : result A :=
  match al_auditKey l with None => Panic "nil audit key" | Some key => WithKeyR key f end.
Definition VerifySignature (l : AuditLogger) (payload wantHexSig : bytes) : result bool :=
  withAuditKey l (λ key,
    want ← hex_DecodeString wantHexSig;
    if bool_decide (hmac_sha256 key payload = want) then Ok true else Error (Err_new "audit: signature mismatch")).
Definition VerifyChainSignature (l : AuditLogger) (payload prevSigHex wantHexSig : bytes) : result bool :=
  withAuditKey l (λ key,
    prevSig ← hex_DecodeString prevSigHex;
    want ← hex_DecodeString wantHexSig;
    Ok (bool_decide (hmac_sha256 key (prevSig ++ payload) = want))).
Definition InitialChainSignatureHex (l : AuditLogger) : result bytes :=
  withAuditKey l (λ key, Ok (hex_EncodeToString (sha256 key))).
Definition Close (l : AuditLogger) : AuditLogger :=
  mkLogger None (al_chain l) (al_chainSeq l) (al_sink l) (al_anchorFile l) (al_anchor l).

(** ** query.go *)
Record QueryFilter : Type := mkFilter {
  qf_StartTime : option Z; qf_EndTime : option Z; qf_Actor : string; qf_Action : string; qf_Limit : Z
}.
Record QueryResult : Type := mkResult { qr_Envelope : signedEnvelope; qr_Entry : LogEntry; qr_Valid : bool }.

Definition matchFilter (e : LogEntry) (f : QueryFilter) : bool :=
  negb (from_option (λ t, bool_decide (le_Timestamp e < t)%Z) false (qf_StartTime f)) &&
  negb (from_option (λ t, bool_decide (t < le_Timestamp e)%Z) false (qf_EndTime f)) &&
  (bool_decide (qf_Actor f = "") || bool_decide (le_Actor e = qf_Actor f)) &&
  (bool_decide (qf_Action f = "") || bool_decide (le_Action e = qf_Action f)).

(** The file's name in a directory listing. *)
Definition audit_file (name : string) : bool :=
  let b := str_bytes name in
  bool_decide (name = "audit.log") ||
  (bool_decide (take 6 b = str_bytes "audit-") && bool_decide (drop (length b - 4) b = str_bytes ".log")).
(** [bufio.Scanner]: the lines of a file, without their ends. *)
Fixpoint split_lines (cur : bytes) (l : bytes) : list bytes :=
  match l with
  | [] => match cur with [] => [] | _ => [cur] end
  | b :: l => if Byte.eqb b x0a then cur :: split_lines [] l else split_lines (cur ++ [b]) l
  end.
Definition drop_cr (l : bytes) : bytes :=
  match rev l with b :: r => if Byte.eqb b x0d then rev r else l | [] => [] end.
Definition parse_line (f : QueryFilter) (line : bytes) : option QueryResult :=
  let line := drop_cr line in
  if (length line =? 0)%nat then None
  else
    v ← unmarshal_envelope line; e ← unmarshal_entry (ev_Payload v);
    if matchFilter e f then Some (mkResult v e false) else None.
(** A line that does not fit the 1 MiB buffer makes the scan of the file fail. *)
Definition parseAuditFile (f : QueryFilter) (content : bytes) : option (list QueryResult) :=
  let lines := split_lines [] content in
  if forallb (λ l, bool_decide (Z.of_nat (length l) < 1048576)%Z) lines
  then Some (omap (parse_line f) lines) else None.

(** [sort.Slice] by sequence number (any sort agrees with it when numbers differ). *)
Fixpoint insert_seq (x : QueryResult) (l : list QueryResult) : list QueryResult :=
  match l with
  | [] => [x]
  | y :: l => if bool_decide (ev_ChainSeq (qr_Envelope x) ≤ ev_ChainSeq (qr_Envelope y))%Z then x :: y :: l
              else y :: insert_seq x l
  end.
Definition sort_seq (l : list QueryResult) : list QueryResult := foldr insert_seq [] l.

Definition verifyChainEntry (l : AuditLogger) (v : signedEnvelope) : bool :=
  match VerifyChainSignature l (ev_Payload v) (ev_PrevSignature v) (ev_Signature v) with Ok b => b | _ => false end.
Definition Query (l : AuditLogger) (dir : gmap string bytes) (f : QueryFilter) : list QueryResult :=
  let limit := if bool_decide (qf_Limit f = 0)%Z then 100%Z else qf_Limit f in
  let files := filter (λ kv, audit_file kv.1 = true) (map_to_list dir) in
  let results := sort_seq (files ≫= λ kv, default [] (parseAuditFile f kv.2)) in
  let results := if bool_decide (0 < limit)%Z && bool_decide (limit < Z.of_nat (length results))%Z
                 then drop (length results - Z.to_nat limit) results else results in
  match al_auditKey l with
  | None => results
  | Some _ => (λ r, mkResult (qr_Envelope r) (qr_Entry r) (verifyChainEntry l (qr_Envelope r))) <$> results
  end.
