(* ===== verification/AuditSpec.v ===== *)
(** What the audit log guarantees: concurrent [Record] calls, with the loop that removes old
    files beside them, leave one linked chain of signed entries in the log files, which
    [Query] returns in order and verified up to the retention, and a chain that replays to the same last signature has the same entries. *)

From stdpp Require Import sorting.
From S2P Require Import Prelude SecureBuffer Hash Utf8 Json Rfc3339 Metadata AuditLog.

(** ** Codecs *)
Lemma hex_pair x s : hex_DecodeString (hexc (Z.shiftr (b2z x) 4) :: hexc (Z.land (b2z x) 15) :: s) =
  (r ← hex_DecodeString s; Ok (x :: r)).
Proof. destruct x; reflexivity. Qed.
Lemma hex_cons x b : hex_EncodeToString (x :: b) =
  hexc (Z.shiftr (b2z x) 4) :: hexc (Z.land (b2z x) 15) :: hex_EncodeToString b.
Proof. done. Qed.
Lemma hex_roundtrip b : hex_DecodeString (hex_EncodeToString b) = Ok b.
Proof.
  induction b as [|x b IH]; [done|].
  by rw hex_cons hex_pair IH.
Qed.

Lemma str_bytes_roundtrip s : String.string_of_list_byte (str_bytes s) = s.
Proof. apply String.string_of_list_byte_of_string. Qed.
Lemma clean_omit k s : clean_obj (omit_empty k s) = if bool_decide (s = "") then [] else [(to_valid (str_bytes k), JString (to_valid (str_bytes s)))].
Proof. rw /omit_empty. by case_bool_decide. Qed.

(** ** Log files and their lines *)
Definition render_file (vs : list signedEnvelope) : bytes := vs ≫= λ v, marshal_envelope v ++ [x0a].

Lemma render_file_app vs v : render_file (vs ++ [v]) = render_file vs ++ marshal_envelope v ++ [x0a].
Proof. rw /render_file bind_app. f_equal. apply app_nil_r. Qed.
Lemma no_control_lf b : no_control b → b ≠ x0a ∧ b ≠ x0d.
Proof. rw /no_control. intros H. split; intros ->; by vm_compute in H. Qed.
Lemma sanitize_id l : Forall no_control l → sanitizeCRLF l = l.
Proof.
  induction 1 as [|b l Hb _ IH]; [done|]. rw /sanitizeCRLF fmap_cons -/(sanitizeCRLF l) IH. destruct (no_control_lf b Hb).
  by rw !bool_decide_eq_false_2.
Qed.
Lemma envelope_no_control v : Forall no_control (marshal_envelope v).
Proof. apply render_no_control. Qed.

Definition all_filter : QueryFilter := mkFilter None None "" "" (-1).


(** ** Sorting by sequence number *)
Definition seq_le (x y : QueryResult) : Prop := (ev_ChainSeq (qr_Envelope x) ≤ ev_ChainSeq (qr_Envelope y))%Z.
#[local] Instance seq_le_trans : Transitive seq_le.
Proof. intros x y z. rw /seq_le. lia. Qed.

(** ** The chain the logger is to produce *)
Fixpoint sign_all (key start : bytes) (n : Z) (payloads : list bytes) : list signedEnvelope :=
  match payloads with
  | [] => []
  | p :: ps => let sig := hmac_sha256 key (start ++ p) in
      mkEnv p (hex_EncodeToString sig) (hex_EncodeToString start) n :: sign_all key sig (n + 1) ps
  end.
Definition last_sig (key start : bytes) (payloads : list bytes) : bytes :=
  foldl (λ s p, hmac_sha256 key (s ++ p)) start payloads.

Lemma sign_all_app key start n ps p : sign_all key start n (ps ++ [p]) =
  sign_all key start n ps ++
  [mkEnv p (hex_EncodeToString (hmac_sha256 key (last_sig key start ps ++ p)))
     (hex_EncodeToString (last_sig key start ps)) (n + Z.of_nat (length ps))].
Proof.
  revert start n. induction ps as [|q ps IH]; intros start n; cbn [sign_all app length last_sig foldl].
  - by rw Z.add_0_r.
  - rw IH. cbn [app]. do 4 f_equal. lia.
Qed.
Lemma last_sig_app key start ps p : last_sig key start (ps ++ [p]) = hmac_sha256 key (last_sig key start ps ++ p).
Proof. by rw /last_sig foldl_app. Qed.

(** ** The logger under concurrent [Record] calls *)
Record asys : Type := mkASys {
  ay_log : AuditLogger;
  ay_now : Z;
  ay_flight : list (signedEnvelope * string);   (* signed, not yet written *)
  ay_entries : list LogEntry;                    (* every entry signed so far, in order *)
}.
Inductive alabel : Type :=
  | ASign (e : LogEntry)             (* a [Record] call takes the chain lock *)
  | AAnchor                          (* a [Record] call saves the anchor *)
  | AWrite (i : nat) (fault : io)    (* a [Record] call writes its envelope *)
  | APrune (fault : io)              (* the loop that removes old files has a tick *)
  | ATick (d : N).                   (* the clock advances *)
Section Exec.
(** What [NewDualWriteLogger] returned, with the loop it started. *)
Variable rt : Retaining.
Definition aexec (l : alabel) (y : asys) : option asys :=
  match l with
  | ASign e =>
      match record_sign (ay_now y) e (ay_log y) with
      | (log, Ok v) => Some (mkASys log (ay_now y) (ay_flight y ++ [(v, le_Action e)])
                               (ay_entries y ++ [fill_time (ay_now y) e]))
      | (log, Error _) => Some (mkASys log (ay_now y) (ay_flight y) (ay_entries y))
      | (_, Panic _) => None
      end
  | AAnchor => Some (mkASys (saveAnchor (ay_log y)) (ay_now y) (ay_flight y) (ay_entries y))
  | AWrite i fault =>
      '(v, action) ← ay_flight y !! i;
      Some (mkASys (record_write (ay_now y) fault v action (ay_log y)).1 (ay_now y) (delete i (ay_flight y)) (ay_entries y))
  | APrune fault =>
      match prune_tick (ay_now y) fault (set_log (ay_log y) rt) with
      | Ok rt => Some (mkASys (rt_log rt) (ay_now y) (ay_flight y) (ay_entries y))
      | _ => None
      end
  | ATick d => Some (mkASys (ay_log y) (ay_now y + Z.of_N d) (ay_flight y) (ay_entries y))
  end.
Fixpoint aexec_all (ls : list alabel) (y : asys) : option asys :=
  match ls with [] => Some y | l :: ls => aexec l y ≫= aexec_all ls end.
End Exec.
Definition no_fault (l : alabel) : Prop := match l with AWrite _ fault => fault = IoOk | _ => True end.
Definition log_files (l : AuditLogger) : gmap string bytes :=
  match al_sink l with ToFile r => fr_files r | ToWriter _ => ∅ end.
Definition payload_of (e : LogEntry) : bytes := match marshal_entry e with Ok p => p | _ => [] end.

(** ** Rotation loses nothing *)
Lemma days_from_civil_cycle y m d k : days_from_civil (y + 10000 * k) m d = (days_from_civil y m d + 3652425 * k)%Z.
Proof.
  rw /days_from_civil. set (b := if bool_decide (m ≤ 2)%Z then 1%Z else 0%Z).
  assert (y + 10000 * k - b = y - b + 25 * k * 400)%Z as -> by lia.
  rw Z.mod_add; [lia|]. rw Z.div_add; [lia|]. lia.
Qed.
Lemma dec_digits_inj n a b : dec_digits n a = dec_digits n b → (a `mod` 10 ^ Z.of_nat n = b `mod` 10 ^ Z.of_nat n)%Z.
Proof. intros E%(f_equal dec_value). by rw !dec_value_digits in E. Qed.
Lemma days_in_31 y m : (days_in y m ≤ 31)%Z.
Proof. rw /days_in. repeat case_match; lia. Qed.
Lemma date_text_inj d d' : (Z.abs (d - d') < 3652425)%Z → date_text d = date_text d' → d = d'.
Proof.
  intros Hd. rw /date_text. pose proof (civil_spec d) as H. pose proof (civil_spec d') as H'.
  destruct (civil d) as [[y m] x]. destruct (civil d') as [[y' m'] x']. intros E.
  pose proof (days_in_31 y m) as Hy. pose proof (days_in_31 y' m') as Hy'. destruct H as (H1 & H2 & H3). destruct H' as (H1' & H2' & H3').
  apply app_inj_1 in E as [Ey E]; [|by rw !length_dec_digits]. apply app_inj_1 in E as [Em Ex]; [|by rw !length_dec_digits].
  apply dec_digits_inj in Ey, Em, Ex. change (10 ^ Z.of_nat 2)%Z with 100%Z in Em, Ex. change (10 ^ Z.of_nat 4)%Z with 10000%Z in Ey.
  rw !Z.mod_small in Em, Ex; [lia..|]. subst m' x'.
  assert (y' = y + 10000 * (y' `div` 10000 - y `div` 10000))%Z as E' by (Z.div_mod_to_equations; lia).
  rw E' days_from_civil_cycle in H1'. lia.
Qed.

Lemma str_bytes_app s1 s2 : str_bytes (s1 +:+ s2) = str_bytes s1 ++ str_bytes s2.
Proof.
  rw /str_bytes /String.list_byte_of_string. rw chars_app map_app. done.
Qed.
Lemma archive_name_inj a b : archive_name a = archive_name b → a = b.
Proof.
  rw /archive_name. intros E. apply (inj (String.append "audit-")) in E.
  apply (f_equal str_bytes) in E. rw !str_bytes_app in E. apply app_inv_tail in E.
  rw /str_bytes !String.list_byte_of_string_of_list_byte in E. done.
Qed.
Lemma archive_not_current date : archive_name date ≠ "audit.log".
Proof. by rw /archive_name. Qed.

Definition all_envs (F : gmap string (list signedEnvelope)) : list signedEnvelope := map_to_list F ≫= snd.
Lemma all_envs_insert F k vs : F !! k = None → all_envs (<[k := vs]> F) ≡ₚ vs ++ all_envs F.
Proof. intros Hk. rw /all_envs map_to_list_insert //. Qed.
Lemma all_envs_delete F k vs : F !! k = Some vs → all_envs F ≡ₚ vs ++ all_envs (delete k F).
Proof. intros Hk. rw -all_envs_insert; [apply lookup_delete_eq|]. by rw insert_delete_id. Qed.

Record rot_inv (day0 now : Z) (r : FileRotator) (F : gmap string (list signedEnvelope)) : Prop := {
  ri_name : fr_filename r = "audit.log";
  ri_files : fr_files r = render_file <$> F;
  ri_cur : is_Some (F !! "audit.log");
  ri_days : ∃ d, fr_today r = date_text d ∧ (day0 ≤ d ≤ day_number now)%Z ∧
    ∀ n, n ∈ dom F → n = "audit.log" ∨ ∃ d', (day0 ≤ d' < d)%Z ∧ n = archive_name (date_text d');
}.

(** ** What a tick of the loop removes *)
(** The name of an archive gives back its day. *)
Lemma parse_date_text d : (0 ≤ (civil d).1.1 < 10000)%Z → parse_date (date_text d) = Some d.
Proof.
  rw /date_text /parse_date. pose proof (civil_spec d) as H. destruct (civil d) as [[y m] x]. cbn. intros Hy.
  destruct H as (Hd & Hm & Hx). pose proof (days_in_31 y m).
  rewrite (num_small 4) //= (num_small 2) /=; [lia|]. pose proof (num_small 2 x []) as E. rewrite app_nil_r in E. rewrite E; [lia|].
  cbn. by rewrite !bool_decide_eq_true_2 ?Hd.
Qed.
Lemma archive_date_name d : (0 ≤ (civil d).1.1 < 10000)%Z → archive_date (archive_name (date_text d)) = Some d.
Proof.
  intros Hy. rw /archive_date /archive_name !str_bytes_app.
  assert (str_bytes (String.string_of_list_byte (date_text d)) = date_text d) as E by apply String.list_byte_of_string_of_list_byte.
  rewrite E. assert (length (date_text d) = 8) as Hl by (rw /date_text; destruct (civil d) as [[? ?] ?]; by rw !length_app !length_dec_digits).
  pose proof (parse_date_text d Hy) as Hp. clear E. destruct (date_text d) as [|c0 [|c1 [|c2 [|c3 [|c4 [|c5 [|c6 [|c7 [|]]]]]]]]]; try done.
Qed.
(** The archive of a day goes when more than [retentionDays] passed since that day began. *)
Lemma prunable_archive now ret d : (0 ≤ (civil d).1.1 < 10000)%Z →
  prunable now ret (archive_name (date_text d)) = bool_decide ((d + ret) * 86400 * nano < now)%Z.
Proof. intros Hy. rw /prunable archive_date_name //. apply bool_decide_ext. lia. Qed.
(** The days of the years 1 to 9999. *)
Definition last_day : Z := days_from_civil 10000 1 1.
Lemma year_range d : (0 ≤ d < last_day)%Z → (0 ≤ (civil d).1.1 < 10000)%Z.
Proof.
  pose proof (civil_spec d) as H. destruct (civil d) as [[y m] x]. cbn. destruct H as (Hd & Hm & Hx). pose proof (days_in_31 y m).
  change last_day with 3652059%Z. rw /days_from_civil in Hd. intros Hr. assert (1 ≤ x ≤ 31)%Z as Hx' by lia. clear Hx.
  repeat case_bool_decide; Z.to_euclidean_division_equations; lia.
Qed.
(** Within the retention a tick changes nothing. *)
Lemma prune_nothing day0 ret now r F : rot_inv day0 now r F → (0 ≤ day0)%Z → (day_number now < last_day)%Z →
  (now ≤ (day0 + ret) * 86400 * nano)%Z → pruneOldFiles now ret r = (r, 0).
Proof.
  intros [Hn Hf _ (d & _ & Hd & Hdom)] H0 Hlast Hret.
  assert (∀ n c, fr_files r !! n = Some c → prunable now ret n = false) as Hno.
  { intros n c Hc. assert (n ∈ dom F) as Hin. { apply elem_of_dom. rw Hf lookup_fmap in Hc. by destruct (F !! n). }
    destruct (Hdom n Hin) as [->|(d' & Hd' & ->)]; [done|]. rw prunable_archive; [apply year_range; lia|].
    apply bool_decide_eq_false_2. rw /nano in Hret |- *. lia. }
  rw /pruneOldFiles. f_equal.
  - destruct r as [fn td files]. cbn in *. f_equal. apply map_eq. intros n. destruct (files !! n) as [c|] eqn:E.
    + apply map_lookup_filter_Some. split; [done|]. by eapply Hno.
    + apply map_lookup_filter_None. by left.
  - apply map_size_empty_iff, map_empty. intros n. apply map_lookup_filter_None. right. intros c Hc. cbn. by rw (Hno _ _ Hc).
Qed.

Lemma rotate_inv day0 now r F : rot_inv day0 now r F → (day_number now - day0 < 3652425)%Z →
  date_text (day_number now) ≠ fr_today r →
  ∃ F', rot_inv day0 now (rotateLocked now r) F' ∧ all_envs F' ≡ₚ all_envs F.
Proof.
  intros [Hn Hf [vs Hvs] (d & Hd & Hr & Hdom)] Hspan Hne.
  set (G := <[archive_name (fr_today r) := vs]> (delete "audit.log" F)).
  assert (F !! archive_name (fr_today r) = None) as Hnone.
  { apply not_elem_of_dom. intros [E|(d' & Hd' & E)]%Hdom; [by apply archive_not_current in E|].
    rw Hd in E. apply archive_name_inj, date_text_inj in E; lia. }
  assert (d < day_number now)%Z as Hlt.
  { destruct (decide (d = day_number now)) as [E|]; [|lia]. by rw Hd E in Hne. }
  exists (<["audit.log" := []]> G). split; [split; simpl|].
  - done.
  - rw Hn Hf lookup_fmap Hvs /=. rw fmap_insert /G fmap_insert fmap_delete. f_equal.
    rw lookup_insert_ne; [apply archive_not_current|]. by rw lookup_delete_eq.
  - by rw lookup_insert_eq.
  - exists (day_number now). split_and!; [done|lia|lia|]. intros n.
    rw dom_insert dom_insert dom_delete. intros Hin.
    destruct (decide (n = "audit.log")) as [|Hnc]; [by left|right].
    destruct (decide (n = archive_name (fr_today r))) as [->|Hna]; [exists d; rw Hd; split; [lia|done]|].
    destruct (Hdom n) as [?|(d' & ? & ?)]; [set_solver|done|exists d'; split; [lia|done]].
  - rw all_envs_insert; [rw lookup_insert_ne; [apply archive_not_current|apply lookup_delete_eq]|].
    cbn [app]. rw /G all_envs_insert; [by rw lookup_delete_ne; [by intros ?; apply (archive_not_current (fr_today r))|]|].
    by rw -all_envs_delete.
Qed.

Lemma append_inv day0 now r F v : rot_inv day0 now r F →
  ∃ F', rot_inv day0 now (append_file (marshal_envelope v ++ [x0a]) r) F' ∧ all_envs F' ≡ₚ v :: all_envs F.
Proof.
  intros [Hn Hf [vs Hvs] (d & Hd & Hr & Hdom)]. exists (<["audit.log" := vs ++ [v]]> F). split; [split; simpl|].
  - done.
  - rw Hn Hf lookup_fmap Hvs fmap_insert /=. f_equal. rw render_file_app. done.
  - by rw lookup_insert_eq.
  - exists d. split_and!; [done|lia|lia|]. intros n. rw dom_insert. intros Hin.
    destruct (decide (n = "audit.log")) as [|Hnc]; [by left|]. apply Hdom. set_solver.
  - rw -insert_delete_eq all_envs_insert; [apply lookup_delete_eq|].
    rw (all_envs_delete F "audit.log" vs) //. rw -app_assoc. cbn. by rw Permutation_middle.
Qed.

Lemma write_inv day0 now r F v action : rot_inv day0 now r F → (day_number now - day0 < 3652425)%Z →
  ∃ r' F', Write now IoOk (marshal_envelope v) action r = (r', Ok tt) ∧ rot_inv day0 now r' F' ∧
    all_envs F' ≡ₚ v :: all_envs F.
Proof.
  intros Hi Hspan. rw /Write sanitize_id; [apply envelope_no_control|].
  assert (bool_decide (IoOk = IoSync) = false) as -> by done. rw andb_false_r.
  case_bool_decide as E.
  - destruct (append_inv _ _ _ _ v Hi) as (F' & ? & ?). by exists (append_file (marshal_envelope v ++ [x0a]) r), F'.
  - destruct (rotate_inv _ _ _ _ Hi Hspan E) as (G & HG & Hp). destruct (append_inv _ _ _ _ v HG) as (F' & ? & Hp').
    eexists _, F'. split_and!; [done|done|]. by rw Hp' Hp.
Qed.

(** ** The invariant of the concurrent logger *)
#[local] Opaque hmac_sha256 sha256 marshal_entry marshal_envelope hex_EncodeToString.
Definition signed (key : bytes) (entries : list LogEntry) : list signedEnvelope :=
  sign_all key (sha256 key) 1 (payload_of <$> entries).
Record ainv (sb : SecureBuffer) (now0 : Z) (y : asys) : Prop := {
  ai_key : al_auditKey (ay_log y) = Some sb;
  ai_live : live sb;
  ai_mac : hc_mac (al_chain (ay_log y)) = hmac_sha256;
  ai_time : (now0 ≤ ay_now y)%Z;
  ai_ok : ∀ e, e ∈ ay_entries y → is_ok (marshal_entry e) = true;
  ai_last : hc_lastSignature (al_chain (ay_log y)) =
    last_sig (sb_data sb) (sha256 (sb_data sb)) (payload_of <$> ay_entries y);
  ai_seq : al_chainSeq (ay_log y) = Z.of_nat (length (ay_entries y));
  ai_files : ∃ r F, al_sink (ay_log y) = ToFile r ∧ rot_inv (day_number now0) (ay_now y) r F ∧
    all_envs F ++ (fst <$> ay_flight y) ≡ₚ signed (sb_data sb) (ay_entries y);
}.
(** The run is within the years 1 to 9999 and shorter than the retention of the first day, and
    has fewer entries than the sequence counter has numbers. *)
Record in_bounds (now0 ret : Z) (y : asys) : Prop := {
  ib_start : (0 ≤ now0)%Z;
  ib_year : (day_number (ay_now y) < last_day)%Z;
  ib_kept : (ay_now y ≤ (day_number now0 + ret) * 86400 * nano)%Z;
  ib_count : (Z.of_nat (length (ay_entries y)) < 2 ^ 64)%Z;
}.
Lemma in_bounds_span now0 ret y : in_bounds now0 ret y → (day_number (ay_now y) - day_number now0 < 3652425)%Z ∧ (0 ≤ day_number now0)%Z.
Proof.
  intros [H0 Hy _ _]. change last_day with 3652059%Z in Hy. assert (0 ≤ day_number now0)%Z; [|lia].
  rw /day_number. apply Z.div_pos; [|lia]. by apply Z.div_pos.
Qed.

Lemma day_number_mono t t' : (t ≤ t')%Z → (day_number t ≤ day_number t')%Z.
Proof. intros H. rw /day_number. by repeat (apply Z.div_le_mono; [done|]). Qed.
Lemma rot_inv_later day0 now now' r F : rot_inv day0 now r F → (now ≤ now')%Z → rot_inv day0 now' r F.
Proof.
  intros [? ? ? (d & ? & ? & ?)] Hle. split; [done..|]. exists d. split_and!; [done|lia| |done].
  pose proof (day_number_mono _ _ Hle). lia.
Qed.

Section Runs.
Variable rt : Retaining.
Lemma aexec_grows l y y' : aexec rt l y = Some y' → (ay_now y ≤ ay_now y')%Z ∧ length (ay_entries y) ≤ length (ay_entries y').
Proof.
  destruct l as [e| |i fault|fault|d]; simpl.
  - destruct (record_sign _ _ _) as [log [v| |]]; intros ?; simplify_eq/=; rw ?length_app; split; lia.
  - intros [= <-]. simpl. split; lia.
  - destruct (ay_flight y !! i) as [[v a]|]; [|done]. intros [= <-]. simpl. split; lia.
  - destruct (prune_tick _ _ _); [|done..]. intros [= <-]. simpl. split; lia.
  - intros [= <-]. simpl. split; lia.
Qed.
Lemma in_bounds_earlier now0 ret l y y' : aexec rt l y = Some y' → in_bounds now0 ret y' → in_bounds now0 ret y.
Proof.
  intros [Ht Hl]%aexec_grows [H0 Hd Hk He]. pose proof (day_number_mono _ _ Ht). split; lia.
Qed.

Lemma sign_inv sb now0 y e log v : ainv sb now0 y →
  record_sign (ay_now y) e (ay_log y) = (log, Ok v) → (Z.of_nat (length (ay_entries y)) + 1 < 2 ^ 64)%Z →
  ainv sb now0 (mkASys log (ay_now y) (ay_flight y ++ [(v, le_Action e)]) (ay_entries y ++ [fill_time (ay_now y) e])).
Proof.
  intros [Hk Hl Hm Ht Hok Hs Hq (r & F & Hr & Hi & Hp)] H Hb. rw /record_sign in H.
  set (e' := fill_time (ay_now y) e) in *. destruct (marshal_entry e') as [p| |] eqn:He; [|done..].
  rw Hk in H. rw /live in Hl. rw Hl in H.
  assert (payload_of e' = p) as Hpay by rw /payload_of He //.
  rw /computeAndAdvance Hm Hs Hq in H. injection H as <- <-.
  assert (uint64_succ (Z.of_nat (length (ay_entries y))) = Z.of_nat (length (ay_entries y)) + 1)%Z as Hsucc.
  { rw /uint64_succ Z.mod_small; lia. }
  split; cbn [ay_log ay_now ay_flight ay_entries al_auditKey al_chain al_chainSeq al_sink hc_mac hc_lastSignature].
  - done.
  - done.
  - done.
  - done.
  - intros x [Hx| ->%list_elem_of_singleton]%elem_of_app; [by apply Hok|by rw He].
  - by rw fmap_app last_sig_app Hpay.
  - rw Hsucc length_app /=. lia.
  - exists r, F. split_and!; [done|done|]. rw /signed (fmap_app payload_of).
    change (payload_of <$> [e']) with [payload_of e']. rw sign_all_app Hpay length_fmap -/(signed _ _).
    rw fmap_app app_assoc Hp. cbn [fmap list_fmap fst]. rw Hsucc. by rw (Z.add_comm 1).
Qed.

Lemma aexec_inv sb now0 l y y' : ainv sb now0 y → no_fault l → aexec rt l y = Some y' → in_bounds now0 (rt_days rt) y' → ainv sb now0 y'.
Proof.
  intros Hinv Hnf H Hb. destruct l as [e| |i fault|fault|d]; simpl in H.
  - destruct (record_sign _ _ _) as [log [v|err|m]] eqn:Hs; simplify_eq.
    + eapply sign_inv; [done|done|]. destruct Hb as [_ _ _ Hb]. rw length_app /= in Hb. lia.
    + assert (log = ay_log y) as ->; [|by destruct y].
      rw /record_sign in Hs. destruct (marshal_entry _); [|by simplify_eq..].
      destruct (al_auditKey _) as [k|]; [|by simplify_eq]. destruct (sb_destroyed k); [by simplify_eq|].
      by destruct (computeAndAdvance _ _ _) as [? [? ?]].
  - simplify_eq. destruct Hinv as [Hk Hl Hm Ht Hok Hs Hq Hf]. rw /saveAnchor.
    destruct (al_anchorFile (ay_log y)) eqn:E; split; done.
  - destruct (ay_flight y !! i) as [[v a]|] eqn:Hi; [|done]. simpl in H. simpl in Hnf. subst fault. simplify_eq.
    destruct Hinv as [Hk Hl Hm Ht Hok Hs Hq (r & F & Hr & HI & Hp)].
    destruct (write_inv _ _ _ _ v a HI (proj1 (in_bounds_span _ _ _ Hb))) as (r' & F' & HW & HI' & Hp').
    rw /record_write Hr HW. split; try done.
    exists r', F'. split_and!; [done|done|]. rw -Hp Hp'. cbn [ay_flight app].
    assert (fst <$> ay_flight y ≡ₚ v :: (fst <$> delete i (ay_flight y))) as -> by rw {1}(delete_Permutation _ _ _ Hi) //.
    by rw -Permutation_middle.
  - assert (prune_tick (ay_now y) fault (set_log (ay_log y) rt) = Ok (set_log (ay_log y) rt)) as E.
    { destruct Hinv as [_ _ _ _ _ _ _ (r & F & Hr & HI & _)]. assert (in_bounds now0 (rt_days rt) y) as Hb0 by (destruct (prune_tick _ _ _); simplify_eq; by destruct Hb).
      rw /prune_tick. cbn [set_log rt_log rt_days]. rw Hr (prune_nothing (day_number now0) _ _ _ F) //=; [by eapply in_bounds_span|apply Hb0|apply Hb0|].
      rw /set_log /set_sink /=. destruct (ay_log y); cbn in Hr |- *. by rw Hr. }
    rw E /= in H. injection H as <-. by destruct y.
  - simplify_eq. destruct Hinv as [Hk Hl Hm Ht Hok Hs Hq (r & F & Hr & HI & Hp)]. split; try done; simpl; [lia|].
    exists r, F. split_and!; [done| |done]. apply (rot_inv_later _ _ _ _ _ HI). lia.
Qed.
Lemma aexec_all_inv sb now0 ls y y' : ainv sb now0 y → Forall no_fault ls → aexec_all rt ls y = Some y' → in_bounds now0 (rt_days rt) y' →
  ainv sb now0 y' ∧ in_bounds now0 (rt_days rt) y.
Proof.
  revert y. induction ls as [|l ls IH]; intros y Hy Hnf H Hb; simpl in H; [by simplify_eq|].
  apply Forall_cons_1 in Hnf as [Hl Hls]. destruct (aexec rt l y) as [y1|] eqn:E; [|done]. simpl in H.
  assert (in_bounds now0 (rt_days rt) y1) as Hb1.
  { clear -H Hb. revert y1 H. induction ls as [|l ls IH]; intros y1 H; simpl in H; [by simplify_eq|].
    destruct (aexec rt l y1) as [y2|] eqn:E; [|done]. eapply in_bounds_earlier; [exact E|]. by apply IH. }
  split; [|by eapply in_bounds_earlier].
  destruct (IH y1 (aexec_inv _ _ _ _ _ Hy Hl E Hb1) Hls H Hb) as [Hfin _]. exact Hfin.
Qed.
End Runs.




(** ** Start-up *)
Lemma start_inv now ret e0 e1 rt : NewDualWriteLogger now "audit.log" ret ∅ None e0 = (e1, Ok rt) →
  rt_days rt = ret ∧ ∃ sb, ainv sb now (mkASys (rt_log rt) now [] []) ∧ length (sb_data sb) = 32.
Proof.
  rw /NewDualWriteLogger. intros H. inv_M. apply NewSecureBufferFromRandom_ok in Hm as (_ & Hlen & Hl).
  rename a into sb. split; [done|]. exists sb. split; [|lia].
  split; [done|done|done|cbn [ay_now]; lia|by intros ? ?%elem_of_nil|done|done|].
  exists (NewFileRotator now "audit.log" ∅), ({["audit.log" := []]} : gmap string (list signedEnvelope)).
  split_and!; [done| |].
  - split; [done| |by exists []|].
    + rw /NewFileRotator /openCurrent. cbn [fr_filename fr_files].
      rw lookup_empty map_fmap_singleton. done.
    + exists (day_number now). cbn [ay_now]. split_and!; [done|lia|lia|]. intros n Hn. left.
      rewrite dom_singleton_L in Hn. by apply elem_of_singleton in Hn.
  - rw /all_envs map_to_list_singleton. done.
Qed.



(** ** Tampering *)
(** A replay of the log, as [VerifyChainSignature] documents it: each entry is checked
    against the signature of the entry before it. *)
Fixpoint replay (l : AuditLogger) (prev : bytes) (es : list (bytes * bytes)) : bool :=
  match es with
  | [] => true
  | (payload, sig) :: es =>
      match VerifyChainSignature l payload prev sig with Ok true => replay l sig es | _ => false end
  end.
(** Two messages with one HMAC under the key, or a message whose HMAC is the anchor. *)
Definition collision (key : bytes) : Prop :=
  (∃ a b, a ≠ b ∧ hmac_sha256 key a = hmac_sha256 key b) ∨ ∃ a, hmac_sha256 key a = sha256 key.

Lemma length_last_sig key start ps : length start = 32 → length (last_sig key start ps) = 32.
Proof.
  intros Hs. destruct ps as [|p ps _] using rev_ind; [done|]. rw last_sig_app. apply length_hmac_sha256.
Qed.
Lemma last_sig_inj key ps qs : last_sig key (sha256 key) ps = last_sig key (sha256 key) qs → ps = qs ∨ collision key.
Proof.
  revert qs. induction ps as [|p ps IH] using rev_ind; intros qs; destruct qs as [|q qs _] using rev_ind.
  - by left.
  - rw last_sig_app. intros E. right. right. by eexists.
  - rw last_sig_app. intros E. right. right. by eexists.
  - rw !last_sig_app. intros E. destruct (decide (last_sig key (sha256 key) ps ++ p = last_sig key (sha256 key) qs ++ q)) as [Ei|Hne].
    + apply app_inj_1 in Ei as [Es ->]; [|rw !length_last_sig //; apply length_sha256].
      destruct (IH _ Es) as [->|]; [by left|by right].
    + right. left. by eexists _, _.
Qed.
Definition final_sig (prev : bytes) (es : list (bytes * bytes)) : bytes := foldl (λ _ e, e.2) prev es.
Lemma replay_sig l sb es : ∀ prev start, al_auditKey l = Some sb → live sb → hex_DecodeString prev = Ok start →
  replay l prev es = true → hex_DecodeString (final_sig prev es) = Ok (last_sig (sb_data sb) start es.*1).
Proof.
  induction es as [|[p sig] es IH]; intros prev start Hk Hl Hd H; [done|]. cbn [replay] in H.
  rw /VerifyChainSignature /withAuditKey Hk WithKeyR_live // Hd in H. cbn [mbind result_bind] in H.
  destruct (hex_DecodeString sig) as [want| |] eqn:Hs; [|done..]. cbn [mbind result_bind] in H.
  case_bool_decide as E; [|done]. specialize (IH sig want Hk Hl Hs H). rw -E in IH. exact IH.
Qed.

(** Tampering is evident. Take any list of payloads and signatures that replays from
    the initial chain signature and ends in the logger's last signature, whatever was
    altered, inserted, removed, reordered or cut off: it carries exactly the payloads
    that were recorded, in order, unless it exhibits a collision of HMAC-SHA-256
    under the audit key. *)
Theorem chain_tamper_evident now ret e0 e1 rt ls y es init :
  NewDualWriteLogger now "audit.log" ret ∅ None e0 = (e1, Ok rt) →
  aexec_all rt ls (mkASys (rt_log rt) now [] []) = Some y → Forall no_fault ls → in_bounds now ret y →
  InitialChainSignatureHex (ay_log y) = Ok init → replay (ay_log y) init es = true →
  hex_DecodeString (final_sig init es) = Ok (hc_lastSignature (al_chain (ay_log y))) →
  es.*1 = payload_of <$> ay_entries y ∨ ∃ key, al_auditKey (ay_log y) = Some key ∧ collision (sb_data key).
Proof.
  intros (<- & sb & Hi & _)%start_inv Hx Hnf Hb Hinit Hre Hfin. destruct (aexec_all_inv _ _ _ _ _ _ Hi Hnf Hx Hb) as [Hy _].
  destruct Hy as [Hk Hl _ _ _ Hlast _ _].
  rw /InitialChainSignatureHex /withAuditKey Hk WithKeyR_live // in Hinit. injection Hinit as <-.
  rw (replay_sig _ sb _ _ _ Hk Hl (hex_roundtrip _) Hre) Hlast in Hfin. injection Hfin as Hfin.
  destruct (last_sig_inj _ _ _ Hfin) as [E|Hc]; [by left|right; eauto].
Qed.

(** ** Restart *)
Lemma hexc_not_ws z : (0 ≤ z < 16)%Z → anchor_ws (hexc z) = false.
Proof.
  intros Hz. assert (all_below (λ z, negb (anchor_ws (hexc z))) 16 0 = true) as Hall by (vm_compute; reflexivity).
  by apply negb_true_iff, (all_below_spec _ _ _ Hall).
Qed.
Lemma trim_hex b : Forall (λ c, anchor_ws c = false) (hex_EncodeToString b).
Proof.
  induction b as [|x b IH]; [constructor|]. rw hex_cons.
  pose proof (b2z_range x). constructor; [|constructor; [|done]]; apply hexc_not_ws.
  - rw Z.shiftr_div_pow2 //. Z.div_mod_to_equations. lia.
  - change 15%Z with (Z.ones 4). rw Z.land_ones //. apply Z.mod_pos_bound. done.
Qed.
Lemma trim_ws_id l : Forall (λ c, anchor_ws c = false) l → trim_ws l = l.
Proof. destruct 1 as [|b l Hb _]; [done|]. simpl. by rw Hb. Qed.

Lemma load_anchor c c' : length (hc_lastSignature c) = 32 →
  loadAnchor (LastSignatureHex c) c' = Ok (SetLastSignature (hc_lastSignature c) c').
Proof.
  intros Hl. rw /loadAnchor /LastSignatureHex (trim_ws_id (hex_EncodeToString _)); [apply trim_hex|].
  rw trim_ws_id; [apply Forall_rev, trim_hex|]. by rw rev_involutive hex_roundtrip /= Hl.
Qed.
Lemma record_anchor now fault e l l' : al_anchorFile l = true → Record now fault e l = (l', Ok tt) →
  al_anchor l' = Some (LastSignatureHex (al_chain l')).
Proof.
  rw /Record. intros Ha H. destruct (record_sign now e l) as [l1 [v| |]] eqn:Hs; [|done..].
  assert (al_anchorFile l1 = true) as Ha1.
  { rw /record_sign in Hs. destruct (marshal_entry _); [|done..]. destruct (al_auditKey l) as [k|]; [|done].
    destruct (sb_destroyed k); [done|]. destruct (computeAndAdvance _ _ _) as [? [? ?]]. by injection Hs as <- _. }
  rw /saveAnchor Ha1 /record_write in H. cbn [al_sink] in H.
  destruct (al_sink l1) as [r|w].
  - destruct (Write _ _ _ _ _) as [r' res]. by injection H as <- _.
  - destruct fault; by injection H as <-.
Qed.

(** The chain survives a restart: the anchor that [Record] saves is the last
    signature, and a logger started on it links its first entry to that signature
    (under a fresh audit key). *)
Theorem anchor_continues now fault e l l' now2 ret dir e0 e1 rt v log :
  al_anchorFile l = true → length (hc_lastSignature (al_chain l')) = 32 →
  Record now fault e l = (l', Ok tt) →
  NewDualWriteLogger now2 "audit.log" ret dir (al_anchor l') e0 = (e1, Ok rt) →
  record_sign now2 e (rt_log rt) = (log, Ok v) → ev_PrevSignature v = hex_EncodeToString (hc_lastSignature (al_chain l')).
Proof.
  intros Ha Hlen HR HN HS. pose proof (record_anchor _ _ _ _ _ Ha HR) as Hanch. rw Hanch in HN.
  rw /NewDualWriteLogger in HN. inv_M. rw load_anchor // in Hm0. injection Hm0 as <-.
  cbn [rt_log StartPruneLoop] in HS. rw /record_sign in HS. destruct (marshal_entry _); [|done..]. cbn [al_auditKey] in HS.
  destruct (sb_destroyed a); [done|]. rw /computeAndAdvance in HS. by injection HS as _ <-.
Qed.

(** ** A concrete log *)
Definition demo_t0 : Z := ((62135596800 + 1700000000) * nano)%Z.
Definition demo_entropy : entropy := str_bytes "0123456789abcdef0123456789abcdef".
Definition ok_or {A} (d : A) (r : result A) : A := match r with Ok a => a | _ => d end.
Lemma ok_or_eq {S A} (d : A) (x : S * result A) s : is_ok x.2 = true → x.1 = s → x = (s, Ok (ok_or d x.2)).
Proof. by destruct x as [? [| |]]; simpl; intros ? <-. Qed.
Lemma some_default {A} (d : A) (x : option A) : match x with Some _ => true | None => false end = true → x = Some (default d x).
Proof. by destruct x. Qed.
Definition closed_logger : AuditLogger := mkLogger None (newHashChain []) 0 (ToWriter []) false None.
Definition no_loop : Retaining := mkRetaining closed_logger (mkSB [] true) 0 true false.
Definition demo_rt : Retaining := ok_or no_loop (NewDualWriteLogger demo_t0 "audit.log" 180 ∅ None demo_entropy).2.
Definition demo_logger : AuditLogger := rt_log demo_rt.
Definition demo_entry (actor action : string) : LogEntry := mkEntry "" 0 "" actor "k1" action "success" "" "".
(** Two calls whose writes are swapped, with midnight and a tick of the loop between them, then a third. *)
Definition demo_calls : list alabel :=
  [ASign (demo_entry "alice" "Encrypt"); ASign (demo_entry "bob" "ShredKey"); AAnchor; AWrite 1 IoOk;
   ATick 86400000000000; APrune IoOk; AWrite 0 IoOk; ASign (demo_entry "carol" "Decrypt"); AWrite 0 IoOk; AAnchor].
Definition demo_alog : asys := default (mkASys demo_logger demo_t0 [] []) (aexec_all demo_rt demo_calls (mkASys demo_logger demo_t0 [] [])).


(** The log as a replay: what an auditor reads from the envelopes. *)
Definition demo_replay : list (bytes * bytes) :=
  (λ r, (ev_Payload (qr_Envelope r), ev_Signature (qr_Envelope r))) <$>
    Query (ay_log demo_alog) (log_files (ay_log demo_alog)) all_filter.
Lemma chain_tamper_evident_witness :
  demo_replay.*1 = payload_of <$> ay_entries demo_alog ∨
  ∃ key, al_auditKey (ay_log demo_alog) = Some key ∧ collision (sb_data key).
Proof.
  apply (chain_tamper_evident demo_t0 180 demo_entropy [] demo_rt demo_calls demo_alog demo_replay
    (hex_EncodeToString (sha256 demo_entropy))).
  - apply ok_or_eq; vm_compute; reflexivity.
  - apply some_default. vm_compute. reflexivity.
  - repeat constructor.
  - split; vm_compute; [discriminate|reflexivity|discriminate|reflexivity].
  - vm_compute. reflexivity.
  - vm_compute. reflexivity.
  - vm_compute. reflexivity.
Defined.

Definition demo_recorded : AuditLogger := (Record demo_t0 IoOk (demo_entry "alice" "Encrypt") demo_logger).1.
Definition demo_restart : Retaining := ok_or no_loop
  (NewDualWriteLogger demo_t0 "audit.log" 180 (log_files demo_recorded) (al_anchor demo_recorded) (rev demo_entropy)).2.
Definition demo_restarted : AuditLogger := rt_log demo_restart.
Definition demo_next : AuditLogger * result signedEnvelope := record_sign demo_t0 (demo_entry "alice" "Encrypt") demo_restarted.
Definition no_env : signedEnvelope := mkEnv [] [] [] 0.
Lemma anchor_continues_witness : ev_PrevSignature (ok_or no_env demo_next.2) =
  hex_EncodeToString (hc_lastSignature (al_chain demo_recorded)).
Proof.
  apply (anchor_continues demo_t0 IoOk (demo_entry "alice" "Encrypt") demo_logger demo_recorded demo_t0 180 (log_files demo_recorded)
    (rev demo_entropy) [] demo_restart _ demo_next.1).
  - vm_compute. reflexivity.
  - vm_compute. reflexivity.
  - destruct (Record _ _ _ _) as [l [[]| |]] eqn:E; [unfold demo_recorded; by rewrite E|..]; 
      apply (f_equal (λ x, is_ok x.2)) in E; vm_compute in E; discriminate E.
  - apply ok_or_eq; vm_compute; reflexivity.
  - apply ok_or_eq; [vm_compute; reflexivity|reflexivity].
Defined.

(** Queries check each entry against the previous signature it carries itself, so a
    removed line is not noticed: what remains is still marked valid. *)
Definition cut_first (content : bytes) : bytes :=
  drop (S (length (default [] (head (split_lines [] content))))) content.
Example deletion_unnoticed :
  let files := alter cut_first "audit.log" (log_files (ay_log demo_alog)) in
  (λ r, (le_Actor (qr_Entry r), qr_Valid r)) <$> Query (ay_log demo_alog) files all_filter =
  [("bob", true); ("carol", true)].
Proof. vm_compute. reflexivity. Qed.

(** The audit key does not survive the process: after a restart every earlier entry is
    reported invalid, and the sequence numbers start over. *)
Example restart_invalidates :
  (λ r, (le_Actor (qr_Entry r), ev_ChainSeq (qr_Envelope r), qr_Valid r)) <$>
    Query (Record demo_t0 IoOk (demo_entry "bob" "Decrypt") demo_restarted).1
      (log_files (Record demo_t0 IoOk (demo_entry "bob" "Decrypt") demo_restarted).1) all_filter =
  [("alice", 1%Z, false); ("bob", 1%Z, true)].
Proof. vm_compute. reflexivity. Qed.
