(* ===== verification/Retention.v ===== *)
(** Retention of the audit log: the daily loop of [src/internal/audit/file_rotator.go] that
    removes old archives, and the callback of [NewDualWriteLogger] that records what the loop
    removed. The callback builds a second logger over the same key, chain and files. *)

From S2P Require Import Prelude SecureBuffer Hash Json Rfc3339 AuditLog AuditSpec.

(** ** Definitions *)
Definition Rotate (now : Z) : FileRotator → FileRotator := rotateLocked now.
(** [close] of a closed channel panics. *)
Definition CloseRotator (y : Retaining) : result Retaining :=
  if rt_stopped y then Panic "close of closed channel" else Ok (mkRetaining (rt_log y) (rt_key y) (rt_days y) true (rt_looping y)).
Definition CloseLogger (y : Retaining) : result Retaining :=
  CloseRotator (mkRetaining (Close (rt_log y)) (match al_auditKey (rt_log y) with Some _ => Wipe (rt_key y) | None => rt_key y end) (rt_days y) (rt_stopped y) (rt_looping y)).

Definition rotator (l : AuditLogger) : option FileRotator := match al_sink l with ToFile r => Some r | ToWriter _ => None end.
(** Steps of the process. When both channels are ready, [select] takes either: a tick may
    still come after the stop. *)
Inductive pl_event : Type :=
  | PTick (now : Z) (fault : io)
  | PStop
  | PRecord (now : Z) (fault : io) (e : LogEntry)
  | PClose.
Definition pruneLoop (ev : pl_event) (y : Retaining) : option (result Retaining) :=
  match ev with
  | PTick now fault => if rt_looping y then Some (prune_tick now fault y) else None
  | PStop => if rt_looping y && rt_stopped y then Some (Ok (mkRetaining (rt_log y) (rt_key y) (rt_days y) true false)) else None
  | PRecord now fault e => Some (match Record now fault e (rt_log y) with
                                 | (_, Panic m) => Panic m
                                 | (l, _) => Ok (set_log l y)
                                 end)
  | PClose => Some (CloseLogger y)
  end.
Fixpoint pl_run (evs : list pl_event) (y : Retaining) : option (result Retaining) :=
  match evs with
  | [] => Some (Ok y)
  | ev :: evs => match pruneLoop ev y with
                 | Some (Ok y) => pl_run evs y
                 | r => r
                 end
  end.

(** ** What a tick removes *)
Lemma prunable_later now now' ret n : (now ≤ now')%Z → prunable now ret n = true → prunable now' ret n = true.
Proof. rw /prunable. destruct (archive_date n); [|done]. rw !bool_decide_eq_true. lia. Qed.
Lemma pruned_file now ret r n : fr_files (pruneOldFiles now ret r).1 !! n = if prunable now ret n then None else fr_files r !! n.
Proof.
  cbn. destruct (prunable now ret n) eqn:E.
  - apply map_lookup_filter_None. right. intros x _. cbn. by rw E.
  - destruct (fr_files r !! n) as [c|] eqn:F; [by apply map_lookup_filter_Some|]. apply map_lookup_filter_None. by left.
Qed.
(** Every removed file is counted. *)
Lemma prune_counts now ret r : (pruneOldFiles now ret r).2 + size (fr_files (pruneOldFiles now ret r).1) = size (fr_files r).
Proof.
  cbn. set (P := λ kv : string * bytes, prunable now ret kv.1 = true). rewrite -{3}(map_filter_union_complement P (fr_files r)).
  rewrite map_size_disj_union; [by apply map_disjoint_filter_complement|]. f_equal. f_equal. apply map_filter_ext. intros n c _. by rw /P not_true_iff_false.
Qed.

(** ** Runs of the logger and its loop *)
(** Writing leaves a file alone that is neither the log nor the archive of its day. *)
Record spares (name : string) (r r' : FileRotator) : Prop := {
  sp_name : fr_filename r' = fr_filename r;
  sp_file : fr_files r' !! name = fr_files r !! name;
}.
Lemma rotate_spares name now r : name ≠ fr_filename r → name ≠ archive_name (fr_today r) → spares name r (rotateLocked now r).
Proof.
  intros Hn Ha. split; [done|]. rw /rotateLocked. cbn. rw lookup_insert_ne //.
  destruct (fr_files r !! fr_filename r); [|done]. by rw lookup_insert_ne // lookup_delete_ne.
Qed.
Lemma append_spares name c r : name ≠ fr_filename r → spares name r (append_file c r).
Proof. intros Hn. split; [done|]. cbn. by rw lookup_insert_ne. Qed.
Lemma spares_trans name r1 r2 r3 : spares name r1 r2 → spares name r2 r3 → spares name r1 r3.
Proof. intros [? ?] [? ?]. split; congruence. Qed.
Lemma Write_spares name now fault c a r r' res : name ≠ fr_filename r → name ≠ archive_name (fr_today r) → Write now fault c a r = (r', res) →
  spares name r r' ∧ fr_today r' = date_text (day_number now) ∧ (∀ m, res ≠ Panic m).
Proof.
  rw /Write. intros Hn Ha. set (r1 := if bool_decide _ then r else _). assert (spares name r r1 ∧ fr_today r1 = date_text (day_number now)) as [Hs Ht].
  { rw /r1. case_bool_decide as E; [by split; [split|]|]. split; [by apply rotate_spares|done]. }
  assert (∀ c', spares name r (append_file c' r1)) as Hc.
  { intros c'. eapply spares_trans; [exact Hs|]. apply append_spares. by rw (sp_name _ _ _ Hs). }
  destruct fault; [| |]; try case_match; intros [= <- <-]; by split_and!.
Qed.

(** A logger that writes to files under a live key. *)
Record recording (key : SecureBuffer) (r : FileRotator) (l : AuditLogger) : Prop := {
  rc_key : al_auditKey l = Some key;
  rc_sink : al_sink l = ToFile r;
}.
Lemma Record_recording key name now fault e r l l' res : live key → recording key r l → name ≠ fr_filename r → name ≠ archive_name (fr_today r) →
  Record now fault e l = (l', res) →
  (∀ m, res ≠ Panic m) ∧ ∃ r', recording key r' l' ∧ spares name r r' ∧ (fr_today r' = fr_today r ∨ fr_today r' = date_text (day_number now)).
Proof.
  intros Hl [Hk Hs] Hn Ha. rw /Record /record_sign /saveAnchor /record_write Hk. rw /marshal_entry. destruct (format_time _) as [time|].
  - rewrite Hl. rw /computeAndAdvance. intros H. cbn in H. destruct (al_anchorFile l); cbn in H; rw Hs in H;
      (destruct (Write _ _ _ _ _) as [r' x] eqn:EW; apply Write_spares with (name := name) in EW as (Hsp & Ht & Hp); [|done..];
       injection H as <- <-; split; [intros m; destruct x; [done|done|by destruct (Hp msg)]|exists r'; by split_and!; [split|..|right]]).
  - cbn. intros [= <- <-]. split; [done|]. exists r. split_and!; [done|done|by left].
Qed.

Record retaining (name : string) (y : Retaining) (r : FileRotator) : Prop := {
  ra_live : live (rt_key y);
  ra_rec : recording (rt_key y) r (rt_log y);
  ra_current : fr_filename r = "audit.log";
  ra_apart : name ≠ archive_name (fr_today r);
}.
Definition ev_time (ev : pl_event) : option Z := match ev with PTick now _ | PRecord now _ _ => Some now | _ => None end.
Definition removes (ret : Z) (name : string) (ev : pl_event) : bool := match ev with PTick now _ => prunable now ret name | _ => false end.
Lemma tick_retaining ret name now fault y r : rt_days y = ret → retaining name y r → name ≠ "audit.log" → name ≠ archive_name (date_text (day_number now)) →
  ∃ y' r', prune_tick now fault y = Ok y' ∧ retaining name y' r' ∧ rt_days y' = ret ∧ rt_looping y' = rt_looping y ∧
    fr_files r' !! name = if prunable now ret name then None else fr_files r !! name.
Proof.
  intros Hdays [Hl [Hk Hs] Hc Ha] Hn Hd. rw /prune_tick Hs Hdays. pose proof (pruned_file now ret r name) as Hf.
  destruct (pruneOldFiles now ret r) as [r1 deleted] eqn:Ep. cbn in Hf. injection Ep as Er Ed.
  assert (fr_filename r1 = "audit.log" ∧ fr_today r1 = fr_today r) as [Hc1 Ht1] by (by rw -Er).
  destruct (0 <? deleted)%nat.
  2: { exists (set_log (set_sink (ToFile r1) (rt_log y)) y), r1. split_and!; [done| |done..]. split; [done|by split|done|by rewrite Ht1]. }
  rw /onPrune. destruct (Record _ _ _ _) as [l' res] eqn:ER. 
  eapply (Record_recording (rt_key y) name _ _ _ r1) in ER as (Hp & r2 & [Hk2 Hs2] & Hsp & Ht); [|done|by split|by rw Hc1|by rw Ht1].
  eexists _, r2. split_and!; [destruct res; [done|done|by destruct (Hp msg)]| | | |].
  - split; [done|by split|by rewrite (sp_name _ _ _ Hsp)|]. destruct Ht as [->| ->]; [by rw Ht1|done].
  - done.
  - done.
  - by rw (sp_file _ _ _ Hsp).
Qed.
Lemma step_retaining ret name ev y r : rt_days y = ret → retaining name y r → name ≠ "audit.log" → ev ≠ PClose → ev ≠ PStop → rt_looping y = true →
  (∀ now, ev_time ev = Some now → name ≠ archive_name (date_text (day_number now))) →
  ∃ y' r', pruneLoop ev y = Some (Ok y') ∧ retaining name y' r' ∧ rt_days y' = ret ∧ rt_looping y' = true ∧
    fr_files r' !! name = if removes ret name ev then None else fr_files r !! name.
Proof.
  intros Hdays Hr Hn Hc Hst Hlo Hd. destruct ev as [now fault| |now fault e|]; [|done| |done]; cbn; specialize (Hd now eq_refl).
  - rw Hlo. destruct (tick_retaining ret name now fault y r Hdays Hr Hn Hd) as (y' & r' & E & Hr' & Hs' & Hl' & Hf).
    exists y', r'. rewrite E. by split_and!; [|done|done|rewrite Hl'|].
  - destruct Hr as [Hl Hrec Hcur Ha]. destruct (Record now fault e (rt_log y)) as [l' res] eqn:ER.
    eapply (Record_recording (rt_key y) name) in ER as (Hp & r' & Hrec' & Hsp & Ht); [|done|exact Hrec|by rewrite Hcur|done].
    exists (set_log l' y), r'. split_and!; [destruct res; [done|done|by destruct (Hp msg)]| |done|done|by rewrite (sp_file _ _ _ Hsp)].
    split; [done|done|by rewrite (sp_name _ _ _ Hsp)|]. by destruct Ht as [-> | ->].
Qed.
(** While the logger is open, no record and no tick panics, and the fate of an archive is that of
    its name: removed by the first tick for which it is old enough, else left as it was. *)
Theorem archive_fate day evs y r c : (0 ≤ (civil day).1.1 < 10000)%Z →
  let name := archive_name (date_text day) in
  live (rt_key y) → recording (rt_key y) r (rt_log y) → fr_filename r = "audit.log" → fr_today r ≠ date_text day → rt_looping y = true →
  fr_files r !! name = Some c →
  Forall (λ ev, ev ≠ PClose ∧ ev ≠ PStop ∧ ∀ now, ev_time ev = Some now → date_text (day_number now) ≠ date_text day) evs →
  ∃ y' r', pl_run evs y = Some (Ok y') ∧ rotator (rt_log y') = Some r' ∧
    fr_files r' !! name = if existsb (λ ev, match ev with PTick now _ => bool_decide ((day + rt_days y) * 86400 * nano < now)%Z | _ => false end) evs
                          then None else Some c.
Proof.
  intros Hy name Hl Hrec Hcur Ha Hlo Hc Hevs. rewrite -Hc. clear Hc c.
  assert (retaining name y r) as Hr by (split; try done; intros E%archive_name_inj; congruence).
  clear Hl Hrec Hcur Ha. remember (rt_days y) as ret eqn:Hdays. symmetry in Hdays. revert y r Hr Hlo Hdays.
  induction Hevs as [|ev evs (Hc & Hst & Hd) _ IH]; intros y r Hr Hlo Hdays.
  { exists y, r. split_and!; [done| |done]. destruct Hr as [_ [_ E] _ _]. by rw /rotator E. }
  destruct (step_retaining ret name ev y r) as (y1 & r1 & E & Hr1 & Hdays1 & Hlo1 & Hf); [done|done|apply archive_not_current|done..| |].
  { intros now E1 E2%archive_name_inj. by destruct (Hd now E1). }
  destruct (IH y1 r1 Hr1 Hlo1 Hdays1) as (y' & r' & E' & Hrot & Hf'). exists y', r'. cbn [pl_run existsb]. rewrite E. split_and!; [done..|].
  rewrite Hf' Hf. destruct ev as [now fault| | |]; cbn [removes orb]; [|done..]. rewrite prunable_archive //.
  by destruct (bool_decide _); cbn [orb]; [case_match|].
Qed.

(** ** Examples *)
Definition archived : string := archive_name (date_text 730000).
Definition quiet_log : AuditLogger := set_sink (ToFile (mkRotator "audit.log" (date_text 730200) {[ "audit.log" := []; archived := [x41] ]})) demo_logger.
Definition demo_retaining : Retaining := StartPruneLoop 180 quiet_log (default (mkSB [] true) (al_auditKey demo_logger)).
Definition at_day (d s : Z) : Z := ((d * 86400 + s) * nano)%Z.
Lemma archive_fate_witness : ∃ y' r', pl_run [PRecord (at_day 730200 5) IoOk (demo_entry "alice" "Encrypt"); PTick (at_day 730201 0) IoOk] demo_retaining = Some (Ok y') ∧
  rotator (rt_log y') = Some r' ∧ fr_files r' !! archived = None.
Proof.
  apply (archive_fate 730000 [PRecord (at_day 730200 5) IoOk (demo_entry "alice" "Encrypt"); PTick (at_day 730201 0) IoOk] demo_retaining
    (mkRotator "audit.log" (date_text 730200) {[ "audit.log" := []; archived := [x41] ]}) [x41]).
  - vm_compute. split; [intros [=]|reflexivity].
  - vm_compute. reflexivity.
  - split; vm_compute; reflexivity.
  - reflexivity.
  - vm_compute. discriminate.
  - reflexivity.
  - vm_compute. reflexivity.
  - repeat constructor; try done; intros now [= <-]; vm_compute; discriminate.
Defined.
(** The last entries of a day go with its file before they are [retentionDays] old. *)
Example young_entries_removed : prunable (at_day 730180 1) 180 archived = true ∧ day_number (at_day 730000 86399) = 730000%Z ∧
  (at_day 730180 1 - at_day 730000 86399 < 180 * 86400 * nano)%Z.
Proof. vm_compute. done. Qed.
(** The callback's logger counts from zero: the entry on the removal has sequence number one,
    as the first entry of the log, and a query lists it among the first. *)
Example removal_out_of_sequence :
  match pl_run [PRecord (at_day 730200 5) IoOk (demo_entry "alice" "Encrypt"); PRecord (at_day 730200 6) IoOk (demo_entry "bob" "Decrypt");
                    PTick (at_day 730200 7) IoOk] demo_retaining with
  | Some (Ok y) => (λ q, (le_Action (qr_Entry q), ev_ChainSeq (qr_Envelope q))) <$> Query (rt_log y) (log_files (rt_log y)) all_filter
  | _ => []
  end = [("Encrypt", 1%Z); ("AUDIT_LOG_PRUNE", 1%Z); ("Decrypt", 2%Z)].
Proof. vm_compute. reflexivity. Qed.
(** A tick that is taken after [Close] finds the key wiped, and ends the process. *)
Example tick_after_close : pl_run [PClose; PTick (at_day 730200 7) IoOk] demo_retaining = Some (Panic "FATAL: Use after free in SecureBuffer").
Proof. vm_compute. reflexivity. Qed.
Example close_twice : pl_run [PClose; PClose] demo_retaining = Some (Panic "close of closed channel").
Proof. vm_compute. reflexivity. Qed.
(** Rotating twice on a day keeps the second file only. *)
Example rotated_twice : let r := NewFileRotator (at_day 730200 5) "audit.log" ∅ in
  let r := Rotate (at_day 730200 7) (append_file [x41] r) in let r := Rotate (at_day 730200 9) (append_file [x42] r) in
  fr_files r = {[ "audit.log" := []; archive_name (date_text 730200) := [x42] ]}.
Proof. vm_compute. reflexivity. Qed.
