(* ===== verification/Syslog.v ===== *)
(** The asynchronous syslog writer, [src/internal/audit/syslog_writer.go]: callers put
    messages into a bounded channel and never wait; one goroutine takes them out and
    writes each with a time limit; [Close] stops it after a last sweep. The goroutines
    and the channel are a transition system; the syslog daemon is the environment, which
    may accept a message in time, fail, or answer after the writer has given up. *)

From S2P Require Import Prelude.

Definition syslog_capacity : nat := 4096.

(** Where [writeLoop] is. *)
Inductive loop_state : Type :=
  | Selecting                   (* in the select of [writeLoop] *)
  | WritingMsg (data : bytes) (draining : bool)   (* in [writeWithTimeout] *)
  | DrainingQueue               (* in the select of [drainRemaining] *)
  | Exited.                     (* [done] is closed *)
Record SyslogWriter : Type := mkSyslog {
  sw_ch : list bytes;
  sw_stop : bool;
  sw_loop : loop_state;
  sw_late : list bytes;         (* writes that were given up, still in their goroutines *)
  sw_droppedCount : Z;
  (* what happened to the messages *)
  sw_given : list bytes;        (* to [Write], in order *)
  sw_delivered : list bytes;    (* written in time *)
  sw_failed : list bytes;       (* write errors *)
  sw_overdue : list bytes;      (* given up, and settled since *)
  sw_rejected : list bytes;     (* the channel was full *)
}.
Definition NewSyslogWriter : SyslogWriter := mkSyslog [] false Selecting [] 0 [] [] [] [] [].

(** [Write]: total, it never waits, and its result does not tell what happened. *)
Definition SyslogWrite (data : bytes) (s : SyslogWriter) : SyslogWriter * Z :=
  (if bool_decide (length (sw_ch s) < syslog_capacity)
   then mkSyslog (sw_ch s ++ [data]) (sw_stop s) (sw_loop s) (sw_late s) (sw_droppedCount s)
          (sw_given s ++ [data]) (sw_delivered s) (sw_failed s) (sw_overdue s) (sw_rejected s)
   else mkSyslog (sw_ch s) (sw_stop s) (sw_loop s) (sw_late s) (sw_droppedCount s + 1)
          (sw_given s ++ [data]) (sw_delivered s) (sw_failed s) (sw_overdue s) (sw_rejected s ++ [data]),
   Z.of_nat (length data)).
Definition DroppedCount (s : SyslogWriter) : Z := sw_droppedCount s.

(** Moves of the goroutines and of the daemon. *)
Definition set_loop (l : loop_state) (s : SyslogWriter) : SyslogWriter :=
  mkSyslog (sw_ch s) (sw_stop s) l (sw_late s) (sw_droppedCount s) (sw_given s) (sw_delivered s) (sw_failed s) (sw_overdue s) (sw_rejected s).
Definition after_write (draining : bool) : loop_state := if draining then DrainingQueue else Selecting.
Definition take_message (ch : list bytes) (l : loop_state) (s : SyslogWriter) : SyslogWriter :=
  mkSyslog ch (sw_stop s) l (sw_late s) (sw_droppedCount s) (sw_given s) (sw_delivered s) (sw_failed s) (sw_overdue s) (sw_rejected s).
Inductive syslog_step : SyslogWriter → SyslogWriter → Prop :=
  | step_Write data s : syslog_step s (SyslogWrite data s).1
  | step_Close s : syslog_step s
      (mkSyslog (sw_ch s) true (sw_loop s) (sw_late s) (sw_droppedCount s) (sw_given s) (sw_delivered s) (sw_failed s) (sw_overdue s) (sw_rejected s))
  (* [writeLoop] *)
  | step_take s data ch : sw_loop s = Selecting → sw_ch s = data :: ch → syslog_step s (take_message ch (WritingMsg data false) s)
  | step_stop s : sw_loop s = Selecting → sw_stop s = true → syslog_step s (set_loop DrainingQueue s)
  (* [drainRemaining]; its second may be over at any select *)
  | step_drain s data ch : sw_loop s = DrainingQueue → sw_ch s = data :: ch → syslog_step s (take_message ch (WritingMsg data true) s)
  | step_exit s : sw_loop s = DrainingQueue → syslog_step s (set_loop Exited s)
  (* [writeWithTimeout] *)
  | step_delivered s data d : sw_loop s = WritingMsg data d → syslog_step s
      (mkSyslog (sw_ch s) (sw_stop s) (after_write d) (sw_late s) (sw_droppedCount s) (sw_given s) (sw_delivered s ++ [data]) (sw_failed s) (sw_overdue s) (sw_rejected s))
  | step_failed s data d : sw_loop s = WritingMsg data d → syslog_step s
      (mkSyslog (sw_ch s) (sw_stop s) (after_write d) (sw_late s) (sw_droppedCount s) (sw_given s) (sw_delivered s) (sw_failed s ++ [data]) (sw_overdue s) (sw_rejected s))
  | step_timeout s data d : sw_loop s = WritingMsg data d → syslog_step s
      (mkSyslog (sw_ch s) (sw_stop s) (after_write d) (sw_late s ++ [data]) (sw_droppedCount s + 1) (sw_given s) (sw_delivered s) (sw_failed s) (sw_overdue s) (sw_rejected s))
  (* a goroutine whose write was given up comes back *)
  | step_late s data l1 l2 : sw_late s = l1 ++ data :: l2 → syslog_step s
      (mkSyslog (sw_ch s) (sw_stop s) (sw_loop s) (l1 ++ l2) (sw_droppedCount s) (sw_given s) (sw_delivered s) (sw_failed s) (sw_overdue s ++ [data]) (sw_rejected s)).
Definition syslog_reach : SyslogWriter → SyslogWriter → Prop := rtc syslog_step.

(** ** Nothing is lost unaccounted *)
Definition current (s : SyslogWriter) : list bytes := match sw_loop s with WritingMsg data _ => [data] | _ => [] end.
Record syslog_inv (s : SyslogWriter) : Prop := {
  si_bound : length (sw_ch s) ≤ syslog_capacity;
  si_partition : sw_given s ≡ₚ sw_delivered s ++ sw_failed s ++ sw_late s ++ sw_overdue s ++ sw_rejected s ++ current s ++ sw_ch s;
  si_order : sw_delivered s ++ current s ++ sw_ch s `sublist_of` sw_given s;
  si_dropped : sw_droppedCount s = Z.of_nat (length (sw_rejected s) + length (sw_late s) + length (sw_overdue s));
}.

Lemma sublist_drop_mid {A} (l1 l3 k : list A) x : l1 ++ [x] ++ l3 `sublist_of` k → l1 ++ l3 `sublist_of` k.
Proof. intros H. etrans; [|exact H]. apply sublist_app; [reflexivity|]. apply sublist_cons. reflexivity. Qed.

Lemma syslog_inv_step s s' : syslog_inv s → syslog_step s s' → syslog_inv s'.
Proof.
  intros [Hb Hp Ho Hd] Hs. destruct Hs as [data s|s|s data ch Hl Hc|s Hl Hst|s data ch Hl Hc|s Hl|s data d Hl|s data d Hl|s data d Hl|s data l1 l2 Hl].
  - rw /SyslogWrite /=. case_bool_decide as Hlen; split; cbn [sw_ch sw_given sw_delivered sw_failed sw_late sw_overdue sw_rejected sw_droppedCount sw_loop]; rw /current /= in Hp Ho *.
    + rw length_app /=. lia.
    + rw Hp. solve_Permutation.
    + rw !app_assoc. apply sublist_app; [|reflexivity]. by rw -!app_assoc.
    + done.
    + done.
    + rw Hp. solve_Permutation.
    + by apply sublist_inserts_r.
    + rw length_app /=. lia.
  - by split.
  - rw /current Hl Hc in Hp Ho. rw Hc in Hb. split; rw /current /=; try done. simpl in Hb. lia.
  - rw /current Hl in Hp Ho. by split.
  - rw /current Hl Hc in Hp Ho. rw Hc in Hb. split; rw /current /=; try done. simpl in Hb. lia.
  - rw /current Hl in Hp Ho. by split.
  - rw /current Hl in Hp Ho. split; rw /current /=; try done.
    + destruct d; simpl; rw Hp; solve_Permutation.
    + destruct d; simpl; by rw -app_assoc.
  - rw /current Hl in Hp Ho. split; rw /current /=; try done.
    + destruct d; simpl; rw Hp; solve_Permutation.
    + destruct d; simpl; by eapply sublist_drop_mid.
  - rw /current Hl in Hp Ho. split; rw /current /=; try done.
    + destruct d; simpl; rw Hp; solve_Permutation.
    + destruct d; simpl; by eapply sublist_drop_mid.
    + rw length_app /=. lia.
  - rw /current in Hp Ho. split; rw /current /=; try done.
    + rw Hp Hl. solve_Permutation.
    + rw Hl !length_app /= in Hd. rw !length_app /=. lia.
Qed.

(** The syslog writer accounts for every message: in every reachable state the channel
    holds at most its capacity; the messages given to [Write] are, each exactly once,
    delivered in time, failed, given up (settled or not), rejected by the full channel, in
    the hands of the writer or still queued; the drop counter is the number of rejected
    and given-up messages; and what was delivered in time, is being written and is queued
    keeps the order in which it was given. *)
Theorem syslog_accounts s : syslog_reach NewSyslogWriter s →
  length (sw_ch s) ≤ syslog_capacity ∧
  sw_given s ≡ₚ sw_delivered s ++ sw_failed s ++ sw_late s ++ sw_overdue s ++ sw_rejected s ++ current s ++ sw_ch s ∧
  DroppedCount s = Z.of_nat (length (sw_rejected s) + length (sw_late s) + length (sw_overdue s)) ∧
  sw_delivered s ++ current s ++ sw_ch s `sublist_of` sw_given s.
Proof.
  intros Hr. assert (syslog_inv s) as [? ? ? ?]; [|done].
  assert (syslog_inv NewSyslogWriter) as Hi by (split; simpl; [rw /syslog_capacity; lia|done|constructor|done]).
  induction Hr as [|a b c Hab _ IH]; [done|]. by eapply IH, syslog_inv_step.
Qed.
Lemma syslog_accounts_witness : ∃ s, syslog_reach NewSyslogWriter s ∧ sw_delivered s = [[x61]] ∧ sw_late s = [[x62]] ∧ sw_ch s = [[x63]] ∧
  DroppedCount s = 1%Z ∧ sw_given s ≡ₚ [[x61]] ++ [] ++ [[x62]] ++ [] ++ [] ++ [] ++ [[x63]].
Proof.
  assert (∃ s, syslog_reach NewSyslogWriter s ∧ s = mkSyslog [[x63]] false Selecting [[x62]] 1 [[x61]; [x62]; [x63]] [[x61]] [] [] []) as (s & Hr & ->).
  { eexists. split; [|reflexivity].
    eapply rtc_l; [apply (step_Write [x61])|]. eapply rtc_l; [apply (step_Write [x62])|]. eapply rtc_l; [apply (step_Write [x63])|].
    eapply rtc_l; [by eapply step_take|]. eapply rtc_l; [by eapply step_delivered|].
    eapply rtc_l; [by eapply step_take|]. eapply rtc_l; [by eapply step_timeout|]. apply rtc_refl. }
  eexists. split; [exact Hr|]. split_and!; [reflexivity..|]. apply (syslog_accounts _ Hr).
Defined.

(** Once the writer has exited it stays that way: what is queued or given afterwards is
    neither written nor counted as dropped, unless the channel fills up. *)
Lemma exited_forever s s' : sw_loop s = Exited → syslog_reach s s' → sw_loop s' = Exited ∧ sw_delivered s' = sw_delivered s ∧ sw_ch s `prefix_of` sw_ch s'.
Proof.
  intros He Hr. induction Hr as [|a b c Hab _ IH]; [done|].
  assert (sw_loop b = Exited ∧ sw_delivered b = sw_delivered a ∧ sw_ch a `prefix_of` sw_ch b) as (Hb & Hd & Hp).
  { destruct Hab; try congruence; try done. rw /SyslogWrite. case_bool_decide; simpl; split_and!; try done. by apply prefix_app_r. }
  destruct (IH Hb) as (? & ? & ?). split_and!; [done|congruence|by etrans].
Qed.
Example message_after_close : ∃ s, syslog_reach NewSyslogWriter s ∧ sw_loop s = Exited ∧ sw_ch s = [[x61]] ∧ DroppedCount s = 0%Z.
Proof.
  eexists. split.
  { eapply rtc_l; [apply step_Close|]. eapply rtc_l; [by apply step_stop|]. eapply rtc_l; [by apply step_exit|].
    eapply rtc_l; [apply (step_Write [x61])|]. apply rtc_refl. }
  done.
Qed.
