(* ===== verification/Manager.v ===== *)
(** The key lifecycle manager, [src/internal/lifecycle/manager.go], over any
    [KVStore]. A manager operation runs in a world that
    pairs the store with the manager's own environment: the metadata cache, the
    clock reading of the current operation, the CSPRNG stream, and the log of the
    cache-invalidation notices it has sent. *)

From S2P Require Import Prelude SecureBuffer Ciphertext Kek Store Metadata.

Inductive notice : Type :=
  | NoticeInTx (keyID : string)     (* [NotifyInvalidationInTx] *)
  | NoticeCluster (keyID : string). (* [notifier.NotifyInvalidation] *)

Record Env : Type := mkEnv {
  m_cache : dekCache;
  m_notifier : bool;          (* [m.notifier != nil] *)
  m_maxGlobalKeys : Z;
  m_now : Z;                  (* [time.Now().UTC()] *)
  m_rand : entropy;
  m_notices : list notice;
}.
Definition set_cache (c : dekCache) (e : Env) : Env :=
  mkEnv c (m_notifier e) (m_maxGlobalKeys e) (m_now e) (m_rand e) (m_notices e).
Definition set_rand (r : entropy) (e : Env) : Env :=
  mkEnv (m_cache e) (m_notifier e) (m_maxGlobalKeys e) (m_now e) r (m_notices e).
Definition add_notice (n : notice) (e : Env) : Env :=
  mkEnv (m_cache e) (m_notifier e) (m_maxGlobalKeys e) (m_now e) (m_rand e) (m_notices e ++ [n]).
Definition set_now (t : Z) (e : Env) : Env :=
  mkEnv (m_cache e) (m_notifier e) (m_maxGlobalKeys e) t (m_rand e) (m_notices e).

Definition ErrQuotaExceeded : error := Err_new "lifecycle: global key quota exceeded".
Definition ErrKeyDestroyed : error := Err_new "lifecycle: key is destroyed, all operations refused".
Definition errEmptyKeyID : error := Err_new "lifecycle: empty key id".
Definition errNilKEK : error := Err_new "lifecycle: kek is nil".
Definition errNotActive : error := Err_new "lifecycle: state is not Active".
Definition errUnknownState : error := Err_new "lifecycle: unknown state".

(** Running a step of one half of the world. *)
Definition onS {S X A} (m : M S A) : M (S * X) A := fun '(s, x) =>
  let '(s', r) := m s in ((s', x), r).
Definition onRand {S A} (m : M entropy A) : M (S * Env) A := fun '(s, e) =>
  let '(rnd, r) := m (m_rand e) in ((s, set_rand rnd e), r).
Definition modE {S} (f : Env → Env) : M (S * Env) () := modify (λ '(s, e), (s, f e)).
Definition getE {S} : M (S * Env) Env := gets snd.

(** SM2 and RSA/ECDSA key generation: [crypto.GenerateAsymmetricKey] with the
    serialisation of both halves; the private half arrives in a [SecureBuffer]. *)
Definition keygen : Type := string → M entropy (SecureBuffer * bytes).

Section Manager.
Context {S : Type} `{!KVStore S}.
Abbreviation World := (S * Env)%type.
Abbreviation MW := (M World).

Definition nilKEK (kek : option KEK) : MW KEK :=
  match kek with Some k => mret k | None => throw errNilKEK end.

(** ** Metadata access *)
Definition saveMetadata (meta : KeyMetadata) : MW () :=
  wrapM "lifecycle: put metadata"
    (onS (kv_Put (metadataKey (km_KeyID meta) (km_Version meta)) (marshal_meta meta))).

Definition loadMetadata (keyID : string) (version : Z) : MW KeyMetadata :=
  let key := metadataKey keyID version in
  e ← getE;
  match cache_get key (m_cache e) with
  | Some meta => mret meta
  | None =>
      if cache_isNegative (m_now e) key (m_cache e) then throw ErrNotFound
      else
        r ← try_ (onS (kv_Get key));
        match r with
        | inr err =>
            (if errors_Is err ErrNotFound
             then modE (λ e, set_cache (cache_putNegative (m_now e) key (m_cache e)) e) else mret tt);;
            throw err
        | inl d =>
            meta ← wrapM "lifecycle: unmarshal metadata" (lift (unmarshal_meta d));
            modE (λ e, set_cache (cache_put key meta (m_cache e)) e);;
            mret meta
        end
  end.

(** ** The version index *)
Definition setLatestVersion (keyID : string) (version : Z) : MW () :=
  onS (kv_Put (latestVersionMetadataKey keyID) (marshal_int version)).

(** The loop [for v := 1; ; v++], one unit of fuel per turn. *)
Fixpoint scan_versions (fuel : nat) (keyID : string) (v : Z) : M S Z :=
  match fuel with
  | O => fun s => (s, Panic "scan_versions: out of fuel")
  | Datatypes.S fuel =>
      r ← try_ (kv_Get (metadataKey keyID v));
      match r with
      | inl _ => scan_versions fuel keyID (v + 1)
      | inr err =>
          if errors_Is err ErrNotFound
          then if bool_decide (v = 1)%Z then throw ErrNotFound else mret (v - 1)%Z
          else throw err
      end
  end.
Definition findLatestVersionScan (keyID : string) : M S Z := fun s =>
  scan_versions (2 + size (kv_map s)) keyID 1 s.

(** [getLatestVersion] and [findLatestVersionInTx] read the same keys in the same
    order; the latter with row locks. *)
Definition getLatestVersion (keyID : string) : M S Z :=
  r ← try_ (kv_Get (latestVersionMetadataKey keyID));
  match r with
  | inl d =>
      match data_empty d, unmarshal_int d with
      | false, Ok v => if bool_decide (0 < v)%Z then mret v else findLatestVersionScan keyID
      | _, _ => findLatestVersionScan keyID
      end
  | inr _ => findLatestVersionScan keyID
  end.
Definition findLatestVersion (keyID : string) : M S Z := getLatestVersion keyID.
Definition findLatestVersionInTx (keyID : string) : M S Z := getLatestVersion keyID.

(** ** Notices *)
Definition notifyInTx (keyID : string) : MW () :=
  if kv_txNotifies (S := S) then modE (add_notice (NoticeInTx keyID)) else mret tt.
(** The type test is on the store, which never implements [TxNotifier] (only its
    transaction objects do), so the cluster notifier is always tried. *)
Definition notifyClusterIfNoTxNotifier (keyID : string) : MW () :=
  e ← getE;
  if m_notifier e then modE (add_notice (NoticeCluster keyID)) else mret tt.
Definition InvalidateCache (keyID : string) : MW () :=
  modE (λ e, set_cache (cache_invalidate keyID (m_cache e)) e).
Definition ClearCache : MW () := modE (λ e, set_cache (cache_clear (m_cache e)) e).
Definition SetMaxGlobalKeys (max : Z) : MW () :=
  modE (λ e, mkEnv (m_cache e) (m_notifier e) max (m_now e) (m_rand e) (m_notices e)).
Definition SetNotifier (present : bool) : MW () :=
  modE (λ e, mkEnv (m_cache e) present (m_maxGlobalKeys e) (m_now e) (m_rand e) (m_notices e)).

(** ** Paged scans *)
Definition pageSize : Z := 1000.
Fixpoint each {A I} (body : A → I → MW A) (items : list I) (acc : A) : MW A :=
  match items with
  | [] => mret acc
  | item :: items => acc ← body acc item; each body items acc
  end.
(** [for { items := ScanPrefixPaged("key:", offset, pageSize); ...; offset += len(items) }];
    [body] handles one item and threads an accumulator; [onErr] is what the caller
    returns when the store refuses a page. *)
Fixpoint scan_pages {A} (onErr : A → error → MW A) (fuel : nat)
    (body : A → string * data → MW A) (offset : Z) (acc : A) : MW A :=
  match fuel with
  | O => fun w => (w, Panic "scan_pages: out of fuel")
  | Datatypes.S fuel =>
      page ← try_ (onS (kv_ScanPrefixPaged "key:" offset pageSize));
      match page with
      | inr err => onErr acc err
      | inl ([], _) => mret acc
      | inl (items, _) =>
          acc ← each body items acc;
          if bool_decide (Z.of_nat (length items) < pageSize)%Z then mret acc
          else scan_pages onErr fuel body (offset + Z.of_nat (length items)) acc
      end
  end.
Definition paged_fuel (w : World) : nat := Datatypes.S (size (kv_map w.1)).

(** [keyIDs], which lists the members of [seen] in order of insertion. *)
Definition see_key (seen : list string) (item : string * data) : list string :=
  match unmarshal_meta item.2 with
  | Ok meta => if bool_decide (km_KeyID meta ∈ seen) then seen else seen ++ [km_KeyID meta]
  | _ => seen
  end.
Definition ListKeyIDs : MW (list string) := fun w =>
  scan_pages (λ _, throw) (paged_fuel w) (λ seen item, mret (see_key seen item)) 0 [] w.

(** [seen[meta.KeyID] = true] *)
Definition count_key (seen : gset string) (item : string * data) : gset string :=
  match unmarshal_meta item.2 with Ok meta => {[ km_KeyID meta ]} ∪ seen | _ => seen end.
Definition countKeys : MW Z := fun w =>
  (seen ← scan_pages (λ _, throw) (paged_fuel w) (λ seen item, mret (count_key seen item)) 0 ∅;
   mret (Z.of_nat (size seen))) w.

(** ** Creation *)
Definition next_rotation (now days : Z) : Z :=
  if bool_decide (0 < days)%Z then (now + days_duration days)%Z else 0%Z.

Definition quota_check : MW () :=
  e ← getE;
  if bool_decide (0 < m_maxGlobalKeys e)%Z then
    count ← wrapM "lifecycle: quota check" countKeys;
    guardM (bool_decide (count < m_maxGlobalKeys e)%Z) ErrQuotaExceeded
  else mret tt.

Definition CreateKey (keyID : string) (kek : option KEK) (rotationPeriodDays : Z) :
    MW (KeyMetadata * SecureBuffer) :=
  guardM (negb (bool_decide (keyID = ""))) errEmptyKeyID;;
  kek ← nilKEK kek;
  quota_check;;
  plaintextDEK ← wrapM "lifecycle: generate data key" (onRand (NewSecureBufferFromRandom (dekSizeFromKEK kek)));
  encryptedDEK ← wrapM "lifecycle: wrap DEK" (onRand (kek_WrapDEK kek plaintextDEK));
  e ← getE;
  let meta := mkMeta keyID 1 StateActive "" (algorithmFromKEK kek) ["encrypt"; "decrypt"] encryptedDEK
    (KEKType_string (kek_Type kek)) [] (m_now e) 0 rotationPeriodDays
    (next_rotation (m_now e) rotationPeriodDays) in
  wrapM "lifecycle: save metadata" (saveMetadata meta);;
  try_ (setLatestVersion keyID 1);;
  mret (meta, plaintextDEK).

Definition KeyTypeAES : string := "aes".
Definition KeyTypeRSA : string := "rsa".
Definition KeyTypeECDSA : string := "ecdsa".
Definition KeyTypeSM2 : string := "sm2".

(** [CreateAsymmetricKey] and, for SM2, [createSM2Key]; [sm2 = None] is the build
    without the gmsm tag. *)
Definition CreateAsymmetricKey (gen : keygen) (sm2 : option keygen) (keyID algoType : string)
    (kek : option KEK) : MW KeyMetadata :=
  guardM (negb (bool_decide (keyID = ""))) errEmptyKeyID;;
  kek ← nilKEK kek;
  guardM (bool_decide (algoType = KeyTypeRSA) || bool_decide (algoType = KeyTypeECDSA)
    || bool_decide (algoType = KeyTypeSM2)) (Err_new "lifecycle: unsupported key type");;
  g ← (if bool_decide (algoType = KeyTypeSM2)
       then match sm2 with Some g => mret g | None => throw (Err_new "lifecycle: sm2 requires -tags gmsm") end
       else mret gen);
  '(derSB, pubPEM) ← wrapM "lifecycle: generate asymmetric key" (onRand (g algoType));
  encryptedMaterial ← wrapM "lifecycle: encrypt private key" (onRand (kek_WrapDEK kek derSB));
  e ← getE;
  let meta := mkMeta keyID 1 StateActive algoType "" [] encryptedMaterial
    (KEKType_string (kek_Type kek)) pubPEM (m_now e) 0 0 0 in
  wrapM "lifecycle: save metadata" (saveMetadata meta);;
  try_ (setLatestVersion keyID 1);;
  mret meta.

(** ** Rotation: the closure run inside the transaction, in two halves (the old
    version has been deactivated when [rotate_new] starts), and the operation. *)
Definition rotate_new (keyID : string) (kek : KEK) (latestV : Z) (oldMeta : KeyMetadata) :
    MW (KeyMetadata * SecureBuffer) :=
  plainDEK ← wrapM "lifecycle: generate new data key" (onRand (NewSecureBufferFromRandom (dekSizeFromKEK kek)));
  encryptedDEK ← wrapM "lifecycle: wrap new DEK" (onRand (kek_WrapDEK kek plainDEK));
  e ← getE;
  let newMeta := mkMeta keyID (latestV + 1) StateActive "" "" [] encryptedDEK
    (KEKType_string (kek_Type kek)) [] (m_now e) 0 (km_RotationDays oldMeta)
    (next_rotation (m_now e) (km_RotationDays oldMeta)) in
  wrapM "lifecycle: put new version" (onS (kv_Put (metadataKey keyID (km_Version newMeta)) (marshal_meta newMeta)));;
  try_ (onS (kv_Put (latestVersionMetadataKey keyID) (marshal_int (km_Version newMeta))));;
  notifyInTx keyID;;
  mret (newMeta, plainDEK).

Definition rotate_tx (keyID : string) (kek : KEK) : MW (KeyMetadata * SecureBuffer) :=
  latestV ← onS (findLatestVersionInTx keyID);
  let oldKey := metadataKey keyID latestV in
  oldData ← wrapM "lifecycle: lock old version" (onS (kv_Get oldKey));
  oldMeta ← wrapM "lifecycle: unmarshal old metadata" (lift (unmarshal_meta oldData));
  guardM (bool_decide (km_State oldMeta = StateActive)) errNotActive;;
  let oldMeta := meta_set_state StateDeactivated (km_DeletedAt oldMeta) oldMeta in
  wrapM "lifecycle: update old version" (onS (kv_Put oldKey (marshal_meta oldMeta)));;
  rotate_new keyID kek latestV oldMeta.

Definition RotateKey (keyID : string) (kek : option KEK) : MW (KeyMetadata * SecureBuffer) :=
  guardM (negb (bool_decide (keyID = ""))) errEmptyKeyID;;
  kek ← nilKEK kek;
  r ← kv_WithTx (rotate_tx keyID kek);
  InvalidateCache keyID;;
  notifyClusterIfNoTxNotifier keyID;;
  mret r.

(** ** Destruction *)
Definition shred_tx (keyID : string) (version : Z) : MW () :=
  let key := metadataKey keyID version in
  d ← wrapM "lifecycle: lock for shred" (onS (kv_Get key));
  meta ← wrapM "lifecycle: unmarshal for shred" (lift (unmarshal_meta d));
  wrapM "lifecycle: put destroyed metadata" (onS (kv_Put key (marshal_meta (meta_destroy meta))));;
  wrapM "lifecycle: delete after shred" (onS (kv_Delete key));;
  notifyInTx keyID.
Definition ShredKey (keyID : string) (version : Z) : MW () :=
  kv_WithTx (shred_tx keyID version);;
  InvalidateCache keyID;;
  notifyClusterIfNoTxNotifier keyID.

(** ** Recycle bin *)
Definition softdelete_tx (keyID : string) (version : Z) : MW () :=
  let key := metadataKey keyID version in
  d ← wrapM "lifecycle: soft-delete: lock key" (onS (kv_Get key));
  meta ← wrapM "lifecycle: soft-delete: unmarshal" (lift (unmarshal_meta d));
  if bool_decide (km_State meta = StateSoftDeleted) then mret tt
  else if bool_decide (km_State meta = StateDestroyed) then throw ErrKeyDestroyed
  else
    e ← getE;
    wrapM "lifecycle: soft-delete: put"
      (onS (kv_Put key (marshal_meta (meta_set_state StateSoftDeleted (m_now e) meta)))).
Definition SoftDeleteKey (keyID : string) (version : Z) : MW () := kv_WithTx (softdelete_tx keyID version).

(** The cache is invalidated inside the transaction, on the transition only. *)
Definition restore_tx (keyID : string) (version : Z) : MW () :=
  let key := metadataKey keyID version in
  d ← wrapM "lifecycle: restore: lock key" (onS (kv_Get key));
  meta ← wrapM "lifecycle: restore: unmarshal" (lift (unmarshal_meta d));
  if negb (bool_decide (km_State meta = StateSoftDeleted)) then
    if bool_decide (km_State meta = StateDestroyed) then throw ErrKeyDestroyed else mret tt
  else
    wrapM "lifecycle: restore: put"
      (onS (kv_Put key (marshal_meta (meta_set_state StateDeactivated 0 meta))));;
    notifyInTx keyID;;
    InvalidateCache keyID.
Definition RestoreKey (keyID : string) (version : Z) : MW () :=
  kv_WithTx (restore_tx keyID version);;
  notifyClusterIfNoTxNotifier keyID.

(** ** Reading *)
Definition GetKey (keyID : string) (version : Z) : MW KeyMetadata := loadMetadata keyID version.

Definition GetActiveKey (keyID : string) : MW KeyMetadata :=
  latestV ← wrapM "lifecycle: find active key" (onS (findLatestVersion keyID));
  meta ← loadMetadata keyID latestV;
  guardM (bool_decide (km_State meta = StateActive)) errNotActive;;
  mret meta.

Definition GetKeyForDecrypt (keyID : string) (version : Z) : MW KeyMetadata :=
  meta ← loadMetadata keyID version;
  if bool_decide (km_State meta = StateActive) || bool_decide (km_State meta = StateDeactivated)
     || bool_decide (km_State meta = StateSoftDeleted) then mret meta
  else if bool_decide (km_State meta = StateDestroyed) then throw ErrKeyDestroyed
  else throw errUnknownState.

Definition GenerateDataKey (keyID : string) (kek : option KEK) : MW (SecureBuffer * bytes) :=
  guardM (negb (bool_decide (keyID = ""))) errEmptyKeyID;;
  kek ← nilKEK kek;
  meta ← wrapM "lifecycle: gdk get active key" (GetActiveKey keyID);
  plainDEK ← wrapM "lifecycle: gdk generate random DEK" (onRand (NewSecureBufferFromRandom (dekSizeFromKEK kek)));
  storedDEK ← wrapM "lifecycle: gdk unwrap stored DEK" (lift (kek_UnwrapDEK kek (km_Material meta)));
  ciphertext ← wrapM "lifecycle: gdk encrypt temporary DEK"
    (onRand (WithKey plainDEK (λ dek, EncryptVersioned storedDEK (SafeUint32 (km_Version meta)) dek)));
  mret (plainDEK, ciphertext).

(** ** The reaper *)
(** [meta.State == SoftDeleted && !DeletedAt.IsZero() && !DeletedAt.After(cutoff)] *)
Definition reapable (cutoff : Z) (meta : KeyMetadata) : bool :=
  bool_decide (km_State meta = StateSoftDeleted) && negb (time_IsZero (km_DeletedAt meta))
  && negb (bool_decide (cutoff < km_DeletedAt meta)%Z).
(** The accumulator is the sequence of [onReaped] calls. *)
Definition reap_item (cutoff : Z) (reaped : list (string * Z)) (item : string * data) :
    MW (list (string * Z)) :=
  match unmarshal_meta item.2 with
  | Ok meta =>
      if reapable cutoff meta then
        r ← try_ (ShredKey (km_KeyID meta) (km_Version meta));
        match r with
        | inl _ => mret (reaped ++ [(km_KeyID meta, km_Version meta)])
        | inr _ => mret reaped
        end
      else mret reaped
  | _ => mret reaped
  end.
Definition reapExpiredSoftDeletes (ttl : Z) : MW (list (string * Z)) := fun w =>
  scan_pages (λ reaped _, mret reaped) (paged_fuel w) (reap_item (m_now w.2 - ttl)) 0 [] w.
Definition ReapNow (ttl : Z) : MW (list (string * Z)) := reapExpiredSoftDeletes ttl.

End Manager.

#[global] Hint Mode KVStore ! : typeclass_instances.

(** ** Frames: computations that leave a part of the world alone, however they end *)
Definition keeps {W T A} (π : W → T) (m : M W A) : Prop := ∀ w w' r, m w = (w', r) → π w' = π w.

Section Frames.
Context {W T : Type} (π : W → T).
Lemma keeps_bind {A B} (m : M W A) (f : A → M W B) :
  keeps π m → (∀ a, keeps π (f a)) → keeps π (m ≫= f).
Proof.
  intros Hm Hf w w' r (w1 & r1 & H1 & H)%M_bind_inv. apply Hm in H1.
  destruct r1; [apply Hf in H; congruence|by destruct H as [-> _]..].
Qed.
Lemma keeps_ret {A} (a : A) : keeps π (mret a).
Proof. by intros w w' r [= <- _]. Qed.
Lemma keeps_throw {A} e : keeps (A := A) π (throw e).
Proof. by intros w w' r [= <- _]. Qed.
Lemma keeps_lift {A} (x : result A) : keeps π (lift x).
Proof. by intros w w' r [= <- _]. Qed.
Lemma keeps_guardM b e : keeps π (guardM b e).
Proof. rw /guardM. by intros w w' r H; destruct b; injection H as <- _. Qed.
Lemma keeps_wrapM {A} ctx (m : M W A) : keeps π m → keeps π (wrapM ctx m).
Proof. intros Hm w w' r (r1 & H & _)%wrapM_inv. by eapply Hm. Qed.
Lemma keeps_try {A} (m : M W A) : keeps π m → keeps π (try_ m).
Proof. intros Hm w w' r (r1 & H & _)%try_inv. by eapply Hm. Qed.
Lemma keeps_gets {A} (f : W → A) : keeps π (gets f).
Proof. by intros w w' r [= <- _]. Qed.
End Frames.

(** The parts of a world: the stored map and the cache. *)
Definition wmap {S} `{!KVStore S} (w : S * Env) : gmap string data := kv_map w.1.
Definition wcache {S} (w : S * Env) : dekCache := m_cache w.2.

Section Parts.
Context {S : Type} `{!KVStore S, !KVStoreLaws S}.
Abbreviation World := (S * Env)%type.
Abbreviation MW := (M World).

Lemma keeps_map_modE f : keeps (wmap (S := S)) (modE f).
Proof. by intros [s e] w' r [= <- _]. Qed.
Lemma keeps_cache_modE f : (∀ e, m_cache (f e) = m_cache e) → keeps (wcache (S := S)) (modE f).
Proof. intros Hf [s e] w' r [= <- _]. apply Hf. Qed.
Lemma keeps_getE {T} (π : World → T) : keeps π getE.
Proof. apply keeps_gets. Qed.
Lemma keeps_map_onRand {A} (m : M entropy A) : keeps (wmap (S := S)) (onRand m).
Proof. intros [s e] w' r H. rw /onRand in H. destruct (m (m_rand e)). by injection H as <- _. Qed.
Lemma keeps_cache_onRand {A} (m : M entropy A) : keeps (wcache (S := S)) (onRand m).
Proof. intros [s e] w' r H. rw /onRand in H. destruct (m (m_rand e)). by injection H as <- _. Qed.
Lemma keeps_map_onS {A} (m : M S A) : keeps kv_map m → keeps (wmap (S := S)) (onS m).
Proof.
  intros Hm [s e] w' r H. rw /onS in H. destruct (m s) as [s' x] eqn:E. injection H as <- _.
  by eapply Hm.
Qed.
Lemma keeps_cache_onS {A} (m : M S A) : keeps (wcache (S := S)) (onS m).
Proof. intros [s e] w' r H. rw /onS in H. destruct (m s). by injection H as <- _. Qed.
Lemma keeps_Get k : keeps (kv_map (S := S)) (kv_Get k).
Proof. intros s s' r H. by eapply kv_get_map. Qed.
Lemma keeps_Paged p o l : keeps (kv_map (S := S)) (kv_ScanPrefixPaged p o l).
Proof. intros s s' r H. by eapply kv_paged_map. Qed.
End Parts.

Create HintDb keeps.
#[export] Hint Resolve keeps_ret keeps_throw keeps_lift keeps_getE keeps_map_modE keeps_guardM
  keeps_map_onRand keeps_cache_onRand keeps_cache_onS keeps_Get keeps_Paged : keeps.
#[export] Hint Resolve keeps_wrapM keeps_try keeps_map_onS : keeps.
#[export] Hint Extern 1 (keeps wcache (modE _)) => apply keeps_cache_modE; reflexivity : keeps.
Ltac solve_keeps :=
  intros; cbn zeta;
  repeat first
    [ solve [eauto with keeps]
    | apply keeps_bind; [|intros ?; cbn zeta]
    | apply keeps_wrapM | apply keeps_try | apply keeps_map_onS
    | case_match ].

Section Reads.
Context {S : Type} `{!KVStore S, !KVStoreLaws S}.
Abbreviation World := (S * Env)%type.

Lemma keeps_scan fuel id v : keeps kv_map (scan_versions (S := S) fuel id v).
Proof.
  revert v. induction fuel as [|fuel IH]; intros v; simpl; [by intros s s' r [= <- _]|].
  solve_keeps.
Qed.
Lemma keeps_getLatest id : keeps kv_map (getLatestVersion (S := S) id).
Proof.
  assert (keeps kv_map (findLatestVersionScan (S := S) id)) by (intros s s' r; apply keeps_scan).
  rw /getLatestVersion. solve_keeps.
Qed.
Lemma keeps_load id v : keeps (wmap (S := S)) (loadMetadata id v).
Proof. rw /loadMetadata. solve_keeps. Qed.
Lemma keeps_nilKEK {T} (π : World → T) kek : keeps π (nilKEK kek).
Proof. rw /nilKEK. solve_keeps. Qed.
Lemma keeps_map_notifyInTx id : keeps (wmap (S := S)) (notifyInTx id).
Proof. rw /notifyInTx. solve_keeps. Qed.
Lemma keeps_cache_notifyInTx id : keeps (wcache (S := S)) (notifyInTx id).
Proof. rw /notifyInTx. solve_keeps. Qed.
Lemma keeps_map_notifyCluster id : keeps (wmap (S := S)) (notifyClusterIfNoTxNotifier id).
Proof. rw /notifyClusterIfNoTxNotifier. solve_keeps. Qed.
Lemma keeps_cache_notifyCluster id : keeps (wcache (S := S)) (notifyClusterIfNoTxNotifier id).
Proof. rw /notifyClusterIfNoTxNotifier. solve_keeps. Qed.
Lemma keeps_Invalidate id : keeps (wmap (S := S)) (InvalidateCache id).
Proof. apply keeps_map_modE. Qed.
End Reads.
#[export] Hint Resolve keeps_scan keeps_getLatest keeps_load keeps_nilKEK keeps_map_notifyInTx
  keeps_cache_notifyInTx keeps_map_notifyCluster keeps_cache_notifyCluster keeps_Invalidate : keeps.
