(* ===== verification/PgOpen.v ===== *)
(** Opening the PostgreSQL store, [src/internal/storage/pg_kvstore.go]: the pool's settings, the
    creation of the database, and the migration of the table. The driver's reading of a
    connection string is an argument; the server is a set of databases whose statements take
    effect or fail ([ps_faults] says which of the coming calls fail), as in [Postgres.v]. *)

From stdpp Require Import fin_maps pretty.
From S2P Require Import Prelude SecureBuffer Store Postgres Manager.

(** ** Settings *)
Record PostgresPoolConfig : Type := mkPool {
  pc_DSN : string; pc_MaxConns : Z; pc_MinConns : Z; pc_MaxConnLifetime : Z; pc_MaxConnIdleTime : Z; pc_HealthCheckPeriod : Z
}.
(** What the driver reads from a connection string. *)
Record conn_config : Type := mkConn { cf_User : string; cf_Password : string; cf_Host : string; cf_Port : Z; cf_Database : string }.
(** A positive setting replaces the driver's. *)
Definition override (own theirs : Z) : Z := if bool_decide (0 < own)%Z then own else theirs.
Definition pool_settings (cfg dflt : PostgresPoolConfig) : PostgresPoolConfig :=
  mkPool (pc_DSN dflt) (override (pc_MaxConns cfg) (pc_MaxConns dflt)) (override (pc_MinConns cfg) (pc_MinConns dflt))
    (override (pc_MaxConnLifetime cfg) (pc_MaxConnLifetime dflt)) (override (pc_MaxConnIdleTime cfg) (pc_MaxConnIdleTime dflt))
    (override (pc_HealthCheckPeriod cfg) (pc_HealthCheckPeriod dflt)).

(** ** The server *)
(** The table [yvonne_kv_str]: its rows, whether it has the column [updated_at], and its indexes. *)
Record kv_table : Type := mkTable { tb_rows : gmap string data; tb_updated_at : bool; tb_indexes : bool }.
Record server : Type := mkServer {
  ps_databases : gmap string (option kv_table);
  ps_pools : nat;               (* pools that are open *)
  ps_faults : list bool;
}.
Definition fresh_table : kv_table := mkTable ∅ true false.
Definition set_databases (d : gmap string (option kv_table)) (s : server) : server := mkServer d (ps_pools s) (ps_faults s).
Definition set_pools (n : nat) (s : server) : server := mkServer (ps_databases s) n (ps_faults s).
(** One call: fails, or goes through. *)
Definition attempt (ctx : string) : M server () := fun s =>
  match ps_faults s with
  | true :: fs => (mkServer (ps_databases s) (ps_pools s) fs, Error (Err_wrap ctx (Err_new "pgx")))
  | _ :: fs => (mkServer (ps_databases s) (ps_pools s) fs, Ok tt)
  | [] => (s, Ok tt)
  end.
Definition in_database (db : string) (f : option kv_table → option kv_table) : M server () := modify (λ s, set_databases (alter f db (ps_databases s)) s).

Section Open.
(** [pgx.ParseConfig] with the pool settings it implies; the statement that creates a database,
    for names the server reads differently. *)
Variable parse : string → result (conn_config * PostgresPoolConfig).
Variable create_oddly : string → M server ().

Definition quote : string := String.String (Ascii.ascii_of_nat 34) "".
Definition create_statement (name : string) : string := "CREATE DATABASE " +:+ quote +:+ name +:+ quote.
(** A name without a quotation mark is the identifier between them. *)
Definition plain_name (name : string) : bool := forallb (λ b, negb (Byte.eqb b x22)) (String.list_byte_of_string name).
Definition create_database (name : string) : M server () :=
  if plain_name name then modify (λ s, set_databases (<[name := None]> (ps_databases s)) s) else create_oddly (create_statement name).

(** The server's default for an empty name is the user's. *)
Definition target (p : conn_config) : string := if bool_decide (cf_Database p = "") then cf_User p else cf_Database p.
Definition redactDSN (dsn : string) : string := dsn.
Definition rewriteDSNDatabase (dsn newName : string) : string := dsn.
Definition admin_dsn (p : conn_config) : string :=
  if bool_decide (cf_Password p = "") then "postgresql://" +:+ cf_User p +:+ "@" +:+ cf_Host p +:+ ":" +:+ pretty (cf_Port p) +:+ "/postgres"
  else "postgresql://" +:+ cf_User p +:+ ":" +:+ cf_Password p +:+ "@" +:+ cf_Host p +:+ ":" +:+ pretty (cf_Port p) +:+ "/postgres".
Definition ensureDatabaseExists (dsn : string) : M server () :=
  '(p, _) ← lift (match parse dsn with Error e => Error (Err_wrap "parse dsn" e) | r => r end);
  let name := cf_Database p in
  if bool_decide (name = "") || bool_decide (name = "postgres") then mret tt
  else
    attempt ("connect to postgres for db creation (admin dsn=" +:+ redactDSN (admin_dsn p) +:+ ")");;
    attempt "check database existence";;
    s ← get_st;
    if bool_decide (is_Some (ps_databases s !! name)) then mret tt
    else attempt ("create database " +:+ name);; create_database name.

(** The table, the column that older tables lack, and the indexes over it. *)
Definition migrate (db : string) : M server () :=
  attempt "postgres: ensure table";;
  in_database db (λ t, Some (default fresh_table t));;
  attempt "postgres: ensure updated_at column";;
  in_database db (fmap (λ t, mkTable (tb_rows t) true (tb_indexes t)));;
  attempt "postgres: ensure indexes";;
  in_database db (fmap (λ t, mkTable (tb_rows t) (tb_updated_at t) true)).
(** A failing step closes the pool. *)
Definition or_close {A} (m : M server A) : M server A := fun s =>
  match m s with (s, Error e) => (set_pools (pred (ps_pools s)) s, Error e) | x => x end.
Definition NewPostgresKVStoreWithConfig (cfg : PostgresPoolConfig) : M server (PostgresPoolConfig * Pg) :=
  guardM (negb (bool_decide (pc_DSN cfg = ""))) (Err_new "postgres: dsn required");;
  wrapM "postgres: ensure database" (ensureDatabaseExists (pc_DSN cfg));;
  '(p, dflt) ← lift (match parse (pc_DSN cfg) with Error e => Error (Err_wrap "postgres: parse config" e) | r => r end);
  let db := target p in
  attempt "postgres: create pool";;
  modify (λ s, set_pools (S (ps_pools s)) s);;
  or_close (migrate db);;
  s ← get_st;
  mret (pool_settings cfg dflt, mkPg (from_option tb_rows ∅ (ps_databases s !! db ≫= id)) true [] None).
Definition NewPostgresKVStore (dsn : string) : M server (PostgresPoolConfig * Pg) := NewPostgresKVStoreWithConfig (mkPool dsn 0 0 0 0 0).
Definition CloseStore : M server () := modify (λ s, set_pools (pred (ps_pools s)) s).

(** ** Opening migrates, keeps the rows, and does not leak pools *)
Definition rows_of (s : server) (db : string) : gmap string data := from_option tb_rows ∅ (ps_databases s !! db ≫= id).
Abbreviation rows_kept m := (∀ db, keeps (λ s, rows_of s db) m).
Lemma kept_attempt ctx : rows_kept (attempt ctx).
Proof. intros db s s' r. rw /attempt. destruct (ps_faults s) as [|[] fs]; by intros [= <- _]. Qed.
Lemma kept_in_database db f : (∀ t, from_option tb_rows ∅ (f t) = from_option tb_rows ∅ t) → rows_kept (in_database db f).
Proof.
  intros Hf db' s s' r [= <- _]. rw /rows_of /=. destruct (decide (db' = db)) as [->|Hne]; [|by rw lookup_alter_ne].
  rw lookup_alter_eq. destruct (ps_databases s !! db) as [t|]; [|done]. apply Hf.
Qed.
Lemma kept_or_close {A} (m : M server A) : rows_kept m → rows_kept (or_close m).
Proof. intros Hm db s s' r. rw /or_close. destruct (m s) as [s1 x] eqn:E. specialize (Hm db _ _ _ E). destruct x; by intros [= <- _]. Qed.
Lemma attempt_inv ctx s s' r : attempt ctx s = (s', r) → ps_databases s' = ps_databases s ∧ ps_pools s' = ps_pools s ∧ (r = Ok tt ∨ ∃ e, r = Error e).
Proof. rw /attempt. destruct (ps_faults s) as [|[] fs]; intros [= <- <-]; eauto. Qed.
Lemma migrate_kept db : rows_kept (migrate db).
Proof.
  intros db'. rw /migrate.
  repeat first [apply keeps_bind; [|intros ?] | apply kept_attempt | apply kept_in_database; by intros [t|]].
Qed.
Lemma attempt_bind {A} ctx (f : () → M server A) s s' r : (attempt ctx ≫= f) s = (s', r) →
  (ps_databases s' = ps_databases s ∧ ps_pools s' = ps_pools s ∧ ∃ e, r = Error e) ∨
  ∃ s1, ps_databases s1 = ps_databases s ∧ ps_pools s1 = ps_pools s ∧ f tt s1 = (s', r).
Proof.
  intros (s1 & x & (Hd & Hp & [->|[e ->]])%attempt_inv & H)%M_bind_inv; [right; by exists s1|]. destruct H as [-> ->]. left. eauto.
Qed.
(** The database of a connection exists afterwards, and no table is touched. *)
Lemma ensure_spec dsn p dflt s s' r : parse dsn = Ok (p, dflt) → plain_name (cf_Database p) = true → ensureDatabaseExists dsn s = (s', r) →
  ps_pools s' = ps_pools s ∧ (∀ db, rows_of s' db = rows_of s db) ∧ (∀ db, is_Some (ps_databases s !! db) → is_Some (ps_databases s' !! db)) ∧
  ((∃ e, r = Error e) ∨ r = Ok tt ∧ (cf_Database p = "" ∨ cf_Database p = "postgres" ∨ is_Some (ps_databases s' !! cf_Database p))).
Proof.
  intros Hp Hn. rw /ensureDatabaseExists Hp. cbn [lift mbind M_bind]. rw /mbind /M_bind. cbv beta iota zeta delta [lift].
  destruct (bool_decide (cf_Database p = "") || bool_decide (cf_Database p = "postgres")) eqn:E0.
  { intros [= <- <-]. split_and!; [done..|]. right. split; [done|]. apply orb_true_iff in E0 as [?%bool_decide_eq_true|?%bool_decide_eq_true]; auto. }
  intros H. apply attempt_bind in H as [(Hd & Hpo & e & ->)|(s1 & D1 & P1 & H)]; [rw /rows_of Hd; split_and!; eauto|].
  apply attempt_bind in H as [(Hd & Hpo & e & ->)|(s2 & D2 & P2 & H)]; [rw /rows_of Hd D1; split_and!; [congruence|done|done|eauto]|].
  apply M_bind_inv in H as (s3 & x & [= <- <-] & H). case_bool_decide as Hex.
  { injection H as <- <-. rw /rows_of D2 D1. split_and!; [congruence|done|done|]. right. rw -D1 -D2. auto. }
  apply attempt_bind in H as [(Hd & Hpo & e & ->)|(s3 & D3 & P3 & H)]; [rw /rows_of Hd D2 D1; split_and!; [congruence|done|done|eauto]|].
  assert (ps_databases s3 !! cf_Database p = None) as Hnone by (rw D3; by apply eq_None_not_Some).
  rw /create_database Hn in H. injection H as <- <-. cbn. rw D3 D2 D1. split_and!; [congruence| | |].
  - intros db. rw /rows_of /=. destruct (decide (db = cf_Database p)) as [->|Hne]; [|by rw lookup_insert_ne].
    rw lookup_insert_eq. rw -D1 -D2 -D3 Hnone. done.
  - intros db Hs. apply lookup_insert_is_Some. destruct (decide (cf_Database p = db)); auto.
  - right. split; [done|]. rw lookup_insert_eq. eauto.
Qed.
Lemma migrate_spec db s s' r : is_Some (ps_databases s !! db) → migrate db s = (s', r) → ps_pools s' = ps_pools s ∧
  ((∃ e, r = Error e) ∨ r = Ok tt ∧ ∃ t, ps_databases s' !! db = Some (Some t) ∧ tb_updated_at t = true ∧ tb_indexes t = true).
Proof.
  intros [t0 Ht] H. rw /migrate in H.
  apply attempt_bind in H as [(_ & Hp & e & ->)|(s1 & D1 & P1 & H)]; [eauto|]. apply M_bind_inv in H as (s2 & x & [= <- <-] & H).
  apply attempt_bind in H as [(_ & Hp & e & ->)|(s3 & D3 & P3 & H)]; [cbn in Hp; split; [congruence|eauto]|].
  apply M_bind_inv in H as (s4 & x & [= <- <-] & H).
  apply attempt_bind in H as [(_ & Hp & e & ->)|(s5 & D5 & P5 & H)]; [cbn in Hp, P3; split; [congruence|eauto]|].
  injection H as <- <-. cbn in *. split; [congruence|]. right. split; [done|]. eexists. rw lookup_alter_eq D5 /= lookup_alter_eq D3 /= lookup_alter_eq D1 Ht. done.
Qed.

(** Opening a store finds or makes its database and brings its table up to date, with the rows it
    had; the store that is returned serves those rows, through one more pool with the settings
    asked for. When anything fails, no pool stays behind, and no row is lost either. *)
Theorem open_migrates cfg p dflt s s' r : parse (pc_DSN cfg) = Ok (p, dflt) → plain_name (cf_Database p) = true →
  (cf_Database p = "" ∨ cf_Database p = "postgres" → is_Some (ps_databases s !! target p)) →
  NewPostgresKVStoreWithConfig cfg s = (s', r) →
  (∀ db, rows_of s' db = rows_of s db) ∧
  match r with
  | Ok (settings, pg) => settings = pool_settings cfg dflt ∧ pg_table pg = rows_of s (target p) ∧ ps_pools s' = S (ps_pools s) ∧
      ∃ t, ps_databases s' !! target p = Some (Some t) ∧ tb_updated_at t = true ∧ tb_indexes t = true
  | Error _ => ps_pools s' = ps_pools s
  | Panic _ => False
  end.
Proof.
  intros Hp Hn Hdef H. rw /NewPostgresKVStoreWithConfig in H. apply M_bind_inv in H as (s0 & x & H0 & H).
  rw /guardM in H0. destruct (negb _); injection H0 as <- <-; [|by destruct H as [-> ->]].
  apply M_bind_inv in H as (s1 & y & H1 & H). apply wrapM_inv in H1 as (y1 & H1 & Ey).
  destruct (ensure_spec _ _ _ _ _ _ Hp Hn H1) as (P1 & R1 & K1 & [[e ->]|[-> Hd]]); subst y; [by destruct H as [-> ->]|].
  apply M_bind_inv in H as (s2 & z & H2 & H). rw Hp in H2. injection H2 as <- <-. cbv zeta in H.
  apply attempt_bind in H as [(D & P & e & ->)|(s3 & D3 & P3 & H)]; [rw /rows_of D; split; [exact R1|congruence]|].
  apply M_bind_inv in H as (s4 & x4 & [= <- <-] & H). apply M_bind_inv in H as (s5 & x5 & H5 & H).
  rw /or_close in H5. destruct (migrate (target p) (set_pools (S (ps_pools s3)) s3)) as [s6 x6] eqn:E6.
  assert (∀ db, rows_of s6 db = rows_of s db) as R6.
  { intros db. rw (migrate_kept _ db _ _ _ E6). rw -R1. rw /rows_of /= D3. done. }
  assert (is_Some (ps_databases s1 !! target p)) as Hs.
  { rw /target. destruct (decide (cf_Database p = "")) as [E|E]; [|].
    - rw bool_decide_eq_true_2 //. specialize (Hdef (or_introl E)). rw /target bool_decide_eq_true_2 // in Hdef. by apply K1.
    - rw bool_decide_eq_false_2 //. destruct Hd as [?|[Hd|?]]; [done| |done]. specialize (Hdef (or_intror Hd)). rw /target bool_decide_eq_false_2 // in Hdef. by apply K1. }
  destruct (migrate_spec (target p) _ _ _ (eq_ind_r (λ d, is_Some (d !! target p)) Hs D3 : is_Some (ps_databases (set_pools _ s3) !! _)) E6) as (P6 & [[e ->]|[-> (t & Ht & Hu & Hi)]]).
  - injection H5 as <- <-. destruct H as [-> ->]. split; [exact R6|]. cbn in *. rw P6 /=. congruence.
  - injection H5 as <- <-. apply M_bind_inv in H as (s7 & x7 & [= <- <-] & H). injection H as <- <-. split; [exact R6|]. cbn in P6.
    split_and!; [done|exact (R6 (target p))|congruence|by exists t].
Qed.
End Open.

(** ** Witness, and what a failure prints *)
Definition demo_parse (dsn : string) : result (conn_config * PostgresPoolConfig) :=
  Ok (mkConn "kms" "s3cret" "db" 5432 "yvonne", mkPool dsn 4 0 3600 1800 60).
(** An old table, without the column and the indexes. *)
Definition demo_server (faults : list bool) : server :=
  mkServer {["postgres" := None; "yvonne" := Some (mkTable {["k" := Raw [x01]]} false false)]} 0 faults.
Abbreviation demo_open := (NewPostgresKVStoreWithConfig demo_parse (λ _, mret tt) (mkPool "postgres://" 20 2 0 0 0)).
Lemma open_migrates_witness : ∃ s' settings pg, demo_open (demo_server []) = (s', Ok (settings, pg)) ∧
  pg_table pg = {["k" := Raw [x01]]} ∧ pc_MaxConns settings = 20%Z ∧ ps_pools s' = 1 ∧
  ∃ t, ps_databases s' !! "yvonne" = Some (Some t) ∧ tb_updated_at t = true ∧ tb_indexes t = true.
Proof.
  destruct (demo_open (demo_server [])) as [s' r] eqn:E.
  destruct (open_migrates demo_parse (λ _, mret tt) (mkPool "postgres://" 20 2 0 0 0) (mkConn "kms" "s3cret" "db" 5432 "yvonne") (mkPool "postgres://" 4 0 3600 1800 60)
    (demo_server []) s' r) as [_ H]; [reflexivity|reflexivity|intros [?|?]; discriminate|exact E|].
  assert (∃ x, r = Ok x) as [[settings pg] ->] by (change r with (s', r).2; rw -E; eexists; vm_compute; reflexivity).
  destruct H as (-> & Ht & Hp & t & Hdb & Hu & Hi). exists s', (pool_settings (mkPool "postgres://" 20 2 0 0 0) (mkPool "postgres://" 4 0 3600 1800 60)), pg.
  split_and!; [reflexivity|rw Ht; vm_compute; reflexivity|reflexivity|exact Hp|exists t; split_and!; assumption].
Defined.
(** A failed connection reports the password. *)
Example failure_prints_password : (demo_open (demo_server [true])).2 =
  Error (Err_wrap "postgres: ensure database" (Err_wrap "connect to postgres for db creation (admin dsn=postgresql://kms:s3cret@db:5432/postgres)" (Err_new "pgx"))).
Proof. vm_compute. reflexivity. Qed.
