(* ===== verification/Transit.v ===== *)
(** Bring-your-own-key: the transport keys of [src/internal/lifecycle/transit.go]
    and the import of external key material. The private keys live in a heap of
    secure buffers that the entries of the key table point to, so that what is left
    of a key after its use is part of the state. *)

From S2P Require Import Prelude SecureBuffer Ciphertext Kek Store Metadata Oaep Manager.

(** The parts of [crypto/rsa] and [crypto/x509] around OAEP: key generation and the
    PKCS#8 and PKIX/PEM forms. [x509_ParsePKCS8] gives [None] for a key of another
    kind. *)
Class RSALib : Type := {
  rsa_GenerateKey : Z → M entropy RSAKey;
  x509_MarshalPKCS8 : RSAKey → result bytes;
  x509_ParsePKCS8 : bytes → result (option RSAKey);
  x509_MarshalPKIX : Z * Z → result bytes;
  pem_Encode : bytes → bytes;
  pem_ParsePKIX : bytes → result (Z * Z);
}.
(** Their documented behaviour: generated keys are valid and have the requested
    size, parsing inverts serialisation, and serialisation does not panic. *)
Class RSALaws `{!RSALib} : Prop := {
  rsa_generate_valid bits e e' k : rsa_GenerateKey bits e = (e', Ok k) →
    rsa_valid k ∧ (2 ^ (bits - 1) ≤ rsa_N k < 2 ^ bits)%Z;
  x509_pkcs8_roundtrip k der : x509_MarshalPKCS8 k = Ok der → x509_ParsePKCS8 der = Ok (Some k);
  x509_pkix_roundtrip pub der : x509_MarshalPKIX pub = Ok der → pem_ParsePKIX (pem_Encode der) = Ok pub;
  x509_pkix_returns pub m : x509_MarshalPKIX pub ≠ Panic m;
}.

(** ** The key table *)
Definition TransitKeyTTL : Z := 600000000000.
Record transitEntry : Type := mkTransit {
  te_privateKey : nat;      (* address of the [SecureBuffer] with the PKCS#8 form *)
  te_publicKey : bytes;
  te_expiresAt : Z;
}.
Record TransitKeyManager : Type := mkTM {
  tm_keys : gmap string transitEntry;
  tm_heap : list SecureBuffer;      (* every buffer ever allocated for a private key *)
}.
Definition NewTransitKeyManager : TransitKeyManager := mkTM ∅ [].
Record TransitPublicKey : Type := mkTPub { tp_KeyID : string; tp_PublicKey : bytes; tp_ExpiresAt : Z }.

Definition errTransitNotFound : error := Err_new "transit: key not found (expired or already used)".
Definition errTransitExpired : error := Err_new "transit: key expired".
Definition errNotRSA : error := Err_new "transit: not an RSA private key".

(** [fmt.Sprintf("transit-%d", time.Now().UnixNano())] *)
Definition transit_id (t : Z) : string := "transit-" +:+ pretty (time_UnixNano t).
(** [entry.privateKey.Wipe(); delete(t.keys, keyID)] *)
Definition burn (keyID : string) (entry : transitEntry) (t : TransitKeyManager) : TransitKeyManager :=
  mkTM (delete keyID (tm_keys t)) (alter Wipe (te_privateKey entry) (tm_heap t)).

Section Transit.
Context {rlib : RSALib}.

(** The clock is read twice: for the id and for the expiry. *)
Definition GenerateTransitKey (t1 t2 : Z) : M (TransitKeyManager * entropy) TransitPublicKey := fun '(t, e) =>
  match rsa_GenerateKey 4096 e with
  | (e, Ok privKey) =>
      match x509_MarshalPKCS8 privKey with
      | Ok derBytes =>
          let heap := tm_heap t ++ [(NewSecureBuffer derBytes).1] in
          match x509_MarshalPKIX (rsa_public privKey) with
          | Ok pubDER =>
              let pubPEM := pem_Encode pubDER in
              let keyID := transit_id t1 in
              let expiresAt := (t2 + TransitKeyTTL)%Z in
              let entry := mkTransit (length (tm_heap t)) pubPEM expiresAt in
              ((mkTM (<[keyID := entry]> (tm_keys t)) heap, e), Ok (mkTPub keyID pubPEM expiresAt))
          | Error err => ((mkTM (tm_keys t) (alter Wipe (length (tm_heap t)) heap), e), Error (Err_wrap "transit: marshal public key" err))
          | Panic m => ((mkTM (tm_keys t) heap, e), Panic m)
          end
      | Error err => ((t, e), Error (Err_wrap "transit: marshal private key" err))
      | Panic m => ((t, e), Panic m)
      end
  | (e, Error err) => ((t, e), Error (Err_wrap "transit: generate RSA-4096" err))
  | (e, Panic m) => ((t, e), Panic m)
  end.

(** The closure run on the private key. *)
Definition transit_decrypt (wrappedMaterial der : bytes) : result bytes :=
  privKey ← wrap_err "transit: parse private key" (x509_ParsePKCS8 der);
  match privKey with
  | Some rsaPriv => DecryptOAEP [] rsaPriv wrappedMaterial
  | None => Error errNotRSA
  end.

Definition UnwrapWithTransitKey (now : Z) (keyID : string) (wrappedMaterial : bytes) : M TransitKeyManager bytes := fun t =>
  match tm_keys t !! keyID with
  | None => (t, Error errTransitNotFound)
  | Some entry =>
      if bool_decide (te_expiresAt entry < now)%Z then (burn keyID entry t, Error errTransitExpired)
      else
        match tm_heap t !! te_privateKey entry with
        | None => (t, Panic "nil private key")
        | Some sb =>
            match WithKeyR sb (transit_decrypt wrappedMaterial) with
            | Ok plaintext => (burn keyID entry t, Ok plaintext)
            | Error err => (t, Error (Err_wrap "transit: RSA decrypt" err))
            | Panic m => (t, Panic m)
            end
        end
  end.

(** The loop over the table; the order of the entries does not matter. *)
Definition TransitCleanupExpired (now : Z) (t : TransitKeyManager) : TransitKeyManager :=
  foldr (λ '(keyID, entry) t, if bool_decide (te_expiresAt entry < now)%Z then burn keyID entry t else t)
    t (map_to_list (tm_keys t)).

(** ** Import *)
Section Import.
Context {S : Type} `{!KVStore S}.
Abbreviation World := (S * Env)%type.
Abbreviation MW := (M World).

(** From the plaintext key on: wrap it and file it as version 1. *)
Definition import_dek (targetKeyID : string) (kek : KEK) (plaintextDEK : bytes) : MW KeyMetadata :=
  let dekSB := (NewSecureBuffer plaintextDEK).1 in
  encryptedDEK ← wrapM "lifecycle: import encrypt DEK" (onRand (kek_WrapDEK kek dekSB));
  e ← getE;
  let meta := mkMeta targetKeyID 1 StateActive KeyTypeAES "" [] encryptedDEK
    (KEKType_string (kek_Type kek)) [] (m_now e) 0 0 0 in
  wrapM "lifecycle: import save metadata" (saveMetadata meta);;
  mret meta.

Definition onT {X A} (m : M TransitKeyManager A) : M (X * TransitKeyManager) A := fun '(x, t) =>
  let '(t', r) := m t in ((x, t'), r).

Definition errEmptyTarget : error := Err_new "lifecycle: empty target key id".
Definition ImportKey (targetKeyID transitKeyID : string) (wrappedMaterial : bytes) (kek : option KEK) :
    M (World * TransitKeyManager) KeyMetadata :=
  guardM (negb (bool_decide (targetKeyID = ""))) errEmptyTarget;;
  kek ← onS (nilKEK kek);
  e ← onS getE;
  plaintextDEK ← wrapM "lifecycle: import unwrap" (onT (UnwrapWithTransitKey (m_now e) transitKeyID wrappedMaterial));
  onS (import_dek targetKeyID kek plaintextDEK).
End Import.
End Transit.
