(* ===== verification/Lifecycle.v ===== *)
(** The key state machine: what the operations of [Manager.v] do to the stored
    records, as a step relation on the stored map, its invariants, and the
    functional behaviour of rotation, shredding and the recycle bin. *)

From S2P Require Import Prelude SecureBuffer Ciphertext Kek Store Metadata Manager Transit.

(** The record of version [v] of key [id]. *)
Definition stored (f : gmap string data) (id : string) (v : Z) (m : KeyMetadata) : Prop :=
  ∃ d, f !! metadataKey id v = Some d ∧ unmarshal_meta d = Ok m.
Definition put_meta (m : KeyMetadata) (f : gmap string data) : gmap string data :=
  <[metadataKey (km_KeyID m) (km_Version m) := marshal_meta m]> f.
(** No version of the key is stored. *)
Definition fresh_id (f : gmap string data) (id : string) : Prop := ∀ v, f !! metadataKey id v = None.

(** One write of the lifecycle layer; [P] bounds the versions it may destroy. *)
Inductive lc_step (P : string → Z → Prop) (f : gmap string data) : gmap string data → Prop :=
  | lc_create m : fresh_id f (km_KeyID m) → km_Version m = 1%Z → km_State m = StateActive →
      lc_step P f (put_meta m f)
  | lc_index id v : (1 ≤ v)%Z → lc_step P f (<[latestVersionMetadataKey id := marshal_int v]> f)
  | lc_rotate id v m mnew : stored f id v m → (1 ≤ v)%Z → km_State m = StateActive →
      km_KeyID mnew = id → km_Version mnew = (v + 1)%Z → km_State mnew = StateActive →
      lc_step P f (put_meta mnew
        (<[metadataKey id v := marshal_meta (meta_set_state StateDeactivated (km_DeletedAt m) m)]> f))
  | lc_deactivate id v m : stored f id v m → km_State m = StateActive →
      lc_step P f (<[metadataKey id v := marshal_meta (meta_set_state StateDeactivated (km_DeletedAt m) m)]> f)
  | lc_softdelete id v m t : stored f id v m →
      km_State m ≠ StateSoftDeleted → km_State m ≠ StateDestroyed →
      lc_step P f (<[metadataKey id v := marshal_meta (meta_set_state StateSoftDeleted t m)]> f)
  | lc_restore id v m : stored f id v m → km_State m = StateSoftDeleted →
      lc_step P f (<[metadataKey id v := marshal_meta (meta_set_state StateDeactivated 0 m)]> f)
  | lc_destroy id v m : P id v → stored f id v m →
      lc_step P f (<[metadataKey id v := marshal_meta (meta_destroy m)]> f)
  | lc_delete id v : P id v → lc_step P f (delete (metadataKey id v) f).
Abbreviation lc_steps P := (rtc (lc_step P)).

(** ** Every operation is a sequence of such writes, however it ends *)
Section Ops.
Context {S : Type} `{!KVStore S, !KVStoreLaws S}.
Abbreviation World := (S * Env)%type.
Abbreviation MW := (M World).

Definition effect {A} P (m : MW A) : Prop := ∀ w w' r, m w = (w', r) → lc_steps P (wmap w) (wmap w').

Lemma keeps_effect {A} P (m : MW A) : keeps wmap m → effect P m.
Proof. intros Hm w w' r H. by rw (Hm _ _ _ H). Qed.
Lemma effect_bind {A B} P (m : MW A) (f : A → MW B) :
  effect P m → (∀ a, effect P (f a)) → effect P (m ≫= f).
Proof.
  intros Hm Hf w w' r (w1 & r1 & H1 & H)%M_bind_inv. apply Hm in H1.
  destruct r1; [apply Hf in H; by etrans|by destruct H as [-> _]..].
Qed.
Lemma effect_try {A} P (m : MW A) : effect P m → effect P (try_ m).
Proof. intros Hm w w' r (r1 & H & _)%try_inv. by eapply Hm. Qed.
Lemma effect_wrapM {A} P ctx (m : MW A) : effect P m → effect P (wrapM ctx m).
Proof. intros Hm w w' r (r1 & H & _)%wrapM_inv. by eapply Hm. Qed.
Lemma effect_tx {A} P (fn : MW A) : effect P fn → effect P (kv_WithTx fn).
Proof.
  intros Hf [s e] [s' e'] r H. simpl. destruct (is_ok r) eqn:Hr.
  - destruct r as [a| |]; [|done..].
    apply kv_tx_ok in H as (s0 & s1 & E0 & H & E1). apply Hf in H. rw /wmap /= in H |- *. by rw E1 -E0.
  - apply kv_tx_err in H as [[E _] | [(_ & s0 & s1 & E0 & H & E1)|(s0 & s1 & a & E0 & H & E1)]]; [by rw /wmap /= E| | |done];
      apply Hf in H; rw /wmap /= in H |- *; by rw E1 -E0.
Qed.

(** What a put does to the map, in every case. *)
Lemma put_inv k v (w w' : World) r : data_empty v = false →
  onS (kv_Put k v) w = (w', r) →
  wmap w' = <[k := v]> (wmap w) ∨ (is_ok r = false ∧ wmap w' = wmap w).
Proof.
  intros Hv H. destruct w as [s e]. rw /onS in H. destruct (kv_Put k v s) as [s' x] eqn:E.
  injection H as <- <-. simpl. destruct (is_ok x) eqn:Hx.
  - left. destruct x; [|done..]. by eapply kv_put_ok.
  - eapply kv_put_err in E as [?|?]; [by right|by left|done..].
Qed.
Lemma get_inv k (w w' : World) d : onS (kv_Get k) w = (w', Ok d) →
  wmap w !! k = Some d ∧ wmap w' = wmap w.
Proof.
  intros H. destruct w as [s e]. rw /onS in H. destruct (kv_Get k s) as [s' x] eqn:E.
  injection H as <- ->. simpl. split; [by eapply kv_get_ok|by eapply kv_get_map].
Qed.
Lemma delete_inv k (w w' : World) r : onS (kv_Delete k) w = (w', r) →
  wmap w' = delete k (wmap w) ∨ (is_ok r = false ∧ wmap w' = wmap w).
Proof.
  intros H. destruct w as [s e]. rw /onS in H. destruct (kv_Delete k s) as [s' x] eqn:E.
  injection H as <- <-. simpl. destruct (is_ok x) eqn:Hx.
  - left. destruct x; [|done..]. by eapply kv_delete_ok.
  - eapply kv_delete_err in E as [?|?]; [by right|by left|done].
Qed.

(** A read of a record inside a transaction: the two steps every operation starts with. *)
Lemma read_meta_bind {B} c1 c2 id v (f : KeyMetadata → MW B) w w' r :
  (d ← wrapM c1 (onS (kv_Get (metadataKey id v)));
   meta ← wrapM c2 (lift (unmarshal_meta d)); f meta) w = (w', r) →
  (is_ok r = false ∧ wmap w' = wmap w) ∨
  ∃ w1 m, stored (wmap w) id v m ∧ wmap w1 = wmap w ∧ f m w1 = (w', r) ∧ w1.2 = w.2.
Proof.
  intros (w1 & r1 & H1 & H)%M_bind_inv.
  assert (wmap w1 = wmap w) as E1.
  { eapply (keeps_wrapM wmap c1 (onS (kv_Get (metadataKey id v)))); eauto with keeps. }
  destruct r1 as [d| |]; [|by destruct H as [-> ->]; left..].
  apply wrapM_ok in H1. assert (w1.2 = w.2) as Ee.
  { destruct w as [s e]. rw /onS in H1. destruct (kv_Get _ s). by injection H1 as <- _. }
  apply get_inv in H1 as [Hd _].
  apply M_bind_inv in H as (w2 & r2 & H2 & H). rw /wrapM /lift in H2. injection H2 as <- <-.
  destruct (unmarshal_meta d) as [m| |] eqn:Em; simpl in H; [|by destruct H as [-> ->]; left..].
  right. exists w1, m. split_and!; [by exists d|done..].
Qed.

Lemma index_effect P id v : (1 ≤ v)%Z → effect P (onS (kv_Put (latestVersionMetadataKey id) (marshal_int v))).
Proof.
  intros Hv w w' r [E|[_ E]]%put_inv; rw ?E; [|done..]. by apply rtc_once, lc_index.
Qed.

Lemma save_effect P (m : KeyMetadata) (w w' : World) r : saveMetadata m w = (w', r) →
  fresh_id (wmap w) (km_KeyID m) → km_Version m = 1%Z → km_State m = StateActive →
  lc_steps P (wmap w) (wmap w').
Proof.
  intros (r1 & H & _)%wrapM_inv Hf Hv Ha. apply put_inv in H as [E|[_ E]]; rw ?E; [|done..].
  by apply rtc_once, lc_create.
Qed.

(** The common tail of the three creations. *)
Lemma create_tail {A} P m (a : A) (w w' : World) r :
  (wrapM "lifecycle: save metadata" (saveMetadata m);;
   try_ (setLatestVersion (km_KeyID m) 1);; mret a) w = (w', r) →
  fresh_id (wmap w) (km_KeyID m) → km_Version m = 1%Z → km_State m = StateActive →
  lc_steps P (wmap w) (wmap w').
Proof.
  intros (w1 & r1 & H1 & H)%M_bind_inv Hf Hv Ha. apply wrapM_inv in H1 as (r0 & H1 & ->).
  apply (save_effect P) in H1; [|done..]. destruct r0; simpl in H; [|by destruct H as [-> _]..].
  etrans; [exact H1|]. revert H. apply effect_bind; [|intros; apply keeps_effect, keeps_ret].
  apply effect_try, index_effect. lia.
Qed.

Lemma keeps_pages {A} onErr fuel (body : A → string * data → MW A) o acc :
  (∀ a e, keeps wmap (onErr a e)) → (∀ a i, keeps wmap (body a i)) → keeps wmap (scan_pages onErr fuel body o acc).
Proof.
  intros He Hb. assert (∀ items a, keeps wmap (each body items a)).
  { induction items as [|i items IH]; intros a; simpl; solve_keeps. }
  revert o acc. induction fuel as [|fuel IH]; intros o acc; simpl; [by intros w w' r [= <- _]|].
  solve_keeps.
Qed.
Lemma keeps_count : keeps (wmap (S := S)) countKeys.
Proof.
  intros w w' r. apply keeps_bind; [|solve_keeps]. apply keeps_pages; solve_keeps.
Qed.
Lemma keeps_List : keeps (wmap (S := S)) ListKeyIDs.
Proof. intros w w' r. apply keeps_pages; solve_keeps. Qed.
Lemma keeps_quota : keeps (wmap (S := S)) quota_check.
Proof. pose proof keeps_count. rw /quota_check. solve_keeps. Qed.

(** Peel the steps of a run that do not write. *)
Lemma keeps_bind_inv {A B} (m : MW A) (f : A → MW B) w w' r : keeps wmap m →
  (m ≫= f) w = (w', r) →
  (is_ok r = false ∧ wmap w' = wmap w) ∨ ∃ w1 a, m w = (w1, Ok a) ∧ wmap w1 = wmap w ∧ f a w1 = (w', r).
Proof.
  intros Hm (w1 & r1 & H1 & H)%M_bind_inv. pose proof (Hm _ _ _ H1) as E.
  destruct r1; [right; eauto|left; destruct H as [-> ->]; done..].
Qed.
End Ops.

(** Rewrite facts about the map [f] of an earlier world into facts about the
    current one. *)
Ltac push_map E :=
  match type of E with _ = ?f =>
    repeat match goal with X : context [f] |- _ => tryif unify X E then fail else rw -E in X end;
    try rw -E; clear E
  end.
(** Peel a step that does not write; the branch where it fails is closed. *)
Ltac peel H :=
  match type of H with (mbind ?f ?m) ?w0 = _ =>
    let K := fresh "K" in let w := fresh "w" in let a := fresh "a" in
    let Hs := fresh "Hs" in let E := fresh "E" in
    assert (keeps wmap m) as K by solve_keeps;
    apply (keeps_bind_inv _ _ _ _ _ K) in H as [[_ E]|(w & a & Hs & E & H)];
    clear K; [by rw ?E|push_map E]
  end.

Section Ops2.
Context {S : Type} `{!KVStore S, !KVStoreLaws S}.
Abbreviation World := (S * Env)%type.
Abbreviation MW := (M World).
#[local] Hint Resolve keeps_quota : keeps.

Lemma CreateKey_effect P id kek days (w w' : World) r :
  fresh_id (wmap w) id → CreateKey id kek days w = (w', r) → lc_steps P (wmap w) (wmap w').
Proof.
  intros Hf H. rw /CreateKey in H. do 6 (peel H).
  by apply (create_tail P (mkMeta _ _ _ _ _ _ _ _ _ _ _ _ _)) in H.
Qed.

Lemma CreateAsymmetricKey_effect P gen sm2 id alg kek (w w' : World) r :
  fresh_id (wmap w) id → CreateAsymmetricKey gen sm2 id alg kek w = (w', r) →
  lc_steps P (wmap w) (wmap w').
Proof.
  intros Hf H. rw /CreateAsymmetricKey in H. do 4 (peel H). peel H. destruct a3 as [der pub]. do 2 (peel H).
  by apply (create_tail P (mkMeta _ _ _ _ _ _ _ _ _ _ _ _ _)) in H.
Qed.

Lemma import_effect P id kek dek (w w' : World) r :
  fresh_id (wmap w) id → import_dek id kek dek w = (w', r) → lc_steps P (wmap w) (wmap w').
Proof.
  intros Hf H. rw /import_dek in H. do 2 (peel H).
  apply M_bind_inv in H as (w3 & r3 & (r4 & H3 & _)%wrapM_inv & H).
  apply (save_effect P) in H3; [|done..]. destruct r3; [by injection H as <- _|by destruct H as [-> _]..].
Qed.

(** ** Rotation *)
Lemma scan_pos fuel id v (s s' : S) u : (1 ≤ v)%Z → scan_versions fuel id v s = (s', Ok u) → (1 ≤ u)%Z.
Proof.
  revert v s. induction fuel as [|fuel IH]; intros v s Hv H; simpl in H; [done|]. inv_M.
  destruct a as [d|err]; [by eapply IH in H; [|lia]|].
  destruct (errors_Is err ErrNotFound); [|done]. case_bool_decide; [done|]. inv_M. lia.
Qed.
Lemma getLatest_pos id (s s' : S) v : getLatestVersion id s = (s', Ok v) → (1 ≤ v)%Z.
Proof.
  intros H. rw /getLatestVersion in H. inv_M.
  assert (∀ s, findLatestVersionScan id s = (s', Ok v) → (1 ≤ v)%Z) as Hscan.
  { intros s1. apply scan_pos. lia. }
  destruct a as [d|err]; [|by eapply Hscan].
  destruct (data_empty d), (unmarshal_int d); try by eapply Hscan.
  case_bool_decide; [|by eapply Hscan]. inv_M. lia.
Qed.

(** What the two halves of a rotation write. *)
Definition rotated_old (id : string) (v : Z) (m : KeyMetadata) (f : gmap string data) : gmap string data :=
  <[metadataKey id v := marshal_meta (meta_set_state StateDeactivated (km_DeletedAt m) m)]> f.
Definition rotated_new (id : string) (v : Z) (m mnew : KeyMetadata) : Prop :=
  km_KeyID mnew = id ∧ km_Version mnew = (v + 1)%Z ∧ km_State mnew = StateActive ∧
  km_RotationDays mnew = km_RotationDays m ∧
  km_NextRotationAt mnew = next_rotation (km_CreatedAt mnew) (km_RotationDays m).

Lemma notify_tail {A} id (a : A) (w w' : World) r :
  (notifyInTx id;; mret a) w = (w', r) → r = Ok a ∧ wmap w' = wmap w.
Proof.
  rw /notifyInTx. destruct w as [s e], (kv_txNotifies (S := S)); intros H; by injection H as <- <-.
Qed.

Lemma rotate_new_inv id kek v m (w w' : World) r : rotate_new id kek v m w = (w', r) →
  (is_ok r = false ∧ wmap w' = wmap w) ∨
  ∃ mnew sb, rotated_new id v m mnew ∧
    (∃ e1 e2 e3, NewSecureBufferFromRandom (dekSizeFromKEK kek) e1 = (e2, Ok sb) ∧
       kek_WrapDEK kek sb e2 = (e3, Ok (km_Material mnew))) ∧
    (is_ok r = false ∨ r = Ok (mnew, sb)) ∧
    (wmap w' = put_meta mnew (wmap w) ∨
     wmap w' = <[latestVersionMetadataKey id := marshal_int (v + 1)]> (put_meta mnew (wmap w))).
Proof.
  intros H. rw /rotate_new in H.
  apply keeps_bind_inv in H as [?|(w5 & sb & Hsb & E5 & H)]; [by left| |solve_keeps].
  apply keeps_bind_inv in H as [[? ->]|(w6 & ct & Hct & E6 & H)]; [by left| |solve_keeps].
  apply keeps_bind_inv in H as [[? ->]|(w7 & env & Henv & E7 & H)]; [by left; rw E6 E5| |solve_keeps].
  cbn zeta in H. set (mnew := mkMeta _ _ _ _ _ _ _ _ _ _ _ _ _) in H.
  apply M_bind_inv in H as (w8 & r8 & H8 & H). apply wrapM_inv in H8 as (r8' & H8 & ->).
  apply put_inv in H8 as [E8|[Ho8 E8]]; [| |done].
  2: { left. destruct r8'; [done|destruct H as [-> ->]; by rw E8 E7 E6 E5..]. }
  right. exists mnew, sb. split; [done|]. split.
  { inv_M. destruct w as [s4 e4]. rw /onRand in Hsb.
    destruct (NewSecureBufferFromRandom _ (m_rand e4)) as [rnd x] eqn:En. injection Hsb as <- ->.
    rw /onRand /= in Hct. destruct (kek_WrapDEK kek sb rnd) as [rnd' y] eqn:Ek. injection Hct as <- ->.
    by exists (m_rand e4), rnd, rnd'. }
  rw E7 E6 E5 in E8. destruct r8'; [|destruct H as [-> ->]; by split; [left|left]..]. simpl in H. apply M_bind_inv in H as (w9 & r9 & H9 & H). apply try_inv in H9 as (r9' & H9 & ->).
  assert (wmap w9 = wmap w8 ∨ wmap w9 = <[latestVersionMetadataKey id := marshal_int (v + 1)]> (wmap w8)) as E9.
  { apply put_inv in H9 as [?|[_ ?]]; auto. }
  rw E8 in E9. destruct r9'; [| |destruct H as [-> ->]; by split; [left|]].
  all: apply notify_tail in H as [-> ->]; by split; [right|].
Qed.

Lemma rotate_tx_inv id kek (w w' : World) r : rotate_tx id kek w = (w', r) →
  (is_ok r = false ∧ wmap w' = wmap w) ∨
  ∃ w1 v m, onS (getLatestVersion id) w = (w1, Ok v) ∧ (1 ≤ v)%Z ∧
    stored (wmap w) id v m ∧ km_State m = StateActive ∧
    ((is_ok r = false ∧ wmap w' = rotated_old id v m (wmap w)) ∨
     ∃ mnew sb, rotated_new id v m mnew ∧
       (∃ e1 e2 e3, NewSecureBufferFromRandom (dekSizeFromKEK kek) e1 = (e2, Ok sb) ∧
          kek_WrapDEK kek sb e2 = (e3, Ok (km_Material mnew))) ∧
       (is_ok r = false ∨ r = Ok (mnew, sb)) ∧
       (wmap w' = put_meta mnew (rotated_old id v m (wmap w)) ∨
        wmap w' = <[latestVersionMetadataKey id := marshal_int (v + 1)]>
                    (put_meta mnew (rotated_old id v m (wmap w))))).
Proof.
  intros H. rw /rotate_tx in H.
  apply keeps_bind_inv in H as [?|(w1 & v & Hl & E & H)]; [by left| |solve_keeps].
  assert (1 ≤ v)%Z as Hv.
  { destruct w as [s e]. rw /onS in Hl. destruct (findLatestVersionInTx id s) as [s1 x] eqn:Ev.
    injection Hl as _ ->. by eapply getLatest_pos. }
  apply read_meta_bind in H as [[? ->]|(w2 & m & Hst & E2 & H & _)]; [by left; rw E|].
  apply keeps_bind_inv in H as [[? ->]|(w3 & u & Ha & E3 & H)]; [by left; rw E2 E| |solve_keeps].
  apply guardM_ok in Ha as [Ha ->]. apply bool_decide_eq_true in Ha.
  apply M_bind_inv in H as (w4 & r4 & H4 & H). apply wrapM_inv in H4 as (r4' & H4 & ->).
  apply put_inv in H4 as [E4|[Ho E4]]; [| |done].
  2: { left. destruct r4'; [done|destruct H as [-> ->]; by rw E4 E2 E..]. }
  rw E2 E in E4.
  right. exists w1, v, m. rw E in Hst. split_and!; [done..|]. change (wmap w4 = rotated_old id v m (wmap w)) in E4.
  destruct r4'; [|destruct H as [-> ->]; by left..]. simpl in H. rw -E4. apply rotate_new_inv in H as [?|?]; [by left|by right].
Qed.

Lemma rotate_tx_effect P id kek : effect (S := S) P (rotate_tx id kek).
Proof.
  intros w w' r [[_ ->]|(w1 & v & m & _ & Hv & Hst & Ha & H)]%rotate_tx_inv; [done|].
  destruct H as [[_ ->]|(mnew & sb & (Hi & Hver & Hact & _) & _ & _ & E)].
  { by apply rtc_once, lc_deactivate. }
  assert (lc_step P (wmap w) (put_meta mnew (rotated_old id v m (wmap w)))) by (by apply lc_rotate).
  destruct E as [-> | ->]; [by apply rtc_once|]. eapply rtc_l; [done|]. apply rtc_once, lc_index. lia.
Qed.

Lemma RotateKey_effect P id kek : effect (S := S) P (RotateKey id kek).
Proof.
  rw /RotateKey. repeat (apply effect_bind; [|intros ?]);
    try by apply keeps_effect; solve_keeps. apply effect_tx, rotate_tx_effect.
Qed.

(** ** Destruction and the recycle bin *)
Lemma shred_tx_inv id v (w w' : World) r : shred_tx id v w = (w', r) →
  (is_ok r = false ∧ wmap w' = wmap w) ∨
  ∃ m, stored (wmap w) id v m ∧
    ((is_ok r = false ∧ wmap w' = <[metadataKey id v := marshal_meta (meta_destroy m)]> (wmap w)) ∨
     ((r = Ok tt ∨ is_ok r = false) ∧ wmap w' = delete (metadataKey id v) (wmap w))).
Proof.
  intros H. rw /shred_tx in H.
  apply read_meta_bind in H as [?|(w2 & m & Hst & E2 & H & _)]; [by left|].
  apply M_bind_inv in H as (w4 & r4 & H4 & H). apply wrapM_inv in H4 as (r4' & H4 & ->).
  apply put_inv in H4 as [E4|[Ho E4]]; [| |done].
  2: { left. destruct r4'; [done|destruct H as [-> ->]; by rw E4 E2..]. }
  rw E2 in E4. right. exists m. split; [done|]. destruct r4'; [|destruct H as [-> ->]; by left..]. simpl in H.
  apply M_bind_inv in H as (w5 & r5 & H5 & H). apply wrapM_inv in H5 as (r5' & H5 & ->).
  apply delete_inv in H5 as [E5|[Ho5 E5]].
  2: { left. destruct r5'; [done|destruct H as [-> ->]; by rw E5 E4..]. }
  right. rw E4 delete_insert_eq in E5. destruct r5'; [|destruct H as [-> ->]; by split; [right|]..]. simpl in H.
  assert (r = Ok tt ∧ wmap w' = wmap w5) as [-> ->].
  { rw /notifyInTx in H. destruct w5, (kv_txNotifies (S := S)); by injection H as <- <-. }
  by split; [left|].
Qed.
Lemma ShredKey_effect (P : string → Z → Prop) id v : P id v → effect (S := S) P (ShredKey id v).
Proof.
  intros HP. rw /ShredKey. repeat (apply effect_bind; [|intros ?]);
    try by apply keeps_effect; solve_keeps.
  apply effect_tx. intros w w' r [[_ ->]|(m & Hst & [[_ ->]|[_ ->]])]%shred_tx_inv; [done|..];
    apply rtc_once; [by apply lc_destroy|by apply lc_delete].
Qed.

Lemma softdelete_tx_inv id v (w w' : World) r : softdelete_tx id v w = (w', r) →
  wmap w' = wmap w ∨
  ∃ m, stored (wmap w) id v m ∧ km_State m ≠ StateSoftDeleted ∧ km_State m ≠ StateDestroyed ∧
    wmap w' = <[metadataKey id v := marshal_meta (meta_set_state StateSoftDeleted (m_now w.2) m)]> (wmap w).
Proof.
  intros H. rw /softdelete_tx in H. cbn zeta in H.
  apply read_meta_bind in H as [[_ ->]|(w2 & m & Hst & E2 & H & Ee)]; [by left|].
  case_bool_decide as H1; [by injection H as <- _; left|].
  case_bool_decide as H2; [by injection H as <- _; left|].
  destruct w2 as [s2 e2]. apply M_bind_inv in H as (w3 & r3 & [= <- <-] & H). apply wrapM_inv in H as (r1 & H & _).
  apply put_inv in H as [->|[_ ->]]; [|by left|done]. right. exists m. cbn in Ee. by rw E2 Ee.
Qed.
Lemma SoftDeleteKey_effect P id v : effect (S := S) P (SoftDeleteKey id v).
Proof.
  apply effect_tx. intros w w' r [->|(m & Hst & H1 & H2 & ->)]%softdelete_tx_inv; [done|]. by apply rtc_once, lc_softdelete.
Qed.

Lemma restore_tx_inv id v (w w' : World) r : restore_tx id v w = (w', r) →
  wmap w' = wmap w ∨
  ∃ m, stored (wmap w) id v m ∧ km_State m = StateSoftDeleted ∧
    wmap w' = <[metadataKey id v := marshal_meta (meta_set_state StateDeactivated 0 m)]> (wmap w).
Proof.
  intros H. rw /restore_tx in H. cbn zeta in H.
  apply read_meta_bind in H as [[_ ->]|(w2 & m & Hst & E2 & H & _)]; [by left|].
  destruct (bool_decide (km_State m = StateSoftDeleted)) eqn:Hs; simpl in H.
  2: { by case_bool_decide; injection H as <- _; left. }
  apply bool_decide_eq_true in Hs. apply M_bind_inv in H as (w3 & r3 & H3 & H).
  apply wrapM_inv in H3 as (r3' & H3 & ->).
  assert (wmap w' = wmap w3) as ->.
  { destruct r3'; simpl in H; [|by destruct H as [-> _]..]. peel H. by rw (keeps_Invalidate _ _ _ _ H). }
  rw -E2. apply put_inv in H3 as [->|[_ ->]]; [|by left|done]. right. exists m. by rw E2.
Qed.
Lemma RestoreKey_effect P id v : effect (S := S) P (RestoreKey id v).
Proof.
  rw /RestoreKey. apply effect_bind; [|intros; apply keeps_effect; solve_keeps].
  apply effect_tx. intros w w' r [->|(m & Hst & Hs & ->)]%restore_tx_inv; [done|]. by apply rtc_once, lc_restore.
Qed.

Lemma effect_pages {A} P onErr fuel (body : A → string * data → MW A) o acc :
  (∀ a e, effect P (onErr a e)) → (∀ a i, effect P (body a i)) → effect P (scan_pages onErr fuel body o acc).
Proof.
  intros He Hb. assert (∀ items a, effect P (each body items a)) as Heach.
  { induction items as [|i items IH]; intros a; simpl; [apply keeps_effect; solve_keeps|].
    by apply effect_bind. }
  revert o acc. induction fuel as [|fuel IH]; intros o acc; simpl; [by intros w w' r [= <- _]|].
  apply effect_bind; [apply keeps_effect; solve_keeps|]. intros [[[|i items] total]|err]; [|..|done].
  { apply keeps_effect; solve_keeps. }
  apply effect_bind; [by apply (Heach (i :: items))|]. intros a. case_bool_decide; [|done].
  apply keeps_effect; solve_keeps.
Qed.

Lemma reap_item_effect (P : string → Z → Prop) c a i :
  (∀ i x, P i x) → effect (S := S) P (reap_item c a i).
Proof.
  intros HP. rw /reap_item. destruct (unmarshal_meta _); [|apply keeps_effect; solve_keeps..].
  case_match; [|apply keeps_effect; solve_keeps].
  apply effect_bind; [by apply effect_try, ShredKey_effect|]. intros; apply keeps_effect; solve_keeps.
Qed.

Lemma Reap_effect (P : string → Z → Prop) ttl :
  (∀ i x, P i x) → effect (S := S) P (reapExpiredSoftDeletes ttl).
Proof.
  intros HP.
  intros w w' r. apply effect_pages; [intros; apply keeps_effect; solve_keeps|].
  intros a i. by apply reap_item_effect.
Qed.
End Ops2.

(** ** Histories of the manager *)
Inductive mgr_op : Type :=
  | OpCreate (id : string) (kek : option KEK) (days : Z)
  | OpCreateAsym (gen : keygen) (sm2 : option keygen) (id alg : string) (kek : option KEK)
  | OpImport (id : string) (kek : KEK) (dek : bytes)
  | OpRotate (id : string) (kek : option KEK)
  | OpShred (id : string) (v : Z)
  | OpSoftDelete (id : string) (v : Z)
  | OpRestore (id : string) (v : Z)
  | OpReap (ttl : Z)
  | OpGet (id : string) (v : Z)
  | OpGetActive (id : string)
  | OpGetForDecrypt (id : string) (v : Z)
  | OpGenerateDataKey (id : string) (kek : option KEK)
  | OpInvalidate (id : string)
  | OpClear
  | OpClock (t : Z)
  | OpEntropy (rnd : entropy).

Section History.
Context {S : Type} `{!KVStore S, !KVStoreLaws S}.
Abbreviation World := (S * Env)%type.

Definition mgr_apply (op : mgr_op) (w : World) : World :=
  match op with
  | OpCreate id kek days => (CreateKey id kek days w).1
  | OpCreateAsym gen sm2 id alg kek => (CreateAsymmetricKey gen sm2 id alg kek w).1
  | OpImport id kek dek => (import_dek id kek dek w).1
  | OpRotate id kek => (RotateKey id kek w).1
  | OpShred id v => (ShredKey id v w).1
  | OpSoftDelete id v => (SoftDeleteKey id v w).1
  | OpRestore id v => (RestoreKey id v w).1
  | OpReap ttl => (ReapNow ttl w).1
  | OpGet id v => (GetKey id v w).1
  | OpGetActive id => (GetActiveKey id w).1
  | OpGetForDecrypt id v => (GetKeyForDecrypt id v w).1
  | OpGenerateDataKey id kek => (GenerateDataKey id kek w).1
  | OpInvalidate id => (InvalidateCache id w).1
  | OpClear => (ClearCache w).1
  | OpClock t => (w.1, set_now t w.2)
  | OpEntropy rnd => (w.1, set_rand rnd w.2)
  end.
(** A key id is created only while no version of it is stored. *)
Definition op_ok (op : mgr_op) (w : World) : Prop :=
  match op with
  | OpCreate id _ _ | OpCreateAsym _ _ id _ _ | OpImport id _ _ => fresh_id (wmap w) id
  | _ => True
  end.
Inductive mgr_step : World → World → Prop :=
  | mgr_step_op op w : op_ok op w → mgr_step w (mgr_apply op w).
Abbreviation mgr_reach := (rtc mgr_step).

Lemma effect_fst {A} P (m : M World A) w : effect P m → lc_steps P (wmap w) (wmap (m w).1).
Proof. intros Hm. destruct (m w) as [w' r] eqn:E. by eapply Hm. Qed.
Lemma keeps_fst {A} P (m : M World A) w : keeps wmap m → lc_steps P (wmap w) (wmap (m w).1).
Proof. intros Hm. by apply effect_fst, keeps_effect. Qed.

(** The versions an operation is asked to destroy; the reaper may destroy any. *)
Definition op_destroys (op : mgr_op) (id : string) (v : Z) : Prop :=
  match op with OpShred i x => id = i ∧ v = x | OpReap _ => True | _ => False end.

Lemma mgr_apply_lc op w : op_ok op w → lc_steps (op_destroys op) (wmap w) (wmap (mgr_apply op w)).
Proof.
  intros Hok. destruct op; simpl in Hok |- *; try done;
    try (apply effect_fst; first [apply RotateKey_effect | by apply ShredKey_effect | apply SoftDeleteKey_effect
      | apply RestoreKey_effect | by apply Reap_effect]);
    try solve [apply keeps_fst; rw /GetKey /GetActiveKey /GetKeyForDecrypt /GenerateDataKey
                 /InvalidateCache /ClearCache; solve_keeps].
  - destruct (CreateKey _ _ _ w) as [w' r] eqn:E. by eapply CreateKey_effect.
  - destruct (CreateAsymmetricKey _ _ _ _ _ w) as [w' r] eqn:E. by eapply CreateAsymmetricKey_effect.
  - destruct (import_dek _ _ _ w) as [w' r] eqn:E. by eapply import_effect.
  - by destruct w.
  - by destruct w.
Qed.
End History.

(** ** The invariant of the stored records
    Every record under the [key:] prefix is filed under its own key id and version
    in one of the documented states, and an Active version is the newest one. *)
Definition known_state (st : KeyState) : Prop :=
  st = StateActive ∨ st = StateDeactivated ∨ st = StateSoftDeleted ∨ st = StateDestroyed.
Record lc_inv (f : gmap string data) : Prop := {
  inv_doc k d : f !! k = Some d → has_prefix "key:" k = true →
    ∃ m, d = marshal_meta m ∧ k = metadataKey (km_KeyID m) (km_Version m) ∧
         (1 ≤ km_Version m)%Z ∧ known_state (km_State m);
  inv_newest id v m v' m' : stored f id v m → km_State m = StateActive → stored f id v' m' → (v' ≤ v)%Z;
}.

Lemma lc_inv_empty : lc_inv ∅.
Proof. split; [done|]. by intros id v m v' m' (d & Hd & _). Qed.

Lemma stored_inv f id v m : lc_inv f → stored f id v m →
  f !! metadataKey id v = Some (marshal_meta m) ∧ km_KeyID m = id ∧ km_Version m = v ∧
  (1 ≤ v)%Z ∧ known_state (km_State m).
Proof.
  intros Hi (d & Hd & Hm). destruct (inv_doc f Hi _ _ Hd (metadataKey_key _ _)) as (m0 & -> & Hk & Hv & Hs).
  rw unmarshal_marshal_meta in Hm. injection Hm as <-. by apply metadataKey_inj in Hk as [-> ->].
Qed.
Lemma stored_fun f id v m m' : stored f id v m → stored f id v m' → m = m'.
Proof. intros (d & Hd & Hm) (d' & Hd' & Hm'). congruence. Qed.

Lemma stored_insert f id v m id' v' m' :
  stored (<[metadataKey id v := marshal_meta m]> f) id' v' m' ↔
  (id' = id ∧ v' = v ∧ m' = m) ∨ ((id', v') ≠ (id, v) ∧ stored f id' v' m').
Proof.
  rw /stored. destruct (decide ((id', v') = (id, v))) as [[= -> ->]|Hne].
  - rw lookup_insert_eq. split.
    + intros (d & [= <-] & Hm). rw unmarshal_marshal_meta in Hm. left. by injection Hm as <-.
    + intros [(_ & _ & ->)|[? _]]; [|done]. exists (marshal_meta m). by rw unmarshal_marshal_meta.
  - rw lookup_insert_ne; [intros [-> ->]%metadataKey_inj; done|]. naive_solver.
Qed.
Lemma stored_put f m id' v' m' : stored (put_meta m f) id' v' m' ↔
  (id' = km_KeyID m ∧ v' = km_Version m ∧ m' = m) ∨
  ((id', v') ≠ (km_KeyID m, km_Version m) ∧ stored f id' v' m').
Proof. rw /put_meta. apply stored_insert. Qed.
Lemma stored_old f id v m id' v' m' : stored (rotated_old id v m f) id' v' m' ↔
  (id' = id ∧ v' = v ∧ m' = meta_set_state StateDeactivated (km_DeletedAt m) m) ∨
  ((id', v') ≠ (id, v) ∧ stored f id' v' m').
Proof. rw /rotated_old. apply stored_insert. Qed.
Lemma stored_delete f id v id' v' m' :
  stored (delete (metadataKey id v) f) id' v' m' ↔ (id', v') ≠ (id, v) ∧ stored f id' v' m'.
Proof.
  rw /stored. destruct (decide ((id', v') = (id, v))) as [[= -> ->]|Hne].
  - rw lookup_delete_eq. naive_solver.
  - rw lookup_delete_ne; [intros [-> ->]%metadataKey_inj; done|]. naive_solver.
Qed.
Lemma stored_index f id v id' v' m' :
  stored (<[latestVersionMetadataKey id := marshal_int v]> f) id' v' m' ↔ stored f id' v' m'.
Proof. rw /stored lookup_insert_ne //. Qed.

(** Writing a record keeps every record in its place. *)
Lemma inv_doc_insert f m k d :
  (∀ k d, f !! k = Some d → has_prefix "key:" k = true →
    ∃ m, d = marshal_meta m ∧ k = metadataKey (km_KeyID m) (km_Version m) ∧
         (1 ≤ km_Version m)%Z ∧ known_state (km_State m)) →
  (1 ≤ km_Version m)%Z → known_state (km_State m) →
  put_meta m f !! k = Some d → has_prefix "key:" k = true →
  ∃ m, d = marshal_meta m ∧ k = metadataKey (km_KeyID m) (km_Version m) ∧
       (1 ≤ km_Version m)%Z ∧ known_state (km_State m).
Proof. rw /put_meta. intros Hf Hv Hs [[<- <-]|[_ H]]%lookup_insert_Some Hk; eauto. Qed.

(** A record may change to any state but Active. *)
Lemma inv_update f id v m m' : lc_inv f → stored f id v m →
  km_KeyID m' = id → km_Version m' = v → known_state (km_State m') → km_State m' ≠ StateActive →
  lc_inv (<[metadataKey id v := marshal_meta m']> f).
Proof.
  intros Hi Hst <- <- Hs Hna. pose proof (stored_inv _ _ _ _ Hi Hst) as (_ & _ & _ & Hv & _). split.
  - intros k d. apply (inv_doc_insert f m'); [apply Hi|done..].
  - intros id v1 m1 v2 m2 [(-> & -> & ->)|[_ H1]]%stored_insert Ha H2; [done|].
    apply stored_insert in H2 as [(-> & -> & ->)|[_ H2]]; by eapply inv_newest.
Qed.


Lemma inv_create f m : lc_inv f → fresh_id f (km_KeyID m) → km_Version m = 1%Z →
  km_State m = StateActive → lc_inv (put_meta m f).
Proof.
  intros Hi Hf Hv Hs. split.
  - intros k d. apply inv_doc_insert; [apply Hi|lia|by left].
  - intros id v m1 v2 m2 H1 Ha H2. apply stored_put in H1 as [(-> & -> & ->)|[_ H1]].
    + apply stored_put in H2 as [(_ & -> & _)|[_ (d & Hd & _)]]; [lia|]. by rw Hf in Hd.
    + apply stored_put in H2 as [(-> & -> & _)|[_ H2]]; [|by eapply inv_newest].
      destruct H1 as (d & Hd & _). by rw Hf in Hd.
Qed.

Lemma inv_rotate f id v m mnew : lc_inv f → stored f id v m → (1 ≤ v)%Z → km_State m = StateActive →
  km_KeyID mnew = id → km_Version mnew = (v + 1)%Z → km_State mnew = StateActive →
  lc_inv (put_meta mnew (rotated_old id v m f)).
Proof.
  intros Hi Hst Hv Ha <- Hver Hact.
  assert (lc_inv (rotated_old (km_KeyID mnew) v m f)) as Hi'.
  { pose proof (stored_inv _ _ _ _ Hi Hst) as (_ & ? & ? & _). eapply inv_update; [done..| |done].
    right; by left. }
  split.
  - intros k d. apply inv_doc_insert; [apply Hi'|lia|by left].
  - intros id v1 m1 v2 m2 H1 Ha1 H2.
    assert (∀ v2 m2, stored (put_meta mnew (rotated_old (km_KeyID mnew) v m f)) (km_KeyID mnew) v2 m2 →
              (v2 ≤ v + 1)%Z) as Hle.
    { intros v3 m3 [(_ & -> & _)|[_ H3]]%stored_put; [lia|].
      apply stored_old in H3 as [(_ & -> & _)|[_ H3]]; [lia|].
      pose proof (inv_newest f Hi _ _ _ _ _ Hst Ha H3). lia. }
    apply stored_put in H1 as [(-> & -> & ->)|[_ H1]]; [rw Hver; by eapply Hle|].
    apply stored_old in H1 as [(-> & -> & ->)|[Hne H1]]; [done|].
    destruct (decide (id = km_KeyID mnew)) as [->|Hid].
    { pose proof (inv_newest f Hi _ _ _ _ _ Hst Ha H1). pose proof (inv_newest f Hi _ _ _ _ _ H1 Ha1 Hst).
      destruct Hne. f_equal. lia. }
    apply stored_put in H2 as [(-> & _)|[_ H2]]; [done|].
    apply stored_old in H2 as [(-> & _)|[_ H2]]; [done|]. exact (inv_newest f Hi _ _ _ _ _ H1 Ha1 H2).
Qed.

Lemma lc_step_inv P f f' : lc_inv f → lc_step P f f' → lc_inv f'.
Proof.
  intros Hi H. destruct H as [m Hf Hv Hs|id v Hv|id v m mnew Hst Hv Ha Hid Hver Hact|id v m Hst Ha
    |id v m t Hst H1 H2|id v m Hst Hs|id v m _ Hst|id v _].
  - by apply inv_create.
  - split; [|intros id' v1 m1 v2 m2 H1 Ha H2; apply stored_index in H1, H2; by eapply inv_newest].
    intros k d [[<- _]|[_ H]]%lookup_insert_Some Hk; [by rw latest_not_key in Hk|]. by eapply inv_doc.
  - eapply (inv_rotate f id v m mnew); done.
  - pose proof (stored_inv _ _ _ _ Hi Hst) as (_ & ? & ? & _). eapply inv_update; [done..| |done]. right; by left.
  - pose proof (stored_inv _ _ _ _ Hi Hst) as (_ & ? & ? & _). eapply inv_update; [done..| |done]. right; right; by left.
  - pose proof (stored_inv _ _ _ _ Hi Hst) as (_ & ? & ? & _). eapply inv_update; [done..| |done]. right; by left.
  - pose proof (stored_inv _ _ _ _ Hi Hst) as (_ & ? & ? & _). eapply inv_update; [done..| |done]. by do 3 right.
  - split.
    + intros k d [_ H]%lookup_delete_Some. by eapply inv_doc.
    + intros id' v1 m1 v2 m2 H1 Ha H2. apply stored_delete in H1 as [_ H1], H2 as [_ H2]. by eapply inv_newest.
Qed.

Lemma lc_steps_inv P f f' : lc_inv f → lc_steps P f f' → lc_inv f'.
Proof. intros Hi H. induction H; [done|]. eauto using lc_step_inv. Qed.

(** The record of a version, read back from the store. *)
Definition rec (f : gmap string data) (id : string) (v : Z) : option KeyMetadata :=
  d ← f !! metadataKey id v; match unmarshal_meta d with Ok m => Some m | _ => None end.

Lemma rec_Some f id v m : rec f id v = Some m ↔ stored f id v m.
Proof.
  rw /rec /stored. destruct (f !! metadataKey id v) as [d|]; simpl.
  2: { split; [done|by intros (d & ? & _)]. }
  split.
  - destruct (unmarshal_meta d) as [m'| |] eqn:E; [|done..]. intros [= ->]. by exists d.
  - intros (d' & [= <-] & ->). done.
Qed.
Lemma rec_insert f id v m id' v' :
  rec (<[metadataKey id v := marshal_meta m]> f) id' v' =
  match decide ((id', v') = (id, v)) with left _ => Some m | right _ => rec f id' v' end.
Proof.
  rw /rec. case_decide as H.
  - injection H as -> ->. by rw lookup_insert_eq /= unmarshal_marshal_meta.
  - rw lookup_insert_ne //. by intros [-> ->]%metadataKey_inj.
Qed.
Lemma rec_fresh f id v : f !! metadataKey id v = None → rec f id v = None.
Proof. rw /rec. by intros ->. Qed.

(** A version that no step may destroy stays stored; unless it is Destroyed
    already, which is final, its material never changes. *)
Definition evolves (m m' : KeyMetadata) : Prop :=
  m' = m ∨ (km_State m ≠ StateDestroyed ∧ km_State m' ≠ StateDestroyed ∧ km_Material m' = km_Material m).

Lemma evolves_trans m1 m2 m3 : evolves m1 m2 → evolves m2 m3 → evolves m1 m3.
Proof.
  intros [->|(? & ? & ?)] [->|(? & ? & ?)]; [by left|by right..|right]. split_and!; [done..|congruence].
Qed.

Lemma lc_step_kept P f f' id v m0 : lc_inv f → ¬ P id v → lc_step P f f' → stored f id v m0 →
  ∃ m1, stored f' id v m1 ∧ evolves m0 m1.
Proof.
  intros Hi HP H Hst0.
  assert (∀ i x m m', stored f i x m → evolves m m' →
    ∃ m1, stored (<[metadataKey i x := marshal_meta m']> f) id v m1 ∧ evolves m0 m1) as Hup.
  { intros i x m m' Hst He. destruct (decide ((id, v) = (i, x))) as [[= <- <-]|Hne].
    - pose proof (stored_fun _ _ _ _ _ Hst Hst0) as ->. exists m'. rw stored_insert. split; [by left|done].
    - exists m0. rw stored_insert. split; [by right|by left]. }
  destruct H as [m Hf Hv Hs|i x Hv|i x m mnew Hst Hv Ha Hid Hver Hact|i x m Hst Ha
    |i x m t Hst H1 H2|i x m Hst Hs|i x m Hd Hst|i x Hd].
  - exists m0. rw stored_put. split; [|by left]. right. split; [|done]. intros [= -> ->].
    destruct Hst0 as (d & Hd & _). by rw Hf in Hd.
  - exists m0. rw stored_index. split; [done|by left].
  - destruct (Hup i x m (meta_set_state StateDeactivated (km_DeletedAt m) m)) as (m1 & Hst1 & ?);
      [done|by right; rw Ha|].
    exists m1. rw stored_put. split; [|done]. right. split; [|done]. intros [= -> ->].
    rw Hid in Hst0. pose proof (inv_newest f Hi _ _ _ _ _ Hst Ha Hst0). lia.
  - eapply Hup; [done|]. right. by rw Ha.
  - eapply Hup; [done|]. by right.
  - eapply Hup; [done|]. right. by rw Hs.
  - destruct (decide ((id, v) = (i, x))) as [[= -> ->]|Hne]; [done|].
    exists m0. rw stored_insert. split; [by right|by left].
  - exists m0. rw stored_delete. split; [|by left]. split; [|done]. intros [= -> ->]. done.
Qed.
Lemma lc_steps_kept P f f' id v m0 : lc_inv f → ¬ P id v → lc_steps P f f' → stored f id v m0 →
  ∃ m1, stored f' id v m1 ∧ evolves m0 m1.
Proof.
  intros Hi HP H. revert m0. induction H as [|f f1 f2 H1 H2 IH]; intros m0 Hst; [exists m0; split; [done|by left]|].
  destruct (lc_step_kept _ _ _ _ _ _ Hi HP H1 Hst) as (m1 & Hst1 & He1).
  destruct (IH (lc_step_inv _ _ _ Hi H1) m1 Hst1) as (m2 & Hst2 & He2).
  exists m2. split; [done|by eapply evolves_trans].
Qed.
