(* ===== verification/Cache.v ===== *)
(** Coherence of the metadata cache ([cache.go]) with the store, through every
    operation of the manager: a cached record may lag behind in its state, but never
    in its key material, and a version that is stored is never cached as missing
    once it has been read. *)

From S2P Require Import Prelude SecureBuffer Ciphertext Kek Store Metadata Manager Transit Lifecycle.

(** A cached record belongs to its key, the stored one has evolved from it, and the
    version is not at the same time cached as missing. *)
Definition cache_ok (f : gmap string data) (c : dekCache) : Prop := ∀ id v m,
  dc_data c !! metadataKey id v = Some m →
  ∃ m', stored f id v m' ∧ km_KeyID m = id ∧ km_Version m = v ∧ known_state (km_State m) ∧
    (evolves m m' ∨ km_State m' = StateDestroyed) ∧ dc_negative c !! metadataKey id v = None.

Section Cache.
Context {S : Type} `{!KVStore S, !KVStoreLaws S}.
Abbreviation World := (S * Env)%type.
Abbreviation MW := (M World).

Definition winv (w : World) : Prop := lc_inv (wmap w) ∧ cache_ok (wmap w) (wcache w).

(** Computations that at most drop entries of the cache. *)
Definition cache_le (c c' : dekCache) : Prop :=
  dc_data c' ⊆ dc_data c ∧ dc_negative c' ⊆ dc_negative c.
Definition shrinks {A} (m : MW A) : Prop := ∀ w w' r, m w = (w', r) → cache_le (wcache w) (wcache w').

Lemma cache_le_refl c : cache_le c c.
Proof. done. Qed.
Lemma cache_le_trans c1 c2 c3 : cache_le c1 c2 → cache_le c2 c3 → cache_le c1 c3.
Proof. intros [] []. split; by etrans. Qed.

Lemma keeps_shrinks {A} (m : MW A) : keeps wcache m → shrinks m.
Proof. intros Hm w w' r H. rw (Hm _ _ _ H). apply cache_le_refl. Qed.
Lemma shrinks_bind {A B} (m : MW A) (f : A → MW B) : shrinks m → (∀ a, shrinks (f a)) → shrinks (m ≫= f).
Proof.
  intros Hm Hf w w' r (w1 & r1 & H1 & H)%M_bind_inv. apply Hm in H1.
  destruct r1; [apply Hf in H; by eapply cache_le_trans|by destruct H as [-> _]..].
Qed.
Lemma shrinks_try {A} (m : MW A) : shrinks m → shrinks (try_ m).
Proof. intros Hm w w' r (r1 & H & _)%try_inv. by eapply Hm. Qed.
Lemma shrinks_tx {A} (fn : MW A) : shrinks fn → shrinks (kv_WithTx fn).
Proof.
  intros Hf [s e] [s' e'] r H. destruct (is_ok r) eqn:Hr.
  - destruct r as [a| |]; [|done..]. apply kv_tx_ok in H as (s0 & s1 & _ & H & _). by apply Hf in H.
  - apply kv_tx_err in H as [[_ [->|(s0 & s1 & r0 & _ & H)]]|[(_ & s0 & s1 & _ & H & _)|(s0 & s1 & a & _ & H & _)]]; [| | | |done].
    + apply cache_le_refl.
    + by apply Hf in H.
    + by apply Hf in H.
    + by apply Hf in H.
Qed.
Lemma shrinks_Invalidate id : shrinks (InvalidateCache id).
Proof.
  intros [s e] w' r [= <- _]. rw /wcache /=. split; simpl; [apply map_filter_subseteq|].
  etrans; [apply delete_subseteq|apply map_filter_subseteq].
Qed.
Lemma shrinks_Clear : shrinks ClearCache.
Proof. intros [s e] w' r [= <- _]. split; apply map_empty_subseteq. Qed.

(** ** Operations that destroy nothing keep the coherence *)
Lemma cache_ok_le f c c' : cache_ok f c → cache_le c c' → cache_ok f c'.
Proof.
  intros Hc [Hle Hle'] id v m Hm. destruct (Hc id v m) as (m' & ? & ? & ? & ? & ? & Hneg).
  { by eapply lookup_weaken. }
  exists m'. split_and!; try done. by eapply lookup_weaken_None.
Qed.

Lemma cache_ok_steps f f' c : lc_inv f → lc_steps (λ _ _, False) f f' → cache_ok f c → cache_ok f' c.
Proof.
  intros Hi Hs Hc id v m Hm. destruct (Hc id v m Hm) as (m' & Hst & ? & ? & ? & He & Hneg).
  destruct (lc_steps_kept _ _ _ id v m' Hi (λ x, x) Hs Hst) as (m1 & Hst1 & He1).
  exists m1. split_and!; [done..| |done]. destruct He as [He|Hd]; [left; by eapply evolves_trans|right].
  destruct He1 as [-> | (? & _)]; done.
Qed.

Lemma winv_steps (w w' : World) : lc_steps (λ _ _, False) (wmap w) (wmap w') →
  cache_le (wcache w) (wcache w') → winv w → winv w'.
Proof.
  intros Hs Hle [Hi Hc]. split; [by eapply lc_steps_inv|].
  eapply cache_ok_le; [|done]. by eapply cache_ok_steps.
Qed.

Definition preserves {A} (m : MW A) : Prop := ∀ w w' r, m w = (w', r) → winv w → winv w'.
Lemma effect_preserves {A} (m : MW A) : effect (λ _ _, False) m → shrinks m → preserves m.
Proof. intros Hm Hs w w' r H. apply winv_steps; [by eapply Hm|by eapply Hs]. Qed.
Lemma keeps_preserves {A} (m : MW A) : keeps wmap m → keeps wcache m → preserves m.
Proof. intros Hm Hc. apply effect_preserves; [by apply keeps_effect|by apply keeps_shrinks]. Qed.
Lemma preserves_bind {A B} (m : MW A) (f : A → MW B) :
  preserves m → (∀ a, preserves (f a)) → preserves (m ≫= f).
Proof.
  intros Hm Hf w w' r (w1 & r1 & H1 & H)%M_bind_inv Hw. pose proof (Hm _ _ _ H1 Hw) as Hw1.
  destruct r1; [by eapply Hf|by destruct H as [-> _]..].
Qed.
Lemma preserves_try {A} (m : MW A) : preserves m → preserves (try_ m).
Proof. intros Hm w w' r (r1 & H & _)%try_inv. by eapply Hm. Qed.
Lemma preserves_wrapM {A} ctx (m : MW A) : preserves m → preserves (wrapM ctx m).
Proof. intros Hm w w' r (r1 & H & _)%wrapM_inv. by eapply Hm. Qed.

(** Reading through the cache: a hit, a known miss, a missing record, a record. *)
Lemma load_inv id v (w w' : World) r : loadMetadata id v w = (w', r) →
  wmap w' = wmap w ∧
  ((wcache w' = wcache w ∧
     (dc_data (wcache w) !! metadataKey id v = match r with Ok m => Some m | _ => None end)) ∨
   (∃ d m, wmap w !! metadataKey id v = Some d ∧ unmarshal_meta d = Ok m ∧ r = Ok m ∧
      dc_data (wcache w) !! metadataKey id v = None ∧
      wcache w' = cache_put (metadataKey id v) m (wcache w)) ∨
   (wmap w !! metadataKey id v = None ∧ is_ok r = false ∧
      dc_data (wcache w) !! metadataKey id v = None ∧ ∃ t, wcache w' = cache_putNegative t (metadataKey id v) (wcache w))).
Proof.
  intros H. split; [by eapply keeps_load|]. destruct w as [s e]. rw /loadMetadata /= in H.
  apply M_bind_inv in H as (w1 & r1 & [= <- <-] & H). rw /cache_get in H. rw /wcache /wmap /=.
  destruct (dc_data (m_cache e) !! metadataKey id v) as [m|] eqn:Ec; [left; by injection H as <- <-|].
  destruct (cache_isNegative _ _ _); [left; by injection H as <- <-|].
  apply M_bind_inv in H as (w1 & r1 & H1 & H). apply try_inv in H1 as (r1' & H1 & ->).
  rw /onS in H1. destruct (kv_Get (metadataKey id v) s) as [s1 x] eqn:Eg. injection H1 as <- ->.
  destruct r1' as [d|err|p]; [|..|destruct H as [-> ->]; by left].
  - pose proof (kv_get_ok _ _ _ _ Eg) as Hd.
    apply M_bind_inv in H as (w2 & r2 & H2 & H). apply wrapM_inv in H2 as (r2' & H2 & ->).
    injection H2 as <- <-. destruct (unmarshal_meta d) as [m| |] eqn:Em; simpl in H;
      [|destruct H as [-> ->]; by left..].
    right; left. exists d, m. injection H as <- <-. done.
  - destruct (errors_Is err ErrNotFound) eqn:Ei; [|left; by injection H as <- <-].
    right; right. injection H as <- <-. split_and!; [by eapply kv_get_notfound|done|done|by eexists].
Qed.

Lemma load_preserves id v : preserves (loadMetadata id v).
Proof.
  intros w w' r (Em & H)%load_inv [Hi Hc]. split; [by rw Em|]. rw Em.
  destruct H as [[-> _]|[(d & m & Hd & Hm & _ & _ & ->)|(_ & _ & Hmiss & t & ->)]]; [done|..].
  2: { intros id' v' m' H. rw /cache_putNegative /= in H. destruct (Hc id' v' m' H) as (m0 & ? & ? & ? & ? & ? & ?). exists m0.
       split_and!; try done. simpl. rw lookup_insert_ne //. intros [-> ->]%metadataKey_inj. congruence. }
  intros id' v' m' H. rw /cache_put /= in H. apply lookup_insert_Some in H as [[[-> ->]%metadataKey_inj ->]|[_ H]].
  2: { destruct (Hc id' v' m' H) as (m0 & ? & ? & ? & ? & ? & ?). exists m0. split_and!; try done.
       simpl. apply lookup_delete_None. by right. }
  assert (stored (wmap w) id' v' m') as Hst by (by exists d).
  destruct (stored_inv _ _ _ _ Hi Hst) as (_ & ? & ? & _ & ?). exists m'.
  split_and!; try done; [left; by left|]. simpl. apply lookup_delete_eq.
Qed.

(** ** Every operation preserves the coherence *)
Ltac solve_shrinks :=
  intros; cbn zeta;
  repeat first
    [ solve [apply keeps_shrinks; solve_keeps]
    | apply shrinks_Invalidate
    | apply shrinks_bind; [|intros ?; cbn zeta]
    | apply shrinks_try | apply shrinks_tx
    | case_match ].

Lemma keeps_cache_pages {A} onErr fuel (body : A → string * data → MW A) o acc :
  (∀ a e, keeps wcache (onErr a e)) → (∀ a i, keeps wcache (body a i)) →
  keeps wcache (scan_pages onErr fuel body o acc).
Proof.
  intros He Hb. assert (∀ items a, keeps wcache (each body items a)).
  { induction items as [|i items IH]; intros a; simpl; solve_keeps. }
  revert o acc. induction fuel as [|fuel IH]; intros o acc; simpl; [by intros w w' r [= <- _]|].
  solve_keeps.
Qed.
Lemma keeps_cache_quota : keeps (wcache (S := S)) quota_check.
Proof.
  assert (keeps (wcache (S := S)) countKeys).
  { intros w w' r. apply keeps_bind; [|solve_keeps]. apply keeps_cache_pages; solve_keeps. }
  rw /quota_check. solve_keeps.
Qed.
#[local] Hint Resolve keeps_cache_quota : keeps.

Lemma CreateKey_cache id kek days : shrinks (CreateKey id kek days).
Proof. rw /CreateKey /saveMetadata /setLatestVersion. solve_shrinks. Qed.
Lemma CreateAsymmetricKey_cache gen sm2 id alg kek : shrinks (CreateAsymmetricKey gen sm2 id alg kek).
Proof. rw /CreateAsymmetricKey /saveMetadata /setLatestVersion. solve_shrinks. Qed.
Lemma import_cache id kek dek : shrinks (import_dek id kek dek).
Proof. rw /import_dek /saveMetadata. solve_shrinks. Qed.
Lemma RotateKey_cache id kek : shrinks (RotateKey id kek).
Proof. rw /RotateKey /rotate_tx /rotate_new. solve_shrinks. Qed.
Lemma SoftDeleteKey_cache id v : shrinks (SoftDeleteKey id v).
Proof. rw /SoftDeleteKey /softdelete_tx. solve_shrinks. Qed.
Lemma RestoreKey_cache id v : shrinks (RestoreKey id v).
Proof. rw /RestoreKey /restore_tx. solve_shrinks. Qed.
Lemma shred_tx_cache id v : keeps (wcache (S := S)) (shred_tx id v).
Proof. rw /shred_tx. solve_keeps. Qed.
Lemma ShredKey_cache id v : shrinks (ShredKey id v).
Proof. pose proof shred_tx_cache. rw /ShredKey. solve_shrinks. Qed.

(** The transaction of a shred: nothing, the Destroyed mark alone, or the removal. *)
Lemma shred_commit id v (w w' : World) r : kv_WithTx (shred_tx id v) w = (w', r) →
  wcache w' = wcache w ∧
  (wmap w' = wmap w ∧ is_ok r = false ∨
   ∃ m, stored (wmap w) id v m ∧
     ((is_ok r = false ∧ wmap w' = <[metadataKey id v := marshal_meta (meta_destroy m)]> (wmap w)) ∨
      ((r = Ok tt ∨ is_ok r = false) ∧ wmap w' = delete (metadataKey id v) (wmap w)))).
Proof.
  intros H. destruct w as [s e], w' as [s' e']. destruct (is_ok r) eqn:Hr.
  - destruct r as [[]| |]; [|done..]. apply kv_tx_ok in H as (s0 & s1 & E0 & H & E1).
    split; [by apply shred_tx_cache in H|]. right.
    apply shred_tx_inv in H as [[? _]|(m & Hst & [[? _]|[_ E]])]; [done..|].
    exists m. rw /wmap /= in Hst E |- *. rw -E0 E1. split; [done|right]. auto.
  - apply kv_tx_err in H as [[E [->|(s0 & s1 & r0 & _ & H)]]|[(_ & s0 & s1 & E0 & H & E1)|(s0 & s1 & a & E0 & H & E1)]]; [| | | |done].
    + split; [done|by left].
    + split; [by apply shred_tx_cache in H|by left].
    + split; [by apply shred_tx_cache in H|]. rw /wmap /=.
      apply shred_tx_inv in H as [[_ E]|(m & Hst & [[_ E]|[_ E]])]; rw /wmap /= in E.
      * left. by rw E1 E E0.
      * right. exists m. rw /wmap /= in Hst. rw -E0 E1. split; [done|by left].
      * right. exists m. rw /wmap /= in Hst. rw -E0 E1. split; [done|right]. auto.
    + split; [by apply shred_tx_cache in H|]. rw /wmap /=.
      apply shred_tx_inv in H as [[? _]|(m & Hst & [[? _]|[_ E]])]; [done..|]. rw /wmap /= in E.
      right. exists m. rw /wmap /= in Hst. rw -E0 E1. split; [done|right]. auto.
Qed.

(** From here on the store answers: the cache of a node is not told of a commit whose answer is
    lost. *)
Context `{!ReliableStore S}.
Lemma shred_answered id v m (w : World) : stored (wmap w) id v m → (kv_WithTx (shred_tx id v) w).2 = Ok tt.
Proof.
  intros (d & Hd & Hm). destruct w as [s e]. rw /wmap /= in Hd. rw rel_tx.
  destruct (rel_put (metadataKey id v) (marshal_meta (meta_destroy m)) s) as [s1 Hp]; [apply metadataKey_nonempty|].
  destruct (rel_delete (metadataKey id v) s1) as [s2 Hdel].
  rw /shred_tx /mbind /M_bind /wrapM /onS rel_get Hd /= Hm /= Hp /= Hdel /= /notifyInTx. by destruct (kv_txNotifies (S := S)).
Qed.

Lemma Shred_preserves id v : preserves (ShredKey id v).
Proof.
  intros w w' r H [Hi Hc]. split.
  { eapply lc_steps_inv; [done|]. by eapply (ShredKey_effect (λ i x, True)). }
  apply M_bind_inv in H as (w1 & r1 & H1 & H). pose proof H1 as Ha. apply shred_commit in H1 as [Ec Hcase].
  assert (r1 = Ok tt → wmap w' = wmap w1 ∧ wcache w' = cache_invalidate id (wcache w1)) as Htail.
  { intros ->. apply M_bind_inv in H as (w2 & r2 & H2 & H). destruct w1 as [s1 e1]. injection H2 as <- <-.
    split; [by apply keeps_map_notifyCluster in H|by apply keeps_cache_notifyCluster in H]. }
  destruct Hcase as [[Em Hr]|(m & Hst & [[Hr Em]|[Hr Em]])].
  - destruct r1; [done|..]; destruct H as [-> _]; by rw Em Ec.
  - assert (w' = w1) as -> by (destruct r1; [done|by destruct H as [-> _]..]). rw Ec Em.
    intros id' v' m' Hm'. destruct (Hc id' v' m' Hm') as (m0 & Hst0 & ? & ? & ? & He & Hneg).
    destruct (decide ((id', v') = (id, v))) as [[= -> ->]|Hne].
    + exists (meta_destroy m). rw stored_insert. split_and!; try done; [by left|by right].
    + exists m0. rw stored_insert. split_and!; try done. by right.
  - pose proof (shred_answered _ _ _ _ Hst) as Hans. rw Ha in Hans. destruct (Htail Hans) as [-> ->]. rw Em Ec. intros id' v' m' Hm'.
    destruct (decide (id' = id)) as [->|Hne]; [by rw cache_invalidate_gone in Hm'|].
    apply cache_invalidate_sub in Hm'. destruct (Hc id' v' m' Hm') as (m0 & Hst0 & ? & ? & ? & He & Hneg).
    exists m0. rw stored_delete. split_and!; try done; [congruence|].
    eapply lookup_weaken_None; [exact Hneg|]. simpl. etrans; [apply delete_subseteq|apply map_filter_subseteq].
Qed.

Lemma Reap_preserves ttl : preserves (reapExpiredSoftDeletes ttl).
Proof.
  assert (∀ A (a : A), preserves (mret a)) as Hret by (intros; apply keeps_preserves; solve_keeps).
  assert (∀ c a i, preserves (reap_item c a i)) as Hitem.
  { intros c a [k d]. rw /reap_item. destruct (unmarshal_meta _); [|done..]. case_match; [|done].
    apply preserves_bind; [apply preserves_try, Shred_preserves|]. by intros [|]. }
  assert (∀ c items a, preserves (each (reap_item c) items a)) as Heach.
  { induction items as [|i items IH]; intros a; simpl; [done|]. by apply preserves_bind. }
  assert (∀ c fuel o a, preserves (scan_pages (λ reaped _, mret reaped) fuel (reap_item c) o a)) as Hpages.
  { intros c. induction fuel as [|fuel IH]; intros o a; simpl; [by intros w w' r [= <- _]|].
    apply preserves_bind; [apply keeps_preserves; solve_keeps|].
    intros [[[|i items] total]|err]; [done| |done]. apply preserves_bind; [apply (Heach c (i :: items))|].
    intros a'. by case_bool_decide. }
  intros w w' r. apply Hpages.
Qed.

Lemma GetActiveKey_preserves id : preserves (GetActiveKey id).
Proof.
  apply preserves_bind; [apply keeps_preserves; solve_keeps|]. intros v.
  apply preserves_bind; [apply load_preserves|]. intros m. apply keeps_preserves; solve_keeps.
Qed.
Lemma GetKeyForDecrypt_preserves id v : preserves (GetKeyForDecrypt id v).
Proof.
  apply preserves_bind; [apply load_preserves|]. intros m. apply keeps_preserves; solve_keeps.
Qed.
Lemma GenerateDataKey_preserves id kek : preserves (GenerateDataKey id kek).
Proof.
  do 2 (apply preserves_bind; [apply keeps_preserves; solve_keeps|intros ?]).
  apply preserves_bind; [apply preserves_wrapM, GetActiveKey_preserves|]. intros m.
  apply keeps_preserves; solve_keeps.
Qed.

Lemma preserves_fst {A} (m : MW A) w : preserves m → winv w → winv (m w).1.
Proof. intros Hm Hw. destruct (m w) as [w' r] eqn:E. by eapply Hm. Qed.

Lemma mgr_apply_winv op (w : World) : op_ok op w → winv w → winv (mgr_apply op w).
Proof.
  intros Hok Hw. destruct op; cbn [mgr_apply op_ok] in *.
  - destruct (CreateKey _ _ _ w) as [w' r] eqn:E. eapply winv_steps; [by eapply CreateKey_effect| |done].
    by eapply CreateKey_cache.
  - destruct (CreateAsymmetricKey _ _ _ _ _ w) as [w' r] eqn:E.
    eapply winv_steps; [by eapply CreateAsymmetricKey_effect| |done]. by eapply CreateAsymmetricKey_cache.
  - destruct (import_dek _ _ _ w) as [w' r] eqn:E.
    eapply winv_steps; [by eapply import_effect| |done]. by eapply import_cache.
  - apply preserves_fst; [|done]. apply effect_preserves; [apply RotateKey_effect|apply RotateKey_cache].
  - by apply preserves_fst; [apply Shred_preserves|].
  - apply preserves_fst; [|done]. apply effect_preserves; [apply SoftDeleteKey_effect|apply SoftDeleteKey_cache].
  - apply preserves_fst; [|done]. apply effect_preserves; [apply RestoreKey_effect|apply RestoreKey_cache].
  - by apply preserves_fst; [apply Reap_preserves|].
  - by apply preserves_fst; [apply load_preserves|].
  - by apply preserves_fst; [apply GetActiveKey_preserves|].
  - by apply preserves_fst; [apply GetKeyForDecrypt_preserves|].
  - by apply preserves_fst; [apply GenerateDataKey_preserves|].
  - apply preserves_fst; [|done]. apply effect_preserves; [apply keeps_effect, keeps_Invalidate|apply shrinks_Invalidate].
  - apply preserves_fst; [|done]. apply effect_preserves; [apply keeps_effect, keeps_map_modE|apply shrinks_Clear].
  - done.
  - done.
Qed.

(** ** A version stays readable until it is destroyed *)
Definition readable (id : string) (v : Z) (mat : bytes) (w : World) : Prop :=
  winv w ∧ dc_negative (wcache w) !! metadataKey id v = None ∧
  ∃ m, stored (wmap w) id v m ∧ km_Material m = mat ∧ km_State m ≠ StateDestroyed.

Definition sparing {A} (id : string) (v : Z) (m : MW A) : Prop :=
  ∀ mat w w' r, m w = (w', r) → readable id v mat w → readable id v mat w'.

Lemma readable_steps P id v mat (w w' : World) : ¬ P id v → lc_steps P (wmap w) (wmap w') →
  cache_le (wcache w) (wcache w') → winv w' → readable id v mat w → readable id v mat w'.
Proof.
  intros HP Hs [_ Hle] Hw' ([Hi _] & Hn & m & Hst & <- & Hd). split; [done|]. split.
  - destruct (dc_negative (wcache w') !! metadataKey id v) eqn:E; [|done].
    eapply lookup_weaken in E; [|done]. congruence.
  - destruct (lc_steps_kept _ _ _ _ _ _ Hi HP Hs Hst) as (m1 & Hst1 & [->|(_ & ? & ?)]); eauto.
Qed.

Lemma keeps_sparing {A} id v (m : MW A) : keeps wmap m → keeps wcache m → sparing id v m.
Proof.
  intros Hm Hc mat w w' r H (Hw & Hn & Hex). rw /readable (Hm _ _ _ H) (Hc _ _ _ H).
  split; [|done]. by eapply keeps_preserves.
Qed.
Lemma sparing_bind {A B} id v (m : MW A) (f : A → MW B) :
  sparing id v m → (∀ a, sparing id v (f a)) → sparing id v (m ≫= f).
Proof.
  intros Hm Hf mat w w' r (w1 & r1 & H1 & H)%M_bind_inv Hw. pose proof (Hm _ _ _ _ H1 Hw) as Hw1.
  destruct r1; [by eapply Hf|by destruct H as [-> _]..].
Qed.
Lemma sparing_wrapM {A} id v ctx (m : MW A) : sparing id v m → sparing id v (wrapM ctx m).
Proof. intros Hm mat w w' r (r1 & H & _)%wrapM_inv. by eapply Hm. Qed.

Lemma load_sparing id v id' v' : sparing id v (loadMetadata id' v').
Proof.
  intros mat w w' r H (Hw & Hn & m & Hst & Hm). pose proof (load_preserves _ _ _ _ _ H Hw) as Hw'.
  split; [done|]. apply load_inv in H as [Em H]. rw Em. split; [|by eauto].
  destruct H as [[-> _]|[(d & m' & Hd & _ & _ & _ & ->)|(Hnone & _ & _ & t & ->)]]; [done|..].
  - simpl. apply lookup_delete_None. by right.
  - simpl. rw lookup_insert_ne //. intros [-> ->]%metadataKey_inj. destruct Hst as (d & Hd & _). congruence.
Qed.
Lemma GetActiveKey_sparing id v id' : sparing id v (GetActiveKey id').
Proof.
  apply sparing_bind; [apply keeps_sparing; solve_keeps|]. intros u.
  apply sparing_bind; [apply load_sparing|]. intros m. apply keeps_sparing; solve_keeps.
Qed.

Lemma mgr_apply_readable op id v mat (w : World) : op_ok op w → ¬ op_destroys op id v →
  readable id v mat w → readable id v mat (mgr_apply op w).
Proof.
  intros Hok Hd Hr. pose proof (mgr_apply_winv op w Hok (proj1 Hr)) as Hw'.
  assert (cache_le (wcache w) (wcache (mgr_apply op w)) → readable id v mat (mgr_apply op w)) as Hsh.
  { intros Hle. by eapply readable_steps; [| apply mgr_apply_lc|..]. }
  assert (∀ A (m : MW A), shrinks m → cache_le (wcache w) (wcache (m w).1)) as Hfst.
  { intros A m Hm. destruct (m w) as [w' r] eqn:E. by eapply Hm. }
  assert (∀ A (m : MW A), sparing id v m → readable id v mat (m w).1) as Hsp.
  { intros A m Hm. destruct (m w) as [w' r] eqn:E. by eapply Hm. }
  destruct op; cbn [mgr_apply op_ok op_destroys] in *;
    try (apply Hsh, Hfst; first [apply CreateKey_cache | apply CreateAsymmetricKey_cache | apply import_cache | apply RotateKey_cache
      | apply ShredKey_cache | apply SoftDeleteKey_cache | apply RestoreKey_cache | apply shrinks_Invalidate
      | apply shrinks_Clear]).
  - done.
  - apply Hsp, load_sparing.
  - apply Hsp, GetActiveKey_sparing.
  - apply Hsp, sparing_bind; [apply load_sparing|]. intros m. apply keeps_sparing; solve_keeps.
  - apply Hsp. do 2 (apply sparing_bind; [apply keeps_sparing; solve_keeps|intros ?]).
    apply sparing_bind; [apply sparing_wrapM, GetActiveKey_sparing|]. intros m. apply keeps_sparing; solve_keeps.
  - by apply Hsh.
  - by apply Hsh.
Qed.

(** What a decryption lookup of a readable version returns. *)
Lemma GetKeyForDecrypt_readable id v mat (w w' : World) m : readable id v mat w →
  GetKeyForDecrypt id v w = (w', Ok m) → km_Material m = mat ∧ km_KeyID m = id ∧ km_Version m = v.
Proof.
  intros ([Hi Hc] & _ & m0 & Hst & <- & Hnd) H. apply M_bind_ok in H as (w1 & m1 & H1 & H).
  assert (m1 = m) as ->.
  { destruct (_ || _) in H; [by injection H as _ ->|]. by case_bool_decide. }
  apply load_inv in H1 as [_ H1]. destruct H1 as [[_ E]|[(d & m' & Hd & Hm & [= <-] & _)|(_ & ? & _)]]; [| |done].
  - destruct (Hc id v m E) as (m' & Hst' & ? & ? & _ & He & Hneg). pose proof (stored_fun _ _ _ _ _ Hst Hst') as <-.
    destruct He as [[->|(_ & _ & ?)]|?]; done.
  - assert (stored (wmap w) id v m) as Hst' by (by exists d). pose proof (stored_fun _ _ _ _ _ Hst Hst') as ->.
    by destruct (stored_inv _ _ _ _ Hi Hst') as (_ & ? & ? & _).
Qed.

Lemma GetKeyForDecrypt_total id v mat (w : World) : readable id v mat w →
  ∃ w' m, GetKeyForDecrypt id v w = (w', Ok m).
Proof.
  intros ([Hi Hc] & Hn & m0 & Hst & Hmat & Hnd).
  assert (∃ w1 m, loadMetadata id v w = (w1, Ok m) ∧ km_State m ≠ StateDestroyed ∧ known_state (km_State m))
    as (w1 & m & Hl & Hs & Hk).
  { destruct w as [s e]. rw /loadMetadata /=. rw /wmap /wcache /= in Hi Hc Hn Hst.
    destruct (dc_data (m_cache e) !! metadataKey id v) as [m|] eqn:E.
    - destruct (Hc id v m E) as (m' & Hst' & _ & _ & Hk & He & Hneg).
      pose proof (stored_fun _ _ _ _ _ Hst Hst') as <-. exists (s, e), m. rw /mbind /M_bind /= /cache_get E.
      split; [done|]. destruct He as [[->|(? & _)]|?]; done.
    - destruct (stored_inv _ _ _ _ Hi Hst) as (Hd & _ & _ & _ & Hk).
      eexists _, m0. split; [|done]. rw /mbind /M_bind /= /cache_get E /cache_isNegative Hn /try_ /onS rel_get Hd /=.
      by rw /wrapM /lift unmarshal_marshal_meta. }
  exists w1, m. rw /GetKeyForDecrypt (M_bind_step _ _ _ _ _ Hl).
  destruct Hk as [Hk|[Hk|[Hk|Hk]]]; [rw Hk..|done]; done.
Qed.

(** A record that was read successfully is readable from then on. *)
Lemma load_readable id v (w w' : World) m : winv w → loadMetadata id v w = (w', Ok m) →
  (∀ m0, stored (wmap w) id v m0 → km_State m0 ≠ StateDestroyed) →
  readable id v (km_Material m) w' ∧ km_Version m = v.
Proof.
  intros Hw H Hnd. pose proof (load_preserves _ _ _ _ _ H Hw) as Hw'. destruct Hw as [Hi Hc].
  apply load_inv in H as [Em H]. rw /readable Em.
  destruct H as [[-> E]|[(d & m' & Hd & Hm & [= <-] & _ & Ec)|(_ & ? & _)]]; [| |done].
  - destruct (Hc id v m E) as (m' & Hst & _ & Hv & _ & He & Hneg). split; [|done]. split_and!; [done..|].
    exists m'. split_and!; [done| |by apply Hnd].
    destruct He as [[->|(_ & _ & ?)]|Hd]; [done..|by destruct (Hnd m' Hst)].
  - assert (stored (wmap w) id v m) as Hst by (by exists d).
    destruct (stored_inv _ _ _ _ Hi Hst) as (_ & _ & Hv & _). split; [|done]. split_and!; [done| |].
    + rw Ec /=. apply lookup_delete_eq.
    + exists m. split_and!; [done..|by apply Hnd].
Qed.
End Cache.
