(* ===== verification/KeyManagement.v ===== *)
(** What the key manager guarantees: the theorems over [Manager.v] and
    [Lifecycle.v], for every store that satisfies the [KVStoreLaws], with witnesses
    on the in-memory store. *)

From stdpp Require Import fin_maps fin_sets.
From S2P Require Import Prelude SecureBuffer AesGcm Ciphertext Kek Store Postgres Metadata Manager Transit Lifecycle Cache.
Import MemoryKV.

(** A manager over an empty in-memory store. *)
Definition demo_env (rnd : entropy) : Env := mkEnv newDekCache true 0 1000000 rnd [].
Definition demo_world (rnd : entropy) : MemoryKV.WMem * Env := (MemoryKV.empty, demo_env rnd).
Definition demo_kek : option KEK := Some (NewSoftwareKEK demo_key).

Definition demo_pg (faults : list fate) (rnd : entropy) : Pg * Env := (pg_empty faults, demo_env rnd).

Section Runs.
Context {S : Type} `{!KVStore S, !KVStoreLaws S}.
Abbreviation World := (S * Env)%type.

(** Concrete histories, with the freshness of created ids checked by evaluation. *)
Definition fresh_b (f : gmap string data) (id : string) : bool :=
  forallb (λ kd, match unmarshal_meta kd.2 with Ok m => negb (bool_decide (km_KeyID m = id)) | _ => true end)
    (map_to_list f).
Definition op_ok_b (op : mgr_op) (w : World) : bool :=
  match op with
  | OpCreate id _ _ | OpCreateAsym _ _ id _ _ | OpImport id _ _ => fresh_b (wmap w) id
  | _ => true
  end.
Fixpoint mgr_run (ops : list mgr_op) (w : World) : World :=
  match ops with [] => w | op :: ops => mgr_run ops (mgr_apply op w) end.
Fixpoint run_ok_b (ops : list mgr_op) (w : World) : bool :=
  match ops with [] => true | op :: ops => op_ok_b op w && run_ok_b ops (mgr_apply op w) end.

Lemma fresh_b_sound f id : lc_inv f → fresh_b f id = true → fresh_id f id.
Proof.
  intros Hi Hb v. destruct (f !! metadataKey id v) as [d|] eqn:E; [|done].
  destruct (inv_doc f Hi _ _ E (metadataKey_key _ _)) as (m & -> & [-> ->]%metadataKey_inj & _).
  rw /fresh_b forallb_forall in Hb. specialize (Hb (metadataKey (km_KeyID m) (km_Version m), marshal_meta m)).
  simpl in Hb. rw unmarshal_marshal_meta bool_decide_eq_true_2 // in Hb.
  discriminate Hb. apply list_elem_of_In, elem_of_map_to_list, E.
Qed.

Lemma mgr_run_reach ops (w : World) : lc_inv (wmap w) → run_ok_b ops w = true →
  rtc mgr_step w (mgr_run ops w) ∧ lc_inv (wmap (mgr_run ops w)).
Proof.
  revert w. induction ops as [|op ops IH]; intros w Hi Hb; [done|]. simpl in *.
  apply andb_true_iff in Hb as [Ho Hb].
  assert (op_ok op w) as Hok by (destruct op; try done; by apply fresh_b_sound).
  destruct (IH (mgr_apply op w)) as [Hr ?]; [by eapply lc_steps_inv; [|apply mgr_apply_lc]|done|].
  split; [|done]. eapply rtc_l; [by apply mgr_step_op|done].
Qed.
End Runs.

(** A history used by the witnesses below: two keys, a rotation, the recycle bin. *)
Definition demo_ops : list mgr_op :=
  [OpCreate "k" demo_kek 30; OpRotate "k" demo_kek; OpCreate "j" demo_kek 0;
   OpSoftDelete "k" 1; OpGet "k" 1; OpRotate "k" demo_kek; OpShred "j" 1; OpRestore "k" 1].

Section Theorems.
Context {S : Type} `{!KVStore S, !KVStoreLaws S}.
Abbreviation World := (S * Env)%type.
Abbreviation mgr_reach := (rtc (mgr_step (S := S))).

Lemma mgr_step_inv (w w' : World) : lc_inv (wmap w) → mgr_step w w' → lc_inv (wmap w').
Proof. intros Hi H. destruct H as [op w Hok]. eapply lc_steps_inv; [exact Hi|by apply mgr_apply_lc]. Qed.
Lemma mgr_reach_inv (w w' : World) : lc_inv (wmap w) → mgr_reach w w' → lc_inv (wmap w').
Proof. intros Hi H. induction H; eauto using mgr_step_inv. Qed.

(** C6: one Active version at most, and it is the newest, as long as no key is created or
    imported under the id of a stored one: in every world a manager reaches from an empty store
    by operations that meet this condition, however they ended, every stored record is filed under
    its own id and version in a documented state, and an Active version of a key is newer than
    every other stored version of that key. The code does not check the condition; see
    [recreated_key_two_active]. *)
Theorem one_active_version (w0 w : World) : wmap w0 = ∅ → mgr_reach w0 w →
  (∀ k d, wmap w !! k = Some d → has_prefix "key:" k = true →
     ∃ m, d = marshal_meta m ∧ k = metadataKey (km_KeyID m) (km_Version m) ∧ known_state (km_State m)) ∧
  (∀ id v m v' m', stored (wmap w) id v m → km_State m = StateActive →
     stored (wmap w) id v' m' → (v, m) ≠ (v', m') → (v' < v)%Z ∧ km_State m' ≠ StateActive).
Proof.
  intros H0 H. assert (lc_inv (wmap w)) as Hi.
  { eapply mgr_reach_inv; [|done]. rw H0. apply lc_inv_empty. }
  split.
  - intros k d Hk Hp. destruct (inv_doc _ Hi k d Hk Hp) as (m & -> & -> & _ & Hs). eauto.
  - intros id v m v' m' Hm Ha Hm' Hne. pose proof (inv_newest _ Hi _ _ _ _ _ Hm Ha Hm').
    assert (v' ≠ v). { intros ->. destruct Hne. f_equal. by eapply stored_fun. }
    split; [lia|]. intros Ha'. pose proof (inv_newest _ Hi _ _ _ _ _ Hm' Ha' Hm). lia.
Qed.

(** The tail of a committed operation: the local cache forgets the key. *)
Lemma commit_tail {A} id (a a' : A) (w w' : World) :
  (InvalidateCache id;; notifyClusterIfNoTxNotifier id;; mret a) w = (w', Ok a') →
  a' = a ∧ wmap w' = wmap w ∧ wcache w' = cache_invalidate id (wcache w).
Proof.
  intros H. apply M_bind_ok in H as (w2 & u2 & H2 & H). apply M_bind_ok in H as (w3 & u3 & H3 & H).
  injection H as <- <-. pose proof (keeps_map_notifyCluster _ _ _ _ H3) as ->.
  pose proof (keeps_cache_notifyCluster _ _ _ _ H3) as ->. destruct w as [s e]. by injection H2 as <-.
Qed.

(** ** Rotation *)
Lemma RotateKey_ok id kek (w w' : World) mnew sb :
  RotateKey id (Some kek) w = (w', Ok (mnew, sb)) →
  ∃ v m, stored (wmap w) id v m ∧ km_State m = StateActive ∧ rotated_new id v m mnew ∧
    (∃ s' s, kv_map s = wmap w ∧ getLatestVersion (S := S) id s = (s', Ok v)) ∧
    (∃ e1 e2 e3, NewSecureBufferFromRandom (dekSizeFromKEK kek) e1 = (e2, Ok sb) ∧
       kek_WrapDEK kek sb e2 = (e3, Ok (km_Material mnew))) ∧
    (wmap w' = put_meta mnew (rotated_old id v m (wmap w)) ∨
     wmap w' = <[latestVersionMetadataKey id := marshal_int (v + 1)]>
                 (put_meta mnew (rotated_old id v m (wmap w)))) ∧
    ∃ c, wcache w' = cache_invalidate id c.
Proof.
  intros H. rw /RotateKey in H. apply M_bind_ok in H as (w0 & u & [_ ->]%guardM_ok & H).
  apply M_bind_ok in H as (w0' & k & Hk & H). injection Hk as <- <-.
  apply M_bind_ok in H as (w1 & [mn sb'] & Htx & H).
  apply commit_tail in H as ([= -> ->] & E2 & E3).
  destruct w as [s x], w1 as [s1 x1]. apply kv_tx_ok in Htx as (s0 & s2 & E0 & Hfn & E1).
  apply rotate_tx_inv in Hfn as [[? _]|(wl & v & m & Hl & Hv & Hst & Ha & H)]; [done|].
  destruct H as [[? _]|(mnew' & sb0 & Hn & Hw & [?|Hr] & E)]; [done..|]. injection Hr as <- <-.
  exists v, m. rw /wmap /= in Hst E |- *. rw E0 in Hst. rw /wmap in E2. rw E2 /= E1 -E0. split_and!; try done; [|..|by eauto].
  - by rw E0.
  - rw /onS in Hl. destruct (getLatestVersion id s0) as [s' r] eqn:El. injection Hl as _ ->. eauto.
Qed.

(** C8: a committed rotation does what it says: the Active version [v] it found
    is stored again as Deactivated with everything else unchanged, version [v + 1],
    which did not exist, is stored as Active with the same rotation period, its
    material unwraps to the returned plaintext key of the KEK's size, no other key
    of the store changes but the version index, and no version of the key stays in
    the cache. *)
Theorem RotateKey_spec id kek (w w' : World) mnew sb :
  LawfulKEK kek → lc_inv (wmap w) → RotateKey id (Some kek) w = (w', Ok (mnew, sb)) →
  ∃ v m, stored (wmap w) id v m ∧ km_State m = StateActive ∧
    stored (wmap w') id v (meta_set_state StateDeactivated (km_DeletedAt m) m) ∧
    wmap w !! metadataKey id (v + 1) = None ∧ stored (wmap w') id (v + 1) mnew ∧
    km_State mnew = StateActive ∧ km_RotationDays mnew = km_RotationDays m ∧
    kek_UnwrapDEK kek (km_Material mnew) = Ok sb ∧
    Z.of_nat (length (sb_data sb)) = dekSizeFromKEK kek ∧
    (∀ k, k ≠ metadataKey id v → k ≠ metadataKey id (v + 1) → k ≠ latestVersionMetadataKey id →
       wmap w' !! k = wmap w !! k) ∧
    (∀ u, dc_data (wcache w') !! metadataKey id u = None).
Proof.
  intros Hkek Hi H. apply RotateKey_ok in H
    as (v & m & Hst & Ha & (Hid & Hver & Hact & Hrot & _) & _ & (e1 & e2 & e3 & Hsb & Hct) & Hmap & c & Hc).
  apply NewSecureBufferFromRandom_ok in Hsb as (_ & Hlen & Hlive). exists v, m.
  assert (∀ id' v' m', stored (wmap w') id' v' m' ↔
            stored (put_meta mnew (rotated_old id v m (wmap w))) id' v' m') as Hst'.
  { intros id' v' m'. destruct Hmap as [-> | ->]; [done|apply stored_index]. }
  assert (wmap w !! metadataKey id (v + 1) = None) as Hnone.
  { destruct (wmap w !! metadataKey id (v + 1)) as [d|] eqn:Ed; [|done].
    destruct (inv_doc _ Hi _ _ Ed (metadataKey_key _ _)) as (m' & -> & Hk & _).
    assert (stored (wmap w) id (v + 1) m') as Hst1 by (exists (marshal_meta m'); by rw unmarshal_marshal_meta).
    pose proof (inv_newest _ Hi _ _ _ _ _ Hst Ha Hst1). lia. }
  split_and!; try done.
  - apply Hst', stored_put. right. rw Hver. split; [intros [= _ ?]; lia|]. apply stored_old. by left.
  - apply Hst', stored_put. left. by rw Hid Hver.
  - rw (kek_roundtrip (kek := kek) sb e2 e3); [|done|].
    + intros E. rw E in Hlen. pose proof (kek_size_pos (kek := kek)). simpl in Hlen. lia.
    + destruct sb; rw /live /= in Hlive. by subst.
  - intros k H1 H2 H3. rw /put_meta /rotated_old Hid Hver in Hmap.
    destruct Hmap as [-> | ->]; by rw !lookup_insert_ne.
  - intros u. rw Hc. apply cache_invalidate_gone.
Qed.

(** ** Failure *)
Lemma tx_all_or_nothing {A} (fn : M World A) w w' r : kv_rollback w.1 = true →
  kv_WithTx fn w = (w', r) → is_ok r = false →
  wmap w' = wmap w ∨ ∃ w0 w1 a, wmap w0 = wmap w ∧ w0.2 = w.2 ∧ fn w0 = (w1, Ok a) ∧ wmap w' = wmap w1.
Proof.
  intros Hrb H Hr. destruct w as [s e], w' as [s' e']. simpl in Hrb.
  apply kv_tx_err in H as [[E _]|[(? & _)|(s0 & s1 & a & E0 & H & E1)]]; [by left|congruence| |done].
  right. by exists (s0, e), (s1, e'), a.
Qed.
Lemma notify_ok id (w w' : World) r : notifyClusterIfNoTxNotifier id w = (w', r) → r = Ok tt.
Proof.
  destruct w as [s e]. rw /notifyClusterIfNoTxNotifier /mbind /M_bind /=.
  by destruct (m_notifier e); intros [= _ <-].
Qed.
Lemma invalidate_ok id (w w' : World) r : InvalidateCache id w = (w', r) → r = Ok tt.
Proof. destruct w as [s e]. by intros [= _ <-]. Qed.

(** What each operation writes when it commits. *)
Definition rotation_of (id : string) (f f' : gmap string data) : Prop :=
  ∃ v m mnew, stored f id v m ∧ km_State m = StateActive ∧ rotated_new id v m mnew ∧
    (f' = put_meta mnew (rotated_old id v m f) ∨
     f' = <[latestVersionMetadataKey id := marshal_int (v + 1)]> (put_meta mnew (rotated_old id v m f))).
Definition shred_of (id : string) (v : Z) (f f' : gmap string data) : Prop :=
  ∃ m, stored f id v m ∧ f' = delete (metadataKey id v) f.
Definition softdelete_of (id : string) (v now : Z) (f f' : gmap string data) : Prop :=
  ∃ m, stored f id v m ∧ km_State m ≠ StateSoftDeleted ∧ km_State m ≠ StateDestroyed ∧
    f' = <[metadataKey id v := marshal_meta (meta_set_state StateSoftDeleted now m)]> f.
Definition restore_of (id : string) (v : Z) (f f' : gmap string data) : Prop :=
  ∃ m, stored f id v m ∧ km_State m = StateSoftDeleted ∧
    f' = <[metadataKey id v := marshal_meta (meta_set_state StateDeactivated 0 m)]> f.
Lemma RotateKey_fails id kek (w w' : World) r : kv_rollback w.1 = true → RotateKey id kek w = (w', r) → is_ok r = false →
  wmap w' = wmap w ∨ rotation_of id (wmap w) (wmap w').
Proof.
  intros Hrb H Hr. rw /RotateKey in H.
  apply keeps_bind_inv in H as [[_ ->]|(w1 & u & [_ ->]%guardM_ok & _ & H)]; [by left| |solve_keeps].
  apply keeps_bind_inv in H as [[_ ->]|(w2 & k & Hk & _ & H)]; [by left| |solve_keeps].
  assert (w2 = w) as -> by (destruct kek; by injection Hk as <-). apply M_bind_inv in H as (w3 & r3 & H3 & H).
  assert (is_ok r3 = false ∧ w' = w3) as [Hr3 ->].
  { destruct r3 as [[mn sb]| |]; [|by destruct H as [-> _]..]. apply M_bind_inv in H as (w4 & r4 & ->%invalidate_ok & H).
    apply M_bind_inv in H as (w5 & r5 & ->%notify_ok & H). by injection H as _ <-. }
  apply tx_all_or_nothing in H3 as [?|(w0 & w1 & [mn sb] & E0 & _ & H3 & ->)]; [by left| |done..].
  right. apply rotate_tx_inv in H3 as [[? _]|(wl & v & m & _ & _ & Hst & Ha & H3)]; [done|]. rw E0 in Hst H3.
  destruct H3 as [[? _]|(mnew & sb0 & Hn & _ & _ & E)]; [done|]. by exists v, m, mnew.
Qed.
Lemma ShredKey_fails id v (w w' : World) r : kv_rollback w.1 = true → ShredKey id v w = (w', r) → is_ok r = false →
  wmap w' = wmap w ∨ shred_of id v (wmap w) (wmap w').
Proof.
  intros Hrb H Hr. apply M_bind_inv in H as (w3 & r3 & H3 & H).
  assert (is_ok r3 = false ∧ w' = w3) as [Hr3 ->].
  { destruct r3 as [u| |]; [|by destruct H as [-> _]..]. apply M_bind_inv in H as (w4 & r4 & ->%invalidate_ok & H). by apply notify_ok in H as ->. }
  apply tx_all_or_nothing in H3 as [?|(w0 & w1 & u & E0 & _ & H3 & ->)]; [by left| |done..]. right.
  apply shred_tx_inv in H3 as [[? _]|(m & Hst & [[? _]|[_ E]])]; [done..|]. rw E0 in Hst E. by exists m.
Qed.

(** C11: on a store with transactions, a rotation, a shred, a soft delete or a restore that reports
    an error is all or nothing: the stored map is exactly as it was, or (the answer to the
    COMMIT was lost) exactly as the operation leaves it when it succeeds: for a rotation both
    the deactivated version and its successor, for a shred the removal, for the recycle bin the
    one record in its new state. No error leaves part of an operation behind. *)
Theorem failed_operation_all_or_nothing id v kek (w w' : World) :
  kv_rollback w.1 = true →
  (∀ r, RotateKey id kek w = (w', r) → is_ok r = false → wmap w' = wmap w ∨ rotation_of id (wmap w) (wmap w')) ∧
  (∀ r, ShredKey id v w = (w', r) → is_ok r = false → wmap w' = wmap w ∨ shred_of id v (wmap w) (wmap w')) ∧
  (∀ r, SoftDeleteKey id v w = (w', r) → is_ok r = false → wmap w' = wmap w ∨ softdelete_of id v (m_now w.2) (wmap w) (wmap w')) ∧
  (∀ r, RestoreKey id v w = (w', r) → is_ok r = false → wmap w' = wmap w ∨ restore_of id v (wmap w) (wmap w')).
Proof.
  intros Hrb. split_and!.
  - intros r. by apply RotateKey_fails.
  - intros r. by apply ShredKey_fails.
  - intros r H Hr. apply tx_all_or_nothing in H as [?|(w0 & w1 & u & E0 & Ee & H & ->)]; [by left| |done..].
    rw -E0 -Ee. by apply softdelete_tx_inv in H as [?|?]; [left|right].
  - intros r H Hr. apply M_bind_inv in H as (w3 & r3 & H3 & H).
    assert (is_ok r3 = false ∧ w' = w3) as [Hr3 ->] by (destruct r3 as [u| |]; [by apply notify_ok in H as ->|by destruct H as [-> _]..]).
    apply tx_all_or_nothing in H3 as [?|(w0 & w1 & u & E0 & _ & H3 & ->)]; [by left| |done..].
    rw -E0. by apply restore_tx_inv in H3 as [?|?]; [left|right].
Qed.

(** ** Destruction *)
(** C9: a committed shred is final: the version is removed from the store, every
    other key is untouched, and from the resulting world on the version can neither
    be read nor used for decryption, through the cache or from the store, at any
    later time, until a new version of that number is stored. *)
Theorem ShredKey_irrecoverable id v (w w' : World) :
  ShredKey id v w = (w', Ok tt) →
  wmap w' = delete (metadataKey id v) (wmap w) ∧
  (∀ t w'' r, GetKeyForDecrypt id v (w'.1, set_now t w'.2) = (w'', r) → is_ok r = false) ∧
  (∀ t w'' r, GetKey id v (w'.1, set_now t w'.2) = (w'', r) → is_ok r = false).
Proof.
  intros H. apply M_bind_ok in H as (w1 & u & H1 & H). apply shred_commit in H1 as [_ Hc].
  destruct Hc as [[_ ?]|(m & _ & [[? _]|[_ Em]])]; [done..|].
  apply M_bind_ok in H as (w2 & u2 & H2 & H). destruct w1 as [s1 e1]. injection H2 as <-.
  pose proof (keeps_map_notifyCluster _ _ _ _ H) as Em'. pose proof (keeps_cache_notifyCluster _ _ _ _ H) as Ec'.
  assert (wmap w' = delete (metadataKey id v) (wmap w)) as Hmap by (rw Em'; exact Em).
  assert (∀ t w'' r, loadMetadata id v (w'.1, set_now t w'.2) = (w'', r) → is_ok r = false) as Hl.
  { intros t w'' r [_ Hl]%load_inv. change (wcache (w'.1, set_now t w'.2)) with (wcache w') in Hl.
    change (wmap (w'.1, set_now t w'.2)) with (wmap w') in Hl. rw Ec' cache_invalidate_gone Hmap lookup_delete_eq in Hl.
    destruct Hl as [[_ E]|[(d & m' & [=] & _)|(_ & ? & _)]]; [|done]. by destruct r. }
  split_and!; [done| |exact Hl]. intros t w'' r Hg. apply M_bind_inv in Hg as (w3 & r3 & H3 & Hg).
  apply Hl in H3. destruct r3; [done|by destruct Hg as [_ ->]..].
Qed.
End Theorems.

(** ** Witnesses *)
Lemma demo_empty rnd : wmap (demo_world rnd) = ∅.
Proof. apply omap_empty. Qed.
Lemma demo_inv rnd : lc_inv (wmap (demo_world rnd)).
Proof. rw demo_empty. apply lc_inv_empty. Qed.
Lemma demo_run_ok : run_ok_b demo_ops (demo_world (demo_entropy 300)) = true.
Proof. vm_compute. reflexivity. Qed.
Definition demo_final : WMem * Env := mgr_run demo_ops (demo_world (demo_entropy 300)).
Lemma demo_final_inv : rtc mgr_step (demo_world (demo_entropy 300)) demo_final ∧ lc_inv (wmap demo_final).
Proof. apply mgr_run_reach; [apply demo_inv|apply demo_run_ok]. Qed.
(** A stored record found by evaluation. *)
Lemma stored_eval {S} `{!KVStore S} (w : S * Env) id v m : rec (wmap w) id v = Some m → stored (wmap w) id v m.
Proof. apply rec_Some. Qed.

(** Creating a key again gives it two Active versions: [CreateKey] does not look for the id. *)
Example recreated_key_two_active :
  let w := mgr_run [OpCreate "k" demo_kek 30; OpRotate "k" demo_kek; OpCreate "k" demo_kek 30] (demo_world (demo_entropy 300)) in
  (km_State <$> rec (wmap w) "k" 1, km_State <$> rec (wmap w) "k" 2) = (Some StateActive, Some StateActive).
Proof. vm_compute. reflexivity. Qed.

Lemma one_active_version_witness : ∃ m m',
  stored (wmap demo_final) "k" 3 m ∧ km_State m = StateActive ∧ stored (wmap demo_final) "k" 1 m' ∧
  km_State m' ≠ StateActive.
Proof.
  destruct (one_active_version (demo_world (demo_entropy 300)) demo_final (demo_empty _) (proj1 demo_final_inv)) as [_ H].
  eexists _, _. split; [apply stored_eval; vm_compute; reflexivity|]. split; [reflexivity|].
  split; [apply stored_eval; vm_compute; reflexivity|].
  eapply (H "k" 3%Z _ 1%Z); [apply stored_eval; vm_compute; reflexivity|reflexivity|apply stored_eval; vm_compute; reflexivity|].
  intros [=].
Defined.

(** A world with key [k] at version 1, Active. *)
Definition demo_created : WMem * Env := mgr_run [OpCreate "k" demo_kek 30] (demo_world (demo_entropy 300)).
Lemma demo_created_inv : lc_inv (wmap demo_created).
Proof. apply mgr_run_reach; [apply demo_inv|vm_compute; reflexivity]. Qed.

Lemma RotateKey_spec_witness : ∃ w' mnew sb,
  RotateKey "k" demo_kek demo_created = (w', Ok (mnew, sb)) ∧
  kek_UnwrapDEK (NewSoftwareKEK demo_key) (km_Material mnew) = Ok sb ∧ stored (wmap w') "k" 2 mnew.
Proof.
  assert (∃ r, (RotateKey "k" demo_kek demo_created).2 = Ok r ∧ km_Version r.1 = 2%Z) as ([mnew sb] & Hr & Hv).
  { eexists. split; [vm_compute; reflexivity|reflexivity]. }
  destruct (RotateKey "k" demo_kek demo_created) as [w' r] eqn:E. simpl in Hr. subst r.
  exists w', mnew, sb. split; [done|].
  destruct (RotateKey_spec "k" (NewSoftwareKEK demo_key) demo_created w' mnew sb _ demo_created_inv E)
    as (v & m & _ & _ & _ & _ & Hst & _ & _ & Hu & _).
  split; [done|]. replace 2%Z with (v + 1)%Z; [done|].
  assert (lc_inv (wmap w')) as Hi' by (eapply lc_steps_inv; [apply demo_created_inv|by eapply (RotateKey_effect (λ _ _, False))]).
  destruct (stored_inv _ _ _ _ Hi' Hst) as (_ & _ & Hver & _). simpl in Hv. congruence.
Defined.

(** The answers to the first call and to the COMMIT of a rotation are lost: of the creation nothing
    is reported but all is stored, and so of the rotation. *)
Definition demo_lost : Pg * Env := mgr_run [OpCreate "k" demo_kek 30] (demo_pg (Lost :: replicate 8 Works ++ [Lost]) (demo_entropy 300)).
Lemma failed_operation_all_or_nothing_witness : ∃ w' e,
  RotateKey "k" demo_kek demo_lost = (w', Error e) ∧ (wmap w' = wmap demo_lost ∨ rotation_of "k" (wmap demo_lost) (wmap w')) ∧
  rec (wmap w') "k" 2 ≠ None.
Proof.
  destruct (RotateKey "k" demo_kek demo_lost) as [w' r] eqn:E.
  assert (r = Error (Err_wrap "postgres: commit" (Err_new "pgx"))) as -> by (change r with (w', r).2; rw -E; vm_compute; reflexivity).
  exists w', (Err_wrap "postgres: commit" (Err_new "pgx")). split; [reflexivity|]. split.
  - destruct (failed_operation_all_or_nothing "k" 1 demo_kek demo_lost w') as [H _]; [vm_compute; reflexivity|]. exact (H _ E eq_refl).
  - replace w' with (RotateKey "k" demo_kek demo_lost).1 by (rw E; reflexivity). vm_compute. discriminate.
Defined.

Lemma ShredKey_irrecoverable_witness : ∃ w',
  ShredKey "k" 1 demo_created = (w', Ok tt) ∧ wmap w' !! metadataKey "k" 1 = None.
Proof.
  destruct (ShredKey "k" 1 demo_created) as [w' r] eqn:E.
  assert (r = Ok tt) as -> by (change r with (w', r).2; rw -E; vm_compute; reflexivity).
  exists w'. split; [done|]. destruct (ShredKey_irrecoverable "k" 1 demo_created w' E) as [-> _].
  apply lookup_delete_eq.
Defined.
