(* ===== verification/Scans.v ===== *)
(** The scanning loops of the key manager: the version scan behind
    [findLatestVersion], the paged scans behind [ListKeyIDs] and [countKeys], and
    the reaper. The loops run on fuel; each theorem states the result outright, so
    that the fuel of the definitions (one more than the number of stored keys) is
    shown to be enough. *)

From stdpp Require Import fin_maps fin_sets.
From S2P Require Import Prelude SecureBuffer AesGcm Ciphertext Kek Store Metadata Manager Transit Lifecycle Cache KeyManagement.

Import MemoryKV.

(** ** The version scan *)
(** The version index, when it holds a usable number. *)
Definition index_of (f : gmap string data) (id : string) : option Z :=
  d ← f !! latestVersionMetadataKey id;
  match data_empty d, unmarshal_int d with
  | false, Ok v => if bool_decide (0 < v)%Z then Some v else None
  | _, _ => None
  end.

Section Versions.
Context {S : Type} `{!KVStore S, !KVStoreLaws S, !ReliableStore S}.

(** Consecutive versions are distinct keys, so there are no more than stored keys. *)
Lemma versions_bound (f : gmap string data) id n :
  (∀ u, (1 ≤ u ≤ Z.of_nat n)%Z → is_Some (f !! metadataKey id u)) → n ≤ size f.
Proof.
  intros H. set (ks := (λ u, metadataKey id (Z.of_nat u)) <$> seq 1 n).
  assert (NoDup ks) as Hnd.
  { apply NoDup_fmap_2_strong; [|apply NoDup_seq]. intros x y _ _ [_ E]%metadataKey_inj. lia. }
  assert ((list_to_set ks : gset string) ⊆ dom f) as Hsub.
  { intros k Hk. apply elem_of_list_to_set, list_elem_of_fmap in Hk as (u & -> & Hu%elem_of_seq).
    apply elem_of_dom, H. lia. }
  apply subseteq_size in Hsub. rw size_list_to_set // size_dom in Hsub.
  by rw /ks length_fmap length_seq in Hsub.
Qed.

Lemma scan_versions_spec id fuel v (s : S) :
  (1 ≤ v)%Z → (∀ u, (1 ≤ u < v)%Z → is_Some (kv_map s !! metadataKey id u)) →
  (Z.of_nat (size (kv_map s)) + 2 < Z.of_nat fuel + v)%Z →
  ∃ n, (v ≤ n + 1)%Z ∧ (∀ u, (1 ≤ u ≤ n)%Z → is_Some (kv_map s !! metadataKey id u)) ∧
    kv_map s !! metadataKey id (n + 1) = None ∧
    scan_versions fuel id v s = (s, if bool_decide (n = 0)%Z then Error ErrNotFound else Ok n).
Proof.
  revert v. induction fuel as [|fuel IH]; intros v Hv Hlow Hfuel.
  { assert (Z.to_nat (v - 1) ≤ size (kv_map s)); [|lia].
    apply (versions_bound _ id). intros u Hu. apply Hlow. lia. }
  simpl. rw /mbind /M_bind /try_ rel_get. destruct (kv_map s !! metadataKey id v) as [d|] eqn:E.
  - destruct (IH (v + 1)%Z) as (n & ? & ? & ? & ->); [lia| |lia|exists n; split_and!; [lia|done..]].
    intros u Hu. destruct (decide (u = v)) as [->|]; [eauto|]. apply Hlow. lia.
  - exists (v - 1)%Z. replace (v - 1 + 1)%Z with v by lia. split_and!; [lia| |done|].
    { intros u Hu. apply Hlow. lia. }
    simpl. destruct (decide (v = 1)%Z) as [->|Hne]; [done|].
    rw (bool_decide_eq_false_2 _ Hne) bool_decide_eq_false_2 //. lia.
Qed.

(** The version lookup terminates on every store that answers, and finds the
    version index when it is usable; otherwise it scans and returns the number of
    the last version before the first gap, or not-found when version 1 is missing. *)
Theorem findLatestVersion_spec id (s : S) :
  match index_of (kv_map s) id with
  | Some v => findLatestVersion id s = (s, Ok v)
  | None => ∃ n, (0 ≤ n)%Z ∧ (∀ u, (1 ≤ u ≤ n)%Z → is_Some (kv_map s !! metadataKey id u)) ∧
      kv_map s !! metadataKey id (n + 1) = None ∧
      findLatestVersion id s = (s, if bool_decide (n = 0)%Z then Error ErrNotFound else Ok n)
  end.
Proof.
  assert (∃ n, (0 ≤ n)%Z ∧ (∀ u, (1 ≤ u ≤ n)%Z → is_Some (kv_map s !! metadataKey id u)) ∧
      kv_map s !! metadataKey id (n + 1) = None ∧
      findLatestVersionScan id s = (s, if bool_decide (n = 0)%Z then Error ErrNotFound else Ok n)) as Hscan.
  { destruct (scan_versions_spec id (2 + size (kv_map s)) 1 s) as (n & ? & ? & ? & ?); [lia|lia|lia|].
    exists n. split_and!; [lia|done..]. }
  rw /index_of /findLatestVersion /getLatestVersion /mbind /option_bind /M_bind /try_ rel_get.
  destruct (kv_map s !! latestVersionMetadataKey id) as [d|]; [|done].
  destruct (data_empty d); [done|]. destruct (unmarshal_int d) as [v| |]; [|done..].
  by case_bool_decide.
Qed.
End Versions.

Lemma findLatestVersion_spec_witness :
  let w := (CreateKey "k" demo_kek 30 (demo_world (demo_entropy 100))).1 in
  findLatestVersion "k" w.1 = (w.1, Ok 1%Z).
Proof.
  intros w. pose proof (findLatestVersion_spec "k" w.1) as H.
  assert (index_of (kv_map w.1) "k" = Some 1%Z) as E by (vm_compute; reflexivity). rw E in H. exact H.
Defined.

(** ** Paged listing *)
Section Paging.
Context {S : Type} `{!KVStore S, !KVStoreLaws S, !ReliableStore S}.
Abbreviation World := (S * Env)%type.

Lemma enum_length (f : gmap string data) : length (kv_enum (S := S) "key:" f) ≤ size f.
Proof. rw (kv_enum_perm "key:" f eq_refl) length_map_to_list. apply map_size_filter. Qed.
Lemma enum_nodup (f : gmap string data) : NoDup (kv_enum (S := S) "key:" f).*1.
Proof. rw (kv_enum_perm "key:" f eq_refl). apply NoDup_fst_map_to_list. Qed.
Lemma enum_elem (f : gmap string data) k d :
  (k, d) ∈ kv_enum (S := S) "key:" f ↔ f !! k = Some d ∧ has_prefix "key:" k = true.
Proof. by rw (kv_enum_perm "key:" f eq_refl) elem_of_map_to_list map_lookup_filter_Some. Qed.

Lemma page_items p o (s : S) : (0 ≤ o)%Z → ∃ total,
  kv_ScanPrefixPaged p o pageSize s =
  (s, Ok (take 1000 (drop (Z.to_nat o) (kv_enum (S := S) p (kv_map s))), total)).
Proof.
  intros Ho. destruct (rel_paged p o pageSize s) as (items & total & E). exists total. rw E. do 3 f_equal.
  by apply (kv_paged_ok p o pageSize s s items total).
Qed.

Lemma each_pure {A I} (g : A → I → A) (items : list I) acc (w : World) :
  each (λ a i, mret (g a i)) items acc w = (w, Ok (foldl g acc items)).
Proof. revert acc. induction items as [|i items IH]; intros acc; [done|]. simpl. apply IH. Qed.

(** A loop that only accumulates visits every item once, in page order. *)
Lemma scan_pages_pure {A} (g : A → string * data → A) fuel o acc (w : World) :
  (0 ≤ o)%Z → size (wmap w) < fuel + Z.to_nat o →
  Z.to_nat o ≤ length (kv_enum (S := S) "key:" (wmap w)) →
  scan_pages (λ _, throw) fuel (λ a i, mret (g a i)) o acc w =
  (w, Ok (foldl g acc (drop (Z.to_nat o) (kv_enum (S := S) "key:" (wmap w))))).
Proof.
  pose proof (enum_length (wmap w)) as Hlen. revert o acc.
  induction fuel as [|fuel IH]; intros o acc Ho Hf Hle; [lia|]. simpl.
  destruct (page_items "key:" o w.1 Ho) as [total Ep].
  assert (try_ (onS (kv_ScanPrefixPaged "key:" o pageSize)) w =
    (w, Ok (inl (take 1000 (drop (Z.to_nat o) (kv_enum (S := S) "key:" (wmap w))), total)))) as E.
  { destruct w as [s e]. by rw /try_ /onS Ep. }
  rw (M_bind_step _ _ _ _ _ E). set (l := drop (Z.to_nat o) (kv_enum (S := S) "key:" (wmap w))) in *.
  assert (foldl g acc l = foldl g (foldl g acc (take 1000 l)) (drop 1000 l)) as Ef by rw -foldl_app take_drop //.
  rw Ef. clear Ef. pose proof (length_take l 1000) as Hl. destruct (take 1000 l) as [|i items] eqn:Et.
  { destruct l; [done|]. by vm_compute in Et. }
  rw (M_bind_step _ _ w w (foldl g acc (i :: items))); [apply (each_pure g (i :: items))|].
  case_bool_decide as Hs; rw /pageSize in Hs.
  - by rw (drop_ge l 1000); [lia|].
  - assert (length (i :: items) = 1000) as Hk by lia. rw Hk.
    assert (Z.to_nat (o + Z.of_nat 1000) = Z.to_nat o + 1000) as Ho' by lia.
    assert (1000 ≤ length l) as Hl' by lia. rw /l length_drop in Hl'.
    rw IH; [lia|lia|lia|]. by rw Ho' /l drop_drop.
Qed.

Lemma scan_all {A} (g : A → string * data → A) acc (w : World) :
  scan_pages (λ _, throw) (paged_fuel w) (λ a i, mret (g a i)) 0 acc w =
  (w, Ok (foldl g acc (kv_enum (S := S) "key:" (wmap w)))).
Proof. rw scan_pages_pure; [lia|rw /paged_fuel /wmap; lia|simpl; lia|done]. Qed.

Definition has_id (id : string) (items : list (string * data)) : Prop :=
  ∃ k d m, (k, d) ∈ items ∧ unmarshal_meta d = Ok m ∧ km_KeyID m = id.
Lemma has_id_nil id : ¬ has_id id [].
Proof. intros (k & d & m & H & _). by apply elem_of_nil in H. Qed.
Lemma has_id_cons id k d items :
  has_id id ((k, d) :: items) ↔ (∃ m, unmarshal_meta d = Ok m ∧ km_KeyID m = id) ∨ has_id id items.
Proof.
  split.
  - intros (k' & d' & m & [[= -> ->]|H]%elem_of_cons & Hm); [left; by exists m|right; by exists k', d', m].
  - intros [(m & Hm)|(k' & d' & m & H & Hm)]; [exists k, d, m|exists k', d', m]; rw elem_of_cons; auto.
Qed.

Lemma see_key_step seen k d : NoDup seen → NoDup (see_key seen (k, d)) ∧
  ∀ id, id ∈ see_key seen (k, d) ↔ id ∈ seen ∨ ∃ m, unmarshal_meta d = Ok m ∧ km_KeyID m = id.
Proof.
  intros Hnd. rw /see_key /=. destruct (unmarshal_meta d) as [m| |].
  2,3: split; [done|]; intros id; split; [by left|intros [?|(m & ? & _)]; done].
  case_bool_decide as Hs; (split; [|intros id; split]).
  - done.
  - by left.
  - intros [?|(m' & [= <-] & <-)]; done.
  - apply list.NoDup_app. split_and!; [done| |apply list.NoDup_singleton].
    intros x Hx ->%list_elem_of_singleton. done.
  - intros [?| ->%list_elem_of_singleton]%elem_of_app; [by left|right; eauto].
  - intros [?|(m' & [= <-] & <-)]; apply elem_of_app; [by left|right; by apply list_elem_of_singleton].
Qed.
Lemma see_key_fold items seen : NoDup seen →
  NoDup (foldl see_key seen items) ∧ ∀ id, id ∈ foldl see_key seen items ↔ id ∈ seen ∨ has_id id items.
Proof.
  revert seen. induction items as [|[k d] items IH]; intros seen Hnd; simpl.
  { split; [done|]. intros id. pose proof (has_id_nil id). tauto. }
  destruct (see_key_step seen k d Hnd) as [Hnd' Hin]. destruct (IH _ Hnd') as [? IH']. split; [done|].
  intros id. rw IH' Hin has_id_cons. tauto.
Qed.
Lemma count_key_fold items (seen : gset string) id :
  id ∈ foldl count_key seen items ↔ id ∈ seen ∨ has_id id items.
Proof.
  revert seen. induction items as [|[k d] items IH]; intros seen; simpl.
  { pose proof (has_id_nil id). tauto. }
  rw IH has_id_cons. assert (id ∈ count_key seen (k, d) ↔
    id ∈ seen ∨ ∃ m, unmarshal_meta d = Ok m ∧ km_KeyID m = id) as ->; [|tauto].
  rw /count_key /=. destruct (unmarshal_meta d) as [m| |].
  - rw elem_of_union elem_of_singleton. split; [intros [->|?]; eauto|].
    intros [?|(m' & [= <-] & <-)]; [by right|by left].
  - split; [by left|intros [?|(m & ? & _)]; done].
  - split; [by left|intros [?|(m & ? & _)]; done].
Qed.

(** The listing is complete however many pages it takes: [ListKeyIDs] ends and
    returns, without repetition, exactly the ids that have a stored version, and
    [countKeys], the number the quota is checked against, is its length. *)
Theorem ListKeyIDs_complete (w : World) : lc_inv (wmap w) →
  ∃ ids, ListKeyIDs w = (w, Ok ids) ∧ NoDup ids ∧
    (∀ id, id ∈ ids ↔ ∃ v m, stored (wmap w) id v m) ∧
    countKeys w = (w, Ok (Z.of_nat (length ids))).
Proof.
  intros Hi. set (l := kv_enum (S := S) "key:" (wmap w)).
  assert (∀ id, has_id id l ↔ ∃ v m, stored (wmap w) id v m) as Hl.
  { intros id. rw /l. split.
    - intros (k & d & m & [Hd Hp]%enum_elem & Hm & <-).
      destruct (inv_doc _ Hi k d Hd Hp) as (m' & -> & -> & _). rw unmarshal_marshal_meta in Hm.
      injection Hm as ->. exists (km_Version m), m. exists (marshal_meta m). by rw unmarshal_marshal_meta.
    - intros (v & m & Hst). destruct (stored_inv _ _ _ _ Hi Hst) as (Hd & Hk & _).
      exists (metadataKey id v), (marshal_meta m), m. rw enum_elem unmarshal_marshal_meta metadataKey_key. done. }
  destruct (see_key_fold l []) as [Hnd Hin]; [constructor|].
  exists (foldl see_key [] l). split_and!; [apply scan_all|done|..].
  { intros id. rw Hin -Hl elem_of_nil. tauto. }
  assert (size (foldl count_key ∅ l) = length (foldl see_key [] l)) as E.
  2: { by rw /countKeys (M_bind_step _ _ _ _ _ (scan_all count_key ∅ w)) -E. }
  rw -(size_list_to_set (C := gset string) _ Hnd). f_equal. apply leibniz_equiv. intros id.
  rw elem_of_list_to_set Hin count_key_fold elem_of_nil elem_of_empty. tauto.
Qed.
End Paging.

Lemma ListKeyIDs_complete_witness : ∃ ids,
  ListKeyIDs demo_final = (demo_final, Ok ids) ∧ NoDup ids ∧ "k" ∈ ids.
Proof.
  destruct (ListKeyIDs_complete demo_final (proj2 demo_final_inv)) as (ids & Hl & Hnd & Hin & _).
  exists ids. split_and!; [done..|]. apply Hin. exists 3%Z. eexists. apply stored_eval. vm_compute. reflexivity.
Defined.

(** ** The reaper *)
(** What one shred can change, whatever its outcome. *)
Section Reaper.
Context {S : Type} `{!KVStore S, !KVStoreLaws S}.
Abbreviation World := (S * Env)%type.

Lemma ShredKey_local id v (w w' : World) r k :
  ShredKey id v w = (w', r) → k ≠ metadataKey id v → wmap w' !! k = wmap w !! k.
Proof.
  intros H Hk. apply M_bind_inv in H as (w1 & r1 & H1 & H).
  assert (wmap w1 !! k = wmap w !! k) as E1.
  { apply shred_commit in H1 as [_ [[-> _]|(m & _ & [[_ ->]|[_ ->]])]]; [done|..].
    - by rw lookup_insert_ne.
    - by rw lookup_delete_ne. }
  destruct r1; [|by destruct H as [-> _]..].
  apply keeps_bind_inv in H as [[_ E]|(w2 & u & _ & E2 & H)]; [by rw E|..|solve_keeps].
  by rw (keeps_map_notifyCluster _ _ _ _ H) E2.
Qed.

(** Its own record is gone, or marked Destroyed, or as it was. *)
Lemma ShredKey_at id v (w w' : World) r : ShredKey id v w = (w', r) →
  wmap w' !! metadataKey id v = wmap w !! metadataKey id v ∨
  ∃ m, stored (wmap w) id v m ∧ (wmap w' !! metadataKey id v = None ∨ wmap w' !! metadataKey id v = Some (marshal_meta (meta_destroy m))).
Proof.
  intros H. apply M_bind_inv in H as (w1 & r1 & H1 & H).
  assert (wmap w' = wmap w1) as ->.
  { destruct r1; [|by destruct H as [-> _]..]. apply keeps_bind_inv in H as [[_ E]|(w2 & u & _ & E2 & H)]; [done|..|solve_keeps].
    by rw (keeps_map_notifyCluster _ _ _ _ H) E2. }
  apply shred_commit in H1 as [_ [[-> _]|(m & Hst & [[_ ->]|[_ ->]])]]; [by left|right; exists m; split; [done|]..].
  - right. apply lookup_insert_eq.
  - left. apply lookup_delete_eq.
Qed.

(** Outside the records that are due, nothing changes; a record that is due is removed or marked
    Destroyed, or stays. *)
Definition only_due (cutoff : Z) (f f' : gmap string data) : Prop := ∀ k,
  f' !! k = f !! k ∨
  ∃ m, f !! k = Some (marshal_meta m) ∧ reapable cutoff m = true ∧ has_prefix "key:" k = true ∧
    (f' !! k = None ∨ f' !! k = Some (marshal_meta (meta_destroy m))).
Lemma destroyed_not_due c m : reapable c (meta_destroy m) = false.
Proof. done. Qed.

Lemma only_due_refl c f : only_due c f f.
Proof. intros k. by left. Qed.
Lemma only_due_trans c f1 f2 f3 : only_due c f1 f2 → only_due c f2 f3 → only_due c f1 f3.
Proof.
  intros H12 H23 k. destruct (H23 k) as [E23|(m & Hm & Hr & Hp & H3)]; [rw E23; apply H12|].
  destruct (H12 k) as [E12|(m' & _ & _ & _ & [E|E])]; [right; exists m; split; [congruence|done]|congruence|].
  assert (meta_destroy m' = m) as <- by (apply marshal_meta_inj; congruence). by rw destroyed_not_due in Hr.
Qed.

Lemma reap_each c (f : gmap string data) items acc (w w' : World) r :
  (∀ k d, (k, d) ∈ items → f !! k = Some d ∧ has_prefix "key:" k = true) → lc_inv f →
  only_due c f (wmap w) → each (reap_item c) items acc w = (w', r) → only_due c f (wmap w').
Proof.
  intros Hin Hi. revert acc w. induction items as [|[k d] items IH]; intros acc w Hw H; simpl in H.
  { by injection H as <- _. }
  apply M_bind_inv in H as (w1 & r1 & H1 & H).
  assert (only_due c f (wmap w1)) as Hw1.
  { destruct (Hin k d) as [Hk Hp]; [by left|].
    destruct (inv_doc f Hi k d Hk Hp) as (m & -> & -> & _). rw /reap_item /= unmarshal_marshal_meta in H1.
    destruct (reapable c m) eqn:Hr; [|by injection H1 as <- _].
    apply M_bind_inv in H1 as (w2 & r2 & H2 & H1). apply try_inv in H2 as (r2' & H2 & _).
    assert (wmap w1 = wmap w2) as ->.
    { destruct r2 as [[|]| |]; [by injection H1 as <- _|by injection H1 as <- _|by destruct H1 as [-> _]..]. }
    intros k. destruct (decide (k = metadataKey (km_KeyID m) (km_Version m))) as [->|Hne].
    2: { rw (ShredKey_local _ _ _ _ _ _ H2 Hne). apply Hw. }
    apply ShredKey_at in H2 as [->|(m' & (d & Hd & Hm') & H2)]; [apply Hw|]. right. exists m. split_and!; [done..|].
    destruct (Hw (metadataKey (km_KeyID m) (km_Version m))) as [E|(m0 & Hm0 & _ & _ & [E|E])]; [|congruence|].
    - rw E Hk in Hd. injection Hd as <-. rw unmarshal_marshal_meta in Hm'. injection Hm' as <-. done.
    - rw E in Hd. injection Hd as <-. rw unmarshal_marshal_meta in Hm'. injection Hm' as <-.
      assert (m = m0) as <- by (apply marshal_meta_inj; congruence). done. }
  destruct r1; [|by destruct H as [-> _]..]. eapply IH; [|done..].
  intros k' d' Hkd. apply Hin. by right.
Qed.

Lemma reap_pages c fuel o acc (w w' : World) r : lc_inv (wmap w) → (0 ≤ o)%Z →
  scan_pages (λ reaped _, mret reaped) fuel (reap_item c) o acc w = (w', r) → only_due c (wmap w) (wmap w').
Proof.
  revert o acc w. induction fuel as [|fuel IH]; intros o acc w Hi Ho H; simpl in H.
  { injection H as <- _. apply only_due_refl. }
  apply keeps_bind_inv in H as [[_ E]|(w1 & page & Hp & E1 & H)]; [rw E; apply only_due_refl|..|solve_keeps].
  rw -E1. rw -E1 in Hi. destruct page as [[items total]|err]; [|injection H as <- _; apply only_due_refl].
  apply try_inv in Hp as (r1 & Hp & Er1). destruct r1 as [pg| |]; simplify_eq.
  assert (items = take 1000 (drop (Z.to_nat o) (kv_enum (S := S) "key:" (wmap w1)))) as Hitems.
  { destruct w as [s e]. rw /onS in Hp. destruct (kv_ScanPrefixPaged "key:" o pageSize s) as [s1 x] eqn:Es.
    injection Hp as <- ->. rw E1. by eapply kv_paged_ok in Es. }
  destruct items as [|i items]; [injection H as <- _; apply only_due_refl|].
  apply M_bind_inv in H as (w2 & r2 & H2 & H).
  assert (only_due c (wmap w1) (wmap w2)) as H12.
  { eapply (reap_each c (wmap w1) (i :: items)); [|done|apply only_due_refl|done].
    intros k d Hkd. rw Hitems in Hkd. apply enum_elem.
    apply elem_of_take in Hkd as (j & Hj & _). rw lookup_drop in Hj. by eapply list_elem_of_lookup_2. }
  destruct r2; [|by destruct H as [-> _]..]. case_bool_decide; [by injection H as <- _|].
  eapply only_due_trans; [done|]. apply IH in H; [done| |lia].
  eapply lc_steps_inv; [exact Hi|]. revert H2.
  enough (effect (λ _ _, True) (each (reap_item c) (i :: items) acc)) as He by apply He.
  generalize (i :: items), acc. intros l. induction l as [|j l IHl]; intros acc'.
  { apply keeps_effect. simpl. solve_keeps. }
  simpl. apply effect_bind; [|done]. by apply reap_item_effect.
Qed.

(** The reaper never touches what is not due: whatever happens during a run,
    a stored version that is not soft-deleted, or whose deletion time is unset or
    later than [now - ttl], is stored unchanged afterwards, and so is every key that
    is not a key record. *)
Theorem reaper_spares ttl (w w' : World) r : lc_inv (wmap w) →
  reapExpiredSoftDeletes ttl w = (w', r) →
  (∀ id v m, stored (wmap w) id v m →
     km_State m ≠ StateSoftDeleted ∨ km_DeletedAt m = 0%Z ∨ (m_now w.2 - ttl < km_DeletedAt m)%Z →
     stored (wmap w') id v m) ∧
  (∀ k, has_prefix "key:" k = false → wmap w' !! k = wmap w !! k).
Proof.
  intros Hi H. apply reap_pages in H; [|done|done]. split.
  - intros id v m Hst Hnd. destruct (stored_inv _ _ _ _ Hi Hst) as (Hd & _).
    destruct (H (metadataKey id v)) as [E|(m' & Hm' & Hr & _)].
    { destruct Hst as (d & Hd' & Hm). exists d. by rw E. }
    rw Hd in Hm'. assert (m = m') as <- by (apply marshal_meta_inj; congruence).
    rw /reapable /time_IsZero in Hr. apply andb_true_iff in Hr as [[H1 H2]%andb_true_iff H3].
    apply bool_decide_eq_true in H1. apply negb_true_iff, bool_decide_eq_false in H2, H3.
    destruct Hnd as [?|[?|?]]; [done..|lia].
  - intros k Hk. destruct (H k) as [?|(m & _ & _ & Hp & _)]; [done|congruence].
Qed.
End Reaper.

(** ** The reaper completes what is due *)
Section ReaperTotal.
Context {S : Type} `{!KVStore S, !KVStoreLaws S, !ReliableStore S}.
Abbreviation World := (S * Env)%type.

Lemma ShredKey_reliable id v m (w : World) : stored (wmap w) id v m →
  ∃ w', ShredKey id v w = (w', Ok tt) ∧ wmap w' = delete (metadataKey id v) (wmap w).
Proof.
  intros (d & Hd & Hm). assert (∃ w', ShredKey id v w = (w', Ok tt)) as [w' H].
  { destruct w as [s e]. rw /wmap /= in Hd. rw /ShredKey /mbind /M_bind rel_tx.
    destruct (rel_put (metadataKey id v) (marshal_meta (meta_destroy m)) s) as [s1 Hp]; [apply metadataKey_nonempty|].
    destruct (rel_delete (metadataKey id v) s1) as [s2 Hdel].
    rw /shred_tx /mbind /M_bind /wrapM /onS rel_get Hd /= Hm /= Hp /= Hdel /= /notifyInTx.
    rw /notifyClusterIfNoTxNotifier /InvalidateCache /modE /modify /mbind /M_bind.
    destruct (kv_txNotifies (S := S)); simpl; destruct (m_notifier e); eauto. }
  exists w'. split; [done|]. apply M_bind_ok in H as (w1 & u & H1 & H). apply shred_commit in H1 as [_ Hc].
  destruct Hc as [[_ ?]|(m' & _ & [[? _]|[_ <-]])]; [done..|].
  apply M_bind_ok in H as (w2 & u2 & H2%keeps_Invalidate & H). by rw (keeps_map_notifyCluster _ _ _ _ H) H2.
Qed.

Lemma reap_each_complete c items acc (w : World) :
  NoDup items.*1 → (∀ k d, (k, d) ∈ items → ∃ m, d = marshal_meta m ∧ k = metadataKey (km_KeyID m) (km_Version m)) →
  (∀ k d, (k, d) ∈ items → wmap w !! k = Some d) →
  ∃ w' acc', each (reap_item c) items acc w = (w', Ok acc') ∧ acc ⊆ acc' ∧
    (∀ k, k ∉ items.*1 → wmap w' !! k = wmap w !! k) ∧
    (∀ k m, (k, marshal_meta m) ∈ items → reapable c m = true →
       wmap w' !! k = None ∧ (km_KeyID m, km_Version m) ∈ acc').
Proof.
  revert acc w. induction items as [|[k d] items IH]; intros acc w Hnd Hdoc Hst; simpl.
  { exists w, acc. split_and!; [done..|]. by intros k m ?%elem_of_nil. }
  simpl in Hnd. apply list.NoDup_cons in Hnd as [Hk Hnd].
  destruct (Hdoc k d) as (m & -> & ->); [by left|].
  assert (∃ w1 acc1, reap_item c acc (metadataKey (km_KeyID m) (km_Version m), marshal_meta m) w = (w1, Ok acc1) ∧
    acc ⊆ acc1 ∧ (∀ k, k ≠ metadataKey (km_KeyID m) (km_Version m) → wmap w1 !! k = wmap w !! k) ∧
    (reapable c m = true → wmap w1 !! metadataKey (km_KeyID m) (km_Version m) = None ∧
       (km_KeyID m, km_Version m) ∈ acc1)) as (w1 & acc1 & Hi & Hsub & Hframe & Hgone).
  { rw /reap_item /= unmarshal_marshal_meta. destruct (reapable c m) eqn:Hr; [|exists w, acc; done].
    destruct (ShredKey_reliable (km_KeyID m) (km_Version m) m w) as (w1 & Hs & Em).
    { exists (marshal_meta m). rw unmarshal_marshal_meta. split; [|done]. apply Hst. by left. }
    exists w1, (acc ++ [(km_KeyID m, km_Version m)]). rw /mbind /M_bind /try_ Hs. split_and!; [done|set_solver|..].
    - intros k' Hk'. by rw Em lookup_delete_ne.
    - intros _. rw Em lookup_delete_eq. split; [done|]. apply elem_of_app. right. by apply list_elem_of_singleton. }
  destruct (IH acc1 w1) as (w' & acc' & He & Hsub' & Hframe' & Hgone').
  - done.
  - intros k' d' Hin. apply Hdoc. by right.
  - intros k' d' Hin. rw Hframe; [|apply Hst; by right]. intros ->. apply Hk, list_elem_of_fmap.
    by exists (metadataKey (km_KeyID m) (km_Version m), d').
  - exists w', acc'. rw /mbind /M_bind Hi. split_and!; [done|by etrans|..].
    + intros k' [Hne Hni]%not_elem_of_cons. rw Hframe' // Hframe //.
    + intros k' m' [E|Hin]%elem_of_cons Hr; [|by apply Hgone'].
      apply pair_equal_spec in E as [-> ->%marshal_meta_inj].
      destruct (Hgone Hr) as [Hg Ha]. rw Hframe' //. split; [done|by apply Hsub'].
Qed.

(** The reaper ends and destroys everything that is due, as long as the store
    holds fewer records than one page: every soft-deleted version whose deletion
    time is set and not later than [now - ttl] is gone from the store afterwards and
    has been reported to the [onReaped] callback. *)
Theorem reaper_reaps_due ttl (w : World) : lc_inv (wmap w) → (Z.of_nat (size (wmap w)) < pageSize)%Z →
  ∃ w' reaped, reapExpiredSoftDeletes ttl w = (w', Ok reaped) ∧
    ∀ id v m, stored (wmap w) id v m → reapable (m_now w.2 - ttl) m = true →
      wmap w' !! metadataKey id v = None ∧ (id, v) ∈ reaped.
Proof.
  intros Hi Hsz. set (c := (m_now w.2 - ttl)%Z). set (l := kv_enum (S := S) "key:" (wmap w)).
  assert (length l ≤ size (wmap w)) as Hlen by apply enum_length.
  assert (∀ id v m, stored (wmap w) id v m → (metadataKey id v, marshal_meta m) ∈ l) as Hin.
  { intros id v m Hst. apply enum_elem. rw metadataKey_key.
    by destruct (stored_inv _ _ _ _ Hi Hst) as (? & _). }
  destruct (page_items "key:" 0 w.1) as [total Ep]; [lia|].
  assert (try_ (onS (kv_ScanPrefixPaged "key:" 0 pageSize)) w = (w, Ok (inl (l, total)))) as Et.
  { destruct w as [s e]. rw /try_ /onS Ep drop_0 take_ge //. change (kv_enum "key:" _) with l. rw /pageSize in Hsz. lia. }
  rw /reapExpiredSoftDeletes /paged_fuel. cbn [scan_pages]. rw (M_bind_step _ _ _ _ _ Et).
  destruct (reap_each_complete c l [] w) as (w' & acc & He & _ & _ & Hgone).
  - apply enum_nodup.
  - intros k d [Hk Hp]%enum_elem. destruct (inv_doc _ Hi k d Hk Hp) as (m & -> & -> & _). eauto.
  - by intros k d [Hk Hp]%enum_elem.
  - exists w', acc. split.
    + destruct l as [|i l'] eqn:El; [by injection He as <- <-|].
      rw (M_bind_step _ _ _ _ _ He) bool_decide_eq_true_2 //. lia.
    + intros id v m Hst Hr. destruct (stored_inv _ _ _ _ Hi Hst) as (_ & <- & <- & _).
      apply Hgone; [by apply Hin|done].
Qed.
End ReaperTotal.

(** Key [k] soft-deleted long ago; key [j] alive. *)
Definition demo_bin : WMem * Env :=
  mgr_run [OpCreate "k" demo_kek 0; OpCreate "j" demo_kek 0; OpSoftDelete "k" 1; OpClock (10 ^ 19)]
    (demo_world (demo_entropy 300)).
Lemma demo_bin_inv : lc_inv (wmap demo_bin).
Proof. apply mgr_run_reach; [apply demo_inv|vm_compute; reflexivity]. Qed.

Lemma reaper_spares_witness : ∃ w' r m,
  reapExpiredSoftDeletes DefaultSoftDeleteTTL demo_bin = (w', r) ∧ stored (wmap w') "j" 1 m.
Proof.
  destruct (reapExpiredSoftDeletes DefaultSoftDeleteTTL demo_bin) as [w' r] eqn:E. exists w', r. eexists. split; [done|].
  eapply (proj1 (reaper_spares _ _ _ _ demo_bin_inv E)); [apply stored_eval; vm_compute; reflexivity|].
  left. vm_compute. discriminate.
Defined.
Lemma reaper_reaps_due_witness : ∃ w' reaped,
  reapExpiredSoftDeletes DefaultSoftDeleteTTL demo_bin = (w', Ok reaped) ∧ ("k", 1%Z) ∈ reaped.
Proof.
  destruct (reaper_reaps_due DefaultSoftDeleteTTL demo_bin demo_bin_inv) as (w' & reaped & E & H).
  { vm_compute. reflexivity. }
  exists w', reaped. split; [done|]. eapply H; [apply stored_eval; vm_compute; reflexivity|vm_compute; reflexivity].
Defined.
