(* ===== verification/Automaton.v ===== *)
(** The documented automaton of key versions, as the specification of the manager's operations
    ([src/internal/lifecycle/manager.go]): each operation labels the edges it may take a record
    along. *)

From stdpp Require Import fin_maps.
From S2P Require Import Prelude SecureBuffer AesGcm Ciphertext Kek Store Metadata Manager Transit Lifecycle Cache KeyManagement Scans.
Import MemoryKV.


Section Automaton.
Context {S : Type} `{!KVStore S, !KVStoreLaws S}.
Abbreviation World := (S * Env)%type.

(** ** Creations *)
(** A creation writes a first version, whatever was stored there, and the version index. *)
Inductive made (id : string) (f : gmap string data) : gmap string data → Prop :=
  | made_nothing : made id f f
  | made_version m : km_KeyID m = id → km_Version m = 1%Z → km_State m = StateActive → made id f (put_meta m f)
  | made_indexed m v : km_KeyID m = id → km_Version m = 1%Z → km_State m = StateActive →
      made id f (<[latestVersionMetadataKey id := marshal_int v]> (put_meta m f)).
#[local] Instance made_refl id : Reflexive (made id).
Proof. constructor. Qed.
#[local] Hint Resolve keeps_quota : keeps.

Lemma rec_delete f id v id' v' : rec (delete (metadataKey id v) f) id' v' =
  match decide ((id', v') = (id, v)) with left _ => None | right _ => rec f id' v' end.
Proof.
  rw /rec. case_decide as H; [injection H as -> ->; by rw lookup_delete_eq|]. rw lookup_delete_ne //. by intros [-> ->]%metadataKey_inj.
Qed.


End Automaton.

