(* ===== verification/Reaper.v ===== *)
(** The soft-delete reaper over time, and the scans that do without pages
    ([src/internal/lifecycle/manager.go], the functions [...Legacy]). A run of the paged reaper
    deletes while it counts offsets, so it may pass over records that moved to an earlier page;
    each run that finds something due destroys something due, and so the daily loop reaches
    everything. The scans without pages visit the records in any order, and give the same
    answers. *)

From stdpp Require Import fin_maps fin_sets.
From S2P Require Import Prelude SecureBuffer AesGcm Ciphertext Kek Store Metadata Manager Transit Lifecycle Cache KeyManagement Scans.

(** ** Definitions *)
Section Definitions.
Context {S : Type} `{!KVStore S}.
Abbreviation World := (S * Env)%type.
Abbreviation MW := (M World).

(** [reaperLoop], at the times of its ticks; the accumulated calls of [onReaped]. *)
Fixpoint reaperLoop (ttl : Z) (ticks : list Z) : MW (list (string * Z)) :=
  match ticks with
  | [] => mret []
  | t :: ticks =>
      modE (set_now t);;
      reaped ← reapExpiredSoftDeletes ttl;
      later ← reaperLoop ttl ticks;
      mret (reaped ++ later)
  end.
Definition StartSoftDeleteReaper (ttl : Z) : list Z → MW (list (string * Z)) :=
  reaperLoop (if bool_decide (ttl = 0)%Z then DefaultSoftDeleteTTL else ttl).

(** The scans without pages; [order] is the order in which a map is ranged over. *)
Variable order : gmap string data → list (string * data).
Definition reapExpiredSoftDeletesLegacy (ttl : Z) : MW (list (string * Z)) :=
  items ← try_ (onS (kv_ScanPrefix "key:"));
  match items with
  | inr _ => mret []
  | inl items => e ← getE; each (reap_item (m_now e - ttl)) (order items) []
  end.
Definition countKeysLegacy : MW Z :=
  items ← onS (kv_ScanPrefix "key:");
  mret (Z.of_nat (size (foldl count_key (∅ : gset string) (order items)))).
Definition listKeyIDsLegacy : MW (list string) :=
  items ← onS (kv_ScanPrefix "key:");
  mret (foldl see_key [] (order items)).
End Definitions.

(** ** One run of the paged reaper *)
Section Runs.
Context {S : Type} `{!KVStore S, !KVStoreLaws S, !ReliableStore S}.
Abbreviation World := (S * Env)%type.

(** What deleting due records makes of a store: the versions that go are reported. *)
Record reaps (w w' : World) (acc acc' : list (string * Z)) : Prop := {
  rp_inv : lc_inv (wmap w');
  rp_acc : acc ⊆ acc';
  rp_sub k : wmap w' !! k = wmap w !! k ∨ wmap w' !! k = None;
  rp_reported id v m : stored (wmap w) id v m → stored (wmap w') id v m ∨ (wmap w' !! metadataKey id v = None ∧ (id, v) ∈ acc');
}.
Lemma reaps_refl w acc : lc_inv (wmap w) → reaps w w acc acc.
Proof. intros Hi. split; [done|done|by left|by left]. Qed.
Lemma reaps_trans w1 w2 w3 a1 a2 a3 : reaps w1 w2 a1 a2 → reaps w2 w3 a2 a3 → reaps w1 w3 a1 a3.
Proof.
  intros [I1 A1 S1 R1] [I2 A2 S2 R2]. split; [done|by etrans|..].
  - intros k. destruct (S2 k) as [->|?]; [apply S1|by right].
  - intros id v m Hst. destruct (R1 id v m Hst) as [H|[H ?]]; [by apply R2|]. right.
    split; [|by apply A2]. destruct (S2 (metadataKey id v)) as [->|?]; done.
Qed.
Lemma reaps_size w w' acc acc' : reaps w w' acc acc' → wmap w' ⊆ wmap w.
Proof. intros Hr. apply map_subseteq_spec. intros k d Hk. destruct (rp_sub _ _ _ _ Hr k) as [<-|E]; [done|congruence]. Qed.
Lemma reaps_less w w' acc acc' k d : reaps w w' acc acc' → wmap w !! k = Some d → wmap w' !! k = None → size (wmap w') < size (wmap w).
Proof.
  intros Hr Hk Hn. apply map_subset_size. split; [by eapply reaps_size|]. intros Hs.
  apply (lookup_weaken _ (wmap w')) in Hk; [congruence|done].
Qed.

Lemma reap_each_inv c items acc (w w' : World) r : lc_inv (wmap w) → each (reap_item c) items acc w = (w', r) → lc_inv (wmap w').
Proof.
  intros Hi H. eapply lc_steps_inv; [exact Hi|]. revert H.
  enough (effect (S := S) (λ _ _, True) (each (reap_item c) items acc)) as He by apply He.
  revert acc. induction items as [|j l IHl]; intros acc'; [apply keeps_effect; simpl; solve_keeps|].
  simpl. apply effect_bind; [|done]. by apply reap_item_effect.
Qed.
(** A list of stored records, each handled once. *)
Lemma reap_page c items acc (w : World) : lc_inv (wmap w) → NoDup items.*1 →
  (∀ k d, (k, d) ∈ items → wmap w !! k = Some d ∧ has_prefix "key:" k = true) →
  ∃ w' acc', each (reap_item c) items acc w = (w', Ok acc') ∧ reaps w w' acc acc' ∧
    (∀ k m, (k, marshal_meta m) ∈ items → reapable c m = true → wmap w' !! k = None).
Proof.
  intros Hi Hnd Hin. destruct (reap_each_complete c items acc w Hnd) as (w' & acc' & He & Ha & Hf & Hg).
  { intros k d [Hk Hp]%Hin. destruct (inv_doc _ Hi k d Hk Hp) as (m & -> & -> & _). eauto. }
  { by intros k d [? _]%Hin. }
  exists w', acc'. split; [done|]. split; [|intros k m Hm Hr; by destruct (Hg k m Hm Hr)].
  pose proof (reap_each c (wmap w) items acc w w' (Ok acc') Hin Hi (only_due_refl _ _) He) as Hd.
  assert (∀ k, wmap w' !! k = wmap w !! k ∨ ∃ m, (k, marshal_meta m) ∈ items ∧ wmap w !! k = Some (marshal_meta m) ∧ reapable c m = true) as Hk.
  { intros k. destruct (Hd k) as [?|(m & Hm & Hr & _)]; [by left|]. destruct (decide (k ∈ items.*1)) as [Hk|Hk]; [|left; by apply Hf].
    right. exists m. apply list_elem_of_fmap in Hk as ([k' d] & -> & Hk). destruct (Hin _ _ Hk) as [E _]. cbn in *. by rw E in Hm; injection Hm as ->. }
  split; [by eapply reap_each_inv|done|..].
  - intros k. destruct (Hk k) as [?|(m & Hm & _ & Hr)]; [by left|]. right. by apply Hg in Hm as [? _].
  - intros id v m Hst. destruct (Hk (metadataKey id v)) as [E|(m' & Hm & E & Hr)].
    + left. destruct Hst as (d & Hd' & Hm). exists d. by rw E.
    + right. destruct (stored_inv _ _ _ _ Hi Hst) as (Hs & <- & <- & _). assert (m' = m) as -> by (apply marshal_meta_inj; congruence). by apply Hg.
Qed.

(** The records that are due, in the order of the pages. *)
Abbreviation enum w := (kv_enum (S := S) "key:" (wmap w)).
Definition due_item (c : Z) (kd : string * data) : Prop := ∃ m, kd.2 = marshal_meta m ∧ reapable c m = true.
Lemma page_in (w : World) n o k d : (k, d) ∈ take n (drop o (enum w)) → wmap w !! k = Some d ∧ has_prefix "key:" k = true.
Proof. intros H. apply enum_elem. apply elem_of_take in H as (j & Hj & _). rw lookup_drop in Hj. by eapply list_elem_of_lookup_2. Qed.
Lemma page_nodup (w : World) n o : NoDup (take n (drop o (enum w))).*1.
Proof.
  pose proof (enum_nodup (wmap w)) as H. rewrite -(take_drop o (enum w)) -(take_drop n (drop o (enum w))) !fmap_app in H.
  apply list.NoDup_app in H as (_ & _ & H). by apply list.NoDup_app in H as (? & _).
Qed.

(** A run ends, and when something is due at or after its offset, it destroys something. *)
Lemma reap_pages_run c n fuel o acc (w : World) : lc_inv (wmap w) → (0 ≤ o)%Z → size (wmap w) ≤ n → Z.to_nat o ≤ n → n < fuel + Z.to_nat o →
  ∃ w' acc', scan_pages (λ reaped _, mret reaped) fuel (reap_item c) o acc w = (w', Ok acc') ∧ reaps w w' acc acc' ∧
    (∀ kd, kd ∈ drop (Z.to_nat o) (enum w) → due_item c kd → size (wmap w') < size (wmap w)).
Proof.
  revert o acc w. induction fuel as [|fuel IH]; intros o acc w Hi Ho Hn Hon Hf; [lia|]. cbn [scan_pages].
  destruct (page_items "key:" o w.1 Ho) as [total Ep]. set (l := drop (Z.to_nat o) (enum w)) in *.
  assert (try_ (onS (kv_ScanPrefixPaged "key:" o pageSize)) w = (w, Ok (inl (take 1000 l, total)))) as E.
  { destruct w as [s e]. by rw /try_ /onS Ep. }
  rw (M_bind_step _ _ _ _ _ E). pose proof (enum_length (wmap w)) as Hlen. pose proof (length_take l 1000) as Hl.
  destruct (reap_page c (take 1000 l) acc w Hi) as (w1 & acc1 & He & Hr & Hg); [apply page_nodup|intros k d; apply page_in|].
  assert (∀ kd, kd ∈ take 1000 l → due_item c kd → size (wmap w1) < size (wmap w)) as Hless.
  { intros [k d] Hkd (m & Hm & Hd). cbn in Hm. subst d. eapply reaps_less; [exact Hr|by apply page_in in Hkd as [? _]|by eapply Hg]. }
  destruct (take 1000 l) as [|i items] eqn:Et.
  { exists w, acc. split_and!; [done|by apply reaps_refl|]. destruct l; [by intros kd ?%elem_of_nil|by vm_compute in Et]. }
  rw (M_bind_step _ _ _ _ _ He). case_bool_decide as Hs; rw /pageSize in Hs.
  - exists w1, acc1. split_and!; [done..|]. rewrite -(take_drop 1000 l) Et (drop_ge l); [lia|]. rewrite app_nil_r. exact Hless.
  - assert (length (i :: items) = 1000) as Hk by lia. rw Hk. rw /l length_drop in Hl.
    destruct (IH (o + Z.of_nat 1000)%Z acc1 w1) as (w' & acc' & Hrun & Hr' & Hp); [apply Hr|lia| |lia|lia|].
    { pose proof (map_subseteq_size _ _ (reaps_size _ _ _ _ Hr)). lia. }
    exists w', acc'. split_and!; [done|by eapply reaps_trans|]. intros kd Hkd Hd. rewrite -(take_drop 1000 l) Et in Hkd.
    pose proof (map_subseteq_size _ _ (reaps_size _ _ _ _ Hr')). apply elem_of_app in Hkd as [Hkd|Hkd].
    { specialize (Hless kd Hkd Hd). lia. }
    destruct (decide (size (wmap w1) < size (wmap w))) as [|Hsz]; [lia|].
    assert (wmap w1 = wmap w) as Ew by (apply map_subseteq_size_eq; [by eapply reaps_size|lia]). rw -Ew. apply (Hp kd); [|done].
    rw Ew. rewrite (_ : Z.to_nat (o + Z.of_nat 1000) = Z.to_nat o + 1000); [lia|]. by rewrite -drop_drop.
Qed.
Lemma reap_run ttl (w : World) : lc_inv (wmap w) → ∃ w' acc', reapExpiredSoftDeletes ttl w = (w', Ok acc') ∧ reaps w w' [] acc' ∧
  ∀ id v m, stored (wmap w) id v m → reapable (m_now w.2 - ttl) m = true → size (wmap w') < size (wmap w).
Proof.
  intros Hi. destruct (reap_pages_run (m_now w.2 - ttl) (size (wmap w)) (paged_fuel w) 0 [] w Hi) as (w' & acc' & H & Hr & Hp); [lia|lia|lia|rw /paged_fuel /wmap; lia|].
  exists w', acc'. split_and!; [done..|]. intros id v m Hst Hd. destruct (stored_inv _ _ _ _ Hi Hst) as (Hs & _).
  apply (Hp (metadataKey id v, marshal_meta m)); [|by exists m]. rw drop_0. by rw enum_elem metadataKey_key.
Qed.

(** ** The loop *)
Lemma reaps_app w1 w2 w3 a1 a2 : reaps w1 w2 [] a1 → reaps w2 w3 [] a2 → reaps w1 w3 [] (a1 ++ a2).
Proof.
  intros H1 H2. apply (reaps_trans w1 w2 w3 [] a1); [done|]. destruct H2 as [I2 _ S2 R2]. split; [done|set_solver|done|].
  intros id v m Hst. destruct (R2 id v m Hst) as [?|[? ?]]; [by left|right]. split; [done|set_solver].
Qed.
Lemma loop_runs ttl ticks (w : World) : lc_inv (wmap w) → ∃ w' acc', reaperLoop ttl ticks w = (w', Ok acc') ∧ reaps w w' [] acc' ∧
  ∀ now id v m, Forall (λ t, now ≤ t)%Z ticks → stored (wmap w') id v m → reapable (now - ttl) m = true → size (wmap w') + length ticks ≤ size (wmap w).
Proof.
  revert w. induction ticks as [|t ticks IH]; intros w Hi; cbn [reaperLoop].
  { exists w, []. split_and!; [done|by apply reaps_refl|]. intros. simpl. lia. }
  destruct w as [s e]. rw (M_bind_step _ _ (s, e) (s, set_now t e) tt) //.
  destruct (reap_run ttl (s, set_now t e) Hi) as (w1 & a1 & H1 & Hr1 & Hp1). rw (M_bind_step _ _ _ _ _ H1).
  destruct (IH w1) as (w' & a2 & H2 & Hr2 & Hp2); [apply Hr1|]. rw (M_bind_step _ _ _ _ _ H2).
  assert (reaps (s, e) w1 [] a1) as Hr0 by by destruct Hr1.
  exists w', (a1 ++ a2). split_and!; [done|by apply (reaps_app _ w1)|]. intros now id v m Hall Hst Hd. apply list.Forall_cons in Hall as [Ht Hall].
  specialize (Hp2 now id v m Hall Hst Hd). enough (size (wmap w1) < size (wmap (s, e))) by (simpl; lia). apply (Hp1 id v m).
  - destruct Hst as (d & Hd' & Hm). exists d. split; [|done]. eapply lookup_weaken; [exact Hd'|]. etrans; [by eapply reaps_size|]. by apply (reaps_size _ _ _ _ Hr0).
  - cbn. rw /reapable in Hd |- *. apply andb_true_iff in Hd as [Hd H3]. rw Hd. apply negb_true_iff, bool_decide_eq_false in H3.
    apply negb_true_iff, bool_decide_eq_false. lia.
Qed.

(** C14: the reaper reaches everything, however many records there are. The daily loop always
    goes on, and once it has run as many times as there are records, every version that was
    soft-deleted at the beginning, with a deletion time not later than [now - ttl], is gone from
    the store and has been reported to the [onReaped] callback. A single run may pass over
    records of the later pages, because it deletes while it counts offsets. *)
Theorem reaper_loop_reaps ttl ticks (w : World) : lc_inv (wmap w) → Forall (λ t, m_now w.2 ≤ t)%Z ticks → size (wmap w) ≤ length ticks →
  ∃ w' reaped, reaperLoop ttl ticks w = (w', Ok reaped) ∧
    ∀ id v m, stored (wmap w) id v m → reapable (m_now w.2 - ttl) m = true → wmap w' !! metadataKey id v = None ∧ (id, v) ∈ reaped.
Proof.
  intros Hi Hall Hn. destruct (loop_runs ttl ticks w Hi) as (w' & reaped & H & Hr & Hp). exists w', reaped. split; [done|].
  intros id v m Hst Hd. destruct (rp_reported _ _ _ _ Hr id v m Hst) as [Hst'|?]; [|done]. specialize (Hp _ _ _ _ Hall Hst' Hd).
  destruct Hst' as (d & Hd' & _). assert (size (wmap w') ≠ 0) as Hs by (intros Hs%map_size_empty_inv; by rw Hs lookup_empty in Hd'). lia.
Qed.

(** ** The scans without pages *)
Variable order : gmap string data → list (string * data).
Hypothesis order_perm : ∀ m, order m ≡ₚ map_to_list m.
Lemma whole_scan (w : World) : onS (kv_ScanPrefix "key:") w = (w, Ok (filter (λ kv, has_prefix "key:" kv.1 = true) (wmap w))).
Proof. destruct w as [s e], (rel_scan "key:" s) as [m E]. rw /onS E. by rw (kv_scan_ok "key:" _ _ _ eq_refl E). Qed.
Lemma ordered_enum (w : World) : order (filter (λ kv, has_prefix "key:" kv.1 = true) (wmap w)) ≡ₚ enum w.
Proof. by rw order_perm (kv_enum_perm "key:" (wmap w) eq_refl). Qed.

(** They agree with the paged ones on ids and counts, and their reaper destroys everything that
    is due in one run, whatever the number of records and the order in which it meets them. *)
Theorem legacy_scans ttl (w : World) : lc_inv (wmap w) →
  (∃ ids ids', ListKeyIDs w = (w, Ok ids) ∧ listKeyIDsLegacy order w = (w, Ok ids') ∧ ids ≡ₚ ids' ∧
     countKeysLegacy order w = countKeys w) ∧
  ∃ w' reaped, reapExpiredSoftDeletesLegacy order ttl w = (w', Ok reaped) ∧
    (∀ id v m, stored (wmap w) id v m → reapable (m_now w.2 - ttl) m = true → wmap w' !! metadataKey id v = None ∧ (id, v) ∈ reaped).
Proof.
  intros Hi. set (l := order (filter (λ kv, has_prefix "key:" kv.1 = true) (wmap w))). pose proof (ordered_enum w) as Hl. fold l in Hl.
  assert (∀ id, has_id id l ↔ has_id id (enum w)) as Hid by (intros id; rw /has_id; by setoid_rewrite Hl).
  split.
  - destruct (see_key_fold l []) as [N1 I1]; [constructor|]. destruct (see_key_fold (enum w) []) as [N2 I2]; [constructor|].
    exists (foldl see_key [] (enum w)), (foldl see_key [] l). split_and!.
    + apply scan_all.
    + by rw /listKeyIDsLegacy (M_bind_step _ _ _ _ _ (whole_scan w)).
    + apply NoDup_Permutation; [done..|]. intros id. by rw I1 I2 Hid.
    + rw /countKeysLegacy (M_bind_step _ _ _ _ _ (whole_scan w)) /countKeys (M_bind_step _ _ _ _ _ (scan_all count_key ∅ w)).
      assert (foldl count_key ∅ l = foldl count_key ∅ (enum w)) as E by (apply leibniz_equiv; intros id; by rw !count_key_fold Hid).
      change (order _) with l. by rw E.
  - destruct (reap_page (m_now w.2 - ttl) l [] w Hi) as (w' & acc & He & Hr & Hg).
    { rw Hl. apply enum_nodup. }
    { intros k d Hkd. rw Hl in Hkd. by apply enum_elem. }
    exists w', acc. split.
    + rw /reapExpiredSoftDeletesLegacy. rw (M_bind_step _ _ w w (inl (filter (λ kv, has_prefix "key:" kv.1 = true) (wmap w)))).
      { by rw /try_ whole_scan. }
      done.
    + intros id v m Hst Hd. destruct (stored_inv _ _ _ _ Hi Hst) as (Hs & _).
      assert (wmap w' !! metadataKey id v = None) as Hn.
      { apply (Hg _ m); [|done]. rw Hl. by rw enum_elem metadataKey_key. }
      split; [done|]. destruct (rp_reported _ _ _ _ Hr id v m Hst) as [(d & Hd' & _)|[_ ?]]; [congruence|done].
Qed.
End Runs.

(** ** Witnesses *)
Import MemoryKV.
Lemma reaper_loop_reaps_witness : ∃ w' reaped, reaperLoop DefaultSoftDeleteTTL (replicate 6 (10 ^ 19)%Z) demo_bin = (w', Ok reaped) ∧
  wmap w' !! metadataKey "k" 1 = None ∧ ("k", 1%Z) ∈ reaped.
Proof.
  destruct (reaper_loop_reaps DefaultSoftDeleteTTL (replicate 6 (10 ^ 19)%Z) demo_bin demo_bin_inv) as (w' & reaped & E & H).
  { repeat constructor; vm_compute; discriminate. }
  { vm_compute. lia. }
  exists w', reaped. split; [done|]. eapply H; [apply stored_eval; vm_compute; reflexivity|vm_compute; reflexivity].
Defined.
Lemma legacy_scans_witness : ∃ w' reaped, reapExpiredSoftDeletesLegacy (S := WMem) map_to_list DefaultSoftDeleteTTL demo_bin = (w', Ok reaped) ∧ ("k", 1%Z) ∈ reaped.
Proof.
  destruct (legacy_scans map_to_list (λ _, reflexivity _) DefaultSoftDeleteTTL demo_bin demo_bin_inv) as [_ (w' & reaped & E & H)].
  exists w', reaped. split; [done|]. eapply H; [apply stored_eval; vm_compute; reflexivity|vm_compute; reflexivity].
Defined.
