(* ===== verification/TransitSpec.v ===== *)
(** What the import protocol guarantees: transport keys are used at most once,
    within their time, and leave no private key behind; imported material is the
    material the client wrapped, and serves as the active version of its key. *)

From S2P Require Import Prelude SecureBuffer AesGcm Ciphertext Kek Store Metadata Oaep Manager Transit Lifecycle Cache KeyManagement Scans.
Import MemoryKV.

(** ** Histories of the key table *)
Inductive transit_op : Type :=
  | TGenerate (t1 t2 : Z)
  | TUnwrap (now : Z) (id : string) (wrapped : bytes)
  | TCleanup (now : Z).

Section Table.
Context {rlib : RSALib}.
Abbreviation TW := (TransitKeyManager * entropy)%type.

Definition transit_apply (op : transit_op) (w : TW) : TW :=
  match op with
  | TGenerate t1 t2 => (GenerateTransitKey t1 t2 w).1
  | TUnwrap now id wm => ((UnwrapWithTransitKey now id wm w.1).1, w.2)
  | TCleanup now => (TransitCleanupExpired now w.1, w.2)
  end.
(** No two keys are generated at the same nanosecond, while the first is alive. *)
Definition transit_ok (op : transit_op) (w : TW) : Prop :=
  match op with TGenerate t1 _ => tm_keys w.1 !! transit_id t1 = None | _ => True end.
Inductive transit_step : TW → TW → Prop :=
  | transit_step_op op w : transit_ok op w → transit_step w (transit_apply op w).
Abbreviation transit_reach := (rtc transit_step).

(** A buffer that was wiped. *)
Definition zeroed (sb : SecureBuffer) : Prop := sb_destroyed sb = true ∧ Forall (λ b, b = x00) (sb_data sb).
Record tm_inv (t : TransitKeyManager) : Prop := {
  ti_live id en : tm_keys t !! id = Some en → ∃ sb, tm_heap t !! te_privateKey en = Some sb ∧ live sb;
  ti_inj id en id' en' : tm_keys t !! id = Some en → tm_keys t !! id' = Some en' →
    te_privateKey en = te_privateKey en' → id = id';
  ti_rest i sb : tm_heap t !! i = Some sb →
    zeroed sb ∨ ∃ id en, tm_keys t !! id = Some en ∧ te_privateKey en = i;
}.

Lemma zeroed_Wipe sb : live sb → zeroed (Wipe sb).
Proof. rw /live /zeroed /Wipe. intros ->. split; [done|apply clear_zero]. Qed.

Lemma tm_inv_new : tm_inv NewTransitKeyManager.
Proof. split; simpl; [by intros ?? ?%lookup_empty_Some|by intros ???? ?%lookup_empty_Some|by intros ?? H; rw lookup_nil in H]. Qed.

(** Burning an entry wipes its buffer and no other. *)
Lemma burn_inv id en t : tm_inv t → tm_keys t !! id = Some en →
  tm_inv (burn id en t) ∧
  (∃ sb, tm_heap (burn id en t) !! te_privateKey en = Some sb ∧ zeroed sb) ∧
  (∀ id' en', id' ≠ id → tm_keys t !! id' = Some en' →
     tm_keys (burn id en t) !! id' = Some en' ∧
     tm_heap (burn id en t) !! te_privateKey en' = tm_heap t !! te_privateKey en').
Proof.
  intros [Hl Hi Hr] He. destruct (Hl _ _ He) as (sb & Hsb & Hlv).
  assert (tm_heap (burn id en t) !! te_privateKey en = Some (Wipe sb)) as Hw.
  { rw /burn /=. by rw list_lookup_alter_eq Hsb. }
  assert (∀ id' en', id' ≠ id → tm_keys t !! id' = Some en' →
     tm_keys (burn id en t) !! id' = Some en' ∧
     tm_heap (burn id en t) !! te_privateKey en' = tm_heap t !! te_privateKey en') as Hother.
  { intros id' en' Hne He'. rw /burn /=. split; [by rw lookup_delete_ne|].
    apply list_lookup_alter_ne. intros E. by destruct Hne; eapply Hi. }
  split; [|split; [exists (Wipe sb); split; [done|by apply zeroed_Wipe]|done]]. split.
  - intros id' en' He'. cbn [burn tm_keys] in He'. apply lookup_delete_Some in He' as [Hne He'].
    destruct (Hother id' en') as [_ ->]; [done..|]. by eapply Hl.
  - intros i1 e1 i2 e2 H1 H2. cbn [burn tm_keys] in H1, H2.
    apply lookup_delete_Some in H1 as [_ H1], H2 as [_ H2]. by eapply Hi.
  - intros i b Hb. destruct (decide (i = te_privateKey en)) as [->|Hne].
    { left. rw Hw in Hb. injection Hb as <-. by apply zeroed_Wipe. }
    cbn [burn tm_heap] in Hb. rw list_lookup_alter_ne // in Hb.
    destruct (Hr _ _ Hb) as [?|(id' & en' & He' & <-)]; [by left|right]. exists id', en'. split; [|done].
    apply Hother; [|done]. intros ->. congruence.
Qed.

Lemma generate_inv t1 t2 t e : RSALaws → tm_inv t → tm_keys t !! transit_id t1 = None →
  tm_inv (GenerateTransitKey t1 t2 (t, e)).1.1 ∧
  (∀ id en, tm_keys t !! id = Some en →
     tm_keys (GenerateTransitKey t1 t2 (t, e)).1.1 !! id = Some en ∧
     tm_heap (GenerateTransitKey t1 t2 (t, e)).1.1 !! te_privateKey en = tm_heap t !! te_privateKey en).
Proof.
  intros Hlib [Hl Hi Hr] Hf. rw /GenerateTransitKey. destruct (rsa_GenerateKey 4096 e) as [e' [k| |]]; [|by split..].
  destruct (x509_MarshalPKCS8 k) as [der| |]; [|by split..]. cbn [NewSecureBuffer fst].
  assert (∀ id en, tm_keys t !! id = Some en → te_privateKey en < length (tm_heap t)) as Hlt.
  { intros id en (sb & Hs & _)%Hl. by eapply lookup_lt_Some. }
  destruct (x509_MarshalPKIX (rsa_public k)) as [der'| |] eqn:Ep; cbn [fst snd tm_keys tm_heap].
  - split; [split|]; cbn [tm_keys tm_heap].
    + intros id en [[<- <-]|[_ He]]%lookup_insert_Some.
      { exists (mkSB der false). simpl. by rw list_lookup_middle. }
      rw lookup_app_l; [by eapply Hlt|]. by eapply Hl.
    + intros i1 e1 i2 e2 [[<- <-]|[_ H1]]%lookup_insert_Some [[<- <-]|[_ H2]]%lookup_insert_Some; [done|..].
      * intros E. apply Hlt in H2. simpl in E. lia.
      * intros E. apply Hlt in H1. simpl in E. lia.
      * by eapply Hi.
    + intros i sb. intros [Hb|[Hge Hb]]%lookup_app_Some.
      * destruct (Hr _ _ Hb) as [?|(id & en & He & <-)]; [by left|right]. exists id, en.
        split; [|done]. rw lookup_insert_ne //. intros <-. congruence.
      * right. apply list_lookup_singleton_Some in Hb as [Hi0 <-].
        eexists (transit_id t1), _. rw lookup_insert_eq. split; [done|]. simpl. lia.
    + intros id en He. split; [rw lookup_insert_ne //; intros <-; congruence|].
      rw lookup_app_l //. by eapply Hlt.
  - rw alter_app_r_alt //. rw Nat.sub_diag. cbn [alter list_alter].
    assert (zeroed (Wipe (mkSB der false))) as Hz by by apply zeroed_Wipe.
    split; [split|]; cbn [tm_keys tm_heap].
    + intros id en He. rw lookup_app_l; [by eapply Hlt|]. by eapply Hl.
    + done.
    + intros i sb [Hb|[_ Hb]]%lookup_app_Some; [by eapply Hr|].
      apply list_lookup_singleton_Some in Hb as [_ <-]. by left.
    + intros id en He. split; [done|]. rw lookup_app_l //. by eapply Hlt.
  - by destruct (x509_pkix_returns _ _ Ep).
Qed.

(** The sweep burns exactly the entries past their time. *)
Lemma cleanup_spec now t : tm_inv t →
  tm_inv (TransitCleanupExpired now t) ∧
  (∀ id en, tm_keys (TransitCleanupExpired now t) !! id = Some en ↔
     tm_keys t !! id = Some en ∧ (now ≤ te_expiresAt en)%Z) ∧
  (∀ id en, tm_keys (TransitCleanupExpired now t) !! id = Some en →
     tm_heap (TransitCleanupExpired now t) !! te_privateKey en = tm_heap t !! te_privateKey en).
Proof.
  intros Ht. rw /TransitCleanupExpired.
  set (f := λ '(keyID, entry) t, if bool_decide (te_expiresAt entry < now)%Z then burn keyID entry t else t).
  assert (∀ l, NoDup l.*1 → (∀ id en, (id, en) ∈ l → tm_keys t !! id = Some en) →
    tm_inv (foldr f t l) ∧
    (∀ id en, tm_keys (foldr f t l) !! id = Some en ↔
       tm_keys t !! id = Some en ∧ ((id, en) ∈ l → (now ≤ te_expiresAt en)%Z)) ∧
    (∀ id en, tm_keys (foldr f t l) !! id = Some en →
       tm_heap (foldr f t l) !! te_privateKey en = tm_heap t !! te_privateKey en)) as Hall.
  { induction l as [|[id en] l IH]; intros Hnd Hin.
    { split_and!; [done| |done]. intros id en. split; [intros ?; split; [done|by intros ?%elem_of_nil]|by intros []]. }
    apply list.NoDup_cons in Hnd as [Hnew Hnd]. cbn [fst] in Hnew.
    destruct IH as (Hi & Hk & Hh); [done|intros; apply Hin; by right|].
    assert (tm_keys (foldr f t l) !! id = Some en) as He.
    { apply Hk. split; [apply Hin; left|]. intros Hc. destruct Hnew. by apply (list_elem_of_fmap_2 fst _ (id, en)). }
    assert (foldr f t ((id, en) :: l) =
      if bool_decide (te_expiresAt en < now)%Z then burn id en (foldr f t l) else foldr f t l) as -> by done.
    case_bool_decide as Hx.
    - destruct (burn_inv _ _ _ Hi He) as (Hb & _ & Hother). split_and!; [done| |].
      + intros id' en'. cbn [burn tm_keys]. rw lookup_delete_Some Hk elem_of_cons. split.
        * intros (Hne & H1 & H2). split; [done|]. intros [[= -> ->]|]; [done|auto].
        * intros (H1 & H2). split; [|split; [done|auto]]. intros <-.
          assert (en' = en) as -> by (rw (Hin id en) in H1; [left|]; by injection H1).
          specialize (H2 (or_introl eq_refl)). lia.
      + intros id' en' He'. cbn [burn tm_keys] in He'. apply lookup_delete_Some in He' as [Hne He'].
        destruct (Hother id' en') as [_ ->]; [done..|]. by apply (Hh id').
    - split_and!; [done| |done]. intros id' en'. rw Hk elem_of_cons. split.
      + intros (H1 & H2). split; [done|]. intros [[= -> ->]|]; [lia|auto].
      + intros (H1 & H2). split; [done|]. auto. }
  destruct (Hall (map_to_list (tm_keys t))) as (Hi & Hk & Hh).
  { apply NoDup_fst_map_to_list. }
  { intros id en. by rw elem_of_map_to_list. }
  split_and!; [done| |done]. intros id en. rw Hk elem_of_map_to_list. naive_solver.
Qed.

(** What an unwrap does to the table, by its outcome. *)
Lemma unwrap_inv now id wm t : tm_inv t →
  tm_inv (UnwrapWithTransitKey now id wm t).1 ∧
  (∀ id' en, id' ≠ id → tm_keys t !! id' = Some en →
     tm_keys (UnwrapWithTransitKey now id wm t).1 !! id' = Some en ∧
     tm_heap (UnwrapWithTransitKey now id wm t).1 !! te_privateKey en = tm_heap t !! te_privateKey en).
Proof.
  intros Ht. rw /UnwrapWithTransitKey. destruct (tm_keys t !! id) as [en|] eqn:He; [|done].
  destruct (burn_inv _ _ _ Ht He) as (Hb & _ & Hother).
  case_bool_decide; [done|]. destruct (tm_heap t !! te_privateKey en) as [sb|]; [|done].
  by destruct (WithKeyR _ _).
Qed.

Lemma transit_apply_inv op w : RSALaws → transit_ok op w → tm_inv w.1 → tm_inv (transit_apply op w).1.
Proof.
  intros Hlib Hok Ht. destruct op as [t1 t2|now id wm|now]; destruct w as [t e]; cbn [transit_apply fst snd] in *.
  - by apply generate_inv.
  - by apply unwrap_inv.
  - by apply cleanup_spec.
Qed.
Lemma transit_reach_inv w w' : RSALaws → transit_reach w w' → tm_inv w.1 → tm_inv w'.1.
Proof.
  intros Hlib Hr. induction Hr as [|w w1 w2 Hs _ IH]; intros Ht; [done|]. apply IH.
  destruct Hs. by apply transit_apply_inv.
Qed.

(** Transport keys burn after reading. In every reachable key table: a private key
    that is not wiped and zeroed is one the table still offers; an unwrap succeeds
    only within the time of its key, and removes the key and zeroes its buffer; so
    does the first unwrap past that time; and after a sweep no key past its time is
    left. *)
Theorem transit_keys_burn e0 w : RSALaws → transit_reach (NewTransitKeyManager, e0) w →
  (∀ i sb, tm_heap w.1 !! i = Some sb → zeroed sb ∨ ∃ id en, tm_keys w.1 !! id = Some en ∧ te_privateKey en = i) ∧
  (∀ now id wm t' r en, tm_keys w.1 !! id = Some en → UnwrapWithTransitKey now id wm w.1 = (t', r) →
     is_ok r = true ∨ (te_expiresAt en < now)%Z →
     (is_ok r = true ↔ (now ≤ te_expiresAt en)%Z) ∧ tm_keys t' !! id = None ∧
     ∃ sb, tm_heap t' !! te_privateKey en = Some sb ∧ zeroed sb) ∧
  (∀ now id en, tm_keys (TransitCleanupExpired now w.1) !! id = Some en → (now ≤ te_expiresAt en)%Z).
Proof.
  intros Hlib Hr. apply transit_reach_inv in Hr; [|done|apply tm_inv_new]. split_and!; [apply Hr| |].
  - intros now id wm t' r en He H. rw /UnwrapWithTransitKey He in H.
    destruct (burn_inv _ _ _ Hr He) as (_ & Hz & _).
    assert (tm_keys (burn id en w.1) !! id = None) as Hd by (cbn [burn tm_keys]; apply lookup_delete_eq).
    case_bool_decide as Hx; [injection H as <- <-; intros _; split_and!; [split; [done|lia]|done..]|].
    destruct (tm_heap w.1 !! te_privateKey en) as [sb|]; [|injection H as <- <-; intros [|]; [done|lia]].
    destruct (WithKeyR _ _); injection H as <- <-; (intros [?|?]; [|lia]); [|done..].
    split_and!; [split; [lia|done]|done..].
  - intros now id en. by intros [_ ?]%(cleanup_spec now w.1 Hr).
Qed.

(** ** A key waits for its import *)
Definition spares_transit (id : string) (expires : Z) (op : transit_op) : Prop :=
  match op with
  | TGenerate t1 _ => transit_id t1 ≠ id
  | TUnwrap _ id' _ => id' ≠ id
  | TCleanup now => (now ≤ expires)%Z
  end.
Inductive transit_run : list transit_op → TW → TW → Prop :=
  | run_nil w : transit_run [] w w
  | run_cons op ops w w' : transit_ok op w → transit_run ops (transit_apply op w) w' → transit_run (op :: ops) w w'.

Lemma spared_entry ops w w' id en sb : RSALaws → transit_run ops w w' → tm_inv w.1 →
  Forall (spares_transit id (te_expiresAt en)) ops →
  tm_keys w.1 !! id = Some en → tm_heap w.1 !! te_privateKey en = Some sb →
  tm_inv w'.1 ∧ tm_keys w'.1 !! id = Some en ∧ tm_heap w'.1 !! te_privateKey en = Some sb.
Proof.
  intros Hlib Hrun. induction Hrun as [w|op ops w w' Hok _ IH]; intros Hi Hsp Hk Hh; [done|].
  apply list.Forall_cons in Hsp as [Hop Hsp]. apply IH; [by apply transit_apply_inv|done|..];
    destruct op as [t1 t2|now id' wm|now]; destruct w as [t e]; cbn [transit_apply spares_transit fst snd] in *.
  - by apply generate_inv.
  - by apply unwrap_inv.
  - by apply cleanup_spec.
  - destruct (generate_inv t1 t2 t e Hlib Hi Hok) as [_ H1]. by destruct (H1 _ _ Hk) as [_ ->].
  - destruct (unwrap_inv now id' wm t Hi) as [_ H1]. by destruct (H1 id en) as [_ ->].
  - destruct (cleanup_spec now t Hi) as (_ & H1 & H2). rw (H2 id) //. by apply H1.
Qed.

(** The client's side: parse the public key, encrypt the key material under it. *)
Definition client_wrap (publicKey seed dek : bytes) : result bytes :=
  pub ← pem_ParsePKIX publicKey; EncryptOAEP [] pub seed dek.

Lemma generate_entry t1 t2 t e w pub seed dek wm : RSALaws → tm_inv t → tm_keys t !! transit_id t1 = None →
  GenerateTransitKey t1 t2 (t, e) = (w, Ok pub) → length seed = hLen →
  client_wrap (tp_PublicKey pub) seed dek = Ok wm →
  tm_inv w.1 ∧ ∃ en sb, tm_keys w.1 !! tp_KeyID pub = Some en ∧ te_expiresAt en = tp_ExpiresAt pub ∧
    tm_heap w.1 !! te_privateKey en = Some sb ∧ live sb ∧ transit_decrypt wm (sb_data sb) = Ok dek.
Proof.
  intros Hlib Hi Hf HG Hs Hw. destruct (generate_inv t1 t2 t e Hlib Hi Hf) as [Hi' _]. rw HG in Hi'. split; [done|].
  rw /GenerateTransitKey in HG. destruct (rsa_GenerateKey 4096 e) as [e' [k| |]] eqn:Eg; [|done..].
  destruct (x509_MarshalPKCS8 k) as [der| |] eqn:Ed; [|done..].
  destruct (x509_MarshalPKIX (rsa_public k)) as [der'| |] eqn:Ep; [|done..]. injection HG as <- <-.
  eexists _, (mkSB der false). cbn [fst tm_keys tm_heap tp_KeyID tp_ExpiresAt tp_PublicKey] in *.
  rw lookup_insert_eq. split_and!; [done|done|by rw /= list_lookup_middle|done|].
  rw /client_wrap (x509_pkix_roundtrip _ _ Ep) /= in Hw.
  rw /transit_decrypt (x509_pkcs8_roundtrip _ _ Ed) /=.
  eapply OAEP_roundtrip; [by eapply rsa_generate_valid|exact Hs|exact Hw].
Qed.
End Table.

(** ** Import *)
Section ImportTheorem.
Context {rlib : RSALib} {S : Type} `{!KVStore S, !KVStoreLaws S, !ReliableStore S}.
Abbreviation World := (S * Env)%type.

(** A successful unwrap in a table that still holds the key. *)
Lemma unwrap_ok now id wm t en sb dek : tm_keys t !! id = Some en → tm_heap t !! te_privateKey en = Some sb → live sb →
  (now ≤ te_expiresAt en)%Z → transit_decrypt wm (sb_data sb) = Ok dek →
  UnwrapWithTransitKey now id wm t = (burn id en t, Ok dek).
Proof.
  intros Hk Hh Hl Hn Hd. rw /UnwrapWithTransitKey Hk bool_decide_eq_false_2; [lia|]. by rw Hh WithKeyR_live // Hd.
Qed.

Lemma metadataKey_ne id v : metadataKey id v ≠ "".
Proof. done. Qed.

Definition imported (target : string) (kek : KEK) (ct : bytes) (now : Z) : KeyMetadata :=
  mkMeta target 1 StateActive KeyTypeAES "" [] ct (KEKType_string (kek_Type kek)) [] now 0 0 0.

Lemma import_dek_ok target kek dek rnd ct (w : World) :
  kek_WrapDEK kek (mkSB dek false) (m_rand w.2) = (rnd, Ok ct) →
  ∃ s', import_dek target kek dek w = ((s', set_rand rnd w.2), Ok (imported target kek ct (m_now w.2))) ∧
    kv_map s' = put_meta (imported target kek ct (m_now w.2)) (wmap w).
Proof.
  destruct w as [s e]. cbn [snd]. intros Hw.
  destruct (rel_put (metadataKey target 1) (marshal_meta (imported target kek ct (m_now e))) s) as [s' Hp]; [done|].
  exists s'. split; [|by eapply kv_put_ok in Hp].
  rw /import_dek /mbind /M_bind /wrapM /onRand /=. rw Hw /=.
  by rw /saveMetadata /wrapM /onS /= Hp.
Qed.

(** A key with the single version 1, not indexed and not cached, is the active one. *)
Lemma single_active id m (w : World) : wmap w !! metadataKey id 1 = Some (marshal_meta m) →
  wmap w !! metadataKey id 2 = None → index_of (wmap w) id = None → km_State m = StateActive →
  dc_data (wcache w) !! metadataKey id 1 = None → cache_isNegative (m_now w.2) (metadataKey id 1) (wcache w) = false →
  ∃ w', GetActiveKey id w = (w', Ok m).
Proof.
  intros H1 H2 Hix Ha Hc Hn. destruct w as [s e]. rw /wmap /wcache /= in H1 H2 Hix Hc Hn.
  assert (findLatestVersion id s = (s, Ok 1%Z)) as Hf.
  { destruct (scan_versions_spec id (2 + size (kv_map s)) 1 s) as (n & Hn1 & Hall & Hend & Hsc); [lia|lia|lia|].
    assert (n = 1)%Z as ->.
    { destruct (decide (n = 0)%Z) as [->|]; [by rw H1 in Hend|]. destruct (decide (n = 1)%Z); [done|].
      destruct (Hall 2%Z) as [d Hd]; [lia|]. by rw H2 in Hd. }
    rw /findLatestVersion /getLatestVersion /mbind /M_bind /try_ rel_get. rw /index_of /mbind /option_bind in Hix.
    destruct (kv_map s !! latestVersionMetadataKey id) as [d|]; [|exact Hsc].
    destruct (data_empty d); [exact Hsc|]. destruct (unmarshal_int d) as [v| |]; [|exact Hsc..].
    case_bool_decide; [done|exact Hsc]. }
  eexists. rw /GetActiveKey /mbind /M_bind /wrapM /onS Hf /=.
  rw /loadMetadata /mbind /M_bind /= /cache_get Hc Hn /try_ /onS rel_get H1 /=.
  rw /wrapM /lift unmarshal_marshal_meta /=. by rw Ha.
Qed.

(** C23: an import delivers what the client wrapped. Let a transport key be generated,
    and let other transport keys be generated, used and swept meanwhile; if the
    client encrypts a non-empty key under the public key it was given, and the
    import of it into an unused key id comes in time, then the import succeeds, the
    transport key is gone, and the active version of the target key is a record
    whose material unwraps, under the key-encryption key, to the client's key. *)
Theorem ImportKey_roundtrip e0 t e t1 t2 w1 pub ops t' e' seed dek wm target kek rnd ct (w : World) :
  RSALaws → LawfulKEK kek → rtc transit_step (NewTransitKeyManager, e0) (t, e) →
  tm_keys t !! transit_id t1 = None → GenerateTransitKey t1 t2 (t, e) = (w1, Ok pub) →
  transit_run ops w1 (t', e') → Forall (spares_transit (tp_KeyID pub) (tp_ExpiresAt pub)) ops →
  length seed = hLen → client_wrap (tp_PublicKey pub) seed dek = Ok wm → dek ≠ [] → target ≠ "" →
  (m_now w.2 ≤ tp_ExpiresAt pub)%Z →
  winv w → fresh_id (wmap w) target → index_of (wmap w) target = None →
  cache_isNegative (m_now w.2) (metadataKey target 1) (wcache w) = false →
  kek_WrapDEK kek (mkSB dek false) (m_rand w.2) = (rnd, Ok ct) →
  ∃ w' t'' w'' meta, ImportKey target (tp_KeyID pub) wm (Some kek) (w, t') = ((w', t''), Ok meta) ∧
    tm_keys t'' !! tp_KeyID pub = None ∧ GetActiveKey target w' = (w'', Ok meta) ∧
    kek_UnwrapDEK kek (km_Material meta) = Ok (mkSB dek false).
Proof.
  intros Hlib Hkek Hr Hf HG Hrun Hsp Hs Hcw Hne Ht Hn [Hi Hc] Hfr Hix Hneg Hw.
  apply transit_reach_inv in Hr; [|done|apply tm_inv_new].
  destruct (generate_entry _ _ _ _ _ _ _ _ _ Hlib Hr Hf HG Hs Hcw) as (Hi1 & en & sb & Hk & Hx & Hh & Hl & Hd).
  rw -Hx in Hsp Hn. destruct (spared_entry _ _ _ _ _ _ Hlib Hrun Hi1 Hsp Hk Hh) as (_ & Hk' & Hh').
  pose proof (unwrap_ok _ _ _ _ _ _ _ Hk' Hh' Hl Hn Hd) as Hu. cbn [fst] in Hu.
  destruct (import_dek_ok target kek dek rnd ct w Hw) as (s' & Hm & Em).
  destruct (single_active target (imported target kek ct (m_now w.2)) (s', set_rand rnd w.2)) as [w'' Ha].
  - rw /wmap /= Em /put_meta. apply lookup_insert_eq.
  - rw /wmap /= Em /put_meta lookup_insert_ne; [by intros [_ ?]%metadataKey_inj|]. apply Hfr.
  - rw /index_of /wmap /= Em /put_meta lookup_insert_ne //.
  - done.
  - rw /wcache /=. destruct (dc_data (m_cache w.2) !! metadataKey target 1) as [m|] eqn:E; [|done].
    destruct (Hc _ _ _ E) as (m' & (d & Hd' & _) & _). by rw Hfr in Hd'.
  - exact Hneg.
  - eexists _, (burn (tp_KeyID pub) en t'), w'', _. split_and!; [| |exact Ha|].
    + rw /ImportKey /mbind /M_bind /guardM (bool_decide_eq_false_2 _ Ht) /=. destruct w as [s env]. rw /onT /=.
      rw /wrapM. cbn [snd] in Hu. rw Hu /onS. cbn [wrap_err]. cbv beta iota. by rw Hm.
    + cbn [burn tm_keys]. apply lookup_delete_eq.
    + by eapply (kek_roundtrip (mkSB dek false)).
Qed.
End ImportTheorem.

(** ** A concrete protocol run
    A library with a single key, whose exponents are 1. *)
#[export] Instance RSAKey_eq_dec : EqDecision RSAKey.
Proof. solve_decision. Defined.
Definition demo_rsa_key : RSAKey := mkRSA (2 ^ 4096 - 1) 1 1.
#[export] Instance demo_rsa : RSALib := {
  rsa_GenerateKey bits e := if bool_decide (bits = 4096%Z) then (e, Ok demo_rsa_key) else (e, Error (Err_new "rsa"));
  x509_MarshalPKCS8 k := if bool_decide (k = demo_rsa_key) then Ok [x30] else Error (Err_new "x509");
  x509_ParsePKCS8 der := Ok (Some demo_rsa_key);
  x509_MarshalPKIX pub := if bool_decide (pub = rsa_public demo_rsa_key) then Ok [x31] else Error (Err_new "x509");
  pem_Encode der := x2d :: der;
  pem_ParsePKIX pem := Ok (rsa_public demo_rsa_key);
}.
#[export] Instance demo_rsa_laws : RSALaws.
Proof.
  split; cbn.
  - intros bits e e' k. case_bool_decide as E; [|done]. intros [= _ <-]. subst bits.
    split; [|by vm_compute]. split_and!; [by vm_compute..|]. cbn [rsa_N rsa_E rsa_D]. intros m Hm.
    by rw !Z.pow_1_r !Z.mod_small.
  - intros k der. by case_bool_decide as E; [intros _; subst|].
  - intros pub der. by case_bool_decide as E; [intros _; subst|].
  - intros pub m. by case_bool_decide.
Qed.

Definition demo_dek : bytes := z2b ∘ Z.of_nat <$> seq 100 32.
Definition demo_gen : (TransitKeyManager * entropy) * result TransitPublicKey :=
  GenerateTransitKey 1000000 1000001 (NewTransitKeyManager, []).
Definition demo_pub : TransitPublicKey := mkTPub (transit_id 1000000) [x2d; x31] (1000001 + TransitKeyTTL).
Definition demo_transit_ops : list transit_op := [TGenerate 1000002 1000003; TUnwrap 1000004 "transit-0" []; TCleanup 1000005].
Definition demo_table : TransitKeyManager * entropy := foldl (λ w op, transit_apply op w) demo_gen.1 demo_transit_ops.

Definition demo_target : MemoryKV.WMem * Env := demo_world (demo_entropy 100).
Definition soft_kek : KEK := NewSoftwareKEK demo_key.
Lemma ImportKey_roundtrip_witness : ∃ ct w' t'' w'' meta, EncryptOAEP [] (rsa_public demo_rsa_key) (replicate 32 x07) demo_dek = Ok ct ∧
  ImportKey "k" (tp_KeyID demo_pub) ct (Some soft_kek) (demo_target, demo_table.1) = ((w', t''), Ok meta) ∧
  tm_keys t'' !! tp_KeyID demo_pub = None ∧ GetActiveKey "k" w' = (w'', Ok meta) ∧
  kek_UnwrapDEK soft_kek (km_Material meta) = Ok (mkSB demo_dek false).
Proof.
  destruct (EncryptOAEP [] (rsa_public demo_rsa_key) (replicate 32 x07) demo_dek) as [ct| |] eqn:Ee;
    [|exfalso; apply (f_equal is_ok) in Ee; revert Ee; vm_compute; discriminate..].
  exists ct. edestruct (ImportKey_roundtrip [] NewTransitKeyManager [] 1000000 1000001 demo_gen.1 demo_pub demo_transit_ops demo_table.1 demo_table.2
    (replicate 32 x07) demo_dek ct "k" soft_kek) with (w := demo_target) as (w' & t'' & w'' & meta & H).
  - apply demo_rsa_laws.
  - apply softwareKEK_lawful, StandardCipher_lawful.
  - apply rtc_refl.
  - vm_compute. reflexivity.
  - vm_compute. reflexivity.
  - rewrite -surjective_pairing. repeat (apply run_cons || apply run_nil); vm_compute; reflexivity.
  - repeat constructor; vm_compute; discriminate.
  - reflexivity.
  - exact Ee.
  - discriminate.
  - discriminate.
  - vm_compute. discriminate.
  - split; [apply demo_inv|]. intros id v m H. vm_compute in H. discriminate H.
  - intros v. vm_compute. reflexivity.
  - vm_compute. reflexivity.
  - vm_compute. reflexivity.
  - vm_compute. reflexivity.
  - exists w', t'', w'', meta. split; [reflexivity|exact H].
Defined.

(** A failed unwrap leaves the key in the table, so material can be submitted again. *)
Example failed_unwrap_keeps_key :
  let '(t, r) := UnwrapWithTransitKey 1000006 (transit_id 1000000) [] demo_gen.1.1 in
  is_ok r = false ∧ tm_keys t !! transit_id 1000000 = tm_keys demo_gen.1.1 !! transit_id 1000000 ∧ tm_keys t !! transit_id 1000000 ≠ None.
Proof. vm_compute. split_and!; [reflexivity|reflexivity|discriminate]. Qed.

(** Two keys generated at the same clock reading share an id: the first private key is
    overwritten in the table and stays in memory, unwiped. *)
Example same_instant_leaks :
  let t := (GenerateTransitKey 1000000 1000001 demo_gen.1).1.1 in
  tm_heap (TransitCleanupExpired (1000002 + TransitKeyTTL) t) = [mkSB [x30] false; mkSB [x00] true].
Proof. vm_compute. reflexivity. Qed.

(** An import does not write the version index: on a key whose two versions were
    shredded, the stale index hides the imported version. *)
Example import_hidden_by_stale_index :
  let w := mgr_run [OpCreate "k" demo_kek 0; OpRotate "k" demo_kek; OpShred "k" 1; OpShred "k" 2; OpImport "k" soft_kek demo_dek]
             (demo_world (demo_entropy 300)) in
  is_ok (GetKey "k" 1 w).2 = true ∧ is_ok (GetActiveKey "k" w).2 = false.
Proof. vm_compute. split; reflexivity. Qed.

(** An import into an existing key id replaces the material of version 1. *)
Example import_overwrites :
  let w := mgr_run [OpCreate "k" demo_kek 0] (demo_world (demo_entropy 300)) in
  let w' := mgr_apply (OpImport "k" soft_kek demo_dek) w in
  is_ok (GetKey "k" 1 w).2 = true ∧
  option_map km_Material (rec (wmap w) "k" 1) ≠ option_map km_Material (rec (wmap w') "k" 1).
Proof. vm_compute. split; [reflexivity|discriminate]. Qed.
