(* ===== verification/Auth.v ===== *)
(** Authentication and authorisation, [src/internal/auth/auth.go] and
    [multi_authenticator.go]: policies with wildcard patterns, the AppRole token
    table, the authenticator chain, tenant scoping of key ids and the bearer
    header. Strings are byte strings; [strings.EqualFold] is modelled on ASCII
    letters, the only ones action names use. *)

From S2P Require Import Prelude Store Metadata.

Record Policy : Type := mkPolicy {
  p_RoleID : string;
  p_AllowedKeys : list string;
  p_AllowedActions : list string;
  p_RequireMFA : bool;
  p_RequireQuorum : Z;
  p_ApproverRoles : list string;
  p_TenantID : string;
}.

Definition ErrUnauthorized : error := Err_new "auth: unauthorized".

(** ** Patterns *)
(** [strings.HasSuffix(s, "*")] and [strings.TrimSuffix(s, "*")]. *)
Definition star : Ascii.ascii := Ascii.ascii_of_nat 42.
Fixpoint trim_star (s : string) : option string :=
  match s with
  | EmptyString => None
  | String c EmptyString => if Ascii.eqb c star then Some EmptyString else None
  | String c s => String c <$> trim_star s
  end.
Definition matchPattern (pattern keyID : string) : bool :=
  if bool_decide (pattern = "*") then true
  else match trim_star pattern with
       | Some prefix => has_prefix prefix keyID
       | None => bool_decide (pattern = keyID)
       end.
Definition IsKeyAllowed (p : Policy) (keyID : string) : bool :=
  existsb (λ pattern, matchPattern pattern keyID) (p_AllowedKeys p).

Definition lower (c : Ascii.ascii) : Ascii.ascii :=
  let n := Ascii.nat_of_ascii c in
  if (65 <=? n)%nat && (n <=? 90)%nat then Ascii.ascii_of_nat (n + 32) else c.
Fixpoint EqualFold (s t : string) : bool :=
  match s, t with
  | EmptyString, EmptyString => true
  | String a s, String b t => Ascii.eqb (lower a) (lower b) && EqualFold s t
  | _, _ => false
  end.
Definition IsActionAllowed (p : Policy) (action : string) : bool :=
  existsb (λ allowed, bool_decide (allowed = "*") || EqualFold allowed action) (p_AllowedActions p).

(** ** AppRole tokens *)
Record AppRoleAuthenticator : Type := mkAppRole {
  ar_tokens : gmap string string;     (* token to role *)
  ar_policies : gmap string Policy;   (* role to policy *)
}.
Definition NewAppRoleAuthenticator : AppRoleAuthenticator := mkAppRole ∅ ∅.

Definition RegisterPolicy (roleID token : string) (policy : Policy) (a : AppRoleAuthenticator) :
    AppRoleAuthenticator :=
  let policy := mkPolicy roleID (p_AllowedKeys policy) (p_AllowedActions policy) (p_RequireMFA policy)
    (p_RequireQuorum policy) (p_ApproverRoles policy) (p_TenantID policy) in
  mkAppRole (<[token := roleID]> (filter (λ tr, tr.2 ≠ roleID) (ar_tokens a)))
    (<[roleID := policy]> (ar_policies a)).

(** Stored tokens are distinct, so the scan of the table finds the entry of the
    token itself. *)
Definition Authenticate (a : AppRoleAuthenticator) (token : string) : result Policy :=
  if bool_decide (token = "") then Error ErrUnauthorized
  else match ar_tokens a !! token with
       | Some roleID =>
           match ar_policies a !! roleID with Some p => Ok p | None => Error ErrUnauthorized end
       | None => Error ErrUnauthorized
       end.
Definition LookupPolicy (a : AppRoleAuthenticator) (roleID : string) : option Policy := ar_policies a !! roleID.

(** [MultiAuthenticator.Authenticate]: the first success, else the last error. *)
Definition MultiAuthenticate (authenticators : list (option (string → result Policy))) (token : string) :
    result Policy :=
  (fix go (l : list (option (string → result Policy))) (lastErr : error) : result Policy :=
     match l with
     | [] => Error lastErr
     | None :: l => go l lastErr
     | Some a :: l =>
         match a token with
         | Ok p => Ok p
         | Error e => go l e
         | Panic m => Panic m
         end
     end) authenticators ErrUnauthorized.

(** ** Tenants *)
Definition ScopedKeyID (tenantID keyID : string) : string :=
  if bool_decide (tenantID = "") then keyID else tenantID +:+ ":" +:+ keyID.

(** [strings.Contains] *)
Fixpoint str_contains (sub s : string) : bool :=
  has_prefix sub s || match s with String.String _ s' => str_contains sub s' | String.EmptyString => false end.

Fixpoint str_drop (n : nat) (s : string) : string :=
  match n, s with S n, String _ s => str_drop n s | _, _ => s end.
Definition UnscopedKeyID (tenantID scopedKeyID : string) : string :=
  if bool_decide (tenantID = "") then scopedKeyID
  else
    let prefix := tenantID +:+ ":" in
    if (String.length prefix <? String.length scopedKeyID)%nat && has_prefix prefix scopedKeyID
    then str_drop (String.length prefix) scopedKeyID else scopedKeyID.

(** ** The bearer header *)
Definition is_space (c : Ascii.ascii) : bool :=
  let n := Ascii.nat_of_ascii c in ((9 <=? n) && (n <=? 13) || (n =? 32))%nat.
Fixpoint trim_left (l : list Ascii.ascii) : list Ascii.ascii :=
  match l with c :: l' => if is_space c then trim_left l' else l | [] => [] end.
Definition TrimSpace (s : string) : string :=
  String.string_of_list_ascii (rev (trim_left (rev (trim_left (chars s))))).
Definition ExtractBearerToken (header : string) : result string :=
  if negb (has_prefix "Bearer " header) then Error (Err_new "auth: missing or invalid Authorization header")
  else
    let token := TrimSpace (str_drop 7 header) in
    if bool_decide (token = "") then Error (Err_new "auth: empty bearer token") else Ok token.

(** ** Properties *)
Lemma trim_star_spec s p : trim_star s = Some p ↔ s = p +:+ "*".
Proof.
  revert p. induction s as [|c s IH]; intros p; simpl.
  { split; [done|]. by destruct p. }
  destruct s as [|d s].
  - destruct (Ascii.eqb_spec c star) as [->|Hne]; split; try done.
    + by intros [= <-].
    + destruct p as [|e p]; [done|]. simpl. intros [= _ E]. by destruct p.
    + destruct p as [|e p]; simpl; [by intros [= ->]|]. intros [= _ E]. by destruct p.
  - rw fmap_Some. split.
    + intros (q & Hq%IH & ->). simpl. by rw Hq.
    + destruct p as [|e p]; simpl; [by intros [=]|]. intros [= -> E]. exists p. split; [|done]. by apply IH.
Qed.

(** The reference reading of a pattern. *)
Definition pattern_matches (pattern keyID : string) : Prop :=
  (∃ prefix rest, pattern = prefix +:+ "*" ∧ keyID = prefix +:+ rest) ∨
  ((∀ prefix, pattern ≠ prefix +:+ "*") ∧ pattern = keyID).

Lemma has_prefix_app p k : has_prefix p k = true ↔ ∃ r, k = p +:+ r.
Proof.
  rw has_prefix_chars. split; intros [r E].
  - exists (String.string_of_list_ascii r). apply chars_inj. by rw chars_app E String.list_ascii_of_string_of_list_ascii.
  - exists (chars r). by rw E chars_app.
Qed.

Lemma matchPattern_spec pattern keyID : matchPattern pattern keyID = true ↔ pattern_matches pattern keyID.
Proof.
  rw /matchPattern /pattern_matches. case_bool_decide as Hstar.
  { subst. split; [|done]. intros _. left. by exists "", keyID. }
  destruct (trim_star pattern) as [p|] eqn:E.
  - apply trim_star_spec in E as ->. rw has_prefix_app. split.
    + intros [r ->]. left. eauto.
    + intros [(q & r & Hq & ->)|[H _]]; [|by destruct (H p)].
      exists r. apply trim_star_spec in Hq. assert (trim_star (p +:+ "*") = Some p) as Hp by by apply trim_star_spec.
      congruence.
  - rw bool_decide_eq_true. split.
    + intros ->. right. split; [|done]. intros q Hq%trim_star_spec. congruence.
    + by intros [(q & r & Hq%trim_star_spec & _)|[_ ?]]; [congruence|].
Qed.

(** A policy grants a key exactly when one of its patterns matches it: a
    pattern ending in a star matches the ids that start with what precedes the
    star, any other pattern matches only itself, and nothing is granted by default. *)
Theorem IsKeyAllowed_spec p keyID :
  IsKeyAllowed p keyID = true ↔ ∃ pattern, pattern ∈ p_AllowedKeys p ∧ pattern_matches pattern keyID.
Proof.
  rw /IsKeyAllowed existsb_exists. split; intros (pat & Hin & Hm); exists pat.
  - rw list_elem_of_In -matchPattern_spec. done.
  - rw -list_elem_of_In matchPattern_spec. done.
Qed.

(** Registering a role replaces its credentials: the new token authenticates
    as the new policy under that role, every earlier token of the role is refused,
    and the tokens of other roles authenticate as before. *)
Theorem RegisterPolicy_replaces role tok p a : tok ≠ "" →
  let a' := RegisterPolicy role tok p a in
  (∃ p', Authenticate a' tok = Ok p' ∧ p_RoleID p' = role ∧
     p_AllowedKeys p' = p_AllowedKeys p ∧ p_AllowedActions p' = p_AllowedActions p) ∧
  (∀ t, t ≠ tok → ar_tokens a !! t = Some role → Authenticate a' t = Error ErrUnauthorized) ∧
  (∀ t r, t ≠ tok → ar_tokens a !! t = Some r → r ≠ role → Authenticate a' t = Authenticate a t).
Proof.
  intros Htok a'. rw /a' /Authenticate /RegisterPolicy /=. split_and!.
  - rw bool_decide_eq_false_2 // !lookup_insert_eq. by eexists.
  - intros t Ht Hr. case_bool_decide; [done|]. rw lookup_insert_ne //.
    assert (filter (λ tr : string * string, tr.2 ≠ role) (ar_tokens a) !! t = None) as ->; [|done].
    apply map_lookup_filter_None. right. intros r Hr' Hf. simpl in Hf. congruence.
  - intros t r Ht Hr Hne. case_bool_decide; [done|]. rw lookup_insert_ne // Hr.
    assert (filter (λ tr : string * string, tr.2 ≠ role) (ar_tokens a) !! t = Some r) as ->.
    { by apply map_lookup_filter_Some. }
    by rw lookup_insert_ne.
Qed.

Definition demo_policy : Policy := mkPolicy "app" ["order-*"] ["Encrypt"; "Decrypt"] false 0 [] "".
Lemma RegisterPolicy_replaces_witness :
  let a := RegisterPolicy "app" "old" demo_policy NewAppRoleAuthenticator in
  Authenticate (RegisterPolicy "app" "new" demo_policy a) "old" = Error ErrUnauthorized.
Proof.
  intros a. apply (RegisterPolicy_replaces "app" "new" demo_policy a); [discriminate|discriminate|reflexivity].
Defined.

(** ** Tenants *)
Lemma scoped_chars t k : t ≠ "" → chars (ScopedKeyID t k) = chars t ++ colon :: chars k.
Proof. intros Ht. rw /ScopedKeyID bool_decide_eq_false_2 // !chars_app. done. Qed.

(** Tenants are isolated: for tenant ids without a colon, the scoped ids of
    two tenants are different whatever the key ids, and those of one tenant are
    different for different keys. *)
Theorem tenant_isolation t t' k k' : t ≠ "" → t' ≠ "" → colon ∉ chars t → colon ∉ chars t' →
  ScopedKeyID t k = ScopedKeyID t' k' → t = t' ∧ k = k'.
Proof.
  intros Ht Ht' Hc Hc' E%(f_equal chars). rw !scoped_chars // in E.
  apply split_at_first in E as [E1 E2]; [|done..]. by split; apply chars_inj.
Qed.
Lemma tenant_isolation_witness : bool_decide (ScopedKeyID "acme" "k" = ScopedKeyID "globex" "k") = false.
Proof.
  apply bool_decide_eq_false_2. intros E.
  apply (tenant_isolation "acme" "globex" "k" "k") in E as [E _]; [discriminate E|discriminate|discriminate|..];
    vm_compute; intros H; repeat (apply elem_of_cons in H as [H|H]; [discriminate H|]); by apply elem_of_nil in H.
Defined.

(** Without that restriction they are not: a colon in a tenant id crosses over. *)
Example tenant_collision : ScopedKeyID "a" "b:k" = ScopedKeyID "a:b" "k".
Proof. reflexivity. Qed.

Lemma str_drop_app p r : str_drop (String.length p) (p +:+ r) = r.
Proof. induction p; [by destruct r|done]. Qed.
Lemma str_length_app p r : String.length (p +:+ r) = String.length p + String.length r.
Proof. induction p as [|c p IH]; [done|]. simpl. by rw IH. Qed.
Lemma str_app_assoc a b c : a +:+ (b +:+ c) = (a +:+ b) +:+ c.
Proof. apply chars_inj. by rw !chars_app app_assoc. Qed.

(** Un-scoping inverts scoping for every tenant and non-empty key id. *)
Theorem Unscoped_Scoped t k : k ≠ "" → UnscopedKeyID t (ScopedKeyID t k) = k.
Proof.
  intros Hk. rw /UnscopedKeyID /ScopedKeyID. case_bool_decide; [done|].
  rw str_app_assoc. set (pre := t +:+ ":").
  assert (has_prefix pre (pre +:+ k) = true) as -> by (apply has_prefix_app; by exists k).
  assert ((String.length pre <? String.length (pre +:+ k)) = true) as ->; [|apply str_drop_app].
  rw str_length_app. apply Nat.ltb_lt. destruct k; [done|]. simpl. lia.
Qed.
Lemma Unscoped_Scoped_witness : UnscopedKeyID "acme" (ScopedKeyID "acme" "k1") = "k1".
Proof. apply (Unscoped_Scoped "acme" "k1"). discriminate. Defined.
