(* ===== verification/Jwt.v ===== *)
(** Token authenticators of [src/internal/auth]: JSON web tokens
    ([jwt_authenticator.go]) and Kubernetes service accounts
    ([k8s_authenticator.go]). Parsing and verifying a token is library code
    (golang-jwt): the class [JWTLib] holds its functions and [JWTLaws] what its
    documentation says about a successful parse. Files and the decoding of public keys
    are arguments as well. *)

From S2P Require Import Prelude Metadata Auth.

(** ** Claims *)
Inductive jvalue : Type :=
  | VStr (s : string)
  | VNum (printed : string)     (* a number, with the text that [%v] prints *)
  | VBool (b : bool)
  | VNull
  | VArr (l : list jvalue)
  | VObj (o : list (string * jvalue)).
Abbreviation claims := (list (string * jvalue)).
Definition field (name : string) (o : claims) : option jvalue := snd <$> List.find (λ kv, bool_decide (kv.1 = name)) o.

(** Keys for verification, by family. *)
Inductive verify_key : Type := KRSA (der : bytes) | KECDSA (der : bytes) | KSM2 (der : bytes) | KHMAC (secret : string).
Record parser_options : Type := mkOptions {
  po_validMethods : list string;
  po_expirationRequired : bool;
  po_issuer : option string;
  po_audience : option string;
}.

(** ** golang-jwt *)
Class JWTLib : Type := {
  (** [parser.Parse] at a time, with a key function from the algorithm of the token; the
      claims of a valid token *)
  jwt_Parse : parser_options → Z → string → (string → option verify_key) → option claims;
  jwt_GetExpirationTime : claims → result (option Z);
  jwt_GetNotBefore : claims → result (option Z);
  jwt_GetIssuer : claims → result string;
  jwt_GetAudience : claims → result (list string);
  (** the token carries the claims, signed with the algorithm under the key *)
  jwt_Signed : string → string → verify_key → claims → Prop;
  (** [jwt.GetSigningMethod("SM2")] is registered *)
  jwt_hasSM2 : bool;
}.
(** The documentation of [Parse] with [WithValidMethods], [WithExpirationRequired],
    [WithIssuer] and [WithAudience]. *)
Class JWTLaws {lib : JWTLib} : Prop := {
  parse_signed opts now tok kf cl : jwt_Parse opts now tok kf = Some cl →
    ∃ alg key, alg ∈ po_validMethods opts ∧ kf alg = Some key ∧ jwt_Signed tok alg key cl;
  parse_exp opts now tok kf cl : jwt_Parse opts now tok kf = Some cl →
    match jwt_GetExpirationTime cl with
    | Ok (Some e) => (now < e)%Z
    | Ok None => po_expirationRequired opts = false
    | _ => False
    end;
  parse_nbf opts now tok kf cl : jwt_Parse opts now tok kf = Some cl →
    match jwt_GetNotBefore cl with Ok (Some t) => (t ≤ now)%Z | Ok None => True | _ => False end;
  parse_issuer opts now tok kf cl iss : jwt_Parse opts now tok kf = Some cl → po_issuer opts = Some iss → jwt_GetIssuer cl = Ok iss;
  parse_audience opts now tok kf cl aud : jwt_Parse opts now tok kf = Some cl → po_audience opts = Some aud →
    ∃ l, jwt_GetAudience cl = Ok l ∧ aud ∈ l;
}.

(** ** jwt_authenticator.go *)
(** The file system and the decoders of public keys: the PEM block of a file, PKIX as an
    RSA key, an ECDSA key or another one, PKCS#1, and SM2. *)
Inductive pkix_key : Type := PkixRSA (der : bytes) | PkixECDSA (der : bytes) | PkixOther.
Record key_files : Type := mkKeyFiles {
  kf_read : string → option bytes;
  kf_pem : bytes → option bytes;
  kf_pkix : bytes → option pkix_key;
  kf_pkcs1 : bytes → option bytes;
  kf_sm2 : bytes → option bytes;
}.
Definition read_block (fs : key_files) (path : string) : result bytes :=
  match kf_read fs path with
  | None => Error (Err_new "read file")
  | Some data => match kf_pem fs data with None => Error (Err_new "no PEM block found") | Some block => Ok block end
  end.
Definition loadRSAPublicKey (fs : key_files) (path : string) : result verify_key :=
  block ← read_block fs path;
  match kf_pkix fs block with
  | Some (PkixRSA der) => Ok (KRSA der)
  | Some _ => Error (Err_new "not an RSA public key")
  | None => match kf_pkcs1 fs block with Some der => Ok (KRSA der) | None => Error (Err_new "parse PKIX/PKCS1") end
  end.
Definition loadECDSAPublicKey (fs : key_files) (path : string) : result verify_key :=
  block ← read_block fs path;
  match kf_pkix fs block with
  | Some (PkixECDSA der) => Ok (KECDSA der)
  | Some _ => Error (Err_new "not an ECDSA public key")
  | None => Error (Err_new "parse PKIX")
  end.
(** [jwt_sm2.go] *)
Definition loadSM2PublicKey (fs : key_files) (path : string) : result verify_key :=
  block ← read_block fs path;
  match kf_sm2 fs block with Some der => Ok (KSM2 der) | None => Error (Err_new "auth: parse SM2 public key") end.

(** A store of policies: [MemoryPolicyStore]. *)
Definition MemoryPolicyStore : Type := gmap string Policy.
Definition NewMemoryPolicyStore : MemoryPolicyStore := ∅.
Definition AddPolicy (policy : option Policy) (m : MemoryPolicyStore) : MemoryPolicyStore :=
  match policy with
  | Some p => if bool_decide (p_RoleID p = "") then m else <[p_RoleID p := p]> m
  | None => m
  end.
Definition StoreLookupPolicy (roleID : string) (m : MemoryPolicyStore) : option Policy := m !! roleID.

Record JWTConfig : Type := mkJWTConfig {
  jc_SigningMethod : string;
  jc_Secret : string;
  jc_VerifyingKeyPath : string;
  jc_Issuer : string;
  jc_Audience : list string;
  jc_RoleClaim : string;
}.
Record JWTAuthenticator : Type := mkJWT {
  ja_signingMethod : string;
  ja_verifyKey : verify_key;
  ja_issuer : string;
  ja_audience : list string;
  ja_roleClaim : string;
  ja_policyStore : MemoryPolicyStore;
}.

Section Jwt.
Context {lib : JWTLib}.

Definition parseSigningMethod (method : string) : result string :=
  if bool_decide (method ∈ ["RS256"; "RS384"; "RS512"; "ES256"; "ES384"; "ES512"; "HS256"; "HS384"; "HS512"]) then Ok method
  else if bool_decide (method = "SM2") then
    if jwt_hasSM2 then Ok "SM2" else Error (Err_new "SM2 signing method not available")
  else Error (Err_new "unsupported signing method").
Definition need_path (cfg : JWTConfig) (family : string) (load : string → result verify_key) : result verify_key :=
  if bool_decide (jc_VerifyingKeyPath cfg = "") then Error (Err_new ("auth: jwt: verifying_key_path required for " +:+ family))
  else wrap_err ("auth: jwt: load " +:+ family +:+ " public key") (load (jc_VerifyingKeyPath cfg)).
Definition NewJWTAuthenticator (fs : key_files) (cfg : JWTConfig) (policyStore : option MemoryPolicyStore) : result JWTAuthenticator :=
  if bool_decide (jc_SigningMethod cfg = "") then Error (Err_new "auth: jwt signing_method is required")
  else match policyStore with
  | None => Error (Err_new "auth: jwt policy store is nil")
  | Some store =>
      sm ← wrap_err "auth: jwt" (parseSigningMethod (jc_SigningMethod cfg));
      let family := String.substring 0 2 (jc_SigningMethod cfg) in
      verifyKey ←
        (if bool_decide (family = "RS") then need_path cfg "RSA" (loadRSAPublicKey fs)
         else if bool_decide (family = "ES") then need_path cfg "ECDSA" (loadECDSAPublicKey fs)
         else if bool_decide (family = "SM") then need_path cfg "SM2" (loadSM2PublicKey fs)
         else if bool_decide (family = "HS") then
           if bool_decide (jc_Secret cfg = "") then Error (Err_new "auth: jwt: secret required for HMAC") else Ok (KHMAC (jc_Secret cfg))
         else Error (Err_new "auth: jwt: unsupported algorithm family"));
      Ok (mkJWT sm verifyKey (jc_Issuer cfg) (jc_Audience cfg)
            (if bool_decide (jc_RoleClaim cfg = "") then "sub" else jc_RoleClaim cfg) store)
  end.

Definition matchAudience (tokenAud configAud : list string) : bool :=
  existsb (λ t, existsb (λ c, bool_decide (t = c)) configAud) tokenAud.

(** [strings.Split(path, ".")] *)
Definition split_dots (s : string) : list string := split_on (Ascii.ascii_of_nat 46) s.
(** The value at a path of nested objects; a null on the way is no value. *)
Fixpoint walk (parts : list string) (current : jvalue) : option jvalue :=
  match parts with
  | [] => Some current
  | part :: parts =>
      match current with
      | VObj o => match field part o with None | Some VNull => None | Some v => walk parts v end
      | _ => None
      end
  end.
Definition nonempty_string (v : jvalue) : option string :=
  match v with VStr s => if bool_decide (s = "") then None else Some s | _ => None end.
Definition extractRoleIDs (cl : claims) (path : string) : list string :=
  match walk (split_dots path) (VObj cl) with
  | Some (VStr s) => [s]
  | Some (VArr l) => omap nonempty_string l
  | Some (VNum printed) => [printed]
  | _ => []
  end.
Definition extractRoleID (cl : claims) (path : string) : string := default "" (head (extractRoleIDs cl path)).

(** The first of the roles with a policy. *)
Fixpoint first_policy (roleIDs : list string) (store : MemoryPolicyStore) : option Policy :=
  match roleIDs with
  | [] => None
  | roleID :: roleIDs => match StoreLookupPolicy roleID store with Some p => Some p | None => first_policy roleIDs store end
  end.

Definition JWTAuthenticate (a : JWTAuthenticator) (now : Z) (tokenString : string) : result Policy :=
  let opts := mkOptions [ja_signingMethod a] true (if bool_decide (ja_issuer a = "") then None else Some (ja_issuer a)) (head (ja_audience a)) in
  let keyfunc alg := if bool_decide (alg = ja_signingMethod a) then Some (ja_verifyKey a) else None in
  match jwt_Parse opts now tokenString keyfunc with
  | None => Error ErrUnauthorized
  | Some cl =>
      match jwt_GetExpirationTime cl, jwt_GetNotBefore cl with
      | Ok (Some _), Ok _ =>
          if negb (bool_decide (ja_issuer a = "")) && negb (bool_decide (jwt_GetIssuer cl = Ok (ja_issuer a))) then Error ErrUnauthorized
          else if negb (bool_decide (ja_audience a = [])) &&
                  negb (match jwt_GetAudience cl with Ok aud => matchAudience aud (ja_audience a) | _ => false end) then Error ErrUnauthorized
          else match first_policy (extractRoleIDs cl (ja_roleClaim a)) (ja_policyStore a) with
               | Some p => Ok p
               | None => Error ErrUnauthorized
               end
      | _, _ => Error ErrUnauthorized
      end
  end.

(** ** k8s_authenticator.go *)
Record K8sRoleMapping : Type := mkMapping { kr_RoleID : string; kr_AllowedKeys : list string; kr_AllowedActions : list string }.
Record K8sAuthConfig : Type := mkK8sConfig {
  kc_Issuer : string;
  kc_Audience : list string;
  kc_RoleMapping : gmap string K8sRoleMapping;   (* by "namespace:serviceaccount" *)
  kc_JWKSURL : string;
}.
Record K8sAuthenticator : Type := mkK8s {
  ka_config : K8sAuthConfig;
  ka_keyFunc : option (string → option verify_key);   (* from the algorithm; the key id is part of the library's lookup *)
  ka_roleMappings : gmap string Policy;
}.
Definition mapping_policy (m : K8sRoleMapping) : Policy := mkPolicy (kr_RoleID m) (kr_AllowedKeys m) (kr_AllowedActions m) false 0 [] "".
(** [keyfunc.Get] on a URL is an argument. *)
Definition NewK8sAuthenticator (jwks : string → result (string → option verify_key)) (cfg : K8sAuthConfig) : result K8sAuthenticator :=
  if bool_decide (kc_Issuer cfg = "") then Error (Err_new "auth: k8s: issuer is required")
  else if bool_decide (kc_Audience cfg = []) then Error (Err_new "auth: k8s: audience is required")
  else if bool_decide (kc_RoleMapping cfg = ∅) then Error (Err_new "auth: k8s: role_mapping is required")
  else
    let url := if bool_decide (kc_JWKSURL cfg = "") then kc_Issuer cfg +:+ "/openid/v1/jwks" else kc_JWKSURL cfg in
    keyFunc ← wrap_err "auth: k8s: load JWKS" (jwks url);
    Ok (mkK8s cfg (Some keyFunc) (mapping_policy <$> kc_RoleMapping cfg)).
Definition NewK8sAuthenticatorWithKeyFunc (cfg : K8sAuthConfig) (keyFunc : option (string → option verify_key)) : K8sAuthenticator :=
  mkK8s cfg keyFunc (mapping_policy <$> kc_RoleMapping cfg).
Definition audienceMatches (a : K8sAuthenticator) (tokenAud : list string) : bool :=
  existsb (λ configured, existsb (λ aud, bool_decide (aud = configured)) tokenAud) (kc_Audience (ka_config a)).
(** The claims of a service account. *)
Definition claim_string (name : string) (cl : claims) : string := match field name cl with Some (VStr s) => s | _ => "" end.
Definition k8s_namespace : claims → string := claim_string "kubernetes.io/serviceaccount/namespace".
Definition k8s_serviceAccount : claims → string := claim_string "kubernetes.io/serviceaccount/service-account.name".
Definition k8s_methods : list string := ["RS256"; "RS384"; "RS512"; "ES256"; "ES384"; "ES512"].
Definition K8sAuthenticate (a : K8sAuthenticator) (now : Z) (token : string) : result Policy :=
  if bool_decide (token = "") then Error ErrUnauthorized
  else match kc_Audience (ka_config a) with
  | [] => Panic "index out of range"
  | audience :: _ =>
      match ka_keyFunc a with
      | None => Error (Err_new "auth: k8s: JWKS key function not initialized")
      | Some keyFunc =>
          match jwt_Parse (mkOptions k8s_methods false (Some (kc_Issuer (ka_config a))) (Some audience)) now token keyFunc with
          | None => Error (Err_wrap "auth: unauthorized: k8s jwt parse" ErrUnauthorized)
          | Some cl =>
              if negb (audienceMatches a (match jwt_GetAudience cl with Ok l => l | _ => [] end))
              then Error (Err_wrap "k8s jwt audience mismatch" ErrUnauthorized)
              else if bool_decide (k8s_namespace cl = "") || bool_decide (k8s_serviceAccount cl = "")
              then Error (Err_wrap "k8s jwt missing namespace/serviceaccount claims" ErrUnauthorized)
              else match ka_roleMappings a !! (k8s_namespace cl +:+ ":" +:+ k8s_serviceAccount cl) with
                   | Some policy => Ok policy
                   | None => Error (Err_wrap "k8s SA not in role_mapping" ErrUnauthorized)
                   end
          end
      end
  end.
(** [validateHost]; [net.ParseIP] is an argument. *)
Definition host_char (ch : Ascii.ascii) : bool :=
  let n := Ascii.nat_of_ascii ch in
  (97 <=? n) && (n <=? 122) || (65 <=? n) && (n <=? 90) || (48 <=? n) && (n <=? 57) || bool_decide (n = 46) || bool_decide (n = 45).
Definition validateHost (parseIP : string → bool) (host : string) : result () :=
  if bool_decide (host = "") then Error (Err_new "empty host")
  else if str_contains "://" host then Error (Err_new "host contains scheme")
  else if str_contains "/" host then Error (Err_new "host contains path")
  else if parseIP host then Ok tt
  else if forallb host_char (chars host) then Ok tt else Error (Err_new "host contains invalid character").

(** ** What an accepted token shows *)
Definition key_family (key : verify_key) : string :=
  match key with KRSA _ => "RS" | KECDSA _ => "ES" | KSM2 _ => "SM" | KHMAC _ => "HS" end.

Lemma need_path_ok cfg family load key : need_path cfg family load = Ok key → load (jc_VerifyingKeyPath cfg) = Ok key.
Proof. rw /need_path. case_bool_decide; [done|]. apply wrap_err_ok. Qed.
Lemma load_families fs path key :
  (loadRSAPublicKey fs path = Ok key → key_family key = "RS") ∧ (loadECDSAPublicKey fs path = Ok key → key_family key = "ES") ∧
  (loadSM2PublicKey fs path = Ok key → key_family key = "SM").
Proof.
  rw /loadRSAPublicKey /loadECDSAPublicKey /loadSM2PublicKey. split_and!; intros (block & _ & H)%result_bind_ok; by repeat (case_match; simplify_eq).
Qed.
(** The key that is loaded belongs to the family of the algorithm. *)
Lemma New_family fs cfg store a : NewJWTAuthenticator fs cfg store = Ok a →
  ja_signingMethod a = jc_SigningMethod cfg ∧ key_family (ja_verifyKey a) = String.substring 0 2 (ja_signingMethod a).
Proof.
  rw /NewJWTAuthenticator. case_bool_decide; [done|]. destruct store as [store|]; [|done].
  intros (sm & Hsm%wrap_err_ok & Hx)%result_bind_ok. apply result_bind_ok in Hx as (key & Hk & [= <-]).
  assert (sm = jc_SigningMethod cfg) as ->.
  { rw /parseSigningMethod in Hsm. repeat (case_match; simplify_eq/=); repeat case_bool_decide; naive_solver. }
  split; [done|]. cbn [ja_verifyKey ja_signingMethod].
  destruct (load_families fs (jc_VerifyingKeyPath cfg) key) as (H1 & H2 & H3).
  repeat case_bool_decide; simplify_eq; repeat match goal with E : String.substring _ _ _ = _ |- _ => rw E end;
    try apply need_path_ok in Hk; auto; by injection Hk as <-.
Qed.

Lemma first_policy_spec roles store p : first_policy roles store = Some p ↔
  ∃ pre role post, roles = pre ++ role :: post ∧ store !! role = Some p ∧ ∀ r, r ∈ pre → store !! r = None.
Proof.
  induction roles as [|r roles IH]; simpl.
  { split; [done|]. intros (pre & role & post & E & _). by destruct pre. }
  rw /StoreLookupPolicy. destruct (store !! r) as [q|] eqn:E.
  - split.
    + intros [= <-]. exists [], r, roles. split_and!; [done..|]. by intros x ?%elem_of_nil.
    + intros ([|r' pre] & role & post & [= -> ->] & Hp & Hn); [congruence|]. rw (Hn r') // in E. apply list_elem_of_here.
  - rw IH. split.
    + intros (pre & role & post & -> & Hp & Hn). exists (r :: pre), role, post. split_and!; [done..|].
      intros x [->|?]%elem_of_cons; [done|by apply Hn].
    + intros ([|r' pre] & role & post & [= -> ->] & Hp & Hn); [congruence|]. exists pre, role, post. split_and!; [done..|].
      intros x Hx. apply Hn. by apply list_elem_of_further.
Qed.

(** C30: what a JWT proves: a policy is only given out for a token whose claims are signed
    with exactly the configured algorithm under the key loaded at start, a key of that
    algorithm's family; that is not expired, already valid, from the configured issuer
    and for the first configured audience; and it is the policy of the first role in the
    configured claim that has one. *)
Theorem jwt_sound fs cfg store a now tok p : JWTLaws → NewJWTAuthenticator fs cfg (Some store) = Ok a → JWTAuthenticate a now tok = Ok p →
  ∃ cl, jwt_Signed tok (jc_SigningMethod cfg) (ja_verifyKey a) cl ∧
    key_family (ja_verifyKey a) = String.substring 0 2 (jc_SigningMethod cfg) ∧
    (∃ e, jwt_GetExpirationTime cl = Ok (Some e) ∧ (now < e)%Z) ∧ (∀ t, jwt_GetNotBefore cl = Ok (Some t) → (t ≤ now)%Z) ∧
    (jc_Issuer cfg ≠ "" → jwt_GetIssuer cl = Ok (jc_Issuer cfg)) ∧
    (∀ aud rest, jc_Audience cfg = aud :: rest → ∃ l, jwt_GetAudience cl = Ok l ∧ aud ∈ l) ∧
    ∃ pre role post, extractRoleIDs cl (ja_roleClaim a) = pre ++ role :: post ∧ store !! role = Some p ∧ ∀ r, r ∈ pre → store !! r = None.
Proof.
  intros laws Hnew Hauth. destruct (New_family _ _ _ _ Hnew) as [Hm Hf].
  assert (ja_issuer a = jc_Issuer cfg ∧ ja_audience a = jc_Audience cfg ∧ ja_policyStore a = store) as (Hi & Hau & Hst).
  { rw /NewJWTAuthenticator in Hnew. case_bool_decide; [done|]. apply result_bind_ok in Hnew as (sm & _ & Hx).
    by apply result_bind_ok in Hx as (key & _ & [= <-]). }
  rw /JWTAuthenticate in Hauth. destruct (jwt_Parse _ _ _ _) as [cl|] eqn:Ep; [|done]. exists cl.
  destruct (parse_signed _ _ _ _ _ Ep) as (alg & key & Halg & Hk & Hs). apply list_elem_of_singleton in Halg as ->.
  rw bool_decide_eq_true_2 // in Hk. injection Hk as <-. pose proof (parse_exp _ _ _ _ _ Ep) as He. pose proof (parse_nbf _ _ _ _ _ Ep) as Hn.
  rw Hm in Hs Hf. split_and!; [done..| | | | |].
  - destruct (jwt_GetExpirationTime cl) as [[e|]| |]; [by exists e|done..].
  - intros t Ht. by rw Ht in Hn.
  - intros Hne. apply (parse_issuer _ _ _ _ _ _ Ep). cbn [po_issuer]. rw Hi bool_decide_eq_false_2 //.
  - intros aud rest Ha. apply (parse_audience _ _ _ _ _ _ Ep). by rw /= Hau Ha.
  - apply first_policy_spec. rw -Hst. repeat (case_match; simplify_eq); done.
Qed.
End Jwt.

(** ** A library that behaves as documented *)
(** Tokens by name: their algorithm, the key that signed them, and their claims. *)
Definition demo_claims (aud : string) : claims :=
  [("exp", VNum "2000"); ("aud", VArr [VStr aud]); ("realm", VObj [("roles", VArr [VStr "guest"; VBool true; VStr "ops"])])].
Definition demo_tokens (tok : string) : option (string * verify_key * claims) :=
  if bool_decide (tok = "first") then Some ("RS256", KRSA [x01], demo_claims "kms")
  else if bool_decide (tok = "second") then Some ("RS256", KRSA [x01], demo_claims "backup")
  else if bool_decide (tok = "confused") then Some ("HS256", KHMAC "public key", demo_claims "kms")
  else if bool_decide (tok = "eternal") then
    Some ("RS256", KRSA [x01], [("iss", VStr "k8s"); ("aud", VArr [VStr "kms"]);
      ("kubernetes.io/serviceaccount/namespace", VStr "prod"); ("kubernetes.io/serviceaccount/service-account.name", VStr "app")])
  else None.
Definition number (v : jvalue) : result (option Z) :=
  match v with VNum t => if bool_decide (t = "2000") then Ok (Some 2000%Z) else Error (Err_new "number") | _ => Error (Err_new "number") end.
Definition demo_exp (cl : claims) : result (option Z) := from_option number (Ok None) (field "exp" cl).
Definition demo_nbf (cl : claims) : result (option Z) := from_option number (Ok None) (field "nbf" cl).
Definition demo_iss (cl : claims) : result string := Ok (match field "iss" cl with Some (VStr s) => s | _ => "" end).
Definition demo_aud (cl : claims) : result (list string) := Ok (match field "aud" cl with Some (VArr l) => omap nonempty_string l | _ => [] end).
Definition demo_valid (opts : parser_options) (now : Z) (alg : string) (cl : claims) : bool :=
  bool_decide (alg ∈ po_validMethods opts) &&
  (match demo_exp cl with Ok (Some e) => bool_decide (now < e)%Z | Ok None => negb (po_expirationRequired opts) | _ => false end) &&
  (match demo_nbf cl with Ok (Some t) => bool_decide (t ≤ now)%Z | Ok None => true | _ => false end) &&
  (match po_issuer opts with Some iss => bool_decide (demo_iss cl = Ok iss) | None => true end) &&
  (match po_audience opts, demo_aud cl with Some aud, Ok l => bool_decide (aud ∈ l) | Some _, _ => false | None, _ => true end).
#[export] Instance verify_key_eq_dec : EqDecision verify_key.
Proof. solve_decision. Defined.
#[export] Instance demo_jwt : JWTLib := {
  jwt_Parse opts now tok kf :=
    match demo_tokens tok with
    | Some (alg, key, cl) => if bool_decide (kf alg = Some key) && demo_valid opts now alg cl then Some cl else None
    | None => None
    end;
  jwt_GetExpirationTime := demo_exp; jwt_GetNotBefore := demo_nbf; jwt_GetIssuer := demo_iss; jwt_GetAudience := demo_aud;
  jwt_Signed tok alg key cl := demo_tokens tok = Some (alg, key, cl);
  jwt_hasSM2 := false;
}.
#[export] Instance demo_jwt_laws : JWTLaws.
Proof.
  assert (∀ opts now tok kf cl, jwt_Parse opts now tok kf = Some cl →
    ∃ alg key, demo_tokens tok = Some (alg, key, cl) ∧ kf alg = Some key ∧ demo_valid opts now alg cl = true) as Hp.
  { intros opts now tok kf cl. simpl. destruct (demo_tokens tok) as [[[alg key] cl']|]; [|done].
    destruct (bool_decide _) eqn:E1; [|done]. destruct (demo_valid _ _ _ _) eqn:E2; [|done]. intros [= <-].
    apply bool_decide_eq_true in E1. by exists alg, key. }
  split; intros opts now tok kf cl; [intros (alg & key & Ht & Hk & Hv)%Hp..|intros iss (alg & key & Ht & Hk & Hv)%Hp|intros aud (alg & key & Ht & Hk & Hv)%Hp];
    rw /demo_valid !andb_true_iff !bool_decide_eq_true in Hv; destruct Hv as ((((Ha & He) & Hn) & Hi) & Hau).
  - by exists alg, key.
  - simpl. destruct (demo_exp cl) as [[e|]| |]; [by apply bool_decide_eq_true in He|by apply negb_true_iff in He|done..].
  - simpl. destruct (demo_nbf cl) as [[t|]| |]; [by apply bool_decide_eq_true in Hn|done..].
  - intros E. rw E in Hi. by apply bool_decide_eq_true in Hi.
  - intros E. rw E in Hau. simpl. destruct (demo_aud cl) as [l| |]; [|done..]. apply bool_decide_eq_true in Hau. by exists l.
Qed.

Definition demo_files : key_files := mkKeyFiles (λ _, Some []) (λ _, Some [x01]) (λ der, Some (PkixRSA der)) (λ _, None) (λ _, None).
Definition demo_jwt_config : JWTConfig := mkJWTConfig "RS256" "" "/keys/idp.pem" "" ["kms"; "backup"] "realm.roles".
Definition ops_policy : Policy := mkPolicy "ops" ["*"] ["*"] false 0 [] "".
Definition demo_store : MemoryPolicyStore := AddPolicy (Some ops_policy) NewMemoryPolicyStore.
Definition demo_jwt_auth : JWTAuthenticator := mkJWT "RS256" (KRSA [x01]) "" ["kms"; "backup"] "realm.roles" demo_store.
Lemma jwt_sound_witness : ∃ cl, demo_tokens "first" = Some ("RS256", KRSA [x01], cl) ∧
  (∃ e, demo_exp cl = Ok (Some e) ∧ (1000 < e)%Z) ∧
  ∃ pre role post, extractRoleIDs cl "realm.roles" = pre ++ role :: post ∧ demo_store !! role = Some ops_policy ∧ ∀ r, r ∈ pre → demo_store !! r = None.
Proof.
  destruct (jwt_sound demo_files demo_jwt_config demo_store demo_jwt_auth 1000 "first" ops_policy demo_jwt_laws) as (cl & Hs & _ & He & _ & _ & _ & Hr);
    [reflexivity|vm_compute; reflexivity|].
  exists cl. split_and!; [exact Hs|exact He|exact Hr].
Defined.

(** The configuration names two audiences, but only tokens for the first one pass the parser,
    so the later check for any of them never decides. And a token signed with an HMAC under
    the public key is refused. *)
Example second_audience_refused :
  JWTAuthenticate demo_jwt_auth 1000 "first" = Ok ops_policy ∧
  JWTAuthenticate demo_jwt_auth 1000 "second" = Error ErrUnauthorized ∧ matchAudience ["backup"] (ja_audience demo_jwt_auth) = true ∧
  JWTAuthenticate demo_jwt_auth 1000 "confused" = Error ErrUnauthorized.
Proof. vm_compute. split_and!; reflexivity. Qed.
(** Service-account tokens need no expiration time. *)
Definition demo_k8s : K8sAuthenticator :=
  NewK8sAuthenticatorWithKeyFunc (mkK8sConfig "k8s" ["kms"] {["prod:app" := mkMapping "app" ["*"] ["Encrypt"]]} "") (Some (λ _, Some (KRSA [x01]))).
Example k8s_token_without_expiry : p_RoleID <$> match K8sAuthenticate demo_k8s (2 ^ 62) "eternal" with Ok p => Some p | _ => None end = Some "app".
Proof. vm_compute. reflexivity. Qed.
