(* ===== verification/Totp.v ===== *)
(** Time-based one-time passwords, [src/internal/auth/totp.go], with the base-32
    coding of [encoding/base32] it uses for the shared secret. *)

From S2P Require Import Prelude SecureBuffer Hash Metadata.

(** ** [base32.StdEncoding] *)
Definition b32_alphabet : bytes := str_bytes "ABCDEFGHIJKLMNOPQRSTUVWXYZ234567".
Definition b32_pad : byte := "=".
Definition b32_value (c : byte) : option Z :=
  let z := b2z c in
  if bool_decide (65 ≤ z ≤ 90)%Z then Some (z - 65)%Z
  else if bool_decide (50 ≤ z ≤ 55)%Z then Some (z - 24)%Z
  else None.
Definition b32_char (d : Z) : byte := b32_alphabet !!! Z.to_nat d.

(** Fixed-width digits, most significant first. *)
Fixpoint b32_digits (n : nat) (z : Z) : list Z :=
  match n with
  | O => []
  | S m => (z `div` 32 ^ Z.of_nat m) `mod` 32 :: b32_digits m z
  end%Z.
Definition b32_combine (l : list Z) : Z := foldl (λ acc d, acc * 32 + d)%Z 0%Z l.
Definition pad_to {A} (n : nat) (x : A) (l : list A) : list A := l ++ replicate (n - length l) x.

(** A quantum of one to five bytes becomes eight characters. *)
Definition b32_quantum_chars (n : nat) : nat := (8 * n + 4) / 5.
Definition b32_encode_quantum (q : bytes) : bytes :=
  pad_to 8 b32_pad (b32_char <$> take (b32_quantum_chars (length q)) (b32_digits 8 (be_combine (pad_to 5 x00 q)))).
Definition b32_EncodeToString (src : bytes) : bytes := mjoin (b32_encode_quantum <$> blocks 5 src).

(** The decoder's inner loop: [k] characters of the quantum are still to come; the
    flag tells that padding ended the input. *)
Fixpoint b32_quantum (k : nat) (dbuf : list Z) (src : bytes) : option (list Z * bool * bytes) :=
  match k with
  | O => Some (dbuf, false, src)
  | S k' =>
      match src with
      | [] => None
      | c :: src =>
          let j := length dbuf in
          if bool_decide (c = b32_pad) && (2 <=? j) && (length src <? 8) then
            if length src + j <? 7 then None
            else if existsb (λ c, negb (bool_decide (c = b32_pad))) (take (7 - j) src) then None
            else if (j =? 1) || (j =? 3) || (j =? 6) then None
            else Some (dbuf, true, src)
          else match b32_value c with
               | None => None
               | Some d => b32_quantum k' (dbuf ++ [d]) src
               end
      end
  end.
Definition b32_out (dlen : nat) : nat :=
  if dlen =? 8 then 5 else if dlen =? 7 then 4 else if dlen =? 5 then 3 else if dlen =? 4 then 2 else if dlen =? 2 then 1 else 0.
Definition b32_pack (dbuf : list Z) : bytes :=
  take (b32_out (length dbuf)) (be_split 5 (b32_combine (pad_to 8 0%Z dbuf))).
Fixpoint b32_decode (fuel : nat) (src : bytes) : option bytes :=
  match fuel, src with
  | _, [] => Some []
  | O, _ => None
  | S fuel, _ =>
      match b32_quantum 8 [] src with
      | None => None
      | Some (dbuf, fin, rest) =>
          if fin then Some (b32_pack dbuf) else (b32_pack dbuf ++.) <$> b32_decode fuel rest
      end
  end.
(** Carriage returns and line feeds are stripped first. *)
Definition b32_strip (src : bytes) : bytes := filter (λ c, c ≠ x0d ∧ c ≠ x0a) src.
Definition b32_DecodeString (s : bytes) : result bytes :=
  match b32_decode (length (b32_strip s)) (b32_strip s) with
  | Some b => Ok b
  | None => Error (Err_new "illegal base32 data")
  end.

(** [strings.ToUpper] on ASCII text. *)
Definition byte_upper (c : byte) : byte :=
  if bool_decide (97 ≤ b2z c ≤ 122)%Z then z2b (b2z c - 32) else c.
Definition strings_ToUpper (s : bytes) : bytes := byte_upper <$> s.

(** ** HOTP and TOTP *)
Definition totpDigits : nat := 6.
Definition totpPeriod : Z := 30.
Definition totpSkew : Z := 1.
Definition totpSecretLen : Z := 20.
Definition ErrTOTPInvalid : error := Err_new "auth: invalid TOTP code".
Definition ErrTOTPAlreadyUsed : error := Err_new "auth: TOTP code already used".

(** [uint64(x)] *)
Definition uint64 (z : Z) : Z := (z `mod` 2 ^ 64)%Z.
(** [t.Unix()]: the zero time is 62135596800 seconds before the Unix epoch. *)
Definition time_Unix (t : Z) : Z := (t `div` 1000000000 - 62135596800)%Z.

Definition hotp (hmacKey : bytes) (counter : Z) : bytes :=
  let hash := hmac_sha1 hmacKey (be_split 8 counter) in
  let offset := Z.to_nat (Z.land (b2z (hash !!! (length hash - 1))) 0x0f) in
  let binary := Z.lor (Z.lor (Z.lor (Z.shiftl (Z.land (b2z (hash !!! offset)) 0x7f) 24)
                                   (Z.shiftl (b2z (hash !!! (offset + 1))) 16))
                         (Z.shiftl (b2z (hash !!! (offset + 2))) 8))
                   (b2z (hash !!! (offset + 3))) in
  (* %06d *) dec_digits totpDigits (binary `mod` 1000000).

Definition GenerateTOTPSecret : M entropy bytes :=
  secret ← wrapM "auth: generate TOTP secret" (GenerateSecureRandom totpSecretLen);
  mret (b32_EncodeToString secret).

(** [now] is the clock's reading, taken when the time argument is zero. *)
Definition GenerateTOTP (now : Z) (secret : bytes) (t : Z) : result bytes :=
  let t := if time_IsZero t then now else t in
  hmacKey ← wrap_err "auth: decode TOTP secret" (b32_DecodeString (strings_ToUpper secret));
  Ok (hotp hmacKey (uint64 (time_Unix t) `div` totpPeriod)).

Definition subtleEqualString (a b : bytes) : bool :=
  if negb (length a =? length b) then false else bool_decide (a = b).

Section Validate.
Context {S : Type}.

(** The loop over the windows, from the oldest; [matched] is what happens at the
    first window whose code matches. *)
Fixpoint try_windows (hmacKey : bytes) (baseCounter : Z) (code : bytes) (matched : Z → M S ()) (skews : list Z) : M S () :=
  match skews with
  | [] => throw ErrTOTPInvalid
  | skew :: skews =>
      let counter := uint64 (baseCounter + skew) in
      if subtleEqualString (hotp hmacKey counter) code then matched skew
      else try_windows hmacKey baseCounter code matched skews
  end.

Definition validate_with (now : Z) (secret code : bytes) (matched : Z → M S ()) : M S () :=
  guardM (length code =? totpDigits) ErrTOTPInvalid;;
  hmacKey ← wrapM "auth: decode TOTP secret" (lift (b32_DecodeString (strings_ToUpper secret)));
  let baseCounter := Z.quot (time_Unix now) totpPeriod in
  try_windows hmacKey baseCounter code matched [- totpSkew; 0; totpSkew]%Z.

(** [now.Add(time.Duration(skew*totpPeriod) * time.Second)] *)
Definition window_time (now skew : Z) : Z := (now + skew * totpPeriod * 1000000000)%Z.

Definition ValidateTOTP (now : Z) (secret code : bytes) (markUsed : option (Z → bytes → M S ())) : M S () :=
  validate_with now secret code (λ skew,
    match markUsed with
    | None => mret tt
    | Some mark =>
        r ← try_ (mark (window_time now skew) code);
        match r with inl _ => mret tt | inr _ => throw ErrTOTPAlreadyUsed end
    end).

Definition ValidateTOTPLegacy (now : Z) (secret code : bytes) (usedCodeCheck : option (Z → bytes → M S bool)) : M S () :=
  validate_with now secret code (λ skew,
    match usedCodeCheck with
    | None => mret tt
    | Some used =>
        b ← used (window_time now skew) code;
        if (b : bool) then throw ErrTOTPAlreadyUsed else mret tt
    end).
End Validate.

(** RFC 4226, appendix D. *)
Example hotp_rfc4226 :
  (λ c, hotp (str_bytes "12345678901234567890") c) <$> [0; 1; 9]%Z =
  str_bytes <$> ["755224"; "287082"; "520489"].
Proof. vm_compute. reflexivity. Qed.

(** ** Base 32 is a faithful coding *)
Definition b32_ok (d : Z) : Prop := (0 ≤ d < 32)%Z.

Lemma b32_range_cases d : b32_ok d → d ∈ (Z.of_nat <$> seq 0 32).
Proof. intros H. apply list_elem_of_fmap. exists (Z.to_nat d). rw elem_of_seq. rw /b32_ok in H. lia. Qed.
(** The characters of the alphabet: their value, and what they are not. *)
Definition char_check (d : Z) : bool :=
  bool_decide (b32_value (b32_char d) = Some d) && negb (bool_decide (b32_char d = b32_pad)) &&
  negb (bool_decide (b32_char d = x0d)) && negb (bool_decide (b32_char d = x0a)) &&
  bool_decide (byte_upper (b32_char d) = b32_char d).
Lemma char_check_all d : b32_ok d → char_check d = true.
Proof.
  intros H%b32_range_cases. assert (forallb char_check (Z.of_nat <$> seq 0 32) = true) as Hall by (vm_compute; reflexivity).
  rw forallb_forall in Hall. by apply Hall, list_elem_of_In.
Qed.
Lemma b32_char_spec d : b32_ok d →
  b32_value (b32_char d) = Some d ∧ b32_char d ≠ b32_pad ∧ b32_char d ≠ x0d ∧ b32_char d ≠ x0a ∧
  byte_upper (b32_char d) = b32_char d.
Proof.
  intros H%char_check_all. rw /char_check !andb_true_iff !negb_true_iff !bool_decide_eq_false !bool_decide_eq_true in H.
  tauto.
Qed.

Lemma b32_combine_app l d : b32_combine (l ++ [d]) = (b32_combine l * 32 + d)%Z.
Proof. by rw /b32_combine foldl_app. Qed.
Lemma b32_combine_cons d l :
  b32_combine (d :: l) = (d * 32 ^ Z.of_nat (length l) + b32_combine l)%Z.
Proof.
  induction l as [|c l IH] using rev_ind; [rw /b32_combine /=; lia|].
  rw app_comm_cons !b32_combine_app IH length_app /= Nat.add_1_r Nat2Z.inj_succ Z.pow_succ_r; lia.
Qed.
Lemma length_b32_digits n z : length (b32_digits n z) = n.
Proof. induction n as [|n IH]; simpl; [done|]. by rw IH. Qed.
Lemma b32_combine_digits n z : b32_combine (b32_digits n z) = (z `mod` 32 ^ Z.of_nat n)%Z.
Proof.
  induction n as [|n IH]; [by rw Z.mod_1_r|].
  cbn [b32_digits]. rw b32_combine_cons IH length_b32_digits Nat2Z.inj_succ Z.pow_succ_r; [lia|].
  rw (Z.mul_comm 32) Z.rem_mul_r; [lia|lia|]. lia.
Qed.
Lemma b32_digits_ok n z : Forall b32_ok (b32_digits n z).
Proof. induction n as [|n IH]; constructor; [apply Z.mod_pos_bound; lia|done]. Qed.

Lemma b32_quantum_run ds k dbuf rest : Forall b32_ok ds →
  b32_quantum (length ds + k) dbuf ((b32_char <$> ds) ++ rest) = b32_quantum k (dbuf ++ ds) rest.
Proof.
  intros H. revert dbuf. induction H as [|d ds Hd _ IH]; intros dbuf; [by rw app_nil_r|].
  simpl. destruct (b32_char_spec d Hd) as (Hv & Hp & _). rw (bool_decide_eq_false_2 _ Hp) /= Hv IH.
  by rw -app_assoc.
Qed.
(** The padding of a last quantum of one to four bytes. *)
Lemma b32_quantum_end dbuf : length dbuf ∈ [2; 4; 5; 7] →
  b32_quantum (8 - length dbuf) dbuf (replicate (8 - length dbuf) b32_pad) =
  Some (dbuf, true, replicate (7 - length dbuf) b32_pad).
Proof.
  intros H. destruct (length dbuf) as [|[|[|[|[|[|[|[|]]]]]]]] eqn:E; simpl; rw ?E; try reflexivity; set_solver.
Qed.

(** The value of a quantum and its digits. *)
Definition q_val (q : bytes) : Z := be_combine (pad_to 5 x00 q).
Definition q_digits (q : bytes) : list Z := take (b32_quantum_chars (length q)) (b32_digits 8 (q_val q)).
Lemma q_digits_pad q : 1 ≤ length q ≤ 5 → pad_to 8 0%Z (q_digits q) = b32_digits 8 (q_val q).
Proof.
  intros Hq. rw /q_digits /q_val /pad_to.
  destruct q as [|a [|b [|c [|d [|e [|]]]]]]; simpl in Hq; try lia; rw /be_combine /=;
    repeat (f_equal; try (change (b2z x00) with 0%Z; Z.div_mod_to_equations; lia)).
Qed.
Lemma q_pack q : 1 ≤ length q ≤ 5 → b32_pack (q_digits q) = q.
Proof.
  intros Hq. rw /b32_pack q_digits_pad // b32_combine_digits.
  assert (length (pad_to 5 x00 q) = 5) as Hl by (rw /pad_to length_app length_replicate; lia).
  assert (be_split 5 (q_val q) = pad_to 5 x00 q) as Hs by (rw -{1}Hl; apply be_split_combine).
  pose proof (be_combine_range (pad_to 5 x00 q)) as Hr. rw Hl in Hr.
  rw Z.mod_small; [exact Hr|]. rw Hs /q_digits length_take length_b32_digits.
  destruct q as [|a [|b [|c [|d [|e [|]]]]]]; simpl in Hq; try lia; reflexivity.
Qed.

Lemma length_q_digits q : length q ≤ 5 → length (q_digits q) = b32_quantum_chars (length q).
Proof.
  intros Hq. rw length_take length_b32_digits. apply Nat.min_l.
  destruct q as [|a [|b [|c [|d [|e [|]]]]]]; simpl in *; vm_compute; lia.
Qed.
Lemma encode_quantum_eq q :
  b32_encode_quantum q = (b32_char <$> q_digits q) ++ replicate (8 - length (q_digits q)) b32_pad.
Proof. by rw /b32_encode_quantum /pad_to length_fmap. Qed.

Lemma decode_quantum q rest : 1 ≤ length q ≤ 5 → (length q = 5 ∨ rest = []) →
  b32_quantum 8 [] (b32_encode_quantum q ++ rest) =
  Some (q_digits q, negb (length q =? 5), if length q =? 5 then rest else replicate (7 - length (q_digits q)) b32_pad).
Proof.
  intros Hq Hr. pose proof (length_q_digits q ltac:(lia)) as Hl. rw encode_quantum_eq -app_assoc.
  assert (Forall b32_ok (q_digits q)) as Hok by apply Forall_take, b32_digits_ok.
  assert (length (q_digits q) ≤ 8) by (rw length_take length_b32_digits; lia).
  assert (8 = length (q_digits q) + (8 - length (q_digits q))) as E8 by lia.
  rw {1}E8 b32_quantum_run //. destruct (Nat.eqb_spec (length q) 5) as [E|E].
  - rw Hl E. reflexivity.
  - destruct Hr as [?| ->]; [done|]. rw app_nil_r. apply b32_quantum_end. rw Hl.
    destruct q as [|a [|b [|c [|d [|e [|]]]]]]; simpl in *; try lia; vm_compute; set_solver.
Qed.

Lemma b32_decode_encode n m src : length src ≤ n → length src ≤ m →
  b32_decode m (mjoin (b32_encode_quantum <$> chunks n 5 src)) = Some src.
Proof.
  revert m src. induction n as [|n IH]; intros m src Hn Hm.
  { destruct src; [by destruct m|simpl in Hn; lia]. }
  destruct src as [|x src]; [by destruct m|]. destruct m as [|m]; [simpl in Hm; lia|].
  set (l := x :: src) in *.
  change (mjoin _) with (b32_encode_quantum (take 5 l) ++ mjoin (b32_encode_quantum <$> chunks n 5 (drop 5 l))).
  set (rest := mjoin _). assert (b32_encode_quantum (take 5 l) ++ rest ≠ []) as Hne.
  { rw encode_quantum_eq. intros E. apply (f_equal length) in E. rw !length_app length_fmap length_replicate /= in E. lia. }
  cbn [b32_decode]. destruct (_ ++ rest) eqn:E at 1; [done|]. clear E Hne.
  assert (1 ≤ length (take 5 l) ≤ 5) as Hq by (rw length_take; change (length l) with (S (length src)); lia).
  rw decode_quantum //.
  { destruct (decide (length (take 5 l) = 5)) as [|Hs]; [by left|right].
    rw length_take in Hs. rw /rest drop_ge; [lia|]. by destruct n. }
  rw q_pack //. destruct (Nat.eqb_spec (length (take 5 l)) 5) as [E5|E5]; cbn [negb].
  - rw /rest IH; rw ?length_drop; [lia|lia|].
    cbn. by rw take_drop.
  - rw length_take in E5. rw take_ge; [lia|done].
Qed.

Lemma encode_plain src c : c ∈ b32_EncodeToString src → c = b32_pad ∨ ∃ d, b32_ok d ∧ c = b32_char d.
Proof.
  rw /b32_EncodeToString. intros (q & Hc & (b & -> & _)%list_elem_of_fmap)%list_elem_of_join.
  rw encode_quantum_eq in Hc. apply elem_of_app in Hc as [(d & -> & Hd)%list_elem_of_fmap|Hp].
  - right. exists d. split; [|done]. assert (Forall b32_ok (q_digits b)) as H by apply Forall_take, b32_digits_ok.
    rw list.Forall_forall in H. by apply H.
  - left. by apply elem_of_replicate in Hp as [].
Qed.

Lemma filter_all {A} (P : A → Prop) `{∀ x, Decision (P x)} (l : list A) : (∀ x, x ∈ l → P x) → filter P l = l.
Proof.
  induction l as [|x l IH]; intros Hl; [done|]. rw filter_cons_True; [apply Hl; set_solver|].
  rw IH //. intros y Hy. apply Hl. set_solver.
Qed.
Lemma length_encode src : length src ≤ length (b32_EncodeToString src).
Proof.
  rw /b32_EncodeToString /blocks. enough (∀ n l, length l ≤ n →
    length l ≤ length (mjoin (b32_encode_quantum <$> chunks n 5 l))) as H by by apply H.
  induction n as [|n IH]; intros l Hl; [done|]. destruct l as [|x l]; [done|].
  change (mjoin _) with (b32_encode_quantum (take 5 (x :: l)) ++ mjoin (b32_encode_quantum <$> chunks n 5 (drop 5 (x :: l)))).
  rw length_app. pose proof (IH (drop 5 (x :: l))) as Hr. rw !length_drop /= in Hr.
  assert (length (b32_encode_quantum (take 5 (x :: l))) = 8) as ->; [|simpl in *; lia].
  rw encode_quantum_eq length_app length_fmap length_replicate. rw length_q_digits; [rw length_take; lia|].
  rw length_take. destruct l as [|? [|? [|? [|? ]]]]; reflexivity.
Qed.

(** Decoding what was encoded gives the bytes back. *)
Lemma b32_roundtrip src : b32_DecodeString (strings_ToUpper (b32_EncodeToString src)) = Ok src.
Proof.
  assert (strings_ToUpper (b32_EncodeToString src) = b32_EncodeToString src) as ->.
  { rw /strings_ToUpper -{2}(list_fmap_id (b32_EncodeToString src)). apply list_fmap_ext. intros i c Hc.
    apply list_elem_of_lookup_2, encode_plain in Hc as [->|(d & Hd & ->)]; [done|]. by apply b32_char_spec. }
  assert (b32_strip (b32_EncodeToString src) = b32_EncodeToString src) as Hs.
  { apply filter_all. intros c [->|(d & Hd & ->)]%encode_plain; [done|].
    destruct (b32_char_spec d Hd) as (_ & _ & ? & ? & _). done. }
  rw /b32_DecodeString Hs b32_decode_encode //. apply length_encode.
Qed.

(** ** Validation *)
Lemma length_hotp k c : length (hotp k c) = totpDigits.
Proof. apply length_dec_digits. Qed.
#[global] Opaque hotp b32_DecodeString b32_EncodeToString.
Lemma subtleEqualString_spec a b : subtleEqualString a b = bool_decide (a = b).
Proof.
  rw /subtleEqualString. destruct (Nat.eqb_spec (length a) (length b)) as [|Hne]; [done|].
  symmetry. apply bool_decide_eq_false_2. by intros ->.
Qed.

Lemma try_windows_spec {S} key base code (matched : Z → M S ()) skews s :
  (∃ d, d ∈ skews ∧ code = hotp key (uint64 (base + d)) ∧ try_windows key base code matched skews s = matched d s) ∨
  ((∀ d, d ∈ skews → code ≠ hotp key (uint64 (base + d))) ∧
   try_windows key base code matched skews s = (s, Error ErrTOTPInvalid)).
Proof.
  induction skews as [|d skews IH]; [right; split; [set_solver|done]|].
  cbn [try_windows]. rw subtleEqualString_spec. case_bool_decide as E.
  - left. exists d. split; [apply list_elem_of_here|]. split; [by symmetry|reflexivity].
  - destruct IH as [(d' & ? & ? & ?)|[Hn ?]].
    { left. exists d'. split; [by apply list_elem_of_further|]. by split. }
    right. split; [|done]. intros d' [->|]%elem_of_cons; [congruence|auto].
Qed.

Lemma validate_with_eq {S} now secret key code (matched : Z → M S ()) s :
  b32_DecodeString (strings_ToUpper secret) = Ok key → length code = totpDigits →
  validate_with now secret code matched s =
  try_windows key (Z.quot (time_Unix now) totpPeriod) code matched [- totpSkew; 0; totpSkew]%Z s.
Proof.
  intros Hk Hc. rw /validate_with /mbind /M_bind /guardM /wrapM /lift Hk Hc. reflexivity.
Qed.

(** C18: second-factor codes: a code computed from a generated secret at time [t] is
    accepted by every validation whose clock is in the same, the previous or the
    next 30-second window, and a code is accepted only if it is the HOTP value of
    one of these three windows. *)
Theorem totp_correct {S} e e' secret : GenerateTOTPSecret e = (e', Ok secret) →
  (∀ c t now (s : S), (0 ≤ time_Unix t < 2 ^ 63)%Z → (0 ≤ time_Unix now)%Z →
     (Z.abs (time_Unix t `div` 30 - time_Unix now `div` 30) ≤ 1)%Z →
     ∃ code, GenerateTOTP c secret t = Ok code ∧ ValidateTOTP now secret code None s = (s, Ok tt)) ∧
  (∃ key, length key = 20 ∧ ∀ now code (s s' : S),
     ValidateTOTP now secret code None s = (s', Ok tt) →
     ∃ d, (-1 ≤ d ≤ 1)%Z ∧ code = hotp key (uint64 (Z.quot (time_Unix now) 30 + d))).
Proof.
  rw /GenerateTOTPSecret. intros H. inv_M. apply GenerateSecureRandom_ok in Hm as (_ & Hl & _).
  pose proof (b32_roundtrip a) as Hk. split.
  - intros c t now s Ht Hn Hd. eexists. split.
    { rw /GenerateTOTP. assert (time_IsZero t = false) as ->.
      { apply bool_decide_eq_false_2. intros ->. change (time_Unix 0) with (-62135596800)%Z in Ht. lia. }
      by rw Hk. }
    rw /ValidateTOTP (validate_with_eq _ _ _ _ _ _ Hk (length_hotp _ _)).
    destruct (try_windows_spec a (Z.quot (time_Unix now) totpPeriod)
      (hotp a (uint64 (time_Unix t) `div` totpPeriod)) (λ _, mret tt) [- totpSkew; 0; totpSkew]%Z s)
      as [(d & _ & _ & E)|[Hno _]]; [exact E|]. exfalso.
    assert (uint64 (time_Unix t) = time_Unix t) as Hu by (rw /uint64 Z.mod_small; lia).
    rw Hu in Hno. set (d := (time_Unix t `div` 30 - time_Unix now `div` 30)%Z) in *.
    apply (Hno d).
    { assert (d = -1 ∨ d = 0 ∨ d = 1)%Z as [E|[E|E]] by lia; rw E; set_solver. }
    f_equal. rw /totpPeriod Z.quot_div_nonneg; [lia|lia|].
    assert (time_Unix now `div` 30 + d = time_Unix t `div` 30)%Z as -> by lia.
    rw /uint64 Z.mod_small //. split; [apply Z.div_pos; lia|]. apply Z.div_lt_upper_bound; lia.
  - exists a. split; [rw /totpSecretLen in Hl; lia|]. intros now code s s' Hv.
    assert (length code = totpDigits) as Hc by (rw /ValidateTOTP /validate_with in Hv; inv_M; by apply Nat.eqb_eq).
    rw /ValidateTOTP (validate_with_eq _ _ _ _ _ _ Hk Hc) in Hv.
    destruct (try_windows_spec a (Z.quot (time_Unix now) totpPeriod) code (λ _ : Z, @mret (M S) _ () tt)
      [- totpSkew; 0; totpSkew]%Z s) as [(d & Hd & E & _)|[_ E]]; [|by rw E in Hv].
    exists d. split; [|exact E]. rw /totpSkew in Hd. set_solver by lia.
Qed.

Definition demo_secret : bytes := Eval vm_compute in b32_EncodeToString (str_bytes "12345678901234567890").
Definition at_unix (sec : Z) : Z := (62135596800 + sec) * 1000000000.
Lemma totp_correct_witness : ∃ code, GenerateTOTP 0 demo_secret (at_unix 59) = Ok code ∧
  ValidateTOTP (at_unix 80) demo_secret code None tt = (tt, Ok tt).
Proof.
  apply (proj1 (totp_correct (S := ()) (str_bytes "12345678901234567890") [] demo_secret
    ltac:(vm_compute; reflexivity)) 0%Z (at_unix 59) (at_unix 80) tt);
    [change (time_Unix (at_unix 59)) with 59%Z|change (time_Unix (at_unix 80)) with 80%Z
    |change (time_Unix (at_unix 59)) with 59%Z; change (time_Unix (at_unix 80)) with 80%Z;
     vm_compute; discriminate]; lia.
Defined.

(** Replays are not caught, even by a [markUsed] that enforces uniqueness: the time
    it is given moves with the clock, so the same code is accepted a second later. *)
Definition mark_unique (window : Z) (code : bytes) : M (list (Z * bytes)) () := fun used =>
  if bool_decide ((window, code) ∈ used) then (used, Error (Err_new "duplicate"))
  else ((window, code) :: used, Ok tt).
Example totp_replay :
  let code := str_bytes "287082" in
  let '(used, r) := ValidateTOTP (at_unix 59) demo_secret code (Some mark_unique) [] in
  r = Ok tt ∧ (ValidateTOTP (at_unix 60) demo_secret code (Some mark_unique) used).2 = Ok tt.
Proof. vm_compute. split; reflexivity. Qed.
