(* ===== verification/TotpUri.v ===== *)
(** The address of a shared secret that authenticator programs scan, [BuildTOTPURI] of
    [src/internal/auth/totp.go], and a reader of such addresses: what is written is read back. *)

From S2P Require Import Prelude Hash Totp.

(** [urlEscape], on the characters of its argument: a character that is not kept is written with
    its code in hexadecimal, of at least two digits. *)
Definition kept_rune (r : Z) : bool :=
  bool_decide (97 ≤ r ≤ 122 ∨ 65 ≤ r ≤ 90 ∨ 48 ≤ r ≤ 57)%Z || bool_decide (r ∈ [45; 95; 46; 126]%Z).
Definition hex_upper (d : Z) : byte := str_bytes "0123456789ABCDEF" !!! Z.to_nat d.
Fixpoint hex_text (fuel : nat) (z : Z) : bytes :=
  match fuel with
  | O => []
  | S fuel => (if bool_decide (z < 16)%Z then [] else hex_text fuel (Z.shiftr z 4)) ++ [hex_upper (Z.land z 15)]
  end.
Definition escape_rune (r : Z) : bytes :=
  if kept_rune r then [z2b r] else x25 :: (if bool_decide (r < 16)%Z then x30 :: hex_text 6 r else hex_text 6 r).
Definition urlEscape (s : list Z) : bytes := s ≫= escape_rune.
Definition BuildTOTPURI (issuer account secret : list Z) : bytes :=
  str_bytes "otpauth://totp/" ++ urlEscape issuer ++ x3a :: urlEscape account ++ str_bytes "?secret=" ++ urlEscape secret ++
  str_bytes "&issuer=" ++ urlEscape issuer ++ str_bytes "&algorithm=SHA1&digits=6&period=30".

(** A reader of such addresses: the parts between the separators, with their escapes undone. *)
Definition hex_of (b : byte) : option Z :=
  let z := b2z b in
  if bool_decide (48 ≤ z ≤ 57)%Z then Some (z - 48)%Z
  else if bool_decide (65 ≤ z ≤ 70)%Z then Some (z - 55)%Z
  else if bool_decide (97 ≤ z ≤ 102)%Z then Some (z - 87)%Z else None.
Fixpoint url_unescape (l : bytes) : option bytes :=
  match l with
  | [] => Some []
  | x25 :: a :: b :: l => x ← hex_of a; y ← hex_of b; r ← url_unescape l; Some (z2b (16 * x + y) :: r)
  | x25 :: _ => None
  | b :: l => r ← url_unescape l; Some (b :: r)
  end.
(** The text up to a separator, and the rest. *)
Fixpoint cut (c : byte) (l : bytes) : option (bytes * bytes) :=
  match l with
  | [] => None
  | b :: l => if Byte.eqb b c then Some ([], l) else '(x, y) ← cut c l; Some (b :: x, y)
  end.
Definition read_totp_uri (l : bytes) : option (bytes * bytes * bytes) :=
  '(_, l) ← cut x2f l; '(_, l) ← cut x2f l; '(_, l) ← cut x2f l;
  '(issuer, l) ← cut x3a l; '(account, l) ← cut x3f l;
  '(_, l) ← cut x3d l; '(secret, l) ← cut x26 l; '(_, l) ← cut x3d l; '(issuer', _) ← cut x26 l;
  i ← url_unescape issuer; i' ← url_unescape issuer'; a ← url_unescape account; s ← url_unescape secret;
  if bool_decide (i = i') then Some (i, a, s) else None.

Lemma unescape_byte b l : url_unescape (escape_rune (b2z b) ++ l) = (b ::.) <$> url_unescape l.
Proof. destruct b; reflexivity. Qed.
Lemma unescape_text s : url_unescape (urlEscape (b2z <$> s)) = Some s.
Proof.
  induction s as [|b s IH]; [done|]. change (urlEscape (b2z <$> (b :: s))) with (escape_rune (b2z b) ++ urlEscape (b2z <$> s)).
  by rw unescape_byte IH.
Qed.
(** Escaped text holds no separator. *)
Definition separator (c : byte) : bool := existsb (Byte.eqb c) [x2f; x3a; x3f; x3d; x26].
Definition free_of (c : byte) (l : bytes) : bool := forallb (λ b, negb (Byte.eqb b c)) l.
Lemma free_escape c s : separator c = true → free_of c (urlEscape (b2z <$> s)) = true.
Proof.
  intros Hc. induction s as [|b s IH]; [done|]. change (urlEscape (b2z <$> (b :: s))) with (escape_rune (b2z b) ++ urlEscape (b2z <$> s)).
  rw /free_of forallb_app andb_true_iff. split; [|exact IH].
  apply existsb_exists in Hc as (x & Hx & E%Byte.byte_dec_bl). subst x. clear IH.
  repeat (destruct Hx as [<-|Hx]; [destruct b; reflexivity|]). done.
Qed.
Lemma cut_free c x l : free_of c x = true → cut c (x ++ c :: l) = Some (x, l).
Proof.
  induction x as [|b x IH]; intros Hx; [cbn; by rw (Byte.byte_dec_lb eq_refl)|].
  apply andb_true_iff in Hx as [Hb Hx]. cbn. apply negb_true_iff in Hb. by rw Hb IH.
Qed.

Ltac cut_at x := rewrite (cut_free _ x); [first [reflexivity | by apply free_escape]|]; cbn [mbind option_bind].

(** The address carries its three parts: whatever bytes the issuer, the account and the secret
    consist of, each taken for the character with its code, reading the address gives them back. *)
Theorem totp_uri_roundtrip (issuer account secret : bytes) :
  read_totp_uri (BuildTOTPURI (b2z <$> issuer) (b2z <$> account) (b2z <$> secret)) = Some (issuer, account, secret).
Proof.
  rw /read_totp_uri /BuildTOTPURI. set (i := urlEscape (b2z <$> issuer)). set (a := urlEscape (b2z <$> account)). set (k := urlEscape (b2z <$> secret)).
  change (str_bytes "otpauth://totp/" ++ ?l) with (str_bytes "otpauth:" ++ x2f :: [] ++ x2f :: str_bytes "totp" ++ x2f :: l).
  change (str_bytes "?secret=" ++ ?l) with (x3f :: str_bytes "secret" ++ x3d :: l).
  change (str_bytes "&issuer=" ++ ?l) with (x26 :: str_bytes "issuer" ++ x3d :: l).
  change (str_bytes "&algorithm=SHA1&digits=6&period=30") with (x26 :: str_bytes "algorithm=SHA1&digits=6&period=30").
  cut_at (str_bytes "otpauth:"). cut_at (@nil byte). cut_at (str_bytes "totp"). cut_at i. cut_at a. cut_at (str_bytes "secret"). cut_at k.
  cut_at (str_bytes "issuer"). cut_at i. rw /i /a /k !unescape_text. cbn [mbind option_bind]. by rw bool_decide_eq_true_2.
Qed.

(** Beyond, the escapes are not those of UTF-8: an account of one such character is read as
    other text. *)
Example wide_characters_garbled :
  BuildTOTPURI (b2z <$> str_bytes "Yvonne") [0x4e2d%Z] (b2z <$> str_bytes "JBSW") =
    str_bytes "otpauth://totp/Yvonne:%4E2D?secret=JBSW&issuer=Yvonne&algorithm=SHA1&digits=6&period=30" ∧
  read_totp_uri (BuildTOTPURI (b2z <$> str_bytes "Yvonne") [0x4e2d%Z] (b2z <$> str_bytes "JBSW")) =
    Some (str_bytes "Yvonne", str_bytes "N2D", str_bytes "JBSW").
Proof. split; vm_compute; reflexivity. Qed.
