(* ===== verification/Approval.v ===== *)
(** Second factor and quorum approval: the tickets of [src/internal/auth/approval.go]
    and their store, the MFA store, and the handlers of
    [src/internal/api/handler_approval.go], [handler_mfa.go] and the gate of
    [middleware_mfa.go].

    A handler is a program that makes one store call (or clock reading) at a time,
    so that requests interleave the way goroutines do: each store call holds the
    store's lock, a whole handler does not. *)

From S2P Require Import Prelude SecureBuffer Hash Metadata Auth Totp.

(** ** Tickets *)
Definition ApprovalPending : string := "pending".
Definition ApprovalApproved : string := "approved".
Definition ApprovalRejected : string := "rejected".
Definition ApprovalExpired : string := "expired".

Record ApprovalTicket : Type := mkTicket {
  tk_ID : string;
  tk_Operation : string;
  tk_KeyID : string;
  tk_RequestedBy : string;
  tk_Approvers : list string;
  tk_Rejectors : list string;
  tk_Required : Z;
  tk_Status : string;
  tk_CreatedAt : Z;
  tk_ExpiresAt : Z;
  tk_ResolvedAt : Z;
}.

Definition IsApprovalComplete (t : ApprovalTicket) : bool :=
  bool_decide (tk_Required t ≤ Z.of_nat (length (tk_Approvers t)))%Z.
Definition IsExpired (now : Z) (t : ApprovalTicket) : bool := bool_decide (tk_ExpiresAt t < now)%Z.
Definition HasApproved (roleID : string) (t : ApprovalTicket) : bool :=
  existsb (λ a, bool_decide (a = roleID)) (tk_Approvers t).
Definition HasRejected (roleID : string) (t : ApprovalTicket) : bool :=
  existsb (λ r, bool_decide (r = roleID)) (tk_Rejectors t).

(** Field updates of a ticket. *)
Definition resolve (status : string) (now : Z) (t : ApprovalTicket) : ApprovalTicket :=
  mkTicket (tk_ID t) (tk_Operation t) (tk_KeyID t) (tk_RequestedBy t) (tk_Approvers t) (tk_Rejectors t)
    (tk_Required t) status (tk_CreatedAt t) (tk_ExpiresAt t) now.
Definition add_approver (roleID : string) (t : ApprovalTicket) : ApprovalTicket :=
  mkTicket (tk_ID t) (tk_Operation t) (tk_KeyID t) (tk_RequestedBy t) (tk_Approvers t ++ [roleID]) (tk_Rejectors t)
    (tk_Required t) (tk_Status t) (tk_CreatedAt t) (tk_ExpiresAt t) (tk_ResolvedAt t).
Definition add_rejector (roleID : string) (t : ApprovalTicket) : ApprovalTicket :=
  mkTicket (tk_ID t) (tk_Operation t) (tk_KeyID t) (tk_RequestedBy t) (tk_Approvers t) (tk_Rejectors t ++ [roleID])
    (tk_Required t) (tk_Status t) (tk_CreatedAt t) (tk_ExpiresAt t) (tk_ResolvedAt t).

Definition ErrApprovalNotFound : error := Err_new "auth: approval ticket not found".

(** ** [MemoryApprovalStore]: every call copies tickets in and out *)
Abbreviation tickets := (gmap string ApprovalTicket).
Definition CreateTicket (t : ApprovalTicket) : M tickets () := fun s =>
  match s !! tk_ID t with
  | Some _ => (s, Error (Err_new "auth: ticket already exists"))
  | None => (<[tk_ID t := t]> s, Ok tt)
  end.
Definition GetTicket (id : string) : M tickets ApprovalTicket := fun s =>
  (s, match s !! id with Some t => Ok t | None => Error ErrApprovalNotFound end).
Definition UpdateTicket (t : ApprovalTicket) : M tickets () := fun s =>
  match s !! tk_ID t with
  | None => (s, Error ErrApprovalNotFound)
  | Some _ => (<[tk_ID t := t]> s, Ok tt)
  end.
Definition ListPending (s : tickets) : list ApprovalTicket :=
  filter (λ t, tk_Status t = ApprovalPending) (snd <$> map_to_list s).
Definition ListByOperation (operation : string) (s : tickets) : list ApprovalTicket :=
  filter (λ t, tk_Operation t = operation) (snd <$> map_to_list s).
Definition DeleteTicket (id : string) (s : tickets) : tickets := delete id s.
Definition cleanup_due (now : Z) (t : ApprovalTicket) : bool :=
  bool_decide (tk_Status t = ApprovalPending) && IsExpired now t.
Definition CleanupExpired (now : Z) (s : tickets) : tickets * nat :=
  ((λ t, if cleanup_due now t then resolve ApprovalExpired now t else t) <$> s,
   size (filter (λ kt, cleanup_due now kt.2 = true) s)).

(** ** [MemoryMFAStore] *)
Record MFAState : Type := mkMFA {
  mf_RoleID : string; mf_Secret : bytes; mf_Enabled : bool; mf_CreatedAt : Z; mf_VerifiedAt : Z
}.
Definition GetMFAState (roleID : string) (s : gmap string MFAState) : result MFAState :=
  match s !! roleID with Some st => Ok st | None => Error (Err_new "auth: mfa state not found for role") end.
Definition SaveMFAState (st : MFAState) (s : gmap string MFAState) : gmap string MFAState := <[mf_RoleID st := st]> s.
Definition DeleteMFAState (roleID : string) (s : gmap string MFAState) : gmap string MFAState := delete roleID s.

(** ** Handlers as programs over the stores and the clock *)
Inductive payload : Type :=
  | PTicket (t : ApprovalTicket)
  | PTickets (l : list ApprovalTicket)
  | PSetup (secret : bytes)
  | PEnabled (roleID : string) (enabled : bool).
Inductive response : Type :=
  | JSONOK (p : payload)
  | JSONError (status : Z) (msg : string)
  | Passed            (* the middleware called the next handler *)
  | Panicked.         (* a nil store was used *)

Inductive proc : Type :=
  | Ret (r : response)
  | Now (k : Z → proc)
  | Random (n : Z) (k : result bytes → proc)
  | Get (id : string) (k : result ApprovalTicket → proc)
  | Create (t : ApprovalTicket) (k : result () → proc)
  | Update (t : ApprovalTicket) (k : result () → proc)
  | Pending (k : list ApprovalTicket → proc)
  | GetMFA (roleID : string) (k : result MFAState → proc)
  | SaveMFA (st : MFAState) (k : proc)
  | DeleteMFA (roleID : string) (k : proc).

(** Which stores the router was given, and a request: its method, its body once
    read and decoded, and the policy in its context. *)
Record config : Type := mkConfig { cf_approvalStore : bool; cf_mfaStore : bool }.
Inductive body (A : Type) : Type := ReadFailed | BadJSON | Body (a : A).
Arguments ReadFailed {A}. Arguments BadJSON {A}. Arguments Body {A} a.

Definition requireMethod (want got : string) (k : proc) : proc :=
  if bool_decide (got = want) then k else Ret (JSONError 405 "method not allowed").
Definition withBody {A} (b : body A) (k : A → proc) : proc :=
  match b with
  | ReadFailed => Ret (JSONError 400 "read request body failed")
  | BadJSON => Ret (JSONError 400 "invalid JSON")
  | Body a => k a
  end.
Definition withPolicy (p : option Policy) (k : Policy → proc) : proc :=
  match p with None => Ret (JSONError 403 "authentication required") | Some p => k p end.
Definition withApprovals (c : config) (k : proc) : proc :=
  if cf_approvalStore c then k else Ret (JSONError 503 "approval store not configured").
Definition require (b : bool) (status : Z) (msg : string) (k : proc) : proc :=
  if b then k else Ret (JSONError status msg).

(** ** handler_approval.go *)
Definition hex_digit (z : Z) : byte := str_bytes "0123456789abcdef" !!! Z.to_nat z.
Definition formatUUID (b : bytes) : string :=
  String.string_of_list_byte (mjoin (imap (λ i v,
    (if bool_decide (i ∈ [4; 6; 8; 10]) then ["-"%byte] else [])
    ++ [hex_digit (Z.shiftr (b2z v) 4); hex_digit (Z.land (b2z v) 0x0f)]) b)).
(** One clock reading per byte; byte [i] is bits [8i..8i+7] of the reading. *)
Fixpoint uuid_bytes (n i : nat) (b : bytes) (k : bytes → proc) : proc :=
  match n with
  | O => k b
  | S n => Now (λ now, uuid_bytes n (S i) (b ++ [z2b (Z.shiftr (time_UnixNano now) (8 * Z.of_nat i))]) k)
  end.
Definition uuid_v4 (b : bytes) : bytes :=
  let b := <[6 := z2b (Z.lor (Z.land (b2z (b !!! 6)) 0x0f) 0x40)]> b in
  <[8 := z2b (Z.lor (Z.land (b2z (b !!! 8)) 0x3f) 0x80)]> b.
Definition generateUUID (k : string → proc) : proc :=
  uuid_bytes 16 0 [] (λ b, k (formatUUID (uuid_v4 b))).

Record createApprovalRequest : Type := mkCreate {
  ca_Operation : string; ca_KeyID : string; ca_Required : Z; ca_TTLHours : Z
}.
(** [time.Duration(ttlHours) * time.Hour] *)
Definition hours_duration (h : Z) : Z := int64 (h * 3600000000000).

Definition handleCreateApproval (c : config) (method : string) (b : body createApprovalRequest) (p : option Policy) : proc :=
  requireMethod "POST" method (withBody b (λ b,
    require (negb (bool_decide (ca_Operation b = ""))) 400 "operation is required" (
    require (negb (bool_decide (ca_Required b < 1)%Z)) 400 "required must be >= 1" (
    withPolicy p (λ policy, withApprovals c (generateUUID (λ ticketID,
      let ttlHours := if bool_decide (ca_TTLHours b = 0)%Z then 24%Z else ca_TTLHours b in
      Now (λ createdAt, Now (λ now,
        let ticket := mkTicket ticketID (ca_Operation b) (ca_KeyID b) (p_RoleID policy) [] [] (ca_Required b)
                        ApprovalPending createdAt (now + hours_duration ttlHours) 0 in
        Create ticket (λ r,
          match r with
          | Ok _ => Ret (JSONOK (PTicket ticket))
          | _ => Ret (JSONError 500 "create ticket")
          end)))))))))).

Definition handleGetApproval (c : config) (method ticketID : string) : proc :=
  requireMethod "GET" method (
    require (negb (bool_decide (ticketID = ""))) 400 "id is required" (
    withApprovals c (Get ticketID (λ r,
      match r with Ok t => Ret (JSONOK (PTicket t)) | _ => Ret (JSONError 404 "ticket not found") end)))).

(** [r.approvalStore.UpdateTicket(ticket)] and the answer that follows it. *)
Definition update_and_answer (t : ApprovalTicket) : proc :=
  Update t (λ r, match r with Ok _ => Ret (JSONOK (PTicket t)) | _ => Ret (JSONError 500 "update ticket") end).

Definition handleApprove (c : config) (method : string) (b : body string) (p : option Policy) : proc :=
  requireMethod "POST" method (withBody b (λ ticketID,
    require (negb (bool_decide (ticketID = ""))) 400 "ticket_id is required" (
    withPolicy p (λ policy, withApprovals c (Get ticketID (λ r,
      match r with
      | Ok ticket =>
          require (bool_decide (tk_Status ticket = ApprovalPending)) 409 "ticket already resolved" (
          Now (λ now,
            if IsExpired now ticket then
              Now (λ now, Update (resolve ApprovalExpired now ticket) (λ _, Ret (JSONError 409 "ticket expired")))
            else
              require (negb (bool_decide (tk_RequestedBy ticket = p_RoleID policy))) 403 "cannot approve own request" (
              require (negb (HasApproved (p_RoleID policy) ticket)) 409 "already approved by this role" (
              let ticket := add_approver (p_RoleID policy) ticket in
              if bool_decide (tk_Required ticket ≤ Z.of_nat (length (tk_Approvers ticket)))%Z
              then Now (λ now, update_and_answer (resolve ApprovalApproved now ticket))
              else update_and_answer ticket))))
      | _ => Ret (JSONError 404 "ticket not found")
      end)))))).

Definition handleReject (c : config) (method : string) (b : body string) (p : option Policy) : proc :=
  requireMethod "POST" method (withBody b (λ ticketID,
    require (negb (bool_decide (ticketID = ""))) 400 "ticket_id is required" (
    withPolicy p (λ policy, withApprovals c (Get ticketID (λ r,
      match r with
      | Ok ticket =>
          require (bool_decide (tk_Status ticket = ApprovalPending)) 409 "ticket already resolved" (
          let ticket := if HasRejected (p_RoleID policy) ticket then ticket else add_rejector (p_RoleID policy) ticket in
          Now (λ now, update_and_answer (resolve ApprovalRejected now ticket)))
      | _ => Ret (JSONError 404 "ticket not found")
      end)))))).

Definition handleListApprovals (c : config) (method : string) : proc :=
  requireMethod "GET" method (withApprovals c (Pending (λ l, Ret (JSONOK (PTickets l))))).

Definition handleApprovals (c : config) (method id : string) (b : body createApprovalRequest) (p : option Policy) : proc :=
  if bool_decide (method = "POST") then handleCreateApproval c method b p
  else if bool_decide (method = "GET") then
    if bool_decide (id = "") then handleListApprovals c method else handleGetApproval c method id
  else Ret (JSONError 405 "method not allowed").

(** ** handler_mfa.go; its handlers use the store without a nil check *)
Definition withMFA (c : config) (k : proc) : proc := if cf_mfaStore c then k else Ret Panicked.

Definition handleMFASetup (c : config) (method : string) (b : body string) (p : option Policy) : proc :=
  requireMethod "POST" method (withBody b (λ roleID,
    require (negb (bool_decide (roleID = ""))) 400 "role_id is required" (
    withPolicy p (λ policy,
      require (bool_decide (p_RoleID policy = roleID)) 403 "can only setup MFA for yourself" (
      Random totpSecretLen (λ raw,
        match raw with
        | Ok raw =>
            let secret := b32_EncodeToString raw in
            Now (λ now, withMFA c (SaveMFA (mkMFA roleID secret false now 0) (Ret (JSONOK (PSetup secret)))))
        | _ => Ret (JSONError 500 "generate secret")
        end)))))).

(** The code check of verify, disable and the middleware: no [markUsed]. *)
Definition totp_valid (now : Z) (secret code : bytes) : bool :=
  is_ok (ValidateTOTP now secret code None tt).2.

Definition handleMFAVerify (c : config) (method : string) (b : body (string * bytes)) : proc :=
  requireMethod "POST" method (withBody b (λ '(roleID, code),
    require (negb (bool_decide (roleID = "") || bool_decide (code = []))) 400 "role_id and code are required" (
    withMFA c (GetMFA roleID (λ r,
      match r with
      | Ok st =>
          Now (λ now, require (totp_valid now (mf_Secret st) code) 403 "invalid TOTP code" (
          Now (λ now, SaveMFA (mkMFA (mf_RoleID st) (mf_Secret st) true (mf_CreatedAt st) now)
            (Ret (JSONOK (PEnabled roleID true))))))
      | _ => Ret (JSONError 404 "mfa not setup, call setup first")
      end))))).

Definition handleMFADisable (c : config) (method : string) (b : body (string * bytes)) : proc :=
  requireMethod "POST" method (withBody b (λ '(roleID, code),
    require (negb (bool_decide (roleID = "") || bool_decide (code = []))) 400 "role_id and code are required" (
    withMFA c (GetMFA roleID (λ r,
      match r with
      | Ok st =>
          Now (λ now, require (totp_valid now (mf_Secret st) code) 403 "invalid TOTP code" (
          DeleteMFA roleID (Ret (JSONOK (PEnabled roleID false)))))
      | _ => Ret (JSONError 404 "mfa not setup")
      end))))).

(** ** middleware_mfa.go *)
Definition sensitiveOperations : list string := ["ShredKey"; "EmergencySeal"; "ExportKey"; "SoftDeleteKey"].

Definition mfa_check (c : config) (policy : Policy) (code : bytes) : proc :=
  if negb (p_RequireMFA policy) then Ret Passed
  else require (cf_mfaStore c) 503 "mfa store not configured" (
    GetMFA (p_RoleID policy) (λ r,
      match r with
      | Ok st =>
          require (mf_Enabled st) 403 "mfa not enabled, call verify first" (
          require (negb (bool_decide (code = []))) 401 "mfa code required in X-MFA-Code header" (
          Now (λ now, require (totp_valid now (mf_Secret st) code) 403 "invalid mfa code" (Ret Passed))))
      | _ => Ret (JSONError 403 "mfa not setup for role")
      end)).

Definition mfaMiddleware (c : config) (action : string) (p : option Policy) (ticketID : string) (code : bytes) : proc :=
  if negb (bool_decide (action ∈ sensitiveOperations)) then Ret Passed
  else match p with
  | None => Ret Passed
  | Some policy =>
      if bool_decide (0 < p_RequireQuorum policy)%Z && cf_approvalStore c then
        require (negb (bool_decide (ticketID = ""))) 202 "quorum approval required: create approval ticket first" (
        Get ticketID (λ r,
          match r with
          | Ok ticket =>
              require (bool_decide (tk_Status ticket = ApprovalApproved)) 403 "approval not completed" (
              require (bool_decide (tk_Operation ticket = action)) 403 "ticket operation mismatch" (
              mfa_check c policy code))
          | _ => Ret (JSONError 404 "approval ticket not found")
          end))
      else mfa_check c policy code
  end.

(** ** The server: requests in flight over shared stores *)
Inductive api_request : Type :=
  | RqApprovals (method id : string) (b : body createApprovalRequest) (p : option Policy)
  | RqApprove (method : string) (b : body string) (p : option Policy)
  | RqReject (method : string) (b : body string) (p : option Policy)
  | RqMFASetup (method : string) (b : body string) (p : option Policy)
  | RqMFAVerify (method : string) (b : body (string * bytes))
  | RqMFADisable (method : string) (b : body (string * bytes))
  | RqSensitive (action : string) (p : option Policy) (ticketID : string) (code : bytes).

Definition handler (c : config) (rq : api_request) : proc :=
  match rq with
  | RqApprovals m id b p => handleApprovals c m id b p
  | RqApprove m b p => handleApprove c m b p
  | RqReject m b p => handleReject c m b p
  | RqMFASetup m b p => handleMFASetup c m b p
  | RqMFAVerify m b => handleMFAVerify c m b
  | RqMFADisable m b => handleMFADisable c m b
  | RqSensitive a p t code => mfaMiddleware c a p t code
  end.

Record sys : Type := mkSys {
  y_clock : Z;
  y_rand : entropy;
  y_tickets : tickets;
  y_mfa : gmap string MFAState;
  y_threads : list proc;
  y_reqs : list api_request;   (* every request received so far *)
}.
Definition set_tickets (m : tickets) (y : sys) : sys := mkSys (y_clock y) (y_rand y) m (y_mfa y) (y_threads y) (y_reqs y).
Definition set_mfa (m : gmap string MFAState) (y : sys) : sys :=
  mkSys (y_clock y) (y_rand y) (y_tickets y) m (y_threads y) (y_reqs y).
Definition set_threads (l : list proc) (y : sys) : sys :=
  mkSys (y_clock y) (y_rand y) (y_tickets y) (y_mfa y) l (y_reqs y).

(** One call of a program. *)
Definition call (p : proc) (y : sys) : option (proc * sys) :=
  match p with
  | Ret _ => None
  | Now k => Some (k (y_clock y), y)
  | Random n k => let '(e, r) := GenerateSecureRandom n (y_rand y) in
      Some (k r, mkSys (y_clock y) e (y_tickets y) (y_mfa y) (y_threads y) (y_reqs y))
  | Get id k => Some (k (GetTicket id (y_tickets y)).2, y)
  | Create t k => let '(s, r) := CreateTicket t (y_tickets y) in Some (k r, set_tickets s y)
  | Update t k => let '(s, r) := UpdateTicket t (y_tickets y) in Some (k r, set_tickets s y)
  | Pending k => Some (k (ListPending (y_tickets y)), y)
  | GetMFA roleID k => Some (k (GetMFAState roleID (y_mfa y)), y)
  | SaveMFA st k => Some (k, set_mfa (SaveMFAState st (y_mfa y)) y)
  | DeleteMFA roleID k => Some (k, set_mfa (DeleteMFAState roleID (y_mfa y)) y)
  end.

Inductive label : Type :=
  | LReq (rq : api_request)   (* a request arrives *)
  | LRun (i : nat)            (* thread [i] makes its next call *)
  | LTick (d : nat)           (* the clock advances *)
  | LCleanup                  (* [CleanupExpired] runs *)
  | LDelete (id : string).    (* [DeleteTicket] runs *)
Definition exec (c : config) (l : label) (y : sys) : option sys :=
  match l with
  | LReq rq => Some (mkSys (y_clock y) (y_rand y) (y_tickets y) (y_mfa y) (y_threads y ++ [handler c rq]) (y_reqs y ++ [rq]))
  | LRun i =>
      p ← y_threads y !! i;
      '(p', y') ← call p y;
      Some (set_threads (<[i := p']> (y_threads y)) y')
  | LTick d => Some (mkSys (y_clock y + Z.of_nat d) (y_rand y) (y_tickets y) (y_mfa y) (y_threads y) (y_reqs y))
  | LCleanup => Some (set_tickets (CleanupExpired (y_clock y) (y_tickets y)).1 y)
  | LDelete id => Some (set_tickets (DeleteTicket id (y_tickets y)) y)
  end.
Fixpoint exec_all (c : config) (ls : list label) (y : sys) : option sys :=
  match ls with [] => Some y | l :: ls => exec c l y ≫= exec_all c ls end.
Definition started (clock : Z) (rand : entropy) : sys := mkSys clock rand ∅ ∅ [] [].

(** A handler run alone to its end. *)
Fixpoint run (p : proc) (y : sys) : response * sys :=
  match p with
  | Ret r => (r, y)
  | Now k => run (k (y_clock y)) y
  | Random n k =>
      run (k (GenerateSecureRandom n (y_rand y)).2)
        (mkSys (y_clock y) (GenerateSecureRandom n (y_rand y)).1 (y_tickets y) (y_mfa y) (y_threads y) (y_reqs y))
  | Get id k => run (k (GetTicket id (y_tickets y)).2) y
  | Create t k => run (k (CreateTicket t (y_tickets y)).2) (set_tickets (CreateTicket t (y_tickets y)).1 y)
  | Update t k => run (k (UpdateTicket t (y_tickets y)).2) (set_tickets (UpdateTicket t (y_tickets y)).1 y)
  | Pending k => run (k (ListPending (y_tickets y))) y
  | GetMFA roleID k => run (k (GetMFAState roleID (y_mfa y))) y
  | SaveMFA st k => run k (set_mfa (SaveMFAState st (y_mfa y)) y)
  | DeleteMFA roleID k => run k (set_mfa (DeleteMFAState roleID (y_mfa y)) y)
  end.

(** ** What every ticket in the store is, whatever the interleaving *)
Definition sent_approve (reqs : list api_request) (id role : string) : Prop :=
  ∃ p, RqApprove "POST" (Body id) (Some p) ∈ reqs ∧ p_RoleID p = role.
Definition sent_create (reqs : list api_request) (t : ApprovalTicket) : Prop :=
  ∃ b p id, RqApprovals "POST" id (Body b) (Some p) ∈ reqs ∧ p_RoleID p = tk_RequestedBy t ∧
    ca_Operation b = tk_Operation t ∧ ca_KeyID b = tk_KeyID t ∧ ca_Required b = tk_Required t.
Record ticket_ok (reqs : list api_request) (t : ApprovalTicket) : Prop := {
  to_created : sent_create reqs t;
  to_distinct : NoDup (tk_Approvers t);
  to_not_self : tk_RequestedBy t ∉ tk_Approvers t;
  to_required : (1 ≤ tk_Required t)%Z;
  to_voted : ∀ a, a ∈ tk_Approvers t → sent_approve reqs (tk_ID t) a;
  to_quorum : tk_Status t = ApprovalApproved → (tk_Required t ≤ Z.of_nat (length (tk_Approvers t)))%Z;
}.

(** A program that only stores such tickets, as long as the store gives it such
    tickets; requests may keep arriving while it runs. *)
Fixpoint proc_ok (reqs : list api_request) (p : proc) : Prop :=
  match p with
  | Ret _ => True
  | Now k => ∀ z, proc_ok reqs (k z)
  | Random _ k => ∀ r, proc_ok reqs (k r)
  | Get id k => ∀ more r, (∀ t, r = Ok t → tk_ID t = id ∧ ticket_ok (reqs ++ more) t) → proc_ok (reqs ++ more) (k r)
  | Create t k | Update t k => ticket_ok reqs t ∧ ∀ r, proc_ok reqs (k r)
  | Pending k => ∀ l, proc_ok reqs (k l)
  | GetMFA _ k => ∀ r, proc_ok reqs (k r)
  | SaveMFA _ k | DeleteMFA _ k => proc_ok reqs k
  end.

Lemma sent_approve_more reqs more id a : sent_approve reqs id a → sent_approve (reqs ++ more) id a.
Proof. intros (p & Hp & E). exists p. split; [apply elem_of_app; by left|done]. Qed.
Lemma ticket_ok_more reqs more t : ticket_ok reqs t → ticket_ok (reqs ++ more) t.
Proof.
  intros [(b & p & id & Hin & ?) Hd Hs Hr Hv Hq]. split; [|done|done|done| |done].
  - exists b, p, id. split; [apply elem_of_app; by left|done].
  - intros a Ha. by apply sent_approve_more, Hv.
Qed.
Lemma proc_ok_more reqs more p : proc_ok reqs p → proc_ok (reqs ++ more) p.
Proof.
  revert reqs. induction p as [r|k IH|n k IH|id k IH|t k IH|t k IH|k IH|role k IH|st k IH|role k IH]; intros reqs; simpl.
  - done.
  - intros H z. by apply IH.
  - intros H r. by apply IH.
  - intros H more' r Hr. rw -app_assoc. apply H. intros t Ht. rw app_assoc. by apply Hr.
  - intros [Ht H]. split; [by apply ticket_ok_more|]. intros r. by apply IH.
  - intros [Ht H]. split; [by apply ticket_ok_more|]. intros r. by apply IH.
  - intros H l. by apply IH.
  - intros H r. by apply IH.
  - apply IH.
  - apply IH.
Qed.

Lemma uuid_ok reqs n : ∀ i b k, (∀ b, proc_ok reqs (k b)) → proc_ok reqs (uuid_bytes n i b k).
Proof. induction n as [|n IH]; intros i b k Hk; simpl; [apply Hk|]. intros z. by apply IH. Qed.

Lemma create_ok reqs c m id b p : RqApprovals m id b p ∈ reqs → proc_ok reqs (handleCreateApproval c m b p).
Proof.
  intros Hin. rw /handleCreateApproval /requireMethod. case_bool_decide as Hm; [|done]. subst m.
  rw /withBody. destruct b as [| |b]; [done..|]. rw /require.
  case_bool_decide as Ho; [done|]. case_bool_decide as Hr; [done|]. simpl.
  rw /withPolicy. destruct p as [p|]; [|done]. rw /withApprovals. destruct (cf_approvalStore c); [|done].
  apply uuid_ok. intros u. cbn [proc_ok]. intros z z'. split; [|by intros [| |]].
  split; simpl; [|constructor|by intros ?%elem_of_nil|lia|by intros ? ?%elem_of_nil|done].
  by exists b, p, id.
Qed.

Lemma resolve_ok reqs st now t : ticket_ok reqs t →
  (st = ApprovalApproved → (tk_Required t ≤ Z.of_nat (length (tk_Approvers t)))%Z) → ticket_ok reqs (resolve st now t).
Proof. intros [] Hq. split; done. Qed.
Lemma HasApproved_spec a t : HasApproved a t = true ↔ a ∈ tk_Approvers t.
Proof.
  rw /HasApproved existsb_exists. split.
  - intros (x & Hx%list_elem_of_In & E%bool_decide_eq_true). by subst.
  - intros H. exists a. split; [by apply list_elem_of_In|by apply bool_decide_eq_true].
Qed.
Lemma add_approver_ok reqs p t : ticket_ok reqs t → tk_Status t = ApprovalPending →
  tk_RequestedBy t ≠ p_RoleID p → p_RoleID p ∉ tk_Approvers t → sent_approve reqs (tk_ID t) (p_RoleID p) →
  ticket_ok reqs (add_approver (p_RoleID p) t).
Proof.
  intros [Hc Hd Hs Hr Hv Hq] Hst Hne Hni Hsent. split; simpl; [done| | |done| |by rw Hst].
  - apply list.NoDup_app. split_and!; [done| |apply NoDup_singleton]. by intros x Hx ->%list_elem_of_singleton.
  - rw elem_of_app list_elem_of_singleton. by intros [?| ?].
  - intros a [Ha| ->%list_elem_of_singleton]%elem_of_app; [by apply Hv|done].
Qed.

Lemma approve_ok reqs c m b p : RqApprove m b p ∈ reqs → proc_ok reqs (handleApprove c m b p).
Proof.
  intros Hin. rw /handleApprove /requireMethod. case_bool_decide as Hm; [|done]. subst m.
  rw /withBody. destruct b as [| |id]; [done..|]. rw /require. case_bool_decide as Hid; [done|].
  rw /withPolicy. destruct p as [p|]; [|done]. rw /withApprovals. destruct (cf_approvalStore c); [|done].
  cbn [proc_ok negb]. intros more [t| |] Ht; [|done..]. destruct (Ht t eq_refl) as [E Hok]. clear Ht.
  case_bool_decide as Hst; [|done]. cbn [proc_ok]. intros now.
  destruct (IsExpired now t).
  { intros now'. split; [|done]. by apply resolve_ok. }
  case_bool_decide as Hself; [done|]. cbn [negb]. destruct (HasApproved _ t) eqn:Ha; [done|]. cbn [negb].
  assert (ticket_ok (reqs ++ more) (add_approver (p_RoleID p) t)) as Hok'.
  { apply add_approver_ok; [done|done|done| |].
    - rw -HasApproved_spec Ha. done.
    - apply sent_approve_more. exists p. by subst. }
  case_bool_decide as Hq.
  - intros z. split; [by apply resolve_ok|by intros [| |]].
  - split; [done|by intros [| |]].
Qed.

Lemma reject_ok reqs c m b p : proc_ok reqs (handleReject c m b p).
Proof.
  rw /handleReject /requireMethod. case_bool_decide as Hm; [|done].
  rw /withBody. destruct b as [| |id]; [done..|]. rw /require. case_bool_decide as Hid; [done|].
  rw /withPolicy. destruct p as [p|]; [|done]. rw /withApprovals. destruct (cf_approvalStore c); [|done].
  cbn [proc_ok negb]. intros more [t| |] Ht; [|done..]. destruct (Ht t eq_refl) as [E Hok]. clear Ht.
  case_bool_decide as Hst; [|done]. cbn [proc_ok]. intros z. split; [|by intros [| |]].
  apply resolve_ok; [|done]. destruct (HasRejected _ _); [done|]. by destruct Hok; split.
Qed.

(** Handlers that never write a ticket. *)
Fixpoint no_ticket_writes (p : proc) : Prop :=
  match p with
  | Ret _ => True
  | Now k => ∀ z, no_ticket_writes (k z)
  | Random _ k => ∀ r, no_ticket_writes (k r)
  | Get _ k => ∀ r, no_ticket_writes (k r)
  | Create _ _ | Update _ _ => False
  | Pending k => ∀ l, no_ticket_writes (k l)
  | GetMFA _ k => ∀ r, no_ticket_writes (k r)
  | SaveMFA _ k | DeleteMFA _ k => no_ticket_writes k
  end.
Lemma no_writes_ok p : no_ticket_writes p → ∀ reqs, proc_ok reqs p.
Proof. induction p; simpl; intros Hp reqs; try done; eauto. Qed.

Ltac no_writes := repeat first
  [ exact I | progress (rw /requireMethod /withBody /withPolicy /withApprovals /withMFA /require /mfa_check /=)
  | case_match | progress intros ].
Lemma mfa_no_writes c : (∀ m b p, no_ticket_writes (handleMFASetup c m b p)) ∧
  (∀ m b, no_ticket_writes (handleMFAVerify c m b)) ∧ (∀ m b, no_ticket_writes (handleMFADisable c m b)) ∧
  (∀ a p t code, no_ticket_writes (mfaMiddleware c a p t code)).
Proof.
  split_and!; intros *; rw /handleMFASetup /handleMFAVerify /handleMFADisable /mfaMiddleware; no_writes.
Qed.

Lemma handler_ok reqs c rq : rq ∈ reqs → proc_ok reqs (handler c rq).
Proof.
  intros Hin. destruct (mfa_no_writes c) as (H1 & H2 & H3 & H4).
  destruct rq as [m id b p|m b p|m b p|m b p|m b|m b|a p t code]; simpl.
  - rw /handleApprovals. case_bool_decide; [by eapply create_ok|]. case_bool_decide; [|done].
    apply no_writes_ok. rw /handleListApprovals /handleGetApproval. case_bool_decide; no_writes.
  - by apply approve_ok.
  - apply reject_ok.
  - apply no_writes_ok, H1.
  - apply no_writes_ok, H2.
  - apply no_writes_ok, H3.
  - apply no_writes_ok, H4.
Qed.

(** ** Every reachable server *)
Definition tickets_ok (reqs : list api_request) (s : tickets) : Prop :=
  ∀ id t, s !! id = Some t → tk_ID t = id ∧ ticket_ok reqs t.
Record sys_ok (y : sys) : Prop := {
  sy_tickets : tickets_ok (y_reqs y) (y_tickets y);
  sy_threads : ∀ p, p ∈ y_threads y → proc_ok (y_reqs y) p;
}.

Lemma tickets_ok_insert reqs s t : tickets_ok reqs s → ticket_ok reqs t → tickets_ok reqs (<[tk_ID t := t]> s).
Proof. intros Hs Ht id t' [[<- <-]|[_ H]]%lookup_insert_Some; [done|by apply Hs]. Qed.
Lemma tickets_ok_more reqs more s : tickets_ok reqs s → tickets_ok (reqs ++ more) s.
Proof. intros Hs id t [E H]%Hs. split; [done|by apply ticket_ok_more]. Qed.
Lemma tickets_ok_cleanup reqs now s : tickets_ok reqs s → tickets_ok reqs (CleanupExpired now s).1.
Proof.
  intros Hs id t. rw /CleanupExpired /= lookup_fmap. intros (u & Hu & ->)%fmap_Some. apply Hs in Hu as [E Hu].
  destruct (cleanup_due now u); [|done]. split; [done|by apply resolve_ok].
Qed.

Lemma call_ok p y p' y' : tickets_ok (y_reqs y) (y_tickets y) → proc_ok (y_reqs y) p → call p y = Some (p', y') →
  tickets_ok (y_reqs y) (y_tickets y') ∧ proc_ok (y_reqs y) p' ∧ y_reqs y' = y_reqs y ∧ y_threads y' = y_threads y.
Proof.
  intros Hs Hp. destruct p as [r|k|n k|id k|t k|t k|k|role k|st k|role k]; simpl in *; intros H.
  - done.
  - by simplify_eq.
  - destruct (GenerateSecureRandom _ _). by simplify_eq.
  - simplify_eq. split_and!; [done| |done|done]. specialize (Hp [] (GetTicket id (y_tickets y')).2).
    rw app_nil_r in Hp. apply Hp. intros t. rw /GetTicket /=. destruct (_ !! id) eqn:E; [|done].
    intros [= <-]. by apply Hs.
  - destruct Hp as [Ht Hk]. rw /CreateTicket in H. destruct (_ !! tk_ID t); simplify_eq; simpl; [done|].
    split_and!; [by apply tickets_ok_insert|done..].
  - destruct Hp as [Ht Hk]. rw /UpdateTicket in H. destruct (_ !! tk_ID t); simplify_eq; simpl; [|done].
    split_and!; [by apply tickets_ok_insert|done..].
  - by simplify_eq.
  - by simplify_eq.
  - by simplify_eq.
  - by simplify_eq.
Qed.

Lemma exec_ok c l y y' : sys_ok y → exec c l y = Some y' → sys_ok y'.
Proof.
  intros [Hs Ht] H. destruct l as [rq|i|d| |id]; simpl in H.
  - simplify_eq. split; simpl; [by apply tickets_ok_more|].
    intros p [Hp| ->%list_elem_of_singleton]%elem_of_app; [by apply proc_ok_more, Ht|].
    apply handler_ok, elem_of_app. right. by apply list_elem_of_singleton.
  - destruct (y_threads y !! i) as [p|] eqn:Hp; [|done]. simpl in H.
    destruct (call p y) as [[p' y1]|] eqn:Hc; [|done]. simpl in H. simplify_eq.
    apply call_ok in Hc as (Hs' & Hp' & Er & _); [|done|by apply Ht, list_elem_of_lookup; eauto].
    split; simpl; rw Er; [done|]. intros q (j & Hj)%list_elem_of_lookup. apply list_lookup_insert_Some in Hj as [(_ & <- & _)|[_ Hj]]; [done|].
    apply Ht, list_elem_of_lookup. eauto.
  - by simplify_eq.
  - simplify_eq. split; simpl; [by apply tickets_ok_cleanup|done].
  - simplify_eq. split; simpl; [|done]. rw /DeleteTicket. intros i t [_ H]%lookup_delete_Some. by apply Hs.
Qed.
Lemma exec_all_ok c ls y y' : sys_ok y → exec_all c ls y = Some y' → sys_ok y'.
Proof.
  revert y. induction ls as [|l ls IH]; intros y Hy; simpl; [by intros [= <-]|].
  destruct (exec c l y) as [y1|] eqn:E; [|done]. simpl. apply IH. by eapply exec_ok.
Qed.
Lemma started_ok clock rand : sys_ok (started clock rand).
Proof. split; simpl; [by intros ?? ?%lookup_empty_Some|by intros ? ?%elem_of_nil]. Qed.

(** A gate that lets a request through has seen an approved ticket. *)
Lemma gate_passes c action policy ticketID code y y' : action ∈ sensitiveOperations →
  (0 < p_RequireQuorum policy)%Z → cf_approvalStore c = true →
  run (mfaMiddleware c action (Some policy) ticketID code) y = (Passed, y') →
  ∃ t, y_tickets y !! ticketID = Some t ∧ tk_Status t = ApprovalApproved ∧ tk_Operation t = action.
Proof.
  intros Ha Hq Hc. rw /mfaMiddleware (bool_decide_eq_true_2 _ Ha) (bool_decide_eq_true_2 _ Hq) Hc. cbn [andb negb].
  rw /require. case_bool_decide; [done|]. cbn [run negb]. rw /GetTicket /=.
  destruct (y_tickets y !! ticketID) as [t|]; [|done]. case_bool_decide; [|done]. case_bool_decide; [|done].
  intros _. by exists t.
Qed.

(** C17: quorum is sound under every interleaving of requests, expiry sweeps and
    deletions: when the gate lets a sensitive action of a role under quorum through,
    the ticket it was shown was created by a request for that same operation and
    carries at least the requested number of approvals, each by a different role
    other than the requester, and each of these roles sent an approve request for
    this very ticket. *)
Theorem quorum_sound c clock rand ls y action policy ticketID code y' :
  exec_all c ls (started clock rand) = Some y →
  action ∈ sensitiveOperations → (0 < p_RequireQuorum policy)%Z → cf_approvalStore c = true →
  run (mfaMiddleware c action (Some policy) ticketID code) y = (Passed, y') →
  ∃ t, y_tickets y !! ticketID = Some t ∧ tk_ID t = ticketID ∧ tk_Operation t = action ∧
    sent_create (y_reqs y) t ∧ (1 ≤ tk_Required t ≤ Z.of_nat (length (tk_Approvers t)))%Z ∧
    NoDup (tk_Approvers t) ∧ (tk_RequestedBy t ∉ tk_Approvers t) ∧
    ∀ a, a ∈ tk_Approvers t → sent_approve (y_reqs y) ticketID a.
Proof.
  intros Hreach Ha Hq Hc Hrun. destruct (gate_passes _ _ _ _ _ _ _ Ha Hq Hc Hrun) as (t & Ht & Hst & Hop).
  destruct (sy_tickets _ (exec_all_ok _ _ _ _ (started_ok clock rand) Hreach) _ _ Ht) as [E [? ? ? ? Hv Hquo]].
  exists t. rw E in Hv. split_and!; auto.
Qed.

(** A ticket that is no longer pending, and handlers run one at a time. *)
Definition final (y y' : sys) : Prop :=
  ∀ id t, y_tickets y !! id = Some t → tk_Status t ≠ ApprovalPending → y_tickets y' !! id = Some t.
Lemma final_insert_new y t : y_tickets y !! tk_ID t = None → final y (set_tickets (<[tk_ID t := t]> (y_tickets y)) y).
Proof. intros Hn id u Hu _. simpl. rw lookup_insert_ne //. intros <-. congruence. Qed.
Lemma final_update y t u : y_tickets y !! tk_ID u = Some t → tk_Status t = ApprovalPending →
  final y (set_tickets (UpdateTicket u (y_tickets y)).1 y).
Proof.
  intros Ht Hp id v Hv Hn. rw /UpdateTicket Ht /=. rw lookup_insert_ne //. intros <-. congruence.
Qed.
Lemma final_refl y : final y y.
Proof. by intros id t H _. Qed.

Lemma no_writes_run p y : no_ticket_writes p → y_tickets (run p y).2 = y_tickets y.
Proof.
  revert y. induction p as [r|k IH|n k IH|id k IH|t k IH|t k IH|k IH|role k IH|st k IH|role k IH]; intros y Hp; simpl in *;
    try done; by rw IH.
Qed.
Lemma uuid_run n : ∀ i b k y, ∃ b', run (uuid_bytes n i b k) y = run (k b') y.
Proof. induction n as [|n IH]; intros i b k y; simpl; [by exists b|apply IH]. Qed.

Lemma create_final c m b p y : final y (run (handleCreateApproval c m b p) y).2.
Proof.
  rw /handleCreateApproval /requireMethod. case_bool_decide; [|apply final_refl].
  rw /withBody. destruct b as [| |b]; [apply final_refl..|]. rw /require.
  case_bool_decide; [apply final_refl|]. case_bool_decide; [apply final_refl|]. cbn [negb].
  rw /withPolicy. destruct p as [p|]; [|apply final_refl]. rw /withApprovals.
  destruct (cf_approvalStore c); [|apply final_refl]. rw /generateUUID.
  match goal with |- context [uuid_bytes _ _ _ ?k] => destruct (uuid_run 16 0 [] k y) as [u ->] end.
  cbn [run]. rw /CreateTicket. set (t := mkTicket _ _ _ _ _ _ _ _ _ _ _).
  destruct (y_tickets y !! tk_ID t) eqn:Ht; cbn [fst snd run]; [|by apply final_insert_new].
  intros id v Hv _. exact Hv.
Qed.

(** The last phase of approve and reject. *)
Lemma update_final y t u k : y_tickets y !! tk_ID u = Some t → tk_Status t = ApprovalPending →
  (∀ r, no_ticket_writes (k r)) → final y (run (Update u k) y).2.
Proof.
  intros Ht Hp Hk id v Hv Hn. cbn [run]. rw no_writes_run //. by apply (final_update y t u Ht Hp).
Qed.

Lemma now_final y k : final y (run (k (y_clock y)) y).2 → final y (run (Now k) y).2.
Proof. done. Qed.

Lemma decide_final c m b p y : tickets_ok (y_reqs y) (y_tickets y) →
  final y (run (handleApprove c m b p) y).2 ∧ final y (run (handleReject c m b p) y).2.
Proof.
  intros Hok. rw /handleApprove /handleReject /requireMethod. case_bool_decide; [|split; apply final_refl].
  rw /withBody. destruct b as [| |id]; [split; apply final_refl..|]. rw /require.
  case_bool_decide; [split; apply final_refl|]. cbn [negb]. rw /withPolicy. destruct p as [p|]; [|split; apply final_refl].
  rw /withApprovals. destruct (cf_approvalStore c); [|split; apply final_refl].
  cbn [run]. rw /GetTicket. cbn [snd]. destruct (y_tickets y !! id) as [t|] eqn:Ht; [|split; apply final_refl].
  destruct (Hok _ _ Ht) as [E _]. rw -E in Ht.
  case_bool_decide as Hp; [|split; apply final_refl]. split.
  - apply now_final. destruct (IsExpired _ t); [by apply now_final, (update_final y t)|].
    case_bool_decide; [apply final_refl|]. cbn [negb]. destruct (HasApproved _ t); [apply final_refl|]. cbn [negb].
    case_bool_decide; [apply now_final|]; apply (update_final y t); try done; by intros [| |].
  - apply now_final, (update_final y t); [|done|by intros [| |]]. by destruct (HasRejected _ t).
Qed.

(** Decisions are final when requests do not overlap: no handler, run to its
    end, changes a ticket that is approved, rejected or expired. *)
Theorem resolved_is_final c clock rand ls y rq :
  exec_all c ls (started clock rand) = Some y → final y (run (handler c rq) y).2.
Proof.
  intros Hreach%exec_all_ok; [|apply started_ok]. destruct (mfa_no_writes c) as (H1 & H2 & H3 & H4).
  assert (∀ p, no_ticket_writes p → final y (run p y).2) as Hno by (intros p Hp id t; by rw no_writes_run).
  destruct rq as [m id b p|m b p|m b p|m b p|m b|m b|a p t code]; simpl; auto;
    try by apply decide_final, Hreach.
  rw /handleApprovals. case_bool_decide; [apply create_final|]. case_bool_decide; [|apply final_refl].
  apply Hno. rw /handleListApprovals /handleGetApproval. case_bool_decide; no_writes.
Qed.

(** ** A concrete server *)
Definition demo_role (name : string) : Policy := mkPolicy name ["*"] ["*"] false 2 [] "".
Definition demo_cf : config := mkConfig true true.
Definition demo_start : sys := started (at_unix 1000) [].
Definition demo_create (k : Z) : list label :=
  LReq (RqApprovals "POST" "" (Body (mkCreate "ShredKey" "k" k 0)) (Some (demo_role "alice"))) :: replicate 19 (LRun 0).
Definition demo_id : string := Eval vm_compute in
  from_option (λ y, from_option fst "" (head (map_to_list (y_tickets y)))) "" (exec_all demo_cf (demo_create 2) demo_start).
Definition demo_votes : list label :=
  demo_create 2 ++ LReq (RqApprove "POST" (Body demo_id) (Some (demo_role "bob"))) :: replicate 3 (LRun 1)
    ++ LReq (RqApprove "POST" (Body demo_id) (Some (demo_role "carol"))) :: replicate 4 (LRun 2).
Definition demo_sys : sys := default demo_start (exec_all demo_cf demo_votes demo_start).

Lemma quorum_sound_witness : ∃ t, y_tickets demo_sys !! demo_id = Some t ∧ tk_ID t = demo_id ∧
  tk_Operation t = "ShredKey" ∧ sent_create (y_reqs demo_sys) t ∧
  (1 ≤ tk_Required t ≤ Z.of_nat (length (tk_Approvers t)))%Z ∧ NoDup (tk_Approvers t) ∧
  (tk_RequestedBy t ∉ tk_Approvers t) ∧ ∀ a, a ∈ tk_Approvers t → sent_approve (y_reqs demo_sys) demo_id a.
Proof.
  apply (quorum_sound demo_cf (at_unix 1000) [] demo_votes demo_sys "ShredKey" (demo_role "alice") demo_id [] demo_sys);
    try (vm_compute; reflexivity). apply list_elem_of_here.
Defined.
Lemma resolved_is_final_witness :
  final demo_sys (run (handler demo_cf (RqReject "POST" (Body demo_id) (Some (demo_role "dave")))) demo_sys).2.
Proof. apply (resolved_is_final demo_cf (at_unix 1000) [] demo_votes). vm_compute. reflexivity. Defined.

(** When requests do overlap, a rejection that was answered with success can be
    overwritten by an approval that had read the ticket before. *)
Definition race : list label :=
  demo_create 1 ++ LReq (RqApprove "POST" (Body demo_id) (Some (demo_role "bob"))) :: [LRun 1]
    ++ LReq (RqReject "POST" (Body demo_id) (Some (demo_role "carol"))) :: replicate 3 (LRun 2).
Example rejection_lost :
  let after ls := y ← exec_all demo_cf ls demo_start; tk_Status <$> y_tickets y !! demo_id in
  after race = Some ApprovalRejected ∧ after (race ++ replicate 3 (LRun 1)) = Some ApprovalApproved.
Proof. vm_compute. split; reflexivity. Qed.

(** The ticket is neither bound to the key it was requested for nor used up: the gate
    never looks at [KeyID], and passing leaves the store as it was. *)
Example ticket_reusable :
  run (mfaMiddleware demo_cf "ShredKey" (Some (demo_role "alice")) demo_id []) demo_sys = (Passed, demo_sys).
Proof. vm_compute. reflexivity. Qed.

(** A bearer token alone replaces an enabled second factor: setup overwrites the
    stored secret, and verify then enables the new one. *)
Definition mfa_role : Policy := mkPolicy "alice" ["*"] ["*"] true 0 [] "".
Definition mfa_before : sys :=
  mkSys (at_unix 1000) (str_bytes "12345678901234567890") ∅
    {["alice" := mkMFA "alice" (str_bytes "GEZDGNBVGY3TQOJQ") true 0 0]} [] [].
Example mfa_takeover :
  let '(_, y1) := run (handleMFASetup demo_cf "POST" (Body "alice") (Some mfa_role)) mfa_before in
  match GenerateTOTP 0 demo_secret (at_unix 1000) with
  | Ok code =>
      let '(r2, y2) := run (handleMFAVerify demo_cf "POST" (Body ("alice", code))) y1 in
      r2 = JSONOK (PEnabled "alice" true) ∧
      (run (mfaMiddleware demo_cf "ShredKey" (Some mfa_role) "" code) y2).1 = Passed
  | _ => False
  end.
Proof. vm_compute. split; reflexivity. Qed.
