(* ===== verification/RateLimit.v ===== *)
(** Per-address rate limiting, [src/internal/api/ratelimit.go]: token buckets in
    IEEE double arithmetic, the sweep of idle buckets, and the choice of the client
    address behind trusted proxies. The doubles are those of the standard library's
    executable specification of IEEE 754. *)

From Stdlib Require Import SpecFloat.
From S2P Require Import Prelude Metadata Auth.

(** ** float64 *)
Abbreviation float64 := spec_float.
Definition f64 (z : Z) : float64 := binary_normalize 53 1024 z 0 false.
Definition f_add : float64 → float64 → float64 := SFadd 53 1024.
Definition f_sub : float64 → float64 → float64 := SFsub 53 1024.
Definition f_mul : float64 → float64 → float64 := SFmul 53 1024.
Definition f_div : float64 → float64 → float64 := SFdiv 53 1024.
(** [d.Seconds()] *)
Definition duration_Seconds (d : Z) : float64 :=
  f_add (f64 (Z.quot d 1000000000)) (f_div (f64 (Z.rem d 1000000000)) (f64 1000000000)).

(** ** The buckets *)
Record tokenBucket : Type := mkBucket { tb_tokens : float64; tb_last : Z }.
Record RateLimiter : Type := mkLimiter {
  rl_buckets : gmap string tokenBucket;
  rl_rate : float64;
  rl_burst : Z;
  rl_lastClean : Z;
  rl_trustedProxies : gset string;
}.
Definition NewRateLimiter (now : Z) (rate : float64) (burst : Z) : RateLimiter := mkLimiter ∅ rate burst now ∅.
Definition SetTrustedProxies (proxies : list string) (rl : RateLimiter) : RateLimiter :=
  mkLimiter (rl_buckets rl) (rl_rate rl) (rl_burst rl) (rl_lastClean rl) (list_to_set proxies).

Definition minutes (n : Z) : Z := n * 60000000000.
#[global] Arguments minutes : simpl never.
(** The sweep at the head of [Allow]: every five minutes, the buckets idle for more
    than ten. *)
Definition clean_buckets (now : Z) (rl : RateLimiter) : RateLimiter :=
  if bool_decide (minutes 5 < now - rl_lastClean rl)%Z
  then mkLimiter (filter (λ kb, ¬ (minutes 10 < now - tb_last kb.2)%Z) (rl_buckets rl)) (rl_rate rl) (rl_burst rl) now
         (rl_trustedProxies rl)
  else rl.
(** The refill and the debit of one bucket. *)
Definition take_token (now : Z) (rate : float64) (burst : Z) (b : tokenBucket) : tokenBucket * bool :=
  let tokens := f_add (tb_tokens b) (f_mul (duration_Seconds (now - tb_last b)) rate) in
  let tokens := if SFltb (f64 burst) tokens then f64 burst else tokens in
  if SFltb tokens (f64 1) then (mkBucket tokens now, false)
  else (mkBucket (f_sub tokens (f64 1)) now, true).
Definition Allow (now : Z) (ip : string) (rl : RateLimiter) : RateLimiter * bool :=
  let rl := clean_buckets now rl in
  let b := default (mkBucket (f64 (rl_burst rl)) now) (rl_buckets rl !! ip) in
  let '(b, ok) := take_token now (rl_rate rl) (rl_burst rl) b in
  (mkLimiter (<[ip := b]> (rl_buckets rl)) (rl_rate rl) (rl_burst rl) (rl_lastClean rl) (rl_trustedProxies rl), ok).

(** ** The client address *)
Definition char_of (s : string) : Ascii.ascii := match s with String.String c _ => c | _ => Ascii.zero end.
Fixpoint index_of_char (c : Ascii.ascii) (l : list Ascii.ascii) : option nat :=
  match l with
  | [] => None
  | x :: l => if Ascii.eqb x c then Some 0 else S <$> index_of_char c l
  end.
Definition last_index (c : Ascii.ascii) (l : list Ascii.ascii) : option nat :=
  (λ i, length l - 1 - i) <$> index_of_char c (rev l).
Definition unchars : list Ascii.ascii → string := String.string_of_list_ascii.
(** [net.SplitHostPort], the host only. *)
Definition SplitHostPort (hostport : string) : option string :=
  let l := chars hostport in
  i ← last_index (char_of ":") l;
  '(host, j, k) ←
    (if bool_decide (head l = Some (char_of "[")) then
       e ← index_of_char (char_of "]") l;
       if bool_decide (e + 1 = i) then Some (take (e - 1) (drop 1 l), 1, e + 1) else None
     else
       let host := take i l in
       match index_of_char (char_of ":") host with None => Some (host, 0, 0) | Some _ => None end);
  match index_of_char (char_of "[") (drop j l), index_of_char (char_of "]") (drop k l) with
  | None, None => Some (unchars host)
  | _, _ => None
  end.

(** A request's direct address and its two proxy headers. *)
Definition clientIPFromRequest (xff xri directRemoteAddr : string) (trustedProxies : gset string) : string :=
  let directHost := default directRemoteAddr (SplitHostPort directRemoteAddr) in
  if bool_decide (directHost ∈ trustedProxies) then
    if negb (bool_decide (xff = "")) then
      match index_of_char (char_of ",") (chars xff) with
      | Some (S n) => TrimSpace (unchars (take (S n) (chars xff)))
      | _ => TrimSpace xff
      end
    else if negb (bool_decide (xri = "")) then TrimSpace xri
    else directHost
  else directHost.

(** ** Isolation *)
Section Isolation.
Variable ip : string.

(** A run over calls [(time, address)], with the answers given to [ip]. *)
Fixpoint answers (evs : list (Z * string)) (rl : RateLimiter) : list bool :=
  match evs with
  | [] => []
  | (t, a) :: evs =>
      let '(rl', ok) := Allow t a rl in
      if bool_decide (a = ip) then ok :: answers evs rl' else answers evs rl'
  end.
(** The address is never silent for more than ten minutes: each call comes within that
    time of its last one. *)
Fixpoint attentive (last : option Z) (evs : list (Z * string)) : Prop :=
  match evs with
  | [] => True
  | (t, a) :: evs =>
      from_option (λ l, (t - l ≤ minutes 10)%Z) True last ∧ attentive (if bool_decide (a = ip) then Some t else last) evs
  end.
Definition same_bucket (rl rl' : RateLimiter) : Prop :=
  rl_buckets rl !! ip = rl_buckets rl' !! ip ∧ rl_rate rl = rl_rate rl' ∧ rl_burst rl = rl_burst rl'.

Lemma clean_keeps t rl last : from_option (λ l, (t - l ≤ minutes 10)%Z) True last →
  tb_last <$> (rl_buckets rl !! ip) = last →
  rl_buckets (clean_buckets t rl) !! ip = rl_buckets rl !! ip ∧
  rl_rate (clean_buckets t rl) = rl_rate rl ∧ rl_burst (clean_buckets t rl) = rl_burst rl.
Proof.
  intros Ha Hl. rw /clean_buckets. case_bool_decide; [|done]. cbn [rl_buckets rl_rate rl_burst]. split; [|done].
  rw map_lookup_filter. destruct (rl_buckets rl !! ip) as [b|]; [|done]. cbn [fmap option_fmap option_map] in Hl. subst last.
  cbn [from_option] in Ha. cbn [mbind option_bind snd].  rw option_guard_True; [lia|done].
Qed.

Lemma other_call t a rl last : a ≠ ip → from_option (λ l, (t - l ≤ minutes 10)%Z) True last →
  tb_last <$> (rl_buckets rl !! ip) = last → same_bucket (Allow t a rl).1 rl.
Proof.
  intros Hne Ha Hl. destruct (clean_keeps t rl last Ha Hl) as (E & Er & Eb). rw /Allow.
  destruct (take_token _ _ _ _) as [b ok]. rw /same_bucket. cbn [fst rl_buckets rl_rate rl_burst].
  by rw lookup_insert_ne.
Qed.
Lemma own_call t rl rl' last : from_option (λ l, (t - l ≤ minutes 10)%Z) True last →
  tb_last <$> (rl_buckets rl !! ip) = last → same_bucket rl rl' →
  (Allow t ip rl).2 = (Allow t ip rl').2 ∧ same_bucket (Allow t ip rl).1 (Allow t ip rl').1 ∧
  tb_last <$> (rl_buckets (Allow t ip rl).1 !! ip) = Some t.
Proof.
  intros Ha Hl (Hb & Hr & Hbu). destruct (clean_keeps t rl last Ha Hl) as (E & Er & Eb).
  destruct (clean_keeps t rl' last Ha) as (E' & Er' & Eb'); [by rw -Hb|].
  rw /Allow /same_bucket E E' Er Er' Eb Eb' -Hb -Hr -Hbu.
  destruct (take_token _ _ _ _) as [b ok] eqn:Et. cbn [fst snd rl_buckets rl_rate rl_burst].
  rw !lookup_insert_eq. split_and!; [done..|]. rw /take_token in Et. by destruct (SFltb _ (f64 1)); injection Et as <- _.
Qed.

Lemma answers_solo evs : ∀ rl rl' last, tb_last <$> (rl_buckets rl !! ip) = last → same_bucket rl rl' →
  attentive last evs → answers evs rl = answers (filter (λ e, e.2 = ip) evs) rl'.
Proof.
  induction evs as [|[t a] evs IH]; intros rl rl' last Hl Hs Hat; [done|]. destruct Hat as [Ha Hat]. cbn [answers].
  rw filter_cons. cbn [snd]. destruct (decide (a = ip)) as [->|Hne].
  - rw bool_decide_eq_true_2 // in Hat. destruct (own_call t rl rl' last Ha Hl Hs) as (Eo & Hs' & Hl').
    cbn [answers]. destruct (Allow t ip rl) as [r1 ok], (Allow t ip rl') as [r2 ok']. cbn [fst snd] in *. subst ok'.
    rw !bool_decide_eq_true_2 //. f_equal. by eapply IH.
  - rw (bool_decide_eq_false_2 _ Hne) in Hat. pose proof (other_call t a rl last Hne Ha Hl) as Ho.
    destruct (Allow t a rl) as [r1 ok]. rw (bool_decide_eq_false_2 _ Hne). cbn [fst] in Ho.
    eapply IH; [|destruct Ho as (E1 & E2 & E3), Hs as (? & ? & ?); split_and!; congruence|exact Hat].
    by destruct Ho as [-> _].
Qed.
End Isolation.

(** Buckets are isolated: whatever other addresses send, an address that is not
    silent for more than ten minutes gets exactly the answers it would get if it
    were alone; and the address a request is counted under is its direct address
    unless that one is a trusted proxy, whatever the headers claim. *)
Theorem Allow_isolated ip evs rl xff xri addr :
  rl_buckets rl !! ip = None → attentive ip None evs →
  answers ip evs rl = answers ip (filter (λ e, e.2 = ip) evs) rl ∧
  (let host := default addr (SplitHostPort addr) in
   host ∉ rl_trustedProxies rl → clientIPFromRequest xff xri addr (rl_trustedProxies rl) = host).
Proof.
  intros Hn Hat. split; [eapply answers_solo; [|done|done]; by rw Hn|]. intros host Hh. rw /clientIPFromRequest.
  by rw bool_decide_eq_false_2.
Qed.

(** The router's default: 100 tokens a second, bursts of 1000. *)
Definition default_limiter : RateLimiter := NewRateLimiter 0 (f64 100) 1000.
Lemma Allow_isolated_witness :
  answers "10.0.0.1" [(1, "10.0.0.1"); (2, "10.0.0.2"); (400000000000, "10.0.0.2"); (500000000000, "10.0.0.1")]%Z default_limiter =
    answers "10.0.0.1" [(1, "10.0.0.1"); (500000000000, "10.0.0.1")]%Z default_limiter ∧
  clientIPFromRequest "1.2.3.4" "" "10.0.0.9:4711" (rl_trustedProxies default_limiter) = "10.0.0.9".
Proof.
  destruct (Allow_isolated "10.0.0.1" [(1, "10.0.0.1"); (2, "10.0.0.2"); (400000000000, "10.0.0.2"); (500000000000, "10.0.0.1")]%Z
    default_limiter "1.2.3.4" "" "10.0.0.9:4711") as [H1 H2].
  - reflexivity.
  - vm_compute. repeat split; discriminate.
  - split; [exact H1|]. apply H2. vm_compute. intros H. inversion H.
Defined.

(** At one instant a new address gets its burst and not one request more. *)
Example burst_exact :
  let all := answers "a" (replicate 1010 (5%Z, "a")) default_limiter in
  take 1000 all = replicate 1000 true ∧ drop 1000 all = replicate 10 false.
Proof. vm_compute. split; reflexivity. Qed.
(** A hundred tokens come back in a second. *)
Example refill :
  answers "a" (replicate 1001 (5%Z, "a") ++ replicate 101 (1000000005%Z, "a")) default_limiter =
  replicate 1000 true ++ [false] ++ replicate 100 true ++ [false].
Proof. vm_compute. reflexivity. Qed.
Example forwarded_for :
  clientIPFromRequest " 1.2.3.4 , 10.0.0.9" "" "10.0.0.9:4711" {["10.0.0.9"]} = "1.2.3.4" ∧
  clientIPFromRequest "" "" "[::1]:80" ∅ = "::1".
Proof. vm_compute. split; reflexivity. Qed.
