(* ===== verification/SdkClient.v ===== *)
(** The Go client library, [src/sdk/go/yvonne]: the circuit breaker and the retry loop
    of [retry_circuit_breaker.go], and the single request of [client.go]. The three
    operations of the breaker are programs over its atomic variables, so that they can
    be interleaved; a call takes the exchanges with the server, the cancellations, the
    clock and the random bytes from its environment. *)

From Stdlib Require Import SpecFloat.
From S2P Require Import Prelude Metadata Auth RateLimit.

(** ** Configuration *)
Record RetryConfig : Type := mkRetry {
  rc_MaxRetries : Z;
  rc_InitialBackoff : Z;
  rc_MaxBackoff : Z;
  rc_RetryableStatus : option (list Z);   (* the keys of the map, [None] when it is nil *)
}.
Definition DefaultRetryConfig : RetryConfig := mkRetry 3 100000000 5000000000 (Some [502; 503; 504]%Z).
Record CircuitBreakerConfig : Type := mkCBConfig { cc_FailureThreshold : Z; cc_ResetTimeout : Z }.
Definition DefaultCircuitBreakerConfig : CircuitBreakerConfig := mkCBConfig 10 60000000000.

(** ** The circuit breaker *)
Definition circuitClosed : Z := 0.
Definition circuitOpen : Z := 1.
Definition circuitHalfOpen : Z := 2.
Record CircuitBreaker : Type := mkCB {
  cb_config : CircuitBreakerConfig;
  cb_state : Z;
  cb_failureCount : Z;          (* int64 *)
  cb_lastFailureTime : Z;       (* nanoseconds, int64 *)
}.
Definition NewCircuitBreaker (cfg : option CircuitBreakerConfig) : CircuitBreaker :=
  mkCB (default DefaultCircuitBreakerConfig cfg) circuitClosed 0 0.

(** Programs over the atomics: one constructor per access. *)
Inductive cbproc : Type :=
  | CRet (answer : bool)
  | CNow (k : Z → cbproc)
  | CLoadState (k : Z → cbproc)
  | CLoadTime (k : Z → cbproc)
  | CSwapState (old new : Z) (k : bool → cbproc)
  | CStoreState (s : Z) (k : cbproc)
  | CAddCount (k : Z → cbproc)
  | CStoreCount (n : Z) (k : cbproc)
  | CStoreTime (t : Z) (k : cbproc).

Definition set_state (s : Z) (cb : CircuitBreaker) : CircuitBreaker := mkCB (cb_config cb) s (cb_failureCount cb) (cb_lastFailureTime cb).
Definition set_count (n : Z) (cb : CircuitBreaker) : CircuitBreaker := mkCB (cb_config cb) (cb_state cb) n (cb_lastFailureTime cb).
Definition set_time (t : Z) (cb : CircuitBreaker) : CircuitBreaker := mkCB (cb_config cb) (cb_state cb) (cb_failureCount cb) t.

(** One access, at the time [now]. *)
Definition cb_step (now : Z) (p : cbproc) (cb : CircuitBreaker) : cbproc * CircuitBreaker :=
  match p with
  | CRet b => (CRet b, cb)
  | CNow k => (k now, cb)
  | CLoadState k => (k (cb_state cb), cb)
  | CLoadTime k => (k (cb_lastFailureTime cb), cb)
  | CSwapState old new k => if bool_decide (cb_state cb = old) then (k true, set_state new cb) else (k false, cb)
  | CStoreState s k => (k, set_state s cb)
  | CAddCount k => let n := int64 (cb_failureCount cb + 1) in (k n, set_count n cb)
  | CStoreCount n k => (k, set_count n cb)
  | CStoreTime t k => (k, set_time t cb)
  end.
(** A program alone, to its end. *)
Fixpoint cb_run (now : Z) (p : cbproc) (cb : CircuitBreaker) : CircuitBreaker * bool :=
  match p with
  | CRet b => (cb, b)
  | CNow k => cb_run now (k now) cb
  | CLoadState k => cb_run now (k (cb_state cb)) cb
  | CLoadTime k => cb_run now (k (cb_lastFailureTime cb)) cb
  | CSwapState old new k => if bool_decide (cb_state cb = old) then cb_run now (k true) (set_state new cb) else cb_run now (k false) cb
  | CStoreState s k => cb_run now k (set_state s cb)
  | CAddCount k => let n := int64 (cb_failureCount cb + 1) in cb_run now (k n) (set_count n cb)
  | CStoreCount n k => cb_run now k (set_count n cb)
  | CStoreTime t k => cb_run now k (set_time t cb)
  end.

(** [time.Since(last)], a duration that saturates. *)
Definition time_Since (now last : Z) : Z := Z.max (-2 ^ 63) (Z.min (2 ^ 63 - 1) (now - last)).
Definition CBAllow (cfg : CircuitBreakerConfig) : cbproc :=
  CLoadState (λ state,
    if bool_decide (state = circuitOpen) then
      CLoadTime (λ lastFail, CNow (λ now,
        if bool_decide (cc_ResetTimeout cfg < time_Since now lastFail)%Z
        then CSwapState circuitOpen circuitHalfOpen (λ swapped, CRet swapped)
        else CRet false))
    else CRet true).
Definition RecordSuccess : cbproc := CStoreCount 0 (CStoreState circuitClosed (CRet true)).
Definition RecordFailure (cfg : CircuitBreakerConfig) : cbproc :=
  CAddCount (λ count, CNow (λ now, CStoreTime (int64 now) (
    if bool_decide (cc_FailureThreshold cfg ≤ count)%Z then CStoreState circuitOpen (CRet true) else CRet true))).
Definition CBState (cb : CircuitBreaker) : string :=
  if bool_decide (cb_state cb = circuitClosed) then "closed"
  else if bool_decide (cb_state cb = circuitOpen) then "open"
  else if bool_decide (cb_state cb = circuitHalfOpen) then "half-open" else "unknown".

(** ** One request *)
(** [containsStr] and [indexOfStr] *)
Fixpoint indexOfStr_from (i : Z) (sub s : list Ascii.ascii) : Z :=
  if bool_decide (length s < length sub) then (-1)%Z
  else if bool_decide (take (length sub) s = sub) then i
  else match s with [] => (-1)%Z | _ :: s => indexOfStr_from (i + 1)%Z sub s end.
Definition indexOfStr (s sub : string) : Z := indexOfStr_from 0 (chars sub) (chars s).
Definition containsStr (s sub : string) : bool :=
  bool_decide (String.length sub ≤ String.length s) && (bool_decide (s = sub) || bool_decide (0 ≤ indexOfStr s sub)%Z).

(** What the environment does with a request: the steps that can fail, with the text of
    their error, or a response with its status, the error text of its envelope, and the
    error of decoding it. *)
Inductive exchange : Type :=
  | MarshalFails (e : string)
  | RequestFails (e : string)
  | TransportFails (e : string)
  | Responds (status : Z) (err : string) (decode : option string).
(** [doOnce], the text of its error. *)
Definition doOnce (x : exchange) : option string :=
  match x with
  | MarshalFails e => Some ("yvonne: marshal body: " +:+ e)
  | RequestFails e => Some ("yvonne: new request: " +:+ e)
  | TransportFails e => Some ("yvonne: http: " +:+ e)
  | Responds status err decode =>
      if bool_decide (400 ≤ status)%Z then
        if bool_decide (err = "") then Some ("yvonne: HTTP " +:+ pretty status)
        else Some ("yvonne: HTTP " +:+ pretty status +:+ ": " +:+ err)
      else (λ e, "yvonne: decode response: " +:+ e) <$> decode
  end.

Definition isRetryable (cfg : option RetryConfig) (err : string) : bool :=
  match cfg ≫= rc_RetryableStatus with
  | None => false
  | Some codes =>
      existsb (λ code, containsStr err ("HTTP " +:+ pretty code)) codes || negb (containsStr err "HTTP ")
  end.

(** ** Backoff *)
(** [randFloat]: eight random bytes. *)
Definition randFloat (b : bytes) : float64 := f_div (f64 (be_combine (take 8 b))) (f64 (2 ^ 64 - 1)).
(** [math.Pow(2, n)] for an integer [n] *)
Definition pow2 (n : Z) : float64 := binary_normalize 53 1024 1 n false.
(** The integer part; the spec of the language leaves values outside int64 to the
    implementation, given by [wild]. *)
Definition truncate (wild : float64 → Z) (x : float64) : Z :=
  let inside z := if bool_decide (-2 ^ 63 ≤ z < 2 ^ 63)%Z then z else wild x in
  match x with
  | S754_zero _ => 0
  | S754_finite s m e =>
      let a := if bool_decide (0 ≤ e)%Z then Z.shiftl (Zpos m) e else Z.shiftr (Zpos m) (- e) in
      inside (if s then - a else a)%Z
  | _ => wild x
  end.
Definition calculateBackoff (wild : float64 → Z) (cfg : option RetryConfig) (attempt : Z) (rnd : bytes) : Z :=
  match cfg with
  | None => 100000000
  | Some c =>
      let backoff := f_mul (f64 (rc_InitialBackoff c)) (pow2 (attempt - 1)) in
      if bool_decide (rc_MaxBackoff c < truncate wild backoff)%Z then rc_MaxBackoff c
      else
        let jitter := f_mul (f_mul backoff (f_div (f64 1) (f64 5))) (f_sub (f_mul (f64 2) (randFloat rnd)) (f64 1)) in
        truncate wild (f_add backoff jitter)
  end.

(** ** A call *)
Record Client : Type := mkClient {
  cl_retryConfig : option RetryConfig;
  cl_traceIDHeader : string;
}.
(** The environment of a call, by attempt: the exchange, whether the context is done
    before the pause is over, the clock when the outcome is recorded, random bytes; the
    time of the breaker's check; and the trace id that [generateTraceID] would give. *)
Record environment : Type := mkEnvironment {
  en_exchange : Z → exchange;
  en_cancelled : Z → bool;
  en_clock : Z → Z;
  en_random : Z → bytes;
  en_start : Z;
  en_traceID : string;
}.
(** What a call does: the breaker it leaves, the trace id in its context, the trace
    headers of the requests it sent and the pauses it made. *)
Record call : Type := mkCall {
  ca_breaker : option CircuitBreaker;
  ca_context : string;          (* empty when there is none *)
  ca_sent : list (option string);
  ca_pauses : list Z;
}.
Inductive outcome : Type :=
  | Done
  | Failed (err : string)
  | CircuitOpen
  | Cancelled
  | MaxRetriesExceeded (maxRetries : Z) (lastErr : option string).

Section Client.
Variable wild : float64 → Z.
Variable c : Client.
Variable en : environment.

Definition injectTraceID (ca : call) : call :=
  if bool_decide (cl_traceIDHeader c = "") then ca
  else if bool_decide (ca_context ca = "") then mkCall (ca_breaker ca) (en_traceID en) (ca_sent ca) (ca_pauses ca) else ca.
(** The header of [doOnce]. *)
Definition trace_header (context : string) : option string :=
  if bool_decide (cl_traceIDHeader c = "") || bool_decide (context = "") then None else Some context.
Definition send (ca : call) : call := mkCall (ca_breaker ca) (ca_context ca) (ca_sent ca ++ [trace_header (ca_context ca)]) (ca_pauses ca).
(** The breaker's operations, where there is a breaker. *)
Definition record (now : Z) (p : CircuitBreakerConfig → cbproc) (ca : call) : call :=
  match ca_breaker ca with
  | Some cb => mkCall (Some (cb_run now (p (cb_config cb)) cb).1) (ca_context ca) (ca_sent ca) (ca_pauses ca)
  | None => ca
  end.
Definition pause (attempt : Z) (ca : call) : call :=
  mkCall (ca_breaker ca) (ca_context ca) (ca_sent ca) (ca_pauses ca ++ [calculateBackoff wild (cl_retryConfig c) attempt (en_random en attempt)]).

(** The loop, with the number of attempts that are left. *)
Fixpoint retry_loop (n : nat) (attempt : Z) (lastErr : option string) (ca : call) : call * outcome :=
  match n with
  | 0 => (ca, MaxRetriesExceeded (from_option rc_MaxRetries 0%Z (cl_retryConfig c)) lastErr)
  | S n =>
      let ca := if bool_decide (0 < attempt)%Z then pause attempt ca else ca in
      if bool_decide (0 < attempt)%Z && en_cancelled en attempt then (ca, Cancelled)
      else
        let ca := send (injectTraceID ca) in
        match doOnce (en_exchange en attempt) with
        | None => (record (en_clock en attempt) (λ _, RecordSuccess) ca, Done)
        | Some err =>
            let ca := record (en_clock en attempt) RecordFailure ca in
            if isRetryable (cl_retryConfig c) err then retry_loop n (attempt + 1) (Some err) ca else (ca, Failed err)
        end
  end.
Definition doWithRetry (ca : call) : call * outcome :=
  let loop ca := retry_loop (Z.to_nat (from_option rc_MaxRetries 0%Z (cl_retryConfig c) + 1)) 0 None ca in
  match ca_breaker ca with
  | Some cb =>
      let '(cb, allowed) := cb_run (en_start en) (CBAllow (cb_config cb)) cb in
      let ca := mkCall (Some cb) (ca_context ca) (ca_sent ca) (ca_pauses ca) in
      if (allowed : bool) then loop ca else (ca, CircuitOpen)
  | None => loop ca
  end.
(** [do] *)
Definition client_do (ca : call) : call * outcome :=
  if bool_decide (is_Some (cl_retryConfig c)) || bool_decide (is_Some (ca_breaker ca)) then doWithRetry ca
  else (send ca, match doOnce (en_exchange en 0) with None => Done | Some err => Failed err end).
End Client.

(** ** The breaker and its specification *)
(** Operations on a breaker, each with its time. *)
Inductive cb_event : Type := BAllow (t : Z) | BSuccess (t : Z) | BFailure (t : Z).
Definition event_time (e : cb_event) : Z := match e with BAllow t | BSuccess t | BFailure t => t end.
Definition cb_apply (e : cb_event) (cb : CircuitBreaker) : CircuitBreaker * bool :=
  match e with
  | BAllow t => cb_run t (CBAllow (cb_config cb)) cb
  | BSuccess t => cb_run t RecordSuccess cb
  | BFailure t => cb_run t (RecordFailure (cb_config cb)) cb
  end.
Definition cb_after (evs : list cb_event) (cb : CircuitBreaker) : CircuitBreaker := foldl (λ cb e, (cb_apply e cb).1) cb evs.
Definition is_allow (e : cb_event) : bool := match e with BAllow _ => true | _ => false end.
(** The answers to the requests for permission. *)
Fixpoint cb_answers (evs : list cb_event) (cb : CircuitBreaker) : list bool :=
  match evs with
  | [] => []
  | e :: evs => let '(cb, b) := cb_apply e cb in (if is_allow e then [b] else []) ++ cb_answers evs cb
  end.

(** What a breaker promises, without states: it counts the failures since the last
    success; with the threshold reached, it refuses until the reset time has passed
    since the last failure. *)
Record history : Type := mkHistory { hi_failures : Z; hi_last : Z }.
Definition spec_allows (cfg : CircuitBreakerConfig) (now : Z) (h : history) : bool :=
  negb (bool_decide (0 < hi_failures h ∧ cc_FailureThreshold cfg ≤ hi_failures h ∧ now - hi_last h ≤ cc_ResetTimeout cfg)%Z).
Definition spec_step (e : cb_event) (h : history) : history :=
  match e with
  | BAllow _ => h
  | BSuccess _ => mkHistory 0 0
  | BFailure t => mkHistory (hi_failures h + 1) t
  end.
Fixpoint spec_answers (cfg : CircuitBreakerConfig) (evs : list cb_event) (h : history) : list bool :=
  match evs with
  | [] => []
  | e :: evs => (if is_allow e then [spec_allows cfg (event_time e) h] else []) ++ spec_answers cfg evs (spec_step e h)
  end.

(** Times that do not go back, in the range of int64. *)
Fixpoint chronological (t : Z) (evs : list cb_event) : Prop :=
  match evs with
  | [] => True
  | e :: evs => (t ≤ event_time e < 2 ^ 63)%Z ∧ chronological (event_time e) evs
  end.

(** The states of the breaker and the history they stand for, at a time [t]. *)
Definition simulates (cfg : CircuitBreakerConfig) (t : Z) (cb : CircuitBreaker) (h : history) : Prop :=
  cb_config cb = cfg ∧ cb_failureCount cb = hi_failures h ∧ (0 ≤ hi_failures h)%Z ∧ (0 ≤ hi_last h ≤ t)%Z ∧
  (cb_lastFailureTime cb = hi_last h ∨ hi_failures h = 0%Z) ∧
  ((cb_state cb = circuitClosed ∧ (hi_failures h = 0 ∨ hi_failures h < cc_FailureThreshold cfg)%Z) ∨
   (0 < hi_failures h ∧ cc_FailureThreshold cfg ≤ hi_failures h)%Z ∧
     (cb_state cb = circuitOpen ∨ cb_state cb = circuitHalfOpen ∧ (cc_ResetTimeout cfg < t - hi_last h)%Z)).

Lemma int64_small z : (-2 ^ 63 ≤ z < 2 ^ 63)%Z → int64 z = z.
Proof. intros Hz. rw /int64 Z.mod_small; lia. Qed.
Lemma time_Since_small now last : (0 ≤ last ≤ now)%Z → (now < 2 ^ 63)%Z → time_Since now last = (now - last)%Z.
Proof. rw /time_Since. lia. Qed.

Lemma allow_simulates cfg t now cb h : simulates cfg t cb h → (0 ≤ t ≤ now)%Z → (now < 2 ^ 63)%Z →
  let '(cb', b) := cb_apply (BAllow now) cb in simulates cfg now cb' h ∧ b = spec_allows cfg now h.
Proof.
  intros (Hc & Hn & Hp & Hl & Ht & Hs) Hnow Hb. destruct cb as [cf st n lt]. simpl in *. subst cf n.
  rw /spec_allows. destruct Hs as [[-> Hs]|[Hs [->|[-> Hr]]]]; rw /cb_run /=.
  - split; [split_and!; simpl; auto with lia|]. rw bool_decide_eq_false_2 //. lia.
  - destruct Ht as [->| ?]; [|lia]. rw time_Since_small; [lia|done|]. case_bool_decide.
    + split; [split_and!; simpl; auto with lia|]. rw bool_decide_eq_false_2 //. lia.
    + split; [split_and!; simpl; auto with lia|]. rw bool_decide_eq_true_2 //. lia.
  - split; [split_and!; simpl; auto with lia|]. rw bool_decide_eq_false_2 //. lia.
Qed.

Lemma record_simulates cfg t e cb h : is_allow e = false → simulates cfg t cb h → (0 ≤ t ≤ event_time e)%Z → (event_time e < 2 ^ 63)%Z →
  (hi_failures h + 1 < 2 ^ 63)%Z → simulates cfg (event_time e) (cb_apply e cb).1 (spec_step e h).
Proof.
  intros He (Hc & Hn & Hp & Hl & Ht & Hs) Ht' Hb Hf. destruct cb as [cf st n lt]. simpl in *. subst cf n.
  destruct e as [now|now|now]; [done|..]; simpl in *.
  - split_and!; simpl; auto with lia.
  - rw !int64_small; [lia..|]. case_bool_decide; split_and!; simpl; auto with lia.
Qed.

Lemma answers_simulate cfg evs : ∀ t cb h, simulates cfg t cb h → (0 ≤ t)%Z → chronological t evs →
  (hi_failures h + Z.of_nat (length evs) < 2 ^ 63)%Z → cb_answers evs cb = spec_answers cfg evs h.
Proof.
  induction evs as [|e evs IH]; [done|]. intros t cb h Hs Ht [[Hle Hb] Hch] Hf. cbn [length] in Hf.
  destruct e as [now|now|now]; cbn [event_time] in *.
  - pose proof (allow_simulates cfg t now cb h Hs ltac:(lia) Hb) as Ha. cbn [cb_answers spec_answers is_allow event_time spec_step].
    destruct (cb_apply (BAllow now) cb) as [cb' b]. destruct Ha as [Hs' ->]. simpl. f_equal. apply (IH now); [done|lia|done|lia].
  - pose proof (record_simulates cfg t (BSuccess now) cb h eq_refl Hs ltac:(simpl; lia) Hb ltac:(lia)) as Hs'.
    cbn [cb_answers spec_answers is_allow event_time]. destruct (cb_apply (BSuccess now) cb) as [cb' b].
    simpl. apply (IH now); [done|lia|done|]. simpl. destruct Hs as (_ & _ & ? & _). lia.
  - pose proof (record_simulates cfg t (BFailure now) cb h eq_refl Hs ltac:(simpl; lia) Hb ltac:(lia)) as Hs'.
    cbn [cb_answers spec_answers is_allow event_time]. destruct (cb_apply (BFailure now) cb) as [cb' b].
    simpl. apply (IH now); [done|lia|done|]. simpl. lia.
Qed.

(** C27: the circuit breaker refines its specification: for every sequence of permissions,
    successes and failures with a clock that does not go back, the three-state breaker
    with its atomic variables answers each request for permission as the breaker without
    states does, which refuses exactly while the threshold of consecutive failures is
    reached and the reset time has not passed since the last one. *)
Theorem breaker_refines cfg evs : chronological 0 evs → (Z.of_nat (length evs) < 2 ^ 63)%Z →
  cb_answers evs (NewCircuitBreaker (Some cfg)) = spec_answers cfg evs (mkHistory 0 0).
Proof.
  intros Hch Hl. apply (answers_simulate cfg evs 0); [|lia|done|simpl; lia].
  split_and!; simpl; auto with lia.
Qed.

(** ** What a call does *)
Section Calls.
Variable wild : float64 → Z.
Variable c : Client.
Variable en : environment.
Abbreviation cfg := (cl_retryConfig c).

(** Attempt [i] fails in a way that is tried again. *)
Definition retried (i : Z) : Prop := ∃ err, doOnce (en_exchange en i) = Some err ∧ isRetryable cfg err = true.
(** The outcomes that the attempts from [a] on report to the breaker, [m] of them. *)
Definition report (i : Z) : cb_event :=
  match doOnce (en_exchange en i) with None => BSuccess (en_clock en i) | Some _ => BFailure (en_clock en i) end.
Definition reports (a : Z) (m : nat) : list cb_event := (λ i, report (a + Z.of_nat i)%Z) <$> seq 0 m.
(** How a loop with [n] attempts left, the next one [a], ends after [m] requests. *)
Definition loop_ends (a : Z) (n m : nat) (lastErr : option string) (out : outcome) : Prop :=
  let final := (a + Z.of_nat m - 1)%Z in
  match out with
  | Done => 0 < m ∧ doOnce (en_exchange en final) = None
  | Failed err => 0 < m ∧ doOnce (en_exchange en final) = Some err ∧ isRetryable cfg err = false
  | Cancelled => m < n ∧ (0 < m → retried final) ∧ (0 < final + 1)%Z ∧ en_cancelled en (final + 1) = true
  | MaxRetriesExceeded _ last => m = n ∧ (0 < m → retried final ∧ last = doOnce (en_exchange en final)) ∧ (m = 0 → last = lastErr)
  | CircuitOpen => False
  end.

Lemma loop_ends_next a n m err lastErr out : doOnce (en_exchange en a) = Some err → isRetryable cfg err = true →
  loop_ends (a + 1) n m (Some err) out → loop_ends a (S n) (S m) lastErr out.
Proof.
  intros Ed Er. rw /loop_ends. replace (a + Z.of_nat (S m) - 1)%Z with (a + 1 + Z.of_nat m - 1)%Z by lia.
  assert (retried a) as Ha by by exists err.
  assert (m = 0 → (a + 1 + Z.of_nat m - 1)%Z = a) as Hz by lia.
  destruct out as [|e| | |k last].
  - intros [? ?]. split; [lia|done].
  - intros (? & ? & ?). split_and!; [lia|done..].
  - done.
  - intros (? & Hr & ? & ?). split_and!; [lia| |done..]. intros _. destruct (decide (m = 0)) as [E|]; [by rw (Hz E)|apply Hr; lia].
  - intros (-> & Hr & Hl). split_and!; [done| |lia]. intros _. destruct (decide (n = 0)) as [E|]; [|apply Hr; lia].
    rw (Hz E) (Hl E) Ed. by split.
Qed.

Lemma report_record ca i : ca_breaker (record (en_clock en i) (match doOnce (en_exchange en i) with None => λ _, RecordSuccess | Some _ => RecordFailure end) ca) =
  cb_after [report i] <$> ca_breaker ca.
Proof. rw /record /report. destruct (ca_breaker ca) as [cb|] eqn:E; [|done]. by destruct (doOnce _). Qed.
Lemma record_rest now p ca : ca_context (record now p ca) = ca_context ca ∧ ca_sent (record now p ca) = ca_sent ca ∧ ca_pauses (record now p ca) = ca_pauses ca.
Proof. rw /record. by destruct (ca_breaker ca). Qed.
Lemma reports_S a m : reports a (S m) = report a :: reports (a + 1) m.
Proof.
  rw /reports. change (seq 0 (S m)) with (0 :: seq 1 m). rw fmap_cons Z.add_0_r -fmap_S_seq -list_fmap_compose. f_equal.
  apply list_fmap_ext. intros i x _. simpl. f_equal. lia.
Qed.

(** The context after the first request of a call, and the header of all of them. *)
Definition call_context (context : string) : string :=
  if bool_decide (cl_traceIDHeader c = "") then context else if bool_decide (context = "") then en_traceID en else context.
Lemma inject_context ca : injectTraceID c en ca = mkCall (ca_breaker ca) (call_context (ca_context ca)) (ca_sent ca) (ca_pauses ca).
Proof. rw /injectTraceID /call_context. destruct ca. repeat case_bool_decide; done. Qed.
Lemma call_context_idem x : call_context (call_context x) = call_context x.
Proof. rw /call_context. repeat case_bool_decide; naive_solver. Qed.

Lemma retry_loop_spec n : ∀ a lastErr ca ca' out, (0 ≤ a)%Z → retry_loop wild c en n a lastErr ca = (ca', out) →
  ∃ m, m ≤ n ∧ (∀ i, i < m → (0 < a + Z.of_nat i)%Z → en_cancelled en (a + Z.of_nat i) = false) ∧
    (∀ i, i + 1 < m → retried (a + Z.of_nat i)) ∧ loop_ends a n m lastErr out ∧
    ca_sent ca' = ca_sent ca ++ replicate m (trace_header c (call_context (ca_context ca))) ∧
    ca_breaker ca' = cb_after (reports a m) <$> ca_breaker ca.
Proof.
  induction n as [|n IH]; intros a lastErr ca ca' out Ha H.
  { injection H as <- <-. exists 0. split_and!; try lia; [by split_and!; try lia|by rw app_nil_r|by destruct (ca_breaker ca)]. }
  cbn [retry_loop] in H. set (ca1 := if bool_decide (0 < a)%Z then _ else ca) in H.
  assert (ca_breaker ca1 = ca_breaker ca ∧ ca_context ca1 = ca_context ca ∧ ca_sent ca1 = ca_sent ca) as (E1 & E2 & E3)
    by (rw /ca1; by case_bool_decide).
  destruct (_ && _) eqn:Ec.
  { apply andb_true_iff in Ec as [?%bool_decide_eq_true Ec]. injection H as <- <-. exists 0.
    split_and!; try lia; [split_and!; try lia|by rw app_nil_r|by rw E1; destruct (ca_breaker ca)]; rw Z.add_0_r Z.sub_add; done. }
  set (ca2 := send c (injectTraceID c en ca1)) in H.
  assert (ca_breaker ca2 = ca_breaker ca ∧ ca_context ca2 = call_context (ca_context ca) ∧
    ca_sent ca2 = ca_sent ca ++ [trace_header c (call_context (ca_context ca))]) as (F1 & F2 & F3)
    by (rw /ca2 /send inject_context /= E1 E2 E3; done).
  assert (∀ i, i < 1 → (0 < a + Z.of_nat i)%Z → en_cancelled en (a + Z.of_nat i) = false) as Hnc.
  { intros i Hi. replace i with 0 by lia. rw Z.add_0_r. intros Hp. rw bool_decide_eq_true_2 in Ec; done. }
  pose proof (report_record ca2 a) as Hrep.
  destruct (doOnce (en_exchange en a)) as [err|] eqn:Ed; [destruct (isRetryable cfg err) eqn:Er|].
  - destruct (record_rest (en_clock en a) RecordFailure ca2) as (G2 & G3 & _). apply IH in H as (m & Hm & Hx & Hr & He & Hs & Hb); [|lia].
    exists (S m). split_and!.
    + lia.
    + intros [|i] Hi; [apply Hnc; lia|]. replace (a + Z.of_nat (S i))%Z with (a + 1 + Z.of_nat i)%Z by lia. apply Hx. lia.
    + intros [|i] Hi; [rw Z.add_0_r; by exists err|]. replace (a + Z.of_nat (S i))%Z with (a + 1 + Z.of_nat i)%Z by lia. apply Hr. lia.
    + by eapply loop_ends_next.
    + rw Hs G3 F3 G2 F2 call_context_idem -app_assoc. done.
    + rw Hb Hrep F1 reports_S. by destruct (ca_breaker ca).
  - injection H as <- <-. exists 1. destruct (record_rest (en_clock en a) RecordFailure ca2) as (G2 & G3 & _).
    split_and!; try lia; [done|rw /loop_ends; replace (a + Z.of_nat 1 - 1)%Z with a by lia; by split_and!; try lia|by rw G3 F3|].
    rw Hrep F1 reports_S. done.
  - injection H as <- <-. exists 1. destruct (record_rest (en_clock en a) (λ _, RecordSuccess) ca2) as (G2 & G3 & _).
    split_and!; try lia; [done|rw /loop_ends; replace (a + Z.of_nat 1 - 1)%Z with a by lia; by split_and!; try lia|by rw G3 F3|].
    rw Hrep F1 reports_S. done.
Qed.

(** C28: the retry loop: a call that the breaker refuses sends nothing. Any other call sends
    between one and [MaxRetries + 1] requests, all with the same trace id; every one but
    the last failed in a way that is tried again, no pause in between was cancelled, and
    the call ends with the success or the final error of the last request, or because
    the retries are used up, or because the next pause was cancelled. The breaker is told
    the outcome of each request, in order. *)
Theorem doWithRetry_spec ca ca' out : (0 ≤ from_option rc_MaxRetries 0 cfg)%Z → doWithRetry wild c en ca = (ca', out) →
  let allowed := (λ cb, (cb_apply (BAllow (en_start en)) cb).2) <$> ca_breaker ca in
  let ready := (λ cb, (cb_apply (BAllow (en_start en)) cb).1) <$> ca_breaker ca in
  (allowed = Some false ∧ out = CircuitOpen ∧ ca_sent ca' = ca_sent ca) ∨
  allowed ≠ Some false ∧ ∃ m, 1 ≤ m ∧ (Z.of_nat m ≤ from_option rc_MaxRetries 0 cfg + 1)%Z ∧
    (∀ i, 0 < i < m → en_cancelled en (Z.of_nat i) = false) ∧ (∀ i, i + 1 < m → retried (Z.of_nat i)) ∧
    loop_ends 0 (Z.to_nat (from_option rc_MaxRetries 0%Z cfg + 1)) m None out ∧
    ca_sent ca' = ca_sent ca ++ replicate m (trace_header c (call_context (ca_context ca))) ∧
    ca_breaker ca' = cb_after (reports 0 m) <$> ready.
Proof.
  intros Hmax H allowed ready.
  assert (allowed = Some false ∧ out = CircuitOpen ∧ ca_sent ca' = ca_sent ca ∨ allowed ≠ Some false ∧
    ∃ ca1, ca_breaker ca1 = ready ∧ ca_context ca1 = ca_context ca ∧ ca_sent ca1 = ca_sent ca ∧
      retry_loop wild c en (Z.to_nat (from_option rc_MaxRetries 0%Z cfg + 1)) 0 None ca1 = (ca', out))
    as [?|(Ha & ca1 & E1 & E2 & E3 & Hl)]; [|by left|].
  { rw /doWithRetry in H. rw /allowed /ready. destruct (ca_breaker ca) as [cb|] eqn:Eb.
    - change (cb_run (en_start en) (CBAllow (cb_config cb)) cb) with (cb_apply (BAllow (en_start en)) cb) in H.
      cbn [fmap option_fmap option_map]. destruct (cb_apply (BAllow (en_start en)) cb) as [cb' [|]].
      + right. split; [done|]. eexists. by split_and!; [..|exact H].
      + left. injection H as <- <-. by split_and!.
    - right. split; [done|]. by exists ca. }
  right. split; [done|]. apply retry_loop_spec in Hl as (m & Hm & Hc & Hr & He & Hs & Hb); [|done]. exists m.
  rw E1 E2 E3 in Hs Hb. split_and!; try done.
  - destruct m; [|lia]. rw /loop_ends in He. destruct out; first [done|intuition lia].
  - lia.
  - intros i Hi. apply (Hc i); lia.
Qed.
End Calls.

(** A call against a server that is down for two requests. *)
Definition demo_client : Client := mkClient (Some DefaultRetryConfig) "X-Trace-Id".
Definition demo_server : environment :=
  mkEnvironment (λ i, if bool_decide (i < 2)%Z then Responds 503 "kms is sealed" None else Responds 200 "" None) (λ _, false)
    (λ i, 1000 + i)%Z (λ _, []) 1000 "t1".
Definition demo_call : call := mkCall (Some (NewCircuitBreaker None)) "" [] [].
Lemma doWithRetry_spec_witness : ∃ ca', doWithRetry (λ _, 0%Z) demo_client demo_server demo_call = (ca', Done) ∧
  ca_sent ca' = replicate 3 (Some "t1") ∧ cb_state <$> ca_breaker ca' = Some circuitClosed.
Proof.
  destruct (doWithRetry (λ _, 0%Z) demo_client demo_server demo_call) as [ca' out] eqn:E.
  assert (out = Done ∧ length (ca_sent ca') = 3 ∧ cb_state <$> ca_breaker ca' = Some circuitClosed) as (-> & Hl & Hb).
  { change out with (ca', out).2. change ca' with (ca', out).1. rw -E. split_and!; vm_compute; reflexivity. }
  exists ca'. split_and!; [reflexivity| |exact Hb].
  destruct (doWithRetry_spec (λ _, 0%Z) demo_client demo_server demo_call ca' Done) as [(_ & H & _)|(_ & m & _ & _ & _ & _ & _ & Hs & _)];
    [vm_compute; discriminate|exact E|discriminate H|].
  rw Hs length_app length_replicate in Hl. cbn in Hl. subst m. exact Hs.
Defined.

Lemma breaker_refines_witness :
  let cfg := mkCBConfig 2 100 in
  let evs := [BAllow 1; BFailure 2; BAllow 3; BFailure 4; BAllow 5; BAllow 200; BFailure 210; BAllow 220; BAllow 400; BSuccess 410; BAllow 411]%Z in
  cb_answers evs (NewCircuitBreaker (Some cfg)) = spec_answers cfg evs (mkHistory 0 0) ∧
  cb_answers evs (NewCircuitBreaker (Some cfg)) = [true; true; false; true; false; true; true].
Proof.
  intros cfg evs. split; [|vm_compute; reflexivity].
  apply (breaker_refines cfg evs); [cbn [chronological evs event_time]; lia|vm_compute; reflexivity].
Defined.

(** ** Retries by text *)
(** Without a message, exactly the configured statuses are tried again. *)
Example retryable_statuses :
  filter (λ s, isRetryable (Some DefaultRetryConfig) (default "" (doOnce (Responds s "" None))) = true) (seqZ 400 200) = [502; 503; 504]%Z.
Proof. vm_compute. reflexivity. Qed.
(** The text of the server's message counts as well; and a body that cannot be marshalled
    is taken for a network error. *)
Example retryable_by_text :
  isRetryable (Some DefaultRetryConfig) (default "" (doOnce (Responds 400 "upstream: HTTP 503" None))) = true ∧
  isRetryable (Some DefaultRetryConfig) (default "" (doOnce (MarshalFails "json: unsupported type"))) = true.
Proof. split; vm_compute; reflexivity. Qed.
(** The jitter comes after the cap, and can exceed it by a fifth. *)
Example jitter_exceeds_cap :
  calculateBackoff (λ _, 0%Z) (Some (mkRetry 3 5000000000 5000000000 None)) 1 (replicate 8 xff) = 6000000000%Z.
Proof. vm_compute. reflexivity. Qed.
(** Many attempts overflow the double's range of int64; with the conversion of amd64 the
    pause is then negative, that is, none. *)
Example backoff_overflows :
  (calculateBackoff (λ _, -2 ^ 63) (Some (mkRetry 100 100000000 5000000000 None)) 40 [] < 0)%Z.
Proof. vm_compute. reflexivity. Qed.

(** ** A race of the breaker *)
(** Two operations, step by step, as the list says. *)
Fixpoint cb_interleave (sched : list bool) (now : Z) (p q : cbproc) (cb : CircuitBreaker) : CircuitBreaker :=
  match sched with
  | [] => cb
  | true :: sched => let '(p, cb) := cb_step now p cb in cb_interleave sched now p q cb
  | false :: sched => let '(q, cb) := cb_step now q cb in cb_interleave sched now p q cb
  end.
(** The tenth failure and a success at the same time can leave the breaker open with a
    count of zero: when it is half open, a failing server no longer opens it. *)
Example race_disarms_breaker :
  let cfg := DefaultCircuitBreakerConfig in
  let cb := cb_after (replicate 9 (BFailure 0)) (NewCircuitBreaker None) in
  let cb := cb_interleave [true; false; false; true; true; true] 10 (RecordFailure cfg) RecordSuccess cb in
  cb_state cb = circuitOpen ∧ cb_failureCount cb = 0%Z ∧
  cb_answers [BAllow 70000000000; BFailure 70000000001; BAllow 70000000002] cb = [true; true].
Proof. vm_compute. split_and!; reflexivity. Qed.
