(* ===== verification/Settings.v ===== *)
(** Configuration, [src/internal/config]: the settings of the subsystems with their
    validation ([config.go], [validator.go], [loader.go]), the settings of the two
    modes with theirs ([yvonne_config.go]), the redaction of connection strings, and the
    hot reload ([reload.go]). Reading the file and decoding its JSON onto the defaults
    are arguments; durations are nanoseconds. *)

From S2P Require Import Prelude Metadata SecureBuffer Shamir Auth RateLimit Jwt.

(** ** config.go *)
Record TLSConfig : Type := mkTLS {
  tls_Enabled : bool; tls_CertFile : string; tls_KeyFile : string; tls_MinVersion : string;
  tls_ClientCAFile : string; tls_ClientAuth : string;
  tls_GMEnabled : bool; tls_GMSignCertFile : string; tls_GMSignKeyFile : string; tls_GMEncCertFile : string; tls_GMEncKeyFile : string;
}.
Record AdminServerConfig : Type := mkAdmin { ad_Enabled : bool; ad_BindAddr : string; ad_BindPort : Z; ad_AdminToken : string }.
Record GRPCServerConfig : Type := mkGRPC { gr_Enabled : bool; gr_BindAddr : string; gr_BindPort : Z; gr_TLS : TLSConfig }.
Record MCPServerConfig : Type := mkMCP {
  mc_Enabled : bool; mc_Stdio : bool; mc_HTTPBindAddr : string; mc_HTTPBindPort : Z; mc_Token : string; mc_AllowedKeys : list string;
}.
Record ServerConfig : Type := mkServer {
  sv_BindAddr : string; sv_BindPort : Z; sv_ReadTimeout : Z; sv_WriteTimeout : Z; sv_MaxConns : Z;
  sv_TLS : TLSConfig; sv_Admin : AdminServerConfig; sv_GRPC : GRPCServerConfig; sv_MCP : MCPServerConfig;
}.
Record StorageConfig : Type := mkStorageC { st_Backend : string; st_DSN : string; st_Path : string }.
Record SealConfig : Type := mkSealC { se_TotalShares : Z; se_Threshold : Z; se_AutoResealAfter : Z }.
Record CryptoConfig : Type := mkCryptoC {
  cr_Suite : string; cr_Strict : bool; cr_DEKSize : Z; cr_RSAKeyBits : Z; cr_ECDSACurve : string; cr_DEKRotationPeriod : Z;
}.
Record AppRoleConfig : Type := mkAppRoleC { ap_RoleIDLength : Z; ap_SecretIDLength : Z; ap_SecretIDTTL : Z; ap_BindSecretID : bool }.
Record JWTSettings : Type := mkJWTSettings { js_config : JWTConfig; js_TokenTTL : Z; js_SigningKeyPath : string }.
Record AuthConfig : Type := mkAuthC { au_AppRole : AppRoleConfig; au_JWT : JWTSettings }.
Record AuditConfig : Type := mkAuditC { ac_LogPath : string; ac_AuditKeyDerivationSalt : string; ac_Fsync : bool; ac_MaxEntryBytes : Z }.
Record MemoryConfig : Type := mkMemoryC { me_EnableMLock : bool; me_UseMmap : bool; me_GCPolicy : string }.
Record LoggingConfig : Type := mkLogging { lo_Level : string; lo_Format : string; lo_Output : string; lo_RedactSecrets : bool }.
Record SysConfig : Type := mkSysConfig {
  sc_Server : ServerConfig; sc_Storage : StorageConfig; sc_Seal : SealConfig; sc_Crypto : CryptoConfig;
  sc_Auth : AuthConfig; sc_Audit : AuditConfig; sc_Memory : MemoryConfig; sc_Logging : LoggingConfig;
}.

(** ** validator.go *)
(** A check and its complaint; the values that the code formats into some messages (the backend, the sizes, the index of a
    role) are left out of them. *)
Definition complain (b : bool) (msg : string) : list string := if b then [msg] else [].
Definition bad_port (p : Z) : bool := bool_decide (p ≤ 0 ∨ 65535 < p)%Z.
Definition tls_errors (t : TLSConfig) : list string :=
  if tls_Enabled t then
    complain (negb (bool_decide (tls_MinVersion t = "TLS1.2")) && negb (bool_decide (tls_MinVersion t = "TLS1.3"))) "server.tls.min_version must be TLS1.2 or TLS1.3" ++
    complain (bool_decide (tls_CertFile t = "") || bool_decide (tls_KeyFile t = "")) "server.tls.enabled=true requires cert_file and key_file" ++
    (if bool_decide (tls_ClientAuth t = "require") then complain (bool_decide (tls_ClientCAFile t = "")) "server.tls.client_auth=require requires client_ca_file"
     else if bool_decide (tls_ClientAuth t = "optional") then complain (bool_decide (tls_ClientCAFile t = "")) "server.tls.client_auth=optional requires client_ca_file"
     else complain (negb (bool_decide (tls_ClientAuth t = "")) && negb (bool_decide (tls_ClientAuth t = "none"))) "server.tls.client_auth must be require, optional, or none")
  else [].
Definition server_errors (s : ServerConfig) : list string :=
  complain (bad_port (sv_BindPort s)) "server.bind_port must be in 1..65535" ++
  complain ((bool_decide (sv_BindAddr s = "0.0.0.0") || bool_decide (sv_BindAddr s = "::")) && negb (tls_Enabled (sv_TLS s)))
    "server.bind_addr=0.0.0.0 requires server.tls.enabled=true" ++
  tls_errors (sv_TLS s) ++
  (if ad_Enabled (sv_Admin s) then
     complain (negb (bool_decide (ad_BindAddr (sv_Admin s) = "127.0.0.1")) && negb (bool_decide (ad_BindAddr (sv_Admin s) = "localhost")))
       "admin.bind_addr must be 127.0.0.1 (loopback only); expose via reverse proxy + mTLS in prod" ++
     complain (bad_port (ad_BindPort (sv_Admin s))) "admin.bind_port must be in 1..65535"
   else []).
Definition storage_errors (s : StorageConfig) : list string :=
  if bool_decide (st_Backend s = "boltdb") then complain (bool_decide (st_Path s = "")) "storage.path required for boltdb backend"
  else if bool_decide (st_Backend s = "postgres") then complain (bool_decide (st_DSN s = "")) "storage.dsn required for postgres backend"
  else ["storage.backend must be 'boltdb' or 'postgres'"].
Definition seal_errors (s : SealConfig) : list string :=
  complain (bool_decide (se_TotalShares s ≤ 0)%Z) "seal.total_shares must be > 0" ++
  complain (bool_decide (se_Threshold s ≤ 0 ∨ se_TotalShares s < se_Threshold s)%Z) "seal.threshold must be in 1..total_shares".
Definition crypto_errors (c : CryptoConfig) : list string :=
  let expectedDEKSize := if bool_decide (cr_Suite c = "gmsm") then 16%Z else 32%Z in
  complain (negb (bool_decide (cr_DEKSize c = 0%Z)) && negb (bool_decide (cr_DEKSize c = expectedDEKSize))) "crypto.dek_size must fit the suite (or leave unset for auto)" ++
  complain (negb (bool_decide (cr_RSAKeyBits c = 0%Z)) && negb (bool_decide (cr_RSAKeyBits c = 4096%Z))) "crypto.rsa_key_bits must be 4096" ++
  complain (negb (bool_decide (cr_ECDSACurve c ∈ [""; "P-256"; "P-384"]))) "crypto.ecdsa_curve must be P-256 or P-384".
Definition jwt_methods : list string := ["RS256"; "RS384"; "RS512"; "ES256"; "ES384"; "ES512"; "HS256"; "HS384"; "HS512"].
(** The first two characters, or all there are. *)
Definition method_family (method : string) : string := String.substring 0 2 method.
Definition auth_errors (a : AuthConfig) : list string :=
  let jwt := js_config (au_JWT a) in
  complain (bool_decide (ap_RoleIDLength (au_AppRole a) < 16)%Z) "auth.approle.role_id_length must be >= 16" ++
  complain (bool_decide (ap_SecretIDLength (au_AppRole a) < 32)%Z) "auth.approle.secret_id_length must be >= 32" ++
  complain (negb (bool_decide (jc_SigningMethod jwt ∈ "" :: jwt_methods))) "auth.jwt.signing_method must be RS256/384/512, ES256/384/512, or HS256/384/512" ++
  (if bool_decide (jc_SigningMethod jwt = "") then []
   else
     complain (bool_decide (jc_Issuer jwt = "")) "auth.jwt.issuer is required when jwt is enabled" ++
     (if bool_decide (method_family (jc_SigningMethod jwt) ∈ ["RS"; "ES"])
      then complain (bool_decide (jc_VerifyingKeyPath jwt = "")) "auth.jwt.verifying_key_path is required for RSA/ECDSA"
      else if bool_decide (method_family (jc_SigningMethod jwt) = "HS")
      then complain (bool_decide (jc_Secret jwt = "")) "auth.jwt.secret is required for HMAC" else [])).
Definition audit_errors (a : AuditConfig) : list string :=
  complain (bool_decide (ac_LogPath a = "")) "audit.log_path required" ++
  complain (bool_decide (ac_AuditKeyDerivationSalt a = "")) "audit.audit_key_derivation_salt required (hex HKDF salt)" ++
  complain (bool_decide (ac_MaxEntryBytes a ≤ 0 ∨ 2 ^ 20 < ac_MaxEntryBytes a)%Z) "audit.max_entry_bytes must be in 1..1MiB".
Definition logging_errors (l : LoggingConfig) : list string :=
  complain (negb (lo_RedactSecrets l)) "logging.redact_secrets must be true (security hard requirement)" ++
  complain (negb (bool_decide (lo_Level l ∈ ["debug"; "info"; "warn"; "error"]))) "logging.level must be one of debug|info|warn|error".
Definition strict_errors (c : CryptoConfig) (method : string) : list string :=
  complain (negb (bool_decide (cr_Suite c ∈ [""; "standard"; "gmsm"]))) "crypto.suite must be standard or gmsm" ++
  (if cr_Strict c then
     complain (negb (bool_decide (cr_Suite c = "gmsm"))) "crypto.strict=true requires crypto.suite=gmsm" ++
     complain (negb (bool_decide (method = "")) &&
               negb (bool_decide ((if (2 <=? String.length method)%nat then method_family method else "") = "SM")))
       "crypto.strict=true requires auth.jwt.signing_method=SM2"
   else []).
Definition join_errors (errs : list string) : string := String.concat (String (Ascii.ascii_of_nat 10) "  - ") ("" :: errs).
Definition Validate (cfg : SysConfig) : result () :=
  let errs := server_errors (sc_Server cfg) ++ storage_errors (sc_Storage cfg) ++ seal_errors (sc_Seal cfg) ++ crypto_errors (sc_Crypto cfg) ++
    auth_errors (sc_Auth cfg) ++ audit_errors (sc_Audit cfg) ++ logging_errors (sc_Logging cfg) ++
    strict_errors (sc_Crypto cfg) (jc_SigningMethod (js_config (au_JWT (sc_Auth cfg)))) in
  match errs with [] => Ok tt | _ => Error (Err_wrap "config validation failed" (Err_new (join_errors errs))) end.

(** ** loader.go *)
(** [strconv.Atoi]: an optional sign and decimal digits, in the range of [int]. *)
Definition digit (ch : Ascii.ascii) : option Z :=
  let n := Z.of_nat (Ascii.nat_of_ascii ch) in if bool_decide (48 ≤ n ≤ 57)%Z then Some (n - 48)%Z else None.
(** The digits at the front, their value so far, and the rest. *)
Fixpoint scan_digits (acc : Z) (seen : bool) (l : list Ascii.ascii) : option (Z * list Ascii.ascii) :=
  match l with
  | ch :: l' => match digit ch with
                | Some d => scan_digits (acc * 10 + d)%Z true l'
                | None => if seen then Some (acc, l) else None
                end
  | [] => if seen then Some (acc, []) else None
  end.
Definition scan_int (l : list Ascii.ascii) : option (Z * list Ascii.ascii) :=
  let in_range (x : Z * list Ascii.ascii) := if bool_decide (-2 ^ 63 ≤ x.1 < 2 ^ 63)%Z then Some x else None in
  match l with
  | ch :: l' =>
      if bool_decide (ch = Ascii.ascii_of_nat 45) then scan_digits 0 false l' ≫= λ x, in_range ((- x.1)%Z, x.2)
      else if bool_decide (ch = Ascii.ascii_of_nat 43) then scan_digits 0 false l' ≫= in_range
      else scan_digits 0 false l ≫= in_range
  | [] => None
  end.
Definition Atoi (s : string) : option Z := match scan_int (chars s) with Some (z, []) => Some z | _ => None end.
(** [fmt.Sscanf(s, "%d", &n)]: the blanks of ASCII before the number are skipped, a newline is
    an error, and what follows the number does not matter. *)
Fixpoint skip_spaces (l : list Ascii.ascii) : list Ascii.ascii :=
  match l with ch :: l' => if bool_decide (Ascii.nat_of_ascii ch ∈ [9; 11; 12; 13; 32]) then skip_spaces l' else l | [] => [] end.
Definition Sscanf_d (s : string) : option Z := fst <$> scan_int (skip_spaces (chars s)).

Definition seconds (n : Z) : Z := n * 1000000000.
Definition no_tls : TLSConfig := mkTLS false "" "" "" "" "" false "" "" "" "".
Definition Default : SysConfig :=
  mkSysConfig
    (mkServer "127.0.0.1" 8200 (seconds 10) (seconds 10) 1024 (mkTLS false "" "" "TLS1.3" "" "" false "" "" "" "")
       (mkAdmin true "127.0.0.1" 8250 "") (mkGRPC false "" 0 no_tls) (mkMCP false false "" 0 "" []))
    (mkStorageC "boltdb" "" "data/yvonne.db") (mkSealC 5 3 (seconds 1800)) (mkCryptoC "" false 32 4096 "P-256" 0)
    (mkAuthC (mkAppRoleC 16 32 (seconds 86400) true) (mkJWTSettings (mkJWTConfig "RS256" "" "" "yvonne-kms" [] "") (seconds 900) ""))
    (mkAuditC "logs/audit.log" "" true 65536) (mkMemoryC true false "avoid_gc_for_secure_buffer") (mkLogging "info" "json" "stdout" true).

(** Environment variables: the empty string when unset. *)
Definition override (v old : string) : string := if bool_decide (v = "") then old else v.
Definition override_int (v : string) (old : Z) : Z := if bool_decide (v = "") then old else default old (Atoi v).
Definition applyEnvOverrides (env : string → string) (c : SysConfig) : SysConfig :=
  let sv := sc_Server c in
  let ad := sv_Admin sv in
  mkSysConfig
    (mkServer (override (env "YVONNE_SERVER_BIND_ADDR") (sv_BindAddr sv)) (override_int (env "YVONNE_SERVER_BIND_PORT") (sv_BindPort sv))
       (sv_ReadTimeout sv) (sv_WriteTimeout sv) (sv_MaxConns sv) (sv_TLS sv)
       (mkAdmin (ad_Enabled ad) (override (env "YVONNE_ADMIN_BIND_ADDR") (ad_BindAddr ad)) (override_int (env "YVONNE_ADMIN_BIND_PORT") (ad_BindPort ad)) (ad_AdminToken ad))
       (sv_GRPC sv) (sv_MCP sv))
    (mkStorageC (override (env "YVONNE_STORAGE_BACKEND") (st_Backend (sc_Storage c))) (override (env "YVONNE_STORAGE_DSN") (st_DSN (sc_Storage c)))
       (override (env "YVONNE_STORAGE_PATH") (st_Path (sc_Storage c))))
    (sc_Seal c) (sc_Crypto c) (sc_Auth c)
    (mkAuditC (ac_LogPath (sc_Audit c)) (override (env "YVONNE_AUDIT_SALT") (ac_AuditKeyDerivationSalt (sc_Audit c))) (ac_Fsync (sc_Audit c)) (ac_MaxEntryBytes (sc_Audit c)))
    (sc_Memory c) (sc_Logging c).
Definition Load (read : string → option bytes) (unmarshal : bytes → SysConfig → option SysConfig) (env : string → string) (configPath : string) : result SysConfig :=
  cfg ← (if bool_decide (configPath = "") then Ok Default
         else match read configPath with
              | None => Error (Err_new "read config file")
              | Some raw => match unmarshal raw Default with Some c => Ok c | None => Error (Err_new "parse config file") end
              end);
  let cfg := applyEnvOverrides env cfg in
  _ ← Validate cfg; Ok cfg.

(** ** yvonne_config.go *)
Record StorageModeConf : Type := mkStorageM { sm_Type : string; sm_DSN : string }.
Record UnsealModeConf : Type := mkUnsealM {
  um_Type : string; um_TotalShares : Z; um_Threshold : Z; um_PKIKeyPath : string; um_AutoResealAfter : string; um_HSMBackend : string; um_HSMKeyID : string;
}.
Record AppRoleEntry : Type := mkRoleEntry {
  re_RoleID : string; re_Token : string; re_AllowedKeys : list string; re_AllowedActions : list string; re_TenantID : string;
}.
Record K8sSettings : Type := mkK8sSettings { ks_Enabled : bool; ks_config : K8sAuthConfig }.
Record AuthModeConf : Type := mkAuthM { am_AppRoles : list AppRoleEntry; am_JWT : JWTSettings; am_K8s : K8sSettings }.
Record AuditModeConf : Type := mkAuditM {
  dm_Dir : string; dm_Filename : string; dm_RetentionDays : Z; dm_SyslogEnabled : bool; dm_SyslogTag : string;
}.
Record MFAConfig : Type := mkMFAC { mf_Enabled : bool; mf_Issuer : string; mf_WindowSeconds : Z; mf_SensitiveOperations : list string }.
Record TracingConfig : Type := mkTracing { tc_Enabled : bool; tc_Endpoint : string; tc_ServiceName : string }.
Record AlertingConfig : Type := mkAlerting { al_Enabled : bool; al_WebhookURL : string; al_HighRiskOperations : list string }.
Record ObservabilityConfig : Type := mkObservability { ob_Tracing : TracingConfig; ob_Alerting : AlertingConfig }.
Record YvonneConfig : Type := mkYvonne {
  yc_Mode : string;
  yc_Server : ServerConfig;
  yc_Storage : StorageModeConf;
  yc_Unseal : UnsealModeConf;
  yc_Auth : AuthModeConf;
  yc_Audit : AuditModeConf;
  yc_Logging : LoggingConfig;
  yc_Crypto : CryptoConfig;
  yc_MFA : MFAConfig;
  yc_Observability : ObservabilityConfig;
  yc_MultiTenant : bool;
}.
Definition ModeDev : string := "dev".
Definition ModeCluster : string := "cluster".

Definition role_errors (r : AppRoleEntry) : list string :=
  complain (bool_decide (re_RoleID r = "")) "auth.app_roles.role_id is required" ++
  complain (bool_decide (re_Token r = "")) "auth.app_roles.token is required" ++
  complain (bool_decide (re_AllowedKeys r = [])) "auth.app_roles.allowed_keys is required" ++
  complain (bool_decide (re_AllowedActions r = [])) "auth.app_roles.allowed_actions is required".
Definition unseal_errors (u : UnsealModeConf) : list string :=
  (if bool_decide (um_Type u ∈ ["shamir"; "local_pki"; "hsm"]) then []
   else if bool_decide (um_Type u = "auto") then ["cluster mode must NOT use unseal.type='auto' (dev-only)"]
   else if bool_decide (um_Type u = "") then ["cluster mode requires unseal.type"] else ["cluster mode: unsupported unseal.type"]) ++
  (if bool_decide (um_Type u = "shamir") then
     complain (bool_decide (um_TotalShares u < 2 ∨ 255 < um_TotalShares u)%Z) "shamir total_shares must be in [2,255]" ++
     complain (bool_decide (um_Threshold u < 2 ∨ um_TotalShares u < um_Threshold u)%Z) "shamir threshold must be in [2,total_shares]"
   else []) ++
  complain (bool_decide (um_Type u = "local_pki") && bool_decide (um_PKIKeyPath u = "")) "local_pki requires unseal.pki_key_path".
Definition validateClusterConfig (cfg : YvonneConfig) : result () :=
  let errs :=
    complain (negb (bool_decide (sm_Type (yc_Storage cfg) = "postgres"))) "cluster mode requires storage.type='postgres'" ++
    complain (bool_decide (sm_DSN (yc_Storage cfg) = "")) "cluster mode requires storage.dsn" ++
    unseal_errors (yc_Unseal cfg) ++
    complain (negb (lo_RedactSecrets (yc_Logging cfg))) "cluster mode requires logging.redact_secrets=true" ++
    complain (bool_decide (dm_Dir (yc_Audit cfg) = "")) "cluster mode requires audit.dir (e.g. /var/log/yvonne)" ++
    complain (bool_decide (am_AppRoles (yc_Auth cfg) = [])) "cluster mode requires at least one auth.app_roles entry" ++
    (am_AppRoles (yc_Auth cfg) ≫= role_errors) in
  match errs with [] => Ok tt | _ => Error (Err_wrap "cluster config validation failed" (Err_new (join_errors errs))) end.
Definition ValidateYvonneConfig (cfg : YvonneConfig) : result () :=
  if bool_decide (yc_Mode cfg = ModeDev) then Ok tt
  else if bool_decide (yc_Mode cfg = ModeCluster) then validateClusterConfig cfg
  else Error (Err_new "config: invalid mode").

Definition yvonne_defaults : YvonneConfig :=
  mkYvonne ModeDev
    (mkServer "127.0.0.1" 8200 0 0 0 no_tls (mkAdmin true "127.0.0.1" 8250 "") (mkGRPC false "" 0 no_tls) (mkMCP false false "" 0 "" []))
    (mkStorageM "memory" "") (mkUnsealM "auto" 5 3 "" "" "" "")
    (mkAuthM [] (mkJWTSettings (mkJWTConfig "" "" "" "" [] "") 0 "") (mkK8sSettings false (mkK8sConfig "" [] ∅ "")))
    (mkAuditM "" "" 0 false "") (mkLogging "info" "json" "stdout" true) (mkCryptoC "" false 0 0 "" 0) (mkMFAC false "" 0 [])
    (mkObservability (mkTracing false "" "") (mkAlerting false "" [])) false.
Definition applyYvonneEnvOverrides (env : string → string) (c : YvonneConfig) : YvonneConfig :=
  let u := yc_Unseal c in
  let threshold := if bool_decide (env "YVONNE_UNSEAL_THRESHOLD" = "") then um_Threshold u
                   else default (um_Threshold u) (Sscanf_d (env "YVONNE_UNSEAL_THRESHOLD")) in
  mkYvonne (override (env "YVONNE_MODE") (yc_Mode c)) (yc_Server c)
    (mkStorageM (override (env "YVONNE_STORAGE_TYPE") (sm_Type (yc_Storage c))) (override (env "YVONNE_STORAGE_DSN") (sm_DSN (yc_Storage c))))
    (mkUnsealM (override (env "YVONNE_UNSEAL_TYPE") (um_Type u)) (um_TotalShares u) threshold (um_PKIKeyPath u) (um_AutoResealAfter u) (um_HSMBackend u) (um_HSMKeyID u))
    (yc_Auth c) (yc_Audit c) (yc_Logging c) (yc_Crypto c) (yc_MFA c) (yc_Observability c) (yc_MultiTenant c).
Definition LoadYvonneConfig (read : string → option bytes) (unmarshal : bytes → YvonneConfig → option YvonneConfig) (env : string → string) (path : string) : result YvonneConfig :=
  cfg ← (if bool_decide (path = "") then Ok yvonne_defaults
         else match read path with
              | None => Error (Err_new "read config file")
              | Some raw => match unmarshal raw yvonne_defaults with Some c => Ok c | None => Error (Err_new "parse config file") end
              end);
  let cfg := applyYvonneEnvOverrides env cfg in
  _ ← ValidateYvonneConfig cfg; Ok cfg.

(** ** reload.go *)
Definition mergeHotReloadable (old new : YvonneConfig) : YvonneConfig :=
  mkYvonne (yc_Mode new) (yc_Server old) (yc_Storage old) (yc_Unseal old) (yc_Auth old) (yc_Audit new) (yc_Logging new) (yc_Crypto new)
    (yc_MFA new) (yc_Observability new) (yc_MultiTenant new).
(** [Reload] of the current configuration; a failure keeps it. *)
Definition Reload (load : result YvonneConfig) (current : YvonneConfig) : YvonneConfig * result () :=
  match load with
  | Ok new => (mergeHotReloadable current new, Ok tt)
  | Error e => (current, Error (Err_wrap "config: reload" e))
  | Panic m => (current, Panic m)
  end.
Definition HotReloadableFields : list string := ["logging"; "audit"; "crypto"; "mfa"; "observability"].
Definition ColdReloadFields : list string := ["server"; "storage"; "unseal"; "auth"].

(** ** Redaction of connection strings *)
(** [strings.Index]: the first occurrence. *)
Fixpoint find_sub (sub l : list Ascii.ascii) : option nat :=
  if bool_decide (take (length sub) l = sub) then Some 0
  else match l with [] => None | _ :: l => S <$> find_sub sub l end.
(** [strings.IndexAny(rest, " \t")], the end of the text if there is none *)
Definition blank (ch : Ascii.ascii) : bool := bool_decide (Ascii.nat_of_ascii ch = 32) || bool_decide (Ascii.nat_of_ascii ch = 9).
Fixpoint until_blank (l : list Ascii.ascii) : nat :=
  match l with ch :: l => if blank ch then 0 else S (until_blank l) | [] => 0 end.
Definition scheme_mark : list Ascii.ascii := chars "://".
Definition password_mark : list Ascii.ascii := chars "password=".
Definition redacted : list Ascii.ascii := chars "xxxxx".
Definition regexpReplacePassword (dsn : list Ascii.ascii) : list Ascii.ascii :=
  match find_sub password_mark dsn with
  | None => dsn
  | Some idx =>
      let rest := drop (idx + length password_mark) dsn in
      take (idx + length password_mark) dsn ++ redacted ++ drop (until_blank rest) rest
  end.
(** The URL form: what stands between the first colon after the scheme and the last "@". *)
Definition redact_url (dsn : list Ascii.ascii) : option (list Ascii.ascii) :=
  i ← find_sub scheme_mark dsn;
  atIdx ← last_index (char_of "@") dsn;
  let schemeEnd := i + 3 in
  if bool_decide (schemeEnd < atIdx) then
    userEnd ← index_of_char (char_of ":") (drop schemeEnd dsn);
    Some (take (userEnd + schemeEnd + 1) dsn ++ redacted ++ drop atIdx dsn)
  else None.
Definition redactDSN (dsn : list Ascii.ascii) : list Ascii.ascii :=
  match redact_url dsn with
  | Some r => r
  | None => if bool_decide (is_Some (find_sub password_mark dsn)) then regexpReplacePassword dsn else dsn
  end.
(** [PrintSummary] *)
Definition PrintSummary (c : YvonneConfig) : list Ascii.ascii :=
  chars ("mode=" +:+ yc_Mode c +:+ " storage.type=" +:+ sm_Type (yc_Storage c)) ++
  (if bool_decide (sm_DSN (yc_Storage c) = "") then [] else chars " storage.dsn=" ++ redactDSN (chars (sm_DSN (yc_Storage c)))) ++
  chars (" unseal.type=" +:+ um_Type (yc_Unseal c)) ++
  (if bool_decide (um_Type (yc_Unseal c) = "shamir")
   then chars (" unseal.shamir=" +:+ pretty (um_Threshold (yc_Unseal c)) +:+ "/" +:+ pretty (um_TotalShares (yc_Unseal c))) else []) ++
  chars (" server=" +:+ sv_BindAddr (yc_Server c) +:+ ":" +:+ pretty (sv_BindPort (yc_Server c))).

(** *** Lemmas *)
Lemma find_sub_app sub l k i : find_sub sub l = Some i → find_sub sub (l ++ k) = Some i.
Proof.
  revert i. induction l as [|x l IH]; intros i; simpl.
  - case_bool_decide as E; [|done]. intros [= <-]. destruct sub; [|done]. by destruct k.
  - case_bool_decide as E.
    + intros [= <-]. rw bool_decide_eq_true_2 //. rw -[x :: l ++ k]/((x :: l) ++ k) take_app_le //.
      rw -E length_take. lia.
    + destruct (find_sub sub l) as [j|] eqn:El; [|done]. intros [= <-]. rw (IH j eq_refl).
      case_bool_decide as E'; [|done]. destruct E.
      assert (length sub ≤ length (x :: l)) as Hle.
      { clear -El. revert j El. induction l as [|y l IH]; intros j; simpl; case_bool_decide as E.
        - intros _. rw -E. destruct sub; simpl; lia.
        - done.
        - intros _. apply (f_equal length) in E. rw length_take /= in E. lia.
        - destruct (find_sub sub l) as [j'|] eqn:Ej; [|done]. intros _. specialize (IH j' eq_refl). simpl in *. lia. }
      rw -[x :: l ++ k]/((x :: l) ++ k) take_app_le // in E'.
Qed.
(** A text without the first character of the mark, in front of the mark. *)
Lemma find_sub_skip c sub l k : c ∉ l → find_sub (c :: sub) (l ++ (c :: sub) ++ k) = Some (length l).
Proof.
  intros Hc. induction l as [|x l IH].
  - simpl. rw bool_decide_eq_true_2 //. f_equal. rw take_app_length //.
  - apply not_elem_of_cons in Hc as [Hx Hl]. cbn [app find_sub]. rw bool_decide_eq_false_2; [|by rw (IH Hl)].
    simpl. congruence.
Qed.
Lemma index_of_char_skip c l k : c ∉ l → index_of_char c (l ++ c :: k) = Some (length l).
Proof.
  intros Hc. induction l as [|x l IH]; simpl; [by rw Ascii.eqb_refl|]. apply not_elem_of_cons in Hc as [Hx Hl].
  destruct (Ascii.eqb_spec x c) as [->|]; [done|]. by rw (IH Hl).
Qed.
Lemma last_index_skip c l k : c ∉ k → last_index c (l ++ c :: k) = Some (length l).
Proof.
  intros Hc. rw /last_index. replace (rev (l ++ c :: k)) with (rev k ++ c :: rev l) by (rw rev_app_distr /= -app_assoc //).
  rw index_of_char_skip; [by rw list_elem_of_In -in_rev -list_elem_of_In|]. simpl. f_equal. rw length_app length_rev /=. lia.
Qed.
Lemma until_blank_app p rest : forallb (negb ∘ blank) p = true → (rest = [] ∨ ∃ b r, rest = b :: r ∧ blank b = true) → until_blank (p ++ rest) = length p.
Proof.
  intros Hp Hr. induction p as [|x p IH]; simpl.
  - destruct Hr as [->|(b & r & -> & Hb)]; [done|]. by rw /= Hb.
  - simpl in Hp. apply andb_true_iff in Hp as [Hx%negb_true_iff Hp]. by rw Hx (IH Hp).
Qed.

Lemma redact_url_form scheme user pass rest : char_of ":" ∉ scheme → char_of ":" ∉ user → char_of "@" ∉ rest →
  redactDSN (scheme ++ scheme_mark ++ user ++ char_of ":" :: pass ++ char_of "@" :: rest) =
  scheme ++ scheme_mark ++ user ++ char_of ":" :: redacted ++ char_of "@" :: rest.
Proof.
  intros Hs Hu Hr. rw /redactDSN /redact_url.
  set (dsn := scheme ++ _). assert (find_sub scheme_mark dsn = Some (length scheme)) as -> by by apply find_sub_skip.
  set (front := scheme ++ scheme_mark ++ user ++ char_of ":" :: pass).
  assert (dsn = front ++ char_of "@" :: rest) as Ed by (rw /dsn /front -!app_assoc //).
  assert (last_index (char_of "@") dsn = Some (length front)) as -> by (rw Ed; by apply last_index_skip). cbn [mbind option_bind].
  assert (length front = length scheme + 3 + length user + 1 + length pass) as Hl by (rw /front !length_app /=; lia).
  rw bool_decide_eq_true_2; [lia|].
  assert (drop (length scheme + 3) dsn = user ++ char_of ":" :: pass ++ char_of "@" :: rest) as ->.
  { rw /dsn app_assoc drop_app_length' //. by rw length_app. }
  rw index_of_char_skip // /=. rw {2}Ed drop_app_length //.
  assert (dsn = (scheme ++ scheme_mark ++ user ++ [char_of ":"]) ++ pass ++ char_of "@" :: rest) as -> by (rw /dsn -!app_assoc //).
  rw take_app_length'; [rw !length_app /=; lia|]. by rw -!app_assoc.
Qed.
Lemma redact_pair_form pre pass rest : find_sub password_mark (pre ++ password_mark) = Some (length pre) →
  find_sub scheme_mark (pre ++ password_mark ++ pass ++ rest) = None →
  forallb (negb ∘ blank) pass = true → (rest = [] ∨ ∃ b r, rest = b :: r ∧ blank b = true) →
  redactDSN (pre ++ password_mark ++ pass ++ rest) = pre ++ password_mark ++ redacted ++ rest.
Proof.
  intros Hf Hs Hp Hr. rw /redactDSN /redact_url Hs. cbn [mbind option_bind].
  assert (find_sub password_mark (pre ++ password_mark ++ pass ++ rest) = Some (length pre)) as Hi by (rw app_assoc; by apply find_sub_app).
  rw bool_decide_eq_true_2; [by rw Hi|]. rw /regexpReplacePassword Hi. cbv zeta. rw (app_assoc pre password_mark (pass ++ rest)).
  assert (length pre + length password_mark = length (pre ++ password_mark)) as -> by by rw length_app.
  rw drop_app_length take_app_length until_blank_app // drop_app_length. by rw -!app_assoc.
Qed.

(** Connection strings are printed without their password. In the URL form the printed
    text is the same for every password, with colons and "@" in it too, when the user has
    no colon and the rest no "@". In the form of pairs it is the same for every password
    without blanks that does not make the text contain a scheme mark. *)
Theorem redactDSN_hides : (∀ scheme user pass rest, char_of ":" ∉ scheme → char_of ":" ∉ user → char_of "@" ∉ rest →
    redactDSN (scheme ++ scheme_mark ++ user ++ char_of ":" :: pass ++ char_of "@" :: rest) =
    scheme ++ scheme_mark ++ user ++ char_of ":" :: redacted ++ char_of "@" :: rest) ∧
  (∀ pre pass rest, find_sub password_mark (pre ++ password_mark) = Some (length pre) →
    find_sub scheme_mark (pre ++ password_mark ++ pass ++ rest) = None →
    forallb (negb ∘ blank) pass = true → (rest = [] ∨ ∃ b r, rest = b :: r ∧ blank b = true) →
    redactDSN (pre ++ password_mark ++ pass ++ rest) = pre ++ password_mark ++ redacted ++ rest).
Proof. split; [apply redact_url_form|apply redact_pair_form]. Qed.
Lemma redactDSN_hides_witness : unchars (redactDSN (chars "postgres://kms:p@ss:w@db/kms")) = "postgres://kms:xxxxx@db/kms" ∧
  unchars (redactDSN (chars "host=db password=s3cret user=kms")) = "host=db password=xxxxx user=kms".
Proof.
  destruct redactDSN_hides as [H1 H2]. split.
  - rw -[chars _]/(chars "postgres" ++ scheme_mark ++ chars "kms" ++ char_of ":" :: chars "p@ss:w" ++ char_of "@" :: chars "db/kms").
    rw H1; [refine (bool_decide_unpack _ _); vm_compute; exact I..|reflexivity].
  - rw -[chars _]/(chars "host=db " ++ password_mark ++ chars "s3cret" ++ chars " user=kms").
    rw H2; [reflexivity|reflexivity|reflexivity|right; eexists _, _; split; reflexivity|reflexivity].
Defined.
(** Outside these forms parts of a password are printed: one with blanks, and one that looks
    like an address. *)
Example redaction_leaks :
  unchars (redactDSN (chars "host=db password='my secret' user=kms")) = "host=db password=xxxxx secret' user=kms" ∧
  unchars (redactDSN (chars "host=db password=a://b:c@d user=kms")) = "host=db password=a://b:xxxxx@d user=kms".
Proof. split; vm_compute; reflexivity. Qed.

(** ** What validation promises *)
Lemma complain_nil b msg : complain b msg = [] ↔ b = false.
Proof. by destruct b. Qed.
Lemma errs_ok (errs : list string) ctx : match errs with [] => Ok tt | _ => Error (Err_wrap ctx (Err_new (join_errors errs))) end = Ok tt ↔ errs = [].
Proof. by destruct errs. Qed.

(** The requirements of a role and of an unseal method. *)
Definition role_complete (r : AppRoleEntry) : Prop := re_RoleID r ≠ "" ∧ re_Token r ≠ "" ∧ re_AllowedKeys r ≠ [] ∧ re_AllowedActions r ≠ [].
Definition unseal_legal (u : UnsealModeConf) : Prop :=
  (um_Type u = "shamir" ∧ (2 ≤ um_Threshold u ≤ um_TotalShares u)%Z ∧ (um_TotalShares u ≤ 255)%Z) ∨
  (um_Type u = "local_pki" ∧ um_PKIKeyPath u ≠ "") ∨ um_Type u = "hsm".
Lemma role_errors_nil r : role_errors r = [] ↔ role_complete r.
Proof. rw /role_errors /role_complete !app_nil !complain_nil !bool_decide_eq_false. tauto. Qed.
Lemma unseal_errors_nil u : unseal_errors u = [] ↔ unseal_legal u.
Proof.
  rw /unseal_errors /unseal_legal !app_nil complain_nil. destruct (decide (um_Type u = "shamir")) as [->|Hs].
  { simpl. rw !app_nil !complain_nil !bool_decide_eq_false. naive_solver lia. }
  destruct (decide (um_Type u = "local_pki")) as [->|Hl]; [simpl; rw bool_decide_eq_false; naive_solver|].
  rw (bool_decide_eq_false_2 (um_Type u = "shamir")) // (bool_decide_eq_false_2 (um_Type u = "local_pki")) //=.
  destruct (decide (um_Type u = "hsm")) as [->|Hh]; [naive_solver|].
  rw bool_decide_eq_false_2; [rw !elem_of_cons elem_of_nil; tauto|]. repeat case_bool_decide; naive_solver.
Qed.
Lemma roles_errors_nil rs : rs ≫= role_errors = [] ↔ ∀ r, r ∈ rs → role_complete r.
Proof.
  induction rs as [|r rs IH]; [split; [by intros _ r ?%elem_of_nil|done]|].
  rw bind_cons app_nil IH role_errors_nil. setoid_rewrite elem_of_cons. naive_solver.
Qed.

(** The cluster configurations that may start. *)
Definition cluster_ready (c : YvonneConfig) : Prop :=
  sm_Type (yc_Storage c) = "postgres" ∧ sm_DSN (yc_Storage c) ≠ "" ∧ unseal_legal (yc_Unseal c) ∧
  lo_RedactSecrets (yc_Logging c) = true ∧ dm_Dir (yc_Audit c) ≠ "" ∧
  am_AppRoles (yc_Auth c) ≠ [] ∧ ∀ r, r ∈ am_AppRoles (yc_Auth c) → role_complete r.
Lemma Validate_iff c : ValidateYvonneConfig c = Ok tt ↔ yc_Mode c = ModeDev ∨ (yc_Mode c = ModeCluster ∧ cluster_ready c).
Proof.
  rw /ValidateYvonneConfig. case_bool_decide as Hd; [naive_solver|]. case_bool_decide as Hc; [|naive_solver].
  rw /validateClusterConfig errs_ok /cluster_ready. set (ue := unseal_errors (yc_Unseal c)).
  assert (ue = [] ↔ unseal_legal (yc_Unseal c)) as Hue by apply unseal_errors_nil. clearbody ue.
  rw !app_nil !complain_nil Hue roles_errors_nil !negb_false_iff !bool_decide_eq_false !bool_decide_eq_true.
  naive_solver.
Qed.
Lemma Load_iff read unmarshal env path cfg : LoadYvonneConfig read unmarshal env path = Ok cfg ↔
  ∃ c0, (path = "" ∧ c0 = yvonne_defaults ∨ path ≠ "" ∧ ∃ raw, read path = Some raw ∧ unmarshal raw yvonne_defaults = Some c0) ∧
    cfg = applyYvonneEnvOverrides env c0 ∧ ValidateYvonneConfig cfg = Ok tt.
Proof.
  rw /LoadYvonneConfig. split.
  - intros (c0 & H0 & Hx)%result_bind_ok. apply result_bind_ok in Hx as ([] & Hv & [= <-]). exists c0. split; [|done].
    case_bool_decide as Hp; [injection H0 as <-; by left|right]. split; [done|]. destruct (read path) as [raw|]; [|done].
    exists raw. split; [done|]. destruct (unmarshal raw yvonne_defaults); by simplify_eq/=.
  - intros (c0 & Hc & -> & Hv). assert ((if bool_decide (path = "") then Ok yvonne_defaults
         else match read path with
              | None => Error (Err_new "read config file")
              | Some raw => match unmarshal raw yvonne_defaults with Some c => Ok c | None => Error (Err_new "parse config file") end
              end) = Ok c0) as ->.
    { destruct Hc as [[-> ->]|(Hp & raw & Hr & Hu)]; [done|]. by rw bool_decide_eq_false_2 // Hr Hu. }
    cbn. by rw Hv.
Qed.

(** C31: what a validated configuration guarantees. [ValidateYvonneConfig] accepts
    exactly the development mode and the cluster configurations with a PostgreSQL store
    and its connection string, a legal unseal method (Shamir with a legal threshold, a local
    key file, or an HSM), redacted logs, an audit directory, and at least one role, each with
    an id, a token, keys and actions. [LoadYvonneConfig] answers with a configuration exactly
    when the file can be read and parsed (or none is named) and the values it and the
    environment give are valid in that sense, and with those values. So a cluster that was
    loaded with Shamir unsealing can always deal its key: [Split] succeeds on the configured
    numbers. *)
Theorem validation_exact cfg :
  (ValidateYvonneConfig cfg = Ok tt ↔ yc_Mode cfg = ModeDev ∨ (yc_Mode cfg = ModeCluster ∧ cluster_ready cfg)) ∧
  (∀ read unmarshal env path, LoadYvonneConfig read unmarshal env path = Ok cfg ↔
    ∃ c0, (path = "" ∧ c0 = yvonne_defaults ∨ path ≠ "" ∧ ∃ raw, read path = Some raw ∧ unmarshal raw yvonne_defaults = Some c0) ∧
      cfg = applyYvonneEnvOverrides env c0 ∧ (yc_Mode cfg = ModeDev ∨ (yc_Mode cfg = ModeCluster ∧ cluster_ready cfg))) ∧
  (∀ read unmarshal env path sb e, LoadYvonneConfig read unmarshal env path = Ok cfg → yc_Mode cfg = ModeCluster → um_Type (yc_Unseal cfg) = "shamir" →
    live sb → sb_data sb ≠ [] → (Z.of_nat (length (sb_data sb)) * (um_Threshold (yc_Unseal cfg) - 1) ≤ Z.of_nat (length e))%Z →
    ∃ e' shares, Split (Some sb) (um_TotalShares (yc_Unseal cfg)) (um_Threshold (yc_Unseal cfg)) e = (e', Ok shares) ∧
      length shares = Z.to_nat (um_TotalShares (yc_Unseal cfg))).
Proof.
  split; [apply Validate_iff|]. split; [intros; rewrite Load_iff; by setoid_rewrite Validate_iff|]. intros read unmarshal env path sb e Hload Hm Hs Hl Hne He.
  apply Load_iff in Hload as (_ & _ & _ & Hload). apply Validate_iff in Hload as [Hv|(_ & _ & _ & Hu & _)]; [rw Hv in Hm; done|].
  destruct Hu as [(_ & Ht & Hp)|[[Hu _]|Hu]]; [|rw Hs in Hu; done..].
  destruct (Split_total sb _ _ e Hl Hne Ht Hp He) as (e' & shares & HS & Hx & _). exists e', shares. split; [done|].
  apply (f_equal length) in Hx. rw !length_fmap length_seq in Hx. done.
Qed.

Definition demo_cluster : YvonneConfig :=
  mkYvonne ModeCluster (yc_Server yvonne_defaults) (mkStorageM "postgres" "postgres://kms:pw@db/kms") (mkUnsealM "shamir" 5 3 "" "" "" "")
    (mkAuthM [mkRoleEntry "app" "t" ["order-*"] ["Encrypt"] ""] (am_JWT (yc_Auth yvonne_defaults)) (am_K8s (yc_Auth yvonne_defaults)))
    (mkAuditM "/var/log/yvonne" "" 0 false "") (yc_Logging yvonne_defaults) (yc_Crypto yvonne_defaults) (yc_MFA yvonne_defaults)
    (yc_Observability yvonne_defaults) false.
Definition load_as (c : YvonneConfig) (env : string → string) : result YvonneConfig := LoadYvonneConfig (λ _, Some []) (λ _ _, Some c) env "/etc/yvonne.json".
Lemma validation_exact_witness : ∃ e' shares,
  Split (Some (mkSB [x01; x02] false)) 5 3 [x01; x02; x03; x04] = (e', Ok shares) ∧ length shares = 5.
Proof.
  destruct (validation_exact demo_cluster) as (_ & _ & H).
  apply (H (λ _, Some []) (λ _ _, Some demo_cluster) (λ _, "") "/etc/yvonne.json" (mkSB [x01; x02] false) [x01; x02; x03; x04]).
  - reflexivity.
  - reflexivity.
  - reflexivity.
  - reflexivity.
  - discriminate.
  - vm_compute. discriminate.
Defined.

(** ** Reloading *)
(** A reload mixes the mode of the new file with the stores and roles of the old one, and
    does not validate the result: a server started in development mode can come out of a
    reload in cluster mode with the memory store, which no start would accept. *)
Example reload_breaks_validity :
  let '(c, r) := Reload (load_as demo_cluster (λ _, "")) yvonne_defaults in
  r = Ok tt ∧ yc_Mode c = ModeCluster ∧ sm_Type (yc_Storage c) = "memory" ∧ is_ok (ValidateYvonneConfig c) = false.
Proof. vm_compute. split_and!; reflexivity. Qed.

(** ** Strict mode *)
(** Strict mode asks for an SM2 signing method, which the list of legal methods does not
    have: a strict configuration is only valid with JWT switched off, and the defaults
    with their method never are. *)
Lemma strict_excludes_jwt cfg : Validate cfg = Ok tt → cr_Strict (sc_Crypto cfg) = true → jc_SigningMethod (js_config (au_JWT (sc_Auth cfg))) = "".
Proof.
  rw /Validate errs_ok !app_nil. intros (_ & _ & _ & _ & (_ & _ & Hm & _) & _ & _ & _ & Hs) Hst.
  rw complain_nil negb_false_iff bool_decide_eq_true in Hm. rw Hst !app_nil in Hs. destruct Hs as (_ & Hs). rw complain_nil in Hs.
  apply elem_of_cons in Hm as [->|Hm]; [done|]. exfalso. revert Hs. generalize dependent (jc_SigningMethod (js_config (au_JWT (sc_Auth cfg)))).
  intros m Hm. repeat (apply elem_of_cons in Hm as [->|Hm]; [done|]). by apply elem_of_nil in Hm.
Qed.
Example prefix_of_a_number : yc_Unseal <$> match load_as demo_cluster (λ v, if bool_decide (v = "YVONNE_UNSEAL_THRESHOLD") then "4 of 5" else "") with Ok c => Some c | _ => None end =
  Some (mkUnsealM "shamir" 5 4 "" "" "" "").
Proof. vm_compute. reflexivity. Qed.
