(* ===== verification/Backends.v ===== *)
(** The byte-keyed backends, [src/internal/storage/backend.go] with its two implementations
    [boltdb.go] and [postgres.go] and their choice in [factory.go]. The B+tree of bbolt and the
    primary key of PostgreSQL are a class of ordered tables with the documented behaviour of
    their calls; both backends are proved to keep the contract of the interface. *)

From stdpp Require Import sorting fin_maps.
From S2P Require Import Prelude Hash Store Settings.

(** ** Byte order *)
Fixpoint bytes_ltb (a b : bytes) : bool :=
  match a, b with
  | _, [] => false
  | [], _ :: _ => true
  | x :: a, y :: b => (b2z x <? b2z y)%Z || (bool_decide (x = y) && bytes_ltb a b)
  end.
Definition blt (a b : bytes) : Prop := bytes_ltb a b = true.
(** [hasPrefix]: the lengths, then byte by byte. *)
Definition hasPrefix (b prefix : bytes) : bool :=
  if length b <? length prefix then false
  else forallb (λ ip, bool_decide (b !! ip.1 = Some ip.2)) (imap pair prefix).
(** [nextPrefix]: the last byte that is not 0xff is raised and what follows it dropped; without
    one there is no bound ([nil]). *)
Fixpoint nextPrefix_loop (i : nat) (end_ : bytes) : option bytes :=
  match i with
  | O => None
  | S i => match end_ !! i with
           | Some b => if bool_decide (b = xff) then nextPrefix_loop i end_
                       else Some (take (S i) (<[i := z2b (b2z b + 1)]> end_))
           | None => None
           end
  end.
Definition nextPrefix (prefix : bytes) : option bytes :=
  match prefix with [] => None | _ => nextPrefix_loop (length prefix) prefix end.

(** ** The interface *)
Definition KVItem : Type := bytes * bytes.
Inductive OpKind : Type := OpPut | OpDelete | OpOther (n : Z).
Record Op : Type := mkOp { op_Kind : OpKind; op_Key : bytes; op_Value : bytes }.
Class Backend (S : Type) : Type := {
  be_Get : bytes → M S bytes;
  be_Put : bytes → bytes → M S ();
  be_Delete : bytes → M S ();
  be_ScanPrefix : bytes → M S (list KVItem);
  be_Batch : list Op → M S ();
}.

(** What the comments of the interface promise, on the finite map of the stored values: an empty
    value is a deletion, and a batch is all or nothing. *)
Definition spec_put (k v : bytes) (m : gmap bytes bytes) : gmap bytes bytes :=
  match v with [] => delete k m | _ => <[k := v]> m end.
Definition spec_op (m : gmap bytes bytes) (op : Op) : gmap bytes bytes :=
  match op_Kind op with OpPut => spec_put (op_Key op) (op_Value op) m | OpDelete => delete (op_Key op) m | OpOther _ => m end.
Definition spec_batch (ops : list Op) (m : gmap bytes bytes) : gmap bytes bytes := foldl spec_op m ops.
(** The items of a scan: those whose key has the prefix, in byte order. *)
Definition scan_of (p : bytes) (m : gmap bytes bytes) (items : list KVItem) : Prop :=
  Sorted blt items.*1 ∧ ∀ k v, (k, v) ∈ items ↔ m !! k = Some v ∧ p `prefix_of` k.
(** A write that reports success happened; one that fails may have happened (the answer to a
    commit can be lost), but never in part. *)
Definition atomically {A} (r : result A) (f : gmap bytes bytes → gmap bytes bytes) (m m' : gmap bytes bytes) : Prop :=
  match r with Ok _ => m' = f m | _ => m' = m ∨ m' = f m end.
Class BackendLaws (S : Type) `{!Backend S} (contents : S → gmap bytes bytes) : Prop := {
  get_law k s s' r : be_Get k s = (s', r) → contents s' = contents s ∧
    match r with Ok v => contents s !! k = Some v | Error e => e = ErrNotFound → contents s !! k = None | Panic _ => False end;
  put_law k v s s' r : be_Put k v s = (s', r) → atomically r (spec_put k v) (contents s) (contents s');
  delete_law k s s' r : be_Delete k s = (s', r) → atomically r (delete k) (contents s) (contents s');
  batch_law ops s s' r : be_Batch ops s = (s', r) → atomically r (spec_batch ops) (contents s) (contents s');
  scan_law p s s' r : be_ScanPrefix p s = (s', r) → contents s' = contents s ∧
    ∀ items, r = Ok items → is_Some (nextPrefix p) → scan_of p (contents s) items;
}.

(** ** Ordered tables *)
(** A bucket of bbolt, or the table [yvonne_kv]: its rows in key order, and writes that either
    take effect or are refused (bbolt refuses empty and oversized keys and oversized values) and
    then change nothing. *)
Class Table (T : Type) : Type := {
  t_empty : T;
  t_rows : T → list KVItem;
  t_put : bytes → bytes → M T ();
  t_delete : bytes → M T ();
}.
Definition t_map `{!Table T} (t : T) : gmap bytes bytes := list_to_map (t_rows t).
Class TableLaws (T : Type) `{!Table T} : Prop := {
  t_empty_law : t_rows t_empty = [];
  t_sorted t : Sorted blt (t_rows t).*1;
  t_put_law k v t t' r : t_put k v t = (t', r) → t_map t' = match r with Ok _ => <[k := v]> (t_map t) | _ => t_map t end ∧ ∀ m, r ≠ Panic m;
  t_delete_law k t t' r : t_delete k t = (t', r) → t_map t' = match r with Ok _ => delete k (t_map t) | _ => t_map t end ∧ ∀ m, r ≠ Panic m;
}.

(** ** boltdb.go *)
Module Bolt.
Section Bolt.
Context {T : Type} `{!Table T}.
(** The database: its top-level buckets by name, whether it is open, and what the disk does with
    the coming commits. *)
Record DB : Type := mkDB { db_buckets : gmap bytes T; db_open : bool; db_fates : list fate }.
Record BoltBackend : Type := mkBolt { db : DB; root : bytes }.
Definition set_db (d : DB) (b : BoltBackend) : BoltBackend := mkBolt d (root b).
Definition errNotOpen : error := Err_new "database not open".
(** [db.View]: a read-only transaction. *)
Definition View {A} (fn : gmap bytes T → result A) (d : DB) : result A :=
  if db_open d then fn (db_buckets d) else Error errNotOpen.
(** [db.Update]: the closure works on a copy that is committed when it returns no error. *)
Definition Update (fn : M (gmap bytes T) ()) (d : DB) : DB * result () :=
  if db_open d then
    match fn (db_buckets d) with
    | (bs, Ok _) =>
        match next_fate (db_fates d) with
        | (Works, fs) => (mkDB bs true fs, Ok tt)
        | (Fails, fs) => (mkDB (db_buckets d) true fs, Error (Err_new "write error"))
        | (Lost, fs) => (mkDB bs true fs, Error (Err_new "sync error"))
        end
    | (_, r) => (d, r)
    end
  else (d, Error errNotOpen).
Definition onDB (f : DB → DB * result ()) : M BoltBackend () := fun b => let '(d, r) := f (db b) in (set_db d b, r).
(** [tx.CreateBucketIfNotExists], and a write to that bucket. *)
Definition CreateBucketIfNotExists (name : bytes) : M (gmap bytes T) T := fun bs =>
  match name with
  | [] => (bs, Error (Err_new "bucket name required"))
  | _ => match bs !! name with Some t => (bs, Ok t) | None => (<[name := t_empty]> bs, Ok t_empty) end
  end.
Definition in_bucket (name : bytes) (f : M T ()) : M (gmap bytes T) () := fun bs =>
  match bs !! name with None => (bs, Ok tt) | Some t => let '(t, r) := f t in (<[name := t]> bs, r) end.

Definition NewBoltBackend (open : DB + error) (path rootBucket : string) : option DB * result BoltBackend :=
  if bool_decide (path = "") then (None, Error (Err_new "boltdb: path required"))
  else if bool_decide (rootBucket = "") then (None, Error (Err_new "boltdb: root bucket required"))
  else match open with
       | inr e => (None, Error (Err_wrap "boltdb: open" e))
       | inl d =>
           match Update (_ ← CreateBucketIfNotExists (str_bytes rootBucket); mret tt) d with
           | (d, Ok _) => (Some d, Ok (mkBolt d (str_bytes rootBucket)))
           | (d, r) => (Some (mkDB (db_buckets d) false (db_fates d)), _ ← wrap_err "boltdb: create root bucket" r; Error errNotOpen)
           end
       end.
Definition Get (keyName : bytes) : M BoltBackend bytes := fun b =>
  (b, match View (λ bs, match bs !! root b with
                        | None => Error ErrNotFound
                        | Some bk => match t_map bk !! keyName with None => Error ErrNotFound | Some v => Ok v end
                        end) (db b) with
      | Error e => if errors_Is e ErrNotFound then Error ErrNotFound else Error (Err_wrap "boltdb: get" e)
      | r => r
      end).
Definition Delete (keyName : bytes) : M BoltBackend () := fun b =>
  onDB (Update (in_bucket (root b) (t_delete keyName))) b.
Definition Put (keyName value : bytes) : M BoltBackend () := fun b =>
  match value with
  | [] => Delete keyName b
  | _ => onDB (Update (_ ← CreateBucketIfNotExists (root b); in_bucket (root b) (t_put keyName value))) b
  end.
(** [c.Seek(prefix)] stops at the first key that is not below the prefix; the loop goes on while
    the key has it. *)
Fixpoint seek (prefix : bytes) (rows : list KVItem) : list KVItem :=
  match rows with [] => [] | kv :: rest => if bytes_ltb kv.1 prefix then seek prefix rest else rows end.
Fixpoint scan_loop (prefix : bytes) (cursor : list KVItem) : list KVItem :=
  match cursor with [] => [] | kv :: rest => if hasPrefix kv.1 prefix then kv :: scan_loop prefix rest else [] end.
Definition ScanPrefix (prefix : bytes) : M BoltBackend (list KVItem) := fun b =>
  (b, wrap_err "boltdb: scan prefix"
        (View (λ bs, match bs !! root b with None => Ok [] | Some bk => Ok (scan_loop prefix (seek prefix (t_rows bk))) end) (db b))).
Definition batch_op (op : Op) : M T () :=
  match op_Kind op with
  | OpPut => match op_Value op with [] => t_delete (op_Key op) | _ => t_put (op_Key op) (op_Value op) end
  | OpDelete => t_delete (op_Key op)
  | OpOther _ => throw (Err_new "boltdb: unknown op kind")
  end.
Fixpoint batch_loop (ops : list Op) : M T () :=
  match ops with [] => mret tt | op :: ops => batch_op op;; batch_loop ops end.
Definition Batch (ops : list Op) : M BoltBackend () := fun b =>
  onDB (Update (_ ← CreateBucketIfNotExists (root b); in_bucket (root b) (batch_loop ops))) b.
Definition Close (b : BoltBackend) : BoltBackend := set_db (mkDB (db_buckets (db b)) false (db_fates (db b))) b.

#[global] Instance Bolt_Backend : Backend BoltBackend :=
  {| be_Get := Get; be_Put := Put; be_Delete := Delete; be_ScanPrefix := ScanPrefix; be_Batch := Batch |}.
Definition contents (b : BoltBackend) : gmap bytes bytes := from_option t_map ∅ (db_buckets (db b) !! root b).
End Bolt.
End Bolt.

(** ** postgres.go *)
Module Pgx.
Section Pgx.
Context {T : Type} `{!Table T}.
(** The connection: the table [yvonne_kv], whether it is open, and how the coming round trips
    end. *)
Record PostgresBackend : Type := mkPgx { table : T; conn_open : bool; fates : list fate }.
Definition set_table (t : T) (p : PostgresBackend) : PostgresBackend := mkPgx t (conn_open p) (fates p).
Definition errPgx : error := Err_new "pgx".
Definition trip (p : PostgresBackend) : fate * PostgresBackend :=
  if conn_open p then let '(f, fs) := next_fate (fates p) in (f, mkPgx (table p) true fs) else (Fails, p).
(** A statement outside a transaction. *)
Definition Exec (f : M T ()) : M PostgresBackend () := fun p =>
  match trip p with
  | (Fails, p) => (p, Error errPgx)
  | (Works, p) => let '(t, r) := f (table p) in (set_table t p, r)
  | (Lost, p) => let '(t, r) := f (table p) in (set_table t p, _ ← r; Error errPgx)
  end.
(** A round trip that changes nothing: a query, opening a transaction. *)
Definition Query {A} (a : T → A) : M PostgresBackend A := fun p =>
  match trip p with
  | (Works, p) => (p, Ok (a (table p)))
  | (_, p) => (p, Error errPgx)
  end.
Definition NewPostgresBackend (connect : PostgresBackend + error) (dsn : string) : option PostgresBackend * result PostgresBackend :=
  if bool_decide (dsn = "") then (None, Error (Err_new "postgres: dsn required"))
  else match connect with
       | inr e => (None, Error (Err_wrap "postgres: connect" e))
       | inl p => let '(p, r) := Exec (mret tt) p in (Some p, _ ← wrap_err "postgres: ensure schema" r; Ok p)
       end.
Definition Get (keyName : bytes) : M PostgresBackend bytes := fun p =>
  match Query (λ t, t_map t !! keyName) p with
  | (p, Ok None) => (p, Error ErrNotFound)
  | (p, Ok (Some v)) => (p, Ok v)
  | (p, Error e) => (p, Error (Err_wrap "postgres: get" e))
  | (p, Panic m) => (p, Panic m)
  end.
Definition Delete (keyName : bytes) : M PostgresBackend () := wrapM "postgres: delete" (Exec (t_delete keyName)).
Definition Put (keyName value : bytes) : M PostgresBackend () :=
  match value with [] => Delete keyName | _ => wrapM "postgres: put" (Exec (t_put keyName value)) end.
(** [WHERE k >= $1 AND k < $2 ORDER BY k]; without a bound the second parameter is NULL, and the
    comparison with NULL holds for no row. *)
Definition in_range (prefix : bytes) (prefixEnd : option bytes) (k : bytes) : bool :=
  negb (bytes_ltb k prefix) && match prefixEnd with Some e => bytes_ltb k e | None => false end.
Definition ScanPrefix (prefix : bytes) : M PostgresBackend (list KVItem) :=
  rows ← wrapM "postgres: scan prefix"
    (Query (λ t, filter (λ kv, in_range prefix (nextPrefix prefix) kv.1 = true) (t_rows t)));
  wrapM "postgres: rows iter" (Query (λ _, tt));;
  mret rows.
(** A statement of the transaction works on the transaction's view of the table, kept beside the
    connection. *)
Definition tx_exec (ctx : string) (f : M T ()) : M (T * PostgresBackend) () := wrapM ctx (fun '(t, p) =>
  match trip p with
  | (Works, p) => let '(t, r) := f t in ((t, p), r)
  | (_, p) => ((t, p), Error errPgx)
  end).
Definition batch_op (op : Op) : M (T * PostgresBackend) () :=
  match op_Kind op with
  | OpPut => match op_Value op with
             | [] => tx_exec "postgres: batch delete" (t_delete (op_Key op))
             | _ => tx_exec "postgres: batch put" (t_put (op_Key op) (op_Value op))
             end
  | OpDelete => tx_exec "postgres: batch delete" (t_delete (op_Key op))
  | OpOther _ => throw (Err_new "postgres: unknown op kind")
  end.
Fixpoint batch_loop (ops : list Op) : M (T * PostgresBackend) () :=
  match ops with [] => mret tt | op :: ops => batch_op op;; batch_loop ops end.
(** Begin, the loop, commit; every other way out is rolled back by the deferred call. *)
Definition Batch (ops : list Op) : M PostgresBackend () := fun p =>
  match Query (λ _, tt) p with
  | (p, Ok _) =>
      match batch_loop ops (table p, p) with
      | ((t, p), Ok _) =>
          match trip p with
          | (Works, p) => (set_table t p, Ok tt)
          | (Fails, p) => (p, Error (Err_wrap "postgres: commit" errPgx))
          | (Lost, p) => (set_table t p, Error (Err_wrap "postgres: commit" errPgx))
          end
      | ((_, p), r) => (p, r)
      end
  | (p, r) => (p, wrap_err "postgres: begin tx" r)
  end.
Definition Close (p : PostgresBackend) : PostgresBackend := mkPgx (table p) false (fates p).

#[global] Instance Pgx_Backend : Backend PostgresBackend :=
  {| be_Get := Get; be_Put := Put; be_Delete := Delete; be_ScanPrefix := ScanPrefix; be_Batch := Batch |}.
Definition contents (p : PostgresBackend) : gmap bytes bytes := t_map (table p).
End Pgx.
End Pgx.

(** ** factory.go *)
Definition New `{!Table T} (open : Bolt.DB (T := T) + error) (connect : Pgx.PostgresBackend (T := T) + error) (cfg : StorageConfig) :
    result (Bolt.BoltBackend (T := T) + Pgx.PostgresBackend (T := T)) :=
  if bool_decide (st_Backend cfg = "boltdb") then b ← (Bolt.NewBoltBackend open (st_Path cfg) "yvonne").2; Ok (inl b)
  else if bool_decide (st_Backend cfg = "postgres") then p ← (Pgx.NewPostgresBackend connect (st_DSN cfg)).2; Ok (inr p)
  else Error (Err_new "storage: unsupported backend").

(** ** The byte order *)
Lemma bytes_ltb_irrefl a : bytes_ltb a a = false.
Proof. induction a as [|x a IH]; [done|]. rw /= IH Z.ltb_irrefl andb_false_r. done. Qed.
Lemma bytes_ltb_cons x y a b : bytes_ltb (x :: a) (y :: b) = true ↔ (b2z x < b2z y)%Z ∨ x = y ∧ bytes_ltb a b = true.
Proof. rw /= orb_true_iff andb_true_iff Z.ltb_lt bool_decide_eq_true. done. Qed.
#[export] Instance blt_trans : Transitive blt.
Proof.
  rw /blt. intros a. induction a as [|x a IH]; intros [|y b] [|z c] H1 H2; try done.
  apply bytes_ltb_cons in H1. apply bytes_ltb_cons in H2. apply bytes_ltb_cons.
  destruct H1 as [?|[-> ?]], H2 as [?|[-> ?]]; [left; lia|by left|by left|right; eauto].
Qed.
Lemma hasPrefix_spec b p : hasPrefix b p = true ↔ p `prefix_of` b.
Proof.
  rw /hasPrefix. destruct (Nat.ltb_spec (length b) (length p)) as [Hl|Hl].
  { split; [done|]. intros Hp%prefix_length. lia. }
  rw -Is_true_true forallb_True. revert b Hl. induction p as [|x p IH]; intros b Hl; [split; [intros _; apply prefix_nil|done]|].
  destruct b as [|y b]; [simpl in Hl; lia|]. rw imap_cons list.Forall_cons /= bool_decide_spec.
  assert (Forall (λ ip : nat * byte, bool_decide ((y :: b) !! ip.1 = Some ip.2)) (imap (pair ∘ S) p) ↔
          Forall (λ ip : nat * byte, bool_decide (b !! ip.1 = Some ip.2)) (imap pair p)) as ->.
  { rw !Forall_lookup. setoid_rewrite list_lookup_imap. split; intros H i [j z]; specialize (H i).
    - rw fmap_Some. intros (w & Hw & [= -> ->]). rw Hw /= in H. apply (H (S i, w)). done.
    - rw fmap_Some. intros (w & Hw & [= -> ->]). rw Hw /= in H. apply (H (i, w)). done. }
  rw IH; [simpl in Hl; lia|]. split.
  - intros [[= ->] ?]. by apply prefix_cons.
  - intros H. rw (prefix_cons_inv_1 _ _ _ _ H). eauto using prefix_cons_inv_2.
Qed.
Lemma prefix_not_below p k : p `prefix_of` k → bytes_ltb k p = false.
Proof. intros [t ->]. induction p as [|x p IH]; [by destruct t|]. rw /= IH Z.ltb_irrefl andb_false_r. done. Qed.
Lemma bytes_ltb_cons_false x y a b : bytes_ltb (x :: a) (y :: b) = false ↔ ¬ (b2z x < b2z y)%Z ∧ (x = y → bytes_ltb a b = false).
Proof. rw -not_true_iff_false bytes_ltb_cons. destruct (bytes_ltb a b); naive_solver. Qed.
(** The keys with a prefix are an interval. *)
Lemma prefix_convex p k k' : bytes_ltb k p = false → blt k k' → p `prefix_of` k' → p `prefix_of` k.
Proof.
  revert k k'. induction p as [|x p IH]; intros k k' Hlow Hlt [t ->]; [apply prefix_nil|].
  destruct k as [|y k]; [done|]. apply bytes_ltb_cons_false in Hlow as [H1 H2]. apply bytes_ltb_cons in Hlt as [?|[-> ?]]; [done|].
  apply prefix_cons, (IH _ (p ++ t)); [by apply H2|done|]. by apply prefix_app_r.
Qed.
Lemma filter_none {A} (P : A → Prop) `{!∀ x, Decision (P x)} (l : list A) : (∀ x, x ∈ l → ¬ P x) → filter P l = [].
Proof.
  induction l as [|x l IH]; intros Hn; [done|]. rw filter_cons_False; [apply Hn; by left|].
  apply IH. intros y Hy. apply Hn. by right.
Qed.
Lemma Sorted_blt_cons (k : bytes) ks : Sorted blt (k :: ks) → Sorted blt ks ∧ ∀ k', k' ∈ ks → blt k k'.
Proof. intros Hs%Sorted_StronglySorted; [|apply _]. inversion Hs; subst. split; [by apply StronglySorted_Sorted|]. exact (proj1 (list.Forall_forall (blt k) ks) H2). Qed.
(** The cursor loop of bbolt finds all the keys with the prefix. *)
Lemma cursor_scan p rows : Sorted blt rows.*1 →
  Bolt.scan_loop p (Bolt.seek p rows) = filter (λ kv, hasPrefix kv.1 p = true) rows.
Proof.
  induction rows as [|[k v] rows IH]; intros Hs; [done|]. rw fmap_cons /= in Hs. apply Sorted_blt_cons in Hs as [Hs Hlt]. rw /=.
  destruct (bytes_ltb k p) eqn:Hk.
  { rw filter_cons_False ?IH //=. intros Hp%hasPrefix_spec%prefix_not_below. congruence. }
  assert (∀ kv, kv ∈ rows → bytes_ltb kv.1 p = false ∧ (p `prefix_of` kv.1 → p `prefix_of` k)) as Hin.
  { intros kv Hkv. assert (blt k kv.1) by (apply Hlt, list_elem_of_fmap; eauto). split; [|by apply prefix_convex].
    apply not_true_iff_false. intros Hb. pose proof (blt_trans _ _ _ H Hb : bytes_ltb k p = true). congruence. }
  rw /=. destruct (hasPrefix k p) eqn:Hp.
  - rw filter_cons_True //. f_equal. rw -IH //. destruct rows as [|kv rest]; [done|]. rw /=. by rw (proj1 (Hin kv (list_elem_of_here _ _))).
  - rw filter_cons_False; [rw /=; congruence|]. symmetry. apply filter_none. intros kv Hkv Hc%hasPrefix_spec.
    apply (Hin kv) in Hc; [|done]. apply hasPrefix_spec in Hc. congruence.
Qed.

(** The bound of the range scan. *)
Lemma nextPrefix_loop_shape i p e : i ≤ length p → drop i p = replicate (length p - i) xff → nextPrefix_loop i p = Some e →
  ∃ q b n, p = q ++ b :: replicate n xff ∧ b ≠ xff ∧ e = q ++ [z2b (b2z b + 1)].
Proof.
  induction i as [|i IH]; intros Hi Hd H; [done|]. rw /= in H. destruct (p !! i) as [b|] eqn:Hb; [|done]. case_bool_decide as Hf.
  - subst b. apply IH; [lia| |done]. rw (drop_S _ _ _ Hb) Hd. replace (length p - i) with (S (length p - S i)) by lia. done.
  - injection H as <-. exists (take i p), b, (length p - S i). split; [|split; [done|]].
    + rw -Hd. symmetry. by apply take_drop_middle.
    + rw (take_S_r _ _ (z2b (b2z b + 1))); [by rw list_lookup_insert_eq; [lia|]|]. by rw take_insert_ge.
Qed.
Lemma nextPrefix_shape p e : nextPrefix p = Some e → ∃ q b n, p = q ++ b :: replicate n xff ∧ b ≠ xff ∧ e = q ++ [z2b (b2z b + 1)].
Proof. destruct p as [|x p]; [done|]. apply nextPrefix_loop_shape; [done|]. by rw drop_all Nat.sub_diag. Qed.
Lemma above_ff n k : bytes_ltb k (replicate n xff) = false → replicate n xff `prefix_of` k.
Proof.
  revert k. induction n as [|n IH]; intros k; [intros _; apply prefix_nil|]. destruct k as [|x k]; [done|]. rw replicate_S.
  intros [H1 H2]%bytes_ltb_cons_false. assert (x = xff) as ->.
  { apply b2z_inj. pose proof (b2z_range x). change (b2z xff) with 255%Z in *. lia. }
  by apply prefix_cons, IH, H2.
Qed.
Lemma range_is_prefix p e k : nextPrefix p = Some e → Pgx.in_range p (Some e) k = hasPrefix k p.
Proof.
  intros (q & b & n & -> & Hb & ->)%nextPrefix_shape. apply eq_true_iff_eq. rw hasPrefix_spec /Pgx.in_range andb_true_iff negb_true_iff.
  assert (b2z (z2b (b2z b + 1)) = b2z b + 1)%Z as Hn.
  { rw b2z_z2b. pose proof (b2z_range b). assert (b2z b ≠ 255%Z) by (intros E; apply Hb, b2z_inj; done). apply Z.mod_small. lia. }
  revert k. induction q as [|x q IH]; intros [|y k].
  - split; [by intros []|intros [? ?]; done].
  - rw !app_nil_l bytes_ltb_cons_false bytes_ltb_cons Hn. split.
    + intros [[H1 H2] [H3|[_ H3]]]; [|by destruct k]. assert (y = b) as -> by (apply b2z_inj; lia). by apply prefix_cons, above_ff, H2.
    + intros Hp. pose proof (prefix_cons_inv_1 _ _ _ _ Hp) as ->. apply prefix_cons_inv_2 in Hp. split; [|left; lia].
      split; [lia|]. intros _. by apply prefix_not_below.
  - split; [by intros []|intros [? ?]; done].
  - rw /= -/(app q _) . specialize (IH k). rw -/(bytes_ltb (y :: k) (x :: q ++ b :: replicate n xff)) -/(bytes_ltb (y :: k) (x :: q ++ [z2b (b2z b + 1)])).
    rw bytes_ltb_cons_false bytes_ltb_cons. split.
    + intros [[H1 H2] [H3|[-> H3]]]; [done|]. apply prefix_cons, IH. by split; [apply H2|].
    + intros Hp. pose proof (prefix_cons_inv_1 _ _ _ _ Hp) as ->. apply prefix_cons_inv_2, IH in Hp as [Hp1 Hp2].
      split; [|by right]. split; [lia|done].
Qed.

(** ** Both backends keep the contract *)
Section Contract.
Context {T : Type} `{!Table T, !TableLaws T}.
Lemma sorted_NoDup (ks : list bytes) : Sorted blt ks → NoDup ks.
Proof.
  induction ks as [|k ks IH]; intros Hs; [apply base.NoDup_nil_2|]. apply Sorted_blt_cons in Hs as [Hs Hlt]. apply list.NoDup_cons.
  split; [|by apply IH]. intros Hk%Hlt. rw /blt bytes_ltb_irrefl in Hk. done.
Qed.
Lemma t_map_rows (t : T) k v : t_map t !! k = Some v ↔ (k, v) ∈ t_rows t.
Proof. symmetry. apply elem_of_list_to_map, sorted_NoDup, t_sorted. Qed.
Lemma t_map_empty : t_map (t_empty : T) = ∅.
Proof. by rw /t_map t_empty_law. Qed.
Lemma HdRel_all (k : bytes) ks : (∀ k', k' ∈ ks → blt k k') → HdRel blt k ks.
Proof. destruct ks as [|k' ks]; intros Hf; constructor. apply Hf. left. Qed.
Lemma sorted_filter (P : KVItem → Prop) `{!∀ x, Decision (P x)} rows : Sorted blt rows.*1 → Sorted blt (filter P rows).*1.
Proof.
  induction rows as [|kv rows IH]; intros Hs; [done|]. rw fmap_cons in Hs. apply Sorted_blt_cons in Hs as [Hs Hlt]. rw filter_cons. case_decide; [|auto].
  assert (∀ k', k' ∈ (filter P rows).*1 → blt kv.1 k') as Hf.
  { intros k' (kv' & -> & [_ Hin]%list_elem_of_filter)%list_elem_of_fmap. apply Hlt, list_elem_of_fmap. eauto. }
  rw fmap_cons. apply Sorted_cons; [auto|]. by apply HdRel_all.
Qed.
Lemma scan_rows p (t : T) : scan_of p (t_map t) (filter (λ kv, hasPrefix kv.1 p = true) (t_rows t)).
Proof.
  split; [apply sorted_filter, t_sorted|]. intros k v. rw list_elem_of_filter t_map_rows /= hasPrefix_spec. tauto.
Qed.
Lemma put_ok k v (t t' : T) u : t_put k v t = (t', Ok u) → t_map t' = <[k := v]> (t_map t).
Proof. by intros [H _]%t_put_law. Qed.
Lemma delete_ok k (t t' : T) u : t_delete k t = (t', Ok u) → t_map t' = delete k (t_map t).
Proof. by intros [H _]%t_delete_law. Qed.

Definition bucket_map (name : bytes) (bs : gmap bytes T) : gmap bytes bytes := from_option t_map ∅ (bs !! name).
Lemma Update_atomic (name : bytes) (fn : M (gmap bytes T) ()) f (d d' : Bolt.DB) r :
  (∀ bs bs', fn bs = (bs', Ok tt) → bucket_map name bs' = f (bucket_map name bs)) → Bolt.Update fn d = (d', r) →
  atomically r f (bucket_map name (Bolt.db_buckets d)) (bucket_map name (Bolt.db_buckets d')).
Proof.
  intros Hf. rw /Bolt.Update. destruct (Bolt.db_open d); [|intros [= <- <-]; by left].
  destruct (fn (Bolt.db_buckets d)) as [bs [[]|e|m]] eqn:Hfn; [|intros [= <- <-]; by left..]. apply Hf in Hfn.
  destruct (next_fate (Bolt.db_fates d)) as [[] fs]; intros [= <- <-]; rw /=; auto.
Qed.
Lemma in_bucket_map (name : bytes) (g : M T ()) f bs bs' : (∀ t t', g t = (t', Ok tt) → t_map t' = f (t_map t)) →
  is_Some (bs !! name) ∨ f ∅ = ∅ → Bolt.in_bucket name g bs = (bs', Ok tt) → bucket_map name bs' = f (bucket_map name bs).
Proof.
  intros Hg Hn. rw /Bolt.in_bucket /bucket_map. destruct (bs !! name) as [t|] eqn:Hb.
  - destruct (g t) as [t' r] eqn:Ht. intros [= <- ->]. rw lookup_insert_eq /=. by apply Hg.
  - intros [= <-]. destruct Hn as [[? ?]|Hn]; [done|]. by rw Hb /= Hn.
Qed.
Lemma created_map (name : bytes) (g : M T ()) f bs bs' : (∀ t t', g t = (t', Ok tt) → t_map t' = f (t_map t)) →
  (Bolt.CreateBucketIfNotExists name ≫= λ _, Bolt.in_bucket name g) bs = (bs', Ok tt) → bucket_map name bs' = f (bucket_map name bs).
Proof.
  intros Hg H. apply M_bind_ok in H as (bs1 & t & H1 & H2). assert (is_Some (bs1 !! name) ∧ bucket_map name bs1 = bucket_map name bs) as [Hs <-].
  { revert H1. rw /Bolt.CreateBucketIfNotExists /bucket_map. destruct name as [|c name]; [done|]. destruct (bs !! (c :: name)) as [t0|] eqn:Hb; intros [= <- <-].
    - by rw Hb.
    - rw lookup_insert_eq /= t_map_empty. eauto. }
  eapply in_bucket_map; eauto.
Qed.
Lemma bolt_batch_map ops t t' : Bolt.batch_loop ops t = (t', Ok tt) → t_map t' = spec_batch ops (t_map t).
Proof.
  revert t. induction ops as [|op ops IH]; intros t H; [by injection H as ->|]. apply M_bind_ok in H as (t1 & [] & H1 & H2).
  rw (IH _ H2). change (spec_batch (op :: ops) (t_map t)) with (spec_batch ops (spec_op (t_map t) op)). f_equal.
  revert H1. rw /Bolt.batch_op /spec_op /spec_put. destruct (op_Kind op); [destruct (op_Value op)| |done]; eauto using put_ok, delete_ok.
Qed.
(** A BoltDB scan needs no bound. *)
Lemma bolt_scan p (b b' : Bolt.BoltBackend (T := T)) items : Bolt.ScanPrefix p b = (b', Ok items) → scan_of p (Bolt.contents b) items.
Proof.
  intros [= _ H]. rw /Bolt.View in H. rw /Bolt.contents. destruct (Bolt.db_open (Bolt.db b)); [|done].
  destruct (Bolt.db_buckets (Bolt.db b) !! Bolt.root b) as [bk|]; rw /= in H; injection H as <-.
  - rw cursor_scan; [apply t_sorted|]. apply scan_rows.
  - split; [constructor|]. intros k v. rw lookup_empty. set_solver.
Qed.
#[export] Instance Bolt_laws : BackendLaws (Bolt.BoltBackend (T := T)) Bolt.contents.
Proof.
  split.
  - intros k b b' r [= <- <-]. split; [done|]. rw /Bolt.View /Bolt.contents. destruct (Bolt.db_open (Bolt.db b)); [|done].
    destruct (Bolt.db_buckets (Bolt.db b) !! Bolt.root b) as [bk|]; [|done]. rw /=. by destruct (t_map bk !! k) eqn:E.
  - intros k v b b' r H. rw /be_Put /Bolt.Bolt_Backend /Bolt.Put in H. destruct v as [|c v]; rw /Bolt.Delete /Bolt.onDB in H;
      case_match eqn:Hu; injection H as <- <-.
    + eapply (Update_atomic (Bolt.root b)); [|done]. intros bs bs' H. by eapply (in_bucket_map _ _ (delete k)); [eauto using delete_ok|by right; apply delete_empty|].
    + eapply (Update_atomic (Bolt.root b)); [|done]. intros bs bs' H. eapply (created_map _ _ (insert k (c :: v))); eauto using put_ok.
  - intros k b b' r H. rw /be_Delete /Bolt.Bolt_Backend /Bolt.Delete /Bolt.onDB in H. case_match eqn:Hu; injection H as <- <-.
    eapply (Update_atomic (Bolt.root b)); [|done]. intros bs bs' H. by eapply (in_bucket_map _ _ (delete k)); [eauto using delete_ok|by right; apply delete_empty|].
  - intros ops b b' r H. rw /be_Batch /Bolt.Bolt_Backend /Bolt.Batch /Bolt.onDB in H. case_match eqn:Hu; injection H as <- <-.
    eapply (Update_atomic (Bolt.root b)); [|done]. intros bs bs' H. eapply (created_map _ _ (spec_batch ops)); eauto using bolt_batch_map.
  - intros p b b' r [= <- <-]. split; [done|]. intros items H _. exact (bolt_scan p b b items (f_equal (pair b) H)).
Qed.

Lemma trip_table (p p' : Pgx.PostgresBackend (T := T)) f : Pgx.trip p = (f, p') → Pgx.table p' = Pgx.table p.
Proof. rw /Pgx.trip. repeat case_match; intros [= <- <-]; done. Qed.
Lemma Exec_atomic (g : M T ()) f (p p' : Pgx.PostgresBackend) r :
  (∀ t t' r, g t = (t', r) → t_map t' = match r with Ok _ => f (t_map t) | _ => t_map t end ∧ ∀ m, r ≠ Panic m) →
  Pgx.Exec g p = (p', r) → atomically r f (Pgx.contents p) (Pgx.contents p').
Proof.
  intros Hg. rw /Pgx.Exec /Pgx.contents. destruct (Pgx.trip p) as [[] p1] eqn:Ht; apply trip_table in Ht.
  - destruct (g (Pgx.table p1)) as [t r1] eqn:E. intros [= <- <-]. apply Hg in E as [E _]. rw /= E Ht. destruct r1; rw /=; auto.
  - intros [= <- <-]. rw /= Ht. by left.
  - destruct (g (Pgx.table p1)) as [t r1] eqn:E. intros [= <- <-]. apply Hg in E as [E _]. rw /= E Ht. destruct r1; rw /=; auto.
Qed.
Lemma wrapM_atomic {A} ctx (m : M (Pgx.PostgresBackend (T := T)) A) f p p' r : wrapM ctx m p = (p', r) →
  (∀ r, m p = (p', r) → atomically r f (Pgx.contents p) (Pgx.contents p')) → atomically r f (Pgx.contents p) (Pgx.contents p').
Proof. rw /wrapM. destruct (m p) as [p1 [a|e|s]]; intros [= <- <-] H; apply (H _ eq_refl). Qed.
Lemma Query_spec {A} (a : T → A) (p p' : Pgx.PostgresBackend) r : Pgx.Query a p = (p', r) →
  Pgx.table p' = Pgx.table p ∧ (r = Ok (a (Pgx.table p)) ∨ r = Error Pgx.errPgx).
Proof. rw /Pgx.Query. destruct (Pgx.trip p) as [[] p1] eqn:Ht; apply trip_table in Ht; intros [= <- <-]; rw Ht; auto. Qed.
Lemma tx_exec_ok ctx (g : M T ()) f t (p : Pgx.PostgresBackend) t' p' : (∀ t t', g t = (t', Ok tt) → t_map t' = f (t_map t)) →
  Pgx.tx_exec ctx g (t, p) = ((t', p'), Ok tt) → t_map t' = f (t_map t).
Proof.
  intros Hg. rw /Pgx.tx_exec wrapM_ok. destruct (Pgx.trip p) as [[] p1]; [|done..]. destruct (g t) as [t1 r] eqn:E. intros [= <- <- ->]. by apply Hg.
Qed.
Lemma tx_exec_table ctx (g : M T ()) t (p : Pgx.PostgresBackend) t' p' r : Pgx.tx_exec ctx g (t, p) = ((t', p'), r) → Pgx.table p' = Pgx.table p.
Proof.
  rw /Pgx.tx_exec /wrapM. destruct (Pgx.trip p) as [[] p1] eqn:Ht; apply trip_table in Ht; [|by intros [= _ <- _]..].
  destruct (g t) as [t1 []]; by intros [= _ <- _].
Qed.
Lemma batch_op_table op t (p : Pgx.PostgresBackend) t' p' r : Pgx.batch_op op (t, p) = ((t', p'), r) → Pgx.table p' = Pgx.table p.
Proof.
  rw /Pgx.batch_op. destruct (op_Kind op); [destruct (op_Value op)| |]; [eauto using tx_exec_table..|]. by intros [= _ <- _].
Qed.
Lemma pgx_batch_table ops t (p : Pgx.PostgresBackend) t' p' r : Pgx.batch_loop ops (t, p) = ((t', p'), r) → Pgx.table p' = Pgx.table p.
Proof.
  revert t p. induction ops as [|op ops IH]; intros t p H; [by injection H as _ <-|].
  apply M_bind_inv in H as ([t1 p1] & [[]|e|m] & H1 & H2); apply batch_op_table in H1; [by rw (IH _ _ H2)|by destruct H2 as [[= -> ->] _]..].
Qed.
Lemma pgx_batch_map ops t (p : Pgx.PostgresBackend) t' p' : Pgx.batch_loop ops (t, p) = ((t', p'), Ok tt) → t_map t' = spec_batch ops (t_map t).
Proof.
  revert t p. induction ops as [|op ops IH]; intros t p H; [by injection H as ->|]. apply M_bind_ok in H as ([t1 p1] & [] & H1 & H2).
  rw (IH _ _ H2). change (spec_batch (op :: ops) (t_map t)) with (spec_batch ops (spec_op (t_map t) op)). f_equal.
  revert H1. rw /Pgx.batch_op /spec_op /spec_put. destruct (op_Kind op); [destruct (op_Value op) as [|c v]| |done]; intros H1.
  - by eapply (tx_exec_ok _ _ (delete (op_Key op))); [eauto using delete_ok|].
  - by eapply (tx_exec_ok _ _ (insert (op_Key op) (c :: v))); [eauto using put_ok|].
  - by eapply (tx_exec_ok _ _ (delete (op_Key op))); [eauto using delete_ok|].
Qed.
(** The comparison with NULL holds for no row. *)
Lemma pgx_scan_unbounded q (p p' : Pgx.PostgresBackend (T := T)) items : nextPrefix q = None → Pgx.ScanPrefix q p = (p', Ok items) → items = [].
Proof.
  intros Hq H. rw /Pgx.ScanPrefix Hq in H. apply M_bind_ok in H as (p1 & rows & (r & [_ Hr]%Query_spec & E)%wrapM_inv & H).
  destruct Hr as [->| ->]; [|done]. injection E as ->. apply M_bind_ok in H as (p2 & u & _ & H). injection H as _ <-.
  induction (t_rows (Pgx.table p)) as [|kv l IH]; [done|]. rw filter_cons decide_False //. by rw /Pgx.in_range andb_false_r.
Qed.
#[export] Instance Pgx_laws : BackendLaws (Pgx.PostgresBackend (T := T)) Pgx.contents.
Proof.
  assert (∀ k p p' r, Pgx.Delete k p = (p', r) → atomically r (delete k) (Pgx.contents p) (Pgx.contents p')) as Hdel.
  { intros k p p' r H. eapply wrapM_atomic; [done|]. intros r1 H1. eapply Exec_atomic; [|done]. apply t_delete_law. }
  split.
  - intros k p p' r. rw /be_Get /Pgx.Pgx_Backend /Pgx.Get /Pgx.contents. destruct (Pgx.Query _ p) as [p1 r1] eqn:Hq.
    apply Query_spec in Hq as [Ht [->| ->]]; [|by intros [= <- <-]; rw Ht].
    destruct (t_map (Pgx.table p) !! k) as [v|] eqn:E; intros [= <- <-]; rw Ht; auto.
  - intros k [|c v] p p' r H; [by apply Hdel|]. eapply wrapM_atomic; [exact H|]. intros r1 H1. eapply Exec_atomic; [|done]. apply t_put_law.
  - done.
  - intros ops p p' r. rw /be_Batch /Pgx.Pgx_Backend /Pgx.Batch. destruct (Pgx.Query _ p) as [p1 r1] eqn:Hq. apply Query_spec in Hq as [Ht Hr].
    destruct Hr as [->| ->]; [|intros [= <- <-]; left; by rw /Pgx.contents Ht].
    destruct (Pgx.batch_loop ops (Pgx.table p1, p1)) as [[t p2] [[]|e|m]] eqn:Hb; pose proof (pgx_batch_table _ _ _ _ _ _ Hb) as Ht2;
      [|intros [= <- <-]; left; by rw /Pgx.contents Ht2 Ht..].
    apply pgx_batch_map in Hb. destruct (Pgx.trip p2) as [[] p3] eqn:Ht3; apply trip_table in Ht3; intros [= <- <-];
      rw /atomically /Pgx.contents /= ?Hb ?Ht3 ?Ht2 ?Ht; auto.
  - intros q p p' r H. rw /be_ScanPrefix /Pgx.Pgx_Backend /Pgx.ScanPrefix in H. rw /Pgx.contents.
    apply M_bind_inv in H as (p1 & r1 & (r1' & [Ht1 Hr1]%Query_spec & ->)%wrapM_inv & H). rw -Ht1.
    destruct Hr1 as [->| ->]; [|by destruct H as [-> ->]].
    apply M_bind_inv in H as (p2 & r2 & (r2' & [Ht2 Hr2]%Query_spec & ->)%wrapM_inv & H). rw -Ht2.
    destruct Hr2 as [->| ->]; [|by destruct H as [-> ->]]. injection H as <- <-. split; [done|]. intros items [= <-] [e He]. rw He Ht2 -Ht1.
    erewrite list_filter_iff; [apply scan_rows|]. intros kv. by rw (range_is_prefix q e).
Qed.
End Contract.

(** ** Clients cannot tell them apart *)
Inductive req : Type := RGet (k : bytes) | RPut (k v : bytes) | RDelete (k : bytes) | RScan (p : bytes) | RBatch (ops : list Op).
Inductive reply : Type := Value (v : bytes) | Missing | Items (l : list KVItem) | Done | Failed.
#[export] Instance reply_eq_dec : EqDecision reply.
Proof. solve_decision. Defined.
Definition serve `{!Backend D} (q : req) (s : D) : D * reply :=
  let write (m : M D ()) := let '(s, r) := m s in (s, if is_ok r then Done else Failed) in
  match q with
  | RGet k => let '(s, r) := be_Get k s in
              (s, match r with Ok v => Value v | Error e => if bool_decide (e = ErrNotFound) then Missing else Failed | Panic _ => Failed end)
  | RScan p => let '(s, r) := be_ScanPrefix p s in (s, match r with Ok l => Items l | _ => Failed end)
  | RPut k v => write (be_Put k v)
  | RDelete k => write (be_Delete k)
  | RBatch ops => write (be_Batch ops)
  end.
Fixpoint serve_all `{!Backend D} (qs : list req) (s : D) : D * list reply :=
  match qs with
  | [] => (s, [])
  | q :: qs => let '(s, r) := serve q s in let '(s, rs) := serve_all qs s in (s, r :: rs)
  end.
Definition spec_req (m : gmap bytes bytes) (q : req) : gmap bytes bytes :=
  match q with RPut k v => spec_put k v m | RDelete k => delete k m | RBatch ops => spec_batch ops m | _ => m end.
(** Scans are asked for prefixes that have an upper bound. *)
Definition bounded (q : req) : Prop := match q with RScan p => is_Some (nextPrefix p) | _ => True end.

Lemma blt_asym a b : blt a b → blt b a → False.
Proof. intros H1 H2. pose proof (blt_trans _ _ _ H1 H2) as H. by rw /blt bytes_ltb_irrefl in H. Qed.
(** The items of a scan are determined by the stored values. *)
Lemma scan_unique p m l1 l2 : scan_of p m l1 → scan_of p m l2 → l1 = l2.
Proof.
  intros [Hs1 H1] [Hs2 H2]. assert (∀ kv, kv ∈ l1 ↔ kv ∈ l2) as Hin by (intros [k v]; by rw H1 H2). clear H1 H2.
  revert l2 Hs2 Hin. induction l1 as [|[k v] l1 IH]; intros [|[k' v'] l2] Hs2 Hin; [done| | |].
  { exfalso. apply (not_elem_of_nil (k', v')), Hin. left. }
  { exfalso. apply (not_elem_of_nil (k, v)), Hin. left. }
  rw fmap_cons in Hs1. rw fmap_cons in Hs2. apply Sorted_blt_cons in Hs1 as [Hs1 Hl1]. apply Sorted_blt_cons in Hs2 as [Hs2 Hl2]. rw /= in Hl1 Hl2.
  assert (∀ (l : list KVItem) k, (∀ k', k' ∈ l.*1 → blt k k') → ∀ kv, kv ∈ l → blt k kv.1) as Hf.
  { intros l j Hl kv Hkv. apply Hl, list_elem_of_fmap. eauto. }
  assert ((k, v) = (k', v')) as [= <- <-].
  { assert ((k, v) ∈ (k', v') :: l2) as [?|Ha]%elem_of_cons by (apply Hin; left); [done|].
    assert ((k', v') ∈ (k, v) :: l1) as [?|Hb]%elem_of_cons by (apply Hin; left); [done|].
    destruct (blt_asym k k'); [apply (Hf _ _ Hl1 _ Hb)|apply (Hf _ _ Hl2 _ Ha)]. }
  f_equal. apply IH; [done|done|]. intros kv. specialize (Hin kv). rw !elem_of_cons in Hin.
  assert ((k, v) ∉ l1) as Hn1. { intros Hc%(Hf _ _ Hl1). by rw /blt bytes_ltb_irrefl in Hc. }
  assert ((k, v) ∉ l2) as Hn2. { intros Hc%(Hf _ _ Hl2). by rw /blt bytes_ltb_irrefl in Hc. }
  destruct (decide (kv = (k, v))) as [->|]; [done|]. tauto.
Qed.

Section Client.
Context {D : Type} {contents : D → gmap bytes bytes} `{!Backend D, !BackendLaws D contents}.
Definition right_reply (m : gmap bytes bytes) (q : req) (r : reply) : Prop :=
  match q with
  | RGet k => r = from_option Value Missing (m !! k)
  | RScan p => ∃ l, r = Items l ∧ scan_of p m l
  | _ => r = Done
  end.
Lemma serve_spec q s s' r : serve q s = (s', r) → bounded q → r ≠ Failed →
  contents s' = spec_req (contents s) q ∧ right_reply (contents s) q r.
Proof.
  assert (∀ (m : M D ()) f, (∀ s' r, m s = (s', r) → atomically r f (contents s) (contents s')) →
    (let '(s, r) := m s in (s, if is_ok r then Done else Failed)) = (s', r) → r ≠ Failed → contents s' = f (contents s) ∧ r = Done) as Hw.
  { intros m f Hm. destruct (m s) as [s1 r1]. intros [= <- <-]. specialize (Hm _ _ eq_refl). by destruct r1. }
  destruct q as [k|k v|k|p|ops]; rw /serve /=; intros H Hb Hr.
  - destruct (be_Get k s) as [s1 r1] eqn:E. injection H as <- <-. apply get_law in E as [-> E]. split; [done|].
    destruct r1 as [v|e|]; [by rw E| |done]. case_bool_decide; [|done]. by rw E.
  - by eapply Hw; [intros ??; apply put_law| |].
  - by eapply Hw; [intros ??; apply delete_law| |].
  - destruct (be_ScanPrefix p s) as [s1 r1] eqn:E. injection H as <- <-. apply scan_law in E as [-> E]. split; [done|].
    destruct r1 as [l|e|]; [|done..]. exists l. split; [done|]. by apply E.
  - by eapply Hw; [intros ??; apply batch_law| |].
Qed.
End Client.

(** C37: how far the two backends are interchangeable. Started with the same contents and given the
    same requests, with scans only of prefixes that have an upper bound (any but the empty one and
    those of 0xff bytes), the BoltDB and the PostgreSQL backend give the same answers, items and
    order of a scan included, and end with the same contents, those of the finite map the interface
    describes, as long as no call fails on either (a key or value that one of them refuses is such a
    call). A prefix without a bound is where they differ: a scan that succeeds gives every item
    with the prefix in BoltDB, and none in PostgreSQL. And whichever call fails, on both, a batch
    has happened as a whole or not at all. *)
Theorem backends_interchangeable {T U} `{!Table T, !TableLaws T, !Table U, !TableLaws U}
    (b : Bolt.BoltBackend (T := T)) (p : Pgx.PostgresBackend (T := U)) :
  (∀ qs b' p' rs1 rs2, Bolt.contents b = Pgx.contents p → Forall bounded qs →
     serve_all qs b = (b', rs1) → serve_all qs p = (p', rs2) → (Failed ∉ rs1) → (Failed ∉ rs2) →
     rs1 = rs2 ∧ Bolt.contents b' = foldl spec_req (Bolt.contents b) qs ∧ Pgx.contents p' = Bolt.contents b') ∧
  (∀ q, nextPrefix q = None →
     (∀ b' items, Bolt.ScanPrefix q b = (b', Ok items) → scan_of q (Bolt.contents b) items) ∧
     (∀ p' items, Pgx.ScanPrefix q p = (p', Ok items) → items = [])) ∧
  ∀ ops, let after := spec_batch ops in
    (∀ b' r, Bolt.Batch ops b = (b', r) → Bolt.contents b' = Bolt.contents b ∨ Bolt.contents b' = after (Bolt.contents b)) ∧
    (∀ p' r, Pgx.Batch ops p = (p', r) → Pgx.contents p' = Pgx.contents p ∨ Pgx.contents p' = after (Pgx.contents p)).
Proof.
  split_and!.
  - intros qs. revert b p. induction qs as [|q qs IH]; intros b p b' p' rs1 rs2 Heq Hq H1 H2 Hf1 Hf2.
    { injection H1 as <- <-. injection H2 as <- <-. done. }
    apply list.Forall_cons in Hq as [Hq Hqs]. rw /= in H1. rw /= in H2. destruct (serve q b) as [b1 r1] eqn:E1. destruct (serve q p) as [p1 r2] eqn:E2.
    destruct (serve_all qs b1) as [b2 t1] eqn:F1. destruct (serve_all qs p1) as [p2 t2] eqn:F2. injection H1 as <- <-. injection H2 as <- <-.
    rw not_elem_of_cons in Hf1. rw not_elem_of_cons in Hf2. destruct Hf1 as [Hr1 Hf1], Hf2 as [Hr2 Hf2].
    eapply (serve_spec (contents := Bolt.contents)) in E1 as [C1 R1]; [|done|done].
    eapply (serve_spec (contents := Pgx.contents)) in E2 as [C2 R2]; [|done|done]. rw -Heq in C2 R2.
    destruct (IH _ _ _ _ _ _ (eq_trans C1 (eq_sym C2)) Hqs F1 F2 Hf1 Hf2) as (-> & -> & ->). rw /= -C1. split; [|done]. f_equal.
    destruct q; rw /= in R1 R2; try congruence. destruct R1 as (l1 & -> & S1), R2 as (l2 & -> & S2). f_equal. eapply scan_unique; eauto.
  - intros q Hq. split; intros ? items; [apply bolt_scan|by apply pgx_scan_unbounded].
  - intros ops. split; [intros b' r H|intros p' r H].
    + pose proof (batch_law (BackendLaws := Bolt_laws) ops b b' r H) as Ha. destruct r; rw /= in Ha; auto.
    + pose proof (batch_law (BackendLaws := Pgx_laws) ops p p' r H) as Ha. destruct r; rw /= in Ha; auto.
Qed.

(** ** Tables exist *)
(** Rows kept sorted by insertion; like bbolt it refuses the empty key. *)
Fixpoint ins (k v : bytes) (rows : list KVItem) : list KVItem :=
  match rows with
  | [] => [(k, v)]
  | kv :: rest => if bytes_ltb k kv.1 then (k, v) :: rows else if bool_decide (k = kv.1) then (k, v) :: rest else kv :: ins k v rest
  end.
Record rowlist : Type := mkRows { rl_rows : list KVItem; rl_sorted : Sorted blt rl_rows.*1 }.
Lemma blt_total a b : bytes_ltb a b = false → a ≠ b → blt b a.
Proof.
  revert b. induction a as [|x a IH]; intros [|y b] H Hne; [done|done|done|]. apply bytes_ltb_cons_false in H as [H1 H2]. apply bytes_ltb_cons.
  destruct (decide (x = y)) as [->|Hxy]; [right; split; [done|apply IH; naive_solver]|]. left.
  assert (b2z x ≠ b2z y) by (intros E; by apply Hxy, b2z_inj). lia.
Qed.
Lemma ins_keys k v rows k' : k' ∈ (ins k v rows).*1 → k' = k ∨ k' ∈ rows.*1.
Proof.
  induction rows as [|kv rows IH]; [set_solver|]. rw /=. repeat case_match; rw !fmap_cons /= !elem_of_cons; naive_solver.
Qed.
Lemma ins_sorted k v rows : Sorted blt rows.*1 → Sorted blt (ins k v rows).*1.
Proof.
  induction rows as [|kv rows IH]; intros Hs; [repeat constructor|]. rw fmap_cons in Hs. pose proof (Sorted_blt_cons _ _ Hs) as [Hs' Hlt]. rw /=.
  destruct (bytes_ltb k kv.1) eqn:Hb; [|case_bool_decide as Hk]; rw !fmap_cons /=.
  - apply Sorted_cons; [done|]. by constructor.
  - subst k. done.
  - apply Sorted_cons; [by apply IH|]. apply HdRel_all. intros k' [->|?]%ins_keys; [by apply blt_total|by apply Hlt].
Qed.
Lemma ins_map k v (rows : list KVItem) : (list_to_map (ins k v rows) : gmap bytes bytes) = <[k := v]> (list_to_map rows).
Proof.
  induction rows as [|[k' v'] rows IH]; [done|]. rw /=. destruct (bytes_ltb k k'); [done|]. case_bool_decide as Hk; rw /=.
  - subst. by rw insert_insert_eq.
  - rw IH. by apply insert_insert_ne.
Qed.
Lemma del_map k (rows : list KVItem) :
  (list_to_map (filter (λ kv, kv.1 ≠ k) rows) : gmap bytes bytes) = delete k (list_to_map rows).
Proof.
  induction rows as [|[k' v'] rows IH]; [by rw /= delete_empty|]. destruct (decide (k' = k)) as [->|Hk].
  - rw filter_cons_False; [naive_solver|]. rw IH /=. by rw delete_insert_eq.
  - rw filter_cons_True //= IH. by rw delete_insert_ne.
Qed.
#[export] Instance rowlist_Table : Table rowlist := {
  t_empty := mkRows [] (Sorted_nil _);
  t_rows := rl_rows;
  t_put k v t := match k with [] => (t, Error (Err_new "key required")) | _ => (mkRows (ins k v (rl_rows t)) (ins_sorted k v _ (rl_sorted t)), Ok tt) end;
  t_delete k t := (mkRows (filter (λ kv, kv.1 ≠ k) (rl_rows t)) (sorted_filter _ _ (rl_sorted t)), Ok tt);
}.
#[export] Instance rowlist_laws : TableLaws rowlist.
Proof.
  split; [done|apply rl_sorted| |].
  - intros [|c k] v t t' r [= <- <-]; [done|]. split; [apply (ins_map (c :: k))|done].
  - intros k t t' r [= <- <-]. split; [apply del_map|done].
Qed.
Definition demo_bolt : Bolt.BoltBackend (T := rowlist) := Bolt.mkBolt (Bolt.mkDB {[ [x79] := t_empty ]} true []) [x79].
Definition demo_pgx : Pgx.PostgresBackend (T := rowlist) := Pgx.mkPgx t_empty true [].
Definition demo_reqs : list req :=
  [RPut [x61; xff] [x01]; RPut [x61] [x02]; RBatch [mkOp OpPut [x62] [x03]; mkOp OpPut [x61] []]; RPut [x61; x00] [x04]; RScan [x61]; RGet [x61]; RGet [x62]].
Lemma backends_interchangeable_witness :
  (serve_all demo_reqs demo_bolt).2 = (serve_all demo_reqs demo_pgx).2 ∧
  (serve_all demo_reqs demo_pgx).2 = [Done; Done; Done; Done; Items [([x61; x00], [x04]); ([x61; xff], [x01])]; Missing; Value [x03]].
Proof.
  destruct (backends_interchangeable demo_bolt demo_pgx) as [H _]. split; [|vm_compute; reflexivity].
  assert ((serve_all demo_reqs demo_pgx).2 = [Done; Done; Done; Done; Items [([x61; x00], [x04]); ([x61; xff], [x01])]; Missing; Value [x03]]) as E2 by (vm_compute; reflexivity).
  assert ((serve_all demo_reqs demo_bolt).2 = [Done; Done; Done; Done; Items [([x61; x00], [x04]); ([x61; xff], [x01])]; Missing; Value [x03]]) as E1 by (vm_compute; reflexivity).
  apply (H demo_reqs (serve_all demo_reqs demo_bolt).1 (serve_all demo_reqs demo_pgx).1); [vm_compute; reflexivity| |apply surjective_pairing|apply surjective_pairing| |].
  - repeat constructor. exists [x62]. vm_compute. reflexivity.
  - rw E1. rw !not_elem_of_cons. repeat split; [discriminate..|apply not_elem_of_nil].
  - rw E2. rw !not_elem_of_cons. repeat split; [discriminate..|apply not_elem_of_nil].
Defined.

(** Where there is no bound the comparison with NULL hides every row: listing all keys (the empty
    prefix) gives them in BoltDB and none in PostgreSQL. *)
Example unbounded_scan_differs :
  let put := RPut [x61] [x01] in
  (serve_all [put; RScan []] demo_bolt).2 = [Done; Items [([x61], [x01])]] ∧ (serve_all [put; RScan []] demo_pgx).2 = [Done; Items []] ∧
  nextPrefix [xff; xff] = None.
Proof. vm_compute. repeat split; reflexivity. Qed.
