(* ===== verification/Observability.v ===== *)
(** Metrics and alerts: the registry of counters of [src/internal/metrics/registry.go] with its
    cumulative histogram and its text form, and the webhook alerter of
    [src/internal/observability/alerting.go]. Durations are IEEE doubles, counters are
    unsigned 64-bit integers. *)

From Stdlib Require Import SpecFloat.
From S2P Require Import Prelude Rfc3339 Json Metadata Auth Jwt Totp RateLimit Settings.

(** ** The histogram *)
Record Histogram : Type := mkHist {
  hi_name : string;
  hi_help : string;
  hi_buckets : list float64;   (* upper bounds *)
  hi_counts : list Z;          (* one more, for infinity *)
  hi_sum : float64;
  hi_count : Z;
}.
Definition NewHistogram (name help : string) (buckets : list float64) : Histogram :=
  mkHist name help buckets (replicate (length buckets + 1) 0%Z) (f64 0) 0.
(** [h.counts[i]++] *)
Definition bump (i : nat) (counts : list Z) : result (list Z) :=
  match counts !! i with
  | Some c => Ok (<[i := uint64 (c + 1)]> counts)
  | None => Panic "index out of range"
  end.
Fixpoint observe_buckets (value : float64) (i : nat) (buckets : list float64) (counts : list Z) : result (list Z) :=
  match buckets with
  | [] => Ok counts
  | upper :: buckets =>
      counts ← (if SFleb value upper then bump i counts else Ok counts);
      observe_buckets value (S i) buckets counts
  end.
Definition Observe (value : float64) (h : Histogram) : result Histogram :=
  counts ← observe_buckets value 0 (hi_buckets h) (hi_counts h);
  counts ← bump (length (hi_buckets h)) counts;
  Ok (mkHist (hi_name h) (hi_help h) (hi_buckets h) counts (f_add (hi_sum h) value) (uint64 (hi_count h + 1))).
Definition Snapshot (h : Histogram) : Z * float64 * list Z := (hi_count h, hi_sum h, hi_counts h).

(** ** The registry *)
Record Registry : Type := mkRegistry {
  rg_apiDuration : Histogram;
  rg_decryptFailures : Z;
  rg_encryptFailures : Z;
  rg_unsealFailures : Z;
  rg_apiRequests : gmap string Z;
}.
Definition thousandths (z : Z) : float64 := f_div (f64 z) (f64 1000).
Definition duration_bounds : list float64 := thousandths <$> [5; 10; 25; 50; 100; 250; 500; 1000; 2500; 5000; 10000]%Z.
Definition NewRegistry : Registry :=
  mkRegistry (NewHistogram "yvonne_api_request_duration_seconds" "API request duration in seconds" duration_bounds) 0 0 0 ∅.
Definition allowedActions : list string :=
  ["Encrypt"; "Decrypt"; "CreateKey"; "RotateKey"; "ShredKey"; "SoftDeleteKey"; "RestoreKey"; "GenerateDataKey"; "ImportKey"; "Unseal";
   "EmergencySeal"; "AuditQuery"; "TransitKey"; "Health"; "DegradedMode"].
Definition maxActionLen : nat := 64.
(** The label an action is counted under. *)
Definition action_label (action : string) : string :=
  if (maxActionLen <? String.length action)%nat || negb (bool_decide (action ∈ allowedActions)) then "Unknown" else action.
Definition RecordAPIRequest (action : string) (duration : Z) (success : bool) (r : Registry) : result Registry :=
  h ← Observe (duration_Seconds duration) (rg_apiDuration r);
  let action := action_label action in
  let failed (name : string) (n : Z) := if negb success && bool_decide (action = name) then uint64 (n + 1) else n in
  Ok (mkRegistry h (failed "Decrypt" (rg_decryptFailures r)) (failed "Encrypt" (rg_encryptFailures r)) (failed "Unseal" (rg_unsealFailures r))
        (<[action := uint64 (default 0%Z (rg_apiRequests r !! action) + 1)]> (rg_apiRequests r))).

(** ** The text form *)
Definition nl : string := String.String (Ascii.ascii_of_nat 10) String.EmptyString.
Definition quote : string := String.String (Ascii.ascii_of_nat 34) String.EmptyString.
Definition text_of (l : bytes) : string := String.string_of_list_byte l.
Definition decimal (z : Z) : string := text_of (render_nat (Z.to_N z)).
(** [m * 2^e * 10^6] rounded to an integer, halves to the even one. *)
Definition round_half_even (num den : Z) : Z :=
  let q := (num `div` den)%Z in let r := (num `mod` den)%Z in
  if bool_decide (2 * r < den)%Z then q else if bool_decide (den < 2 * r)%Z then (q + 1)%Z else (if Z.even q then q else q + 1)%Z.
Definition micro (m : positive) (e : Z) : Z :=
  if bool_decide (0 ≤ e)%Z then (Zpos m * 2 ^ e * 10 ^ 6)%Z else round_half_even (Zpos m * 10 ^ 6) (2 ^ (- e)).
Fixpoint drop_while (c : byte) (l : bytes) : bytes :=
  match l with b :: l' => if bool_decide (b = c) then drop_while c l' else l | [] => [] end.
(** [strings.TrimRight] with one character. *)
Definition TrimRight (c : byte) (l : bytes) : bytes := rev (drop_while c (rev l)).
Definition sprintf_6f (s : bool) (n : Z) : bytes :=
  (if s then [x2d] else []) ++ render_nat (Z.to_N (n `div` 10 ^ 6)) ++ x2e :: dec_digits 6 (n `mod` 10 ^ 6).
Definition formatFloat (f : float64) : string :=
  match f with
  | S754_infinity _ | S754_nan => "0"
  | S754_zero s => text_of (TrimRight x2e (TrimRight x30 (sprintf_6f s 0)))
  | S754_finite s m e => text_of (TrimRight x2e (TrimRight x30 (sprintf_6f s (micro m e))))
  end.
Definition writeCounter (name help : string) (value : Z) : string :=
  "# HELP " +:+ name +:+ " " +:+ help +:+ nl +:+ "# TYPE " +:+ name +:+ " counter" +:+ nl +:+ name +:+ " " +:+ decimal value +:+ nl +:+ nl.
Definition writeGauge (name help : string) (value : float64) : string :=
  "# HELP " +:+ name +:+ " " +:+ help +:+ nl +:+ "# TYPE " +:+ name +:+ " gauge" +:+ nl +:+ name +:+ " " +:+ formatFloat value +:+ nl +:+ nl.
Definition WritePrometheus (h : Histogram) : string :=
  let bucket (le : string) (n : Z) := hi_name h +:+ "_bucket{le=" +:+ quote +:+ le +:+ quote +:+ "} " +:+ decimal n +:+ nl in
  "# HELP " +:+ hi_name h +:+ " " +:+ hi_help h +:+ nl +:+ "# TYPE " +:+ hi_name h +:+ " histogram" +:+ nl +:+
  String.concat "" (zip_with (λ upper n, bucket (formatFloat upper) n) (hi_buckets h) (hi_counts h)) +:+
  bucket "+Inf" (default 0%Z (hi_counts h !! length (hi_buckets h))) +:+
  hi_name h +:+ "_sum " +:+ formatFloat (hi_sum h) +:+ nl +:+ hi_name h +:+ "_count " +:+ decimal (hi_count h) +:+ nl +:+ nl.
(** What [runtime.ReadMemStats] and [NumGoroutine] report. *)
Record MemStats : Type := mkMemStats {
  ms_Alloc : Z; ms_TotalAlloc : Z; ms_Sys : Z; ms_HeapAlloc : Z; ms_HeapSys : Z; ms_HeapInuse : Z; ms_HeapObjects : Z; ms_StackInuse : Z;
  ms_StackSys : Z; ms_GCCPUFraction : float64; ms_Lookups : Z; ms_Mallocs : Z; ms_Frees : Z; ms_NextGC : Z; ms_NumGC : Z; ms_goroutines : Z;
}.
Definition writeRuntimeMetrics (ms : MemStats) : string :=
  writeGauge "go_memstats_alloc_bytes" "Number of bytes allocated and still in use" (f64 (ms_Alloc ms)) +:+
  writeGauge "go_memstats_total_alloc_bytes" "Total number of bytes allocated, even if freed" (f64 (ms_TotalAlloc ms)) +:+
  writeGauge "go_memstats_sys_bytes" "Number of bytes obtained from system" (f64 (ms_Sys ms)) +:+
  writeGauge "go_memstats_heap_alloc_bytes" "Heap bytes allocated and still in use" (f64 (ms_HeapAlloc ms)) +:+
  writeGauge "go_memstats_heap_sys_bytes" "Heap bytes obtained from system" (f64 (ms_HeapSys ms)) +:+
  writeGauge "go_memstats_heap_inuse_bytes" "Heap bytes in use" (f64 (ms_HeapInuse ms)) +:+
  writeGauge "go_memstats_heap_objects" "Number of allocated objects" (f64 (ms_HeapObjects ms)) +:+
  writeGauge "go_memstats_stack_inuse_bytes" "Stack bytes in use" (f64 (ms_StackInuse ms)) +:+
  writeGauge "go_memstats_stack_sys_bytes" "Stack bytes obtained from system" (f64 (ms_StackSys ms)) +:+
  writeGauge "go_memstats_gc_cpu_fraction" "The fraction of this program's available CPU time used by the GC since the program started" (ms_GCCPUFraction ms) +:+
  writeCounter "go_memstats_lookups_total" "Total number of pointer lookups" (ms_Lookups ms) +:+
  writeCounter "go_memstats_mallocs_total" "Total number of mallocs" (ms_Mallocs ms) +:+
  writeCounter "go_memstats_frees_total" "Total number of frees" (ms_Frees ms) +:+
  writeGauge "go_memstats_next_gc_bytes" "Number of heap bytes when next garbage collection will take place" (f64 (ms_NextGC ms)) +:+
  writeCounter "go_memstats_gc_total" "Total number of GC runs" (ms_NumGC ms) +:+
  writeCounter "go_memstats_gc_cpu_fraction_total" "GC CPU fraction (cumulative)" 0 +:+
  writeGauge "go_goroutines" "Number of running goroutines" (f64 (ms_goroutines ms)).
(** The counters by action come in the order in which the map is iterated; [%q] puts the
    names, which have no special characters, in quotes. *)
Definition MetricsServeHTTP (order : list (string * Z)) (ms : MemStats) (r : Registry) : string :=
  WritePrometheus (rg_apiDuration r) +:+
  writeCounter "yvonne_decrypt_failures_total" "Total number of failed decrypt operations" (rg_decryptFailures r) +:+
  writeCounter "yvonne_encrypt_failures_total" "Total number of failed encrypt operations" (rg_encryptFailures r) +:+
  writeCounter "yvonne_unseal_failures_total" "Total number of failed unseal operations" (rg_unsealFailures r) +:+
  String.concat "" ((λ '(action, count),
    writeCounter ("yvonne_api_requests_total{action=" +:+ quote +:+ action +:+ quote +:+ "}") "Total API requests by action" count) <$> order) +:+
  writeRuntimeMetrics ms.

(** ** Alerts *)
Record AlertEvent : Type := mkAlertEvent {
  ae_Operation : string; ae_Actor : string; ae_Resource : string; ae_Timestamp : Z; ae_TraceID : string; ae_Description : string;
}.
Inductive Alerter : Type := NoopAlerter | WebhookAlerter (cfg : AlertingConfig).
Definition NewAlerter (cfg : AlertingConfig) : Alerter := if al_Enabled cfg then WebhookAlerter cfg else NoopAlerter.
Definition isHighRisk (cfg : AlertingConfig) (operation : string) : bool := existsb (λ op, bool_decide (op = operation)) (al_HighRiskOperations cfg).
(** [Format(time.RFC3339)], for the years of four digits. *)
Definition rfc3339 (t : Z) : string := text_of (default [] (format_time (t - t `mod` nano))).
(** The message, its layout chosen by the address. *)
Definition formatPayload (cfg : AlertingConfig) (ev : AlertEvent) : claims :=
  let lines (mark sep : string) := mark +:+ "操作" +:+ mark +:+ ": " +:+ ae_Operation ev +:+ sep +:+ mark +:+ "操作者" +:+ mark +:+ ": " +:+ ae_Actor ev +:+ sep +:+
    mark +:+ "资源" +:+ mark +:+ ": " +:+ ae_Resource ev +:+ sep +:+ mark +:+ "时间" +:+ mark +:+ ": " +:+ rfc3339 (ae_Timestamp ev) +:+ sep +:+
    mark +:+ "TraceID" +:+ mark +:+ ": " +:+ ae_TraceID ev +:+ sep +:+ mark +:+ "描述" +:+ mark +:+ ": " +:+ ae_Description ev in
  if str_contains "hooks.slack.com" (al_WebhookURL cfg) then
    [("text", VStr ("🚨 *Yvonne KMS 高危操作告警*" +:+ nl +:+ nl +:+ lines "*" nl))]
  else if str_contains "oapi.dingtalk.com" (al_WebhookURL cfg) then
    [("msgtype", VStr "markdown");
     ("markdown", VObj [("title", VStr "Yvonne KMS 高危操作告警");
                        ("text", VStr ("## 🚨 Yvonne KMS 高危操作告警" +:+ nl +:+ nl +:+ lines "**" (nl +:+ nl)))])]
  else if str_contains "pagerduty.com" (al_WebhookURL cfg) then
    [("routing_key", VStr ""); ("event_action", VStr "trigger");
     ("payload", VObj [("summary", VStr ("Yvonne KMS: " +:+ ae_Operation ev +:+ " by " +:+ ae_Actor ev)); ("severity", VStr "critical");
        ("source", VStr "yvonne-kms");
        ("custom_details", VObj [("operation", VStr (ae_Operation ev)); ("actor", VStr (ae_Actor ev)); ("resource", VStr (ae_Resource ev));
           ("trace_id", VStr (ae_TraceID ev)); ("timestamp", VStr (rfc3339 (ae_Timestamp ev)))])])]
  else
    [("alert", VStr "yvonne-kms"); ("operation", VStr (ae_Operation ev)); ("actor", VStr (ae_Actor ev)); ("resource", VStr (ae_Resource ev));
     ("timestamp", VStr (rfc3339 (ae_Timestamp ev))); ("trace_id", VStr (ae_TraceID ev)); ("description", VStr (ae_Description ev))].
(** [Alert]: what is posted, if anything. [url] tells whether the address makes a request,
    [post] is the status of the answer, or the error of the exchange. *)
Definition Alert (a : Alerter) (url : result ()) (post : result Z) (event : AlertEvent) : option claims * result () :=
  match a with
  | NoopAlerter => (None, Ok tt)
  | WebhookAlerter cfg =>
      if negb (al_Enabled cfg) then (None, Ok tt)
      else if negb (isHighRisk cfg (ae_Operation event)) then (None, Ok tt)
      else match wrap_err "observability: create alert request" url with
           | Ok _ => (Some (formatPayload cfg event),
                      status ← wrap_err "observability: send alert" post;
                      if bool_decide (400 ≤ status)%Z then Error (Err_new ("observability: alert webhook returned " +:+ decimal status)) else Ok tt)
           | Error e => (None, Error e)
           | Panic m => (None, Panic m)
           end
  end.
(** [coreAlerterAdapter.Alert] of bootstrap.go: the service knows neither actor nor trace. *)
Definition coreAlert (a : Alerter) (now : Z) (url : result ()) (post : result Z) (operation resource description : string) : option claims * result () :=
  Alert a url post (mkAlertEvent operation "" resource now "" description).

(** ** What the counters count *)
(** The order of doubles is transitive, with the comparison that [<=] uses. *)
Lemma SFleb_trans x y z : SFleb x y = true → SFleb y z = true → SFleb x z = true.
Proof.
  rw /SFleb. destruct x as [sx|sx| |sx mx ex], y as [sy|sy| |sy my ey], z as [sz|sz| |sz mz ez]; cbn; try done;
    try (by destruct sx, sz); try (by destruct sx, sy, sz); try (by destruct sx, sy); try (by destruct sy, sz).
  destruct sx, sy, sz; try done; rw -!/(Pos.compare _ _);
    destruct (Z.compare_spec ex ey), (Z.compare_spec ey ez), (Z.compare_spec ex ez); try done; try lia;
    rw ?Pos.compare_cont_spec /=;
    destruct (Pos.compare_spec mx my), (Pos.compare_spec my mz), (Pos.compare_spec mx mz); simpl; try done; lia.
Qed.
Definition le_count (vs : list float64) (upper : float64) : Z := Z.of_nat (length (filter (λ v, SFleb v upper = true) vs)).
Lemma le_count_mono vs a b : SFleb a b = true → (le_count vs a ≤ le_count vs b)%Z.
Proof.
  intros Hab. rw /le_count. apply Nat2Z.inj_le. induction vs as [|v vs IH]; [done|]. rw !filter_cons.
  destruct (decide (SFleb v a = true)) as [Ha|Ha].
  - rw decide_True; [by apply (SFleb_trans v a b)|]. simpl. lia.
  - destruct (decide _); simpl; lia.
Qed.
Lemma bump_ok i counts : i < length counts → bump i counts = Ok (alter (λ c, uint64 (c + 1)) i counts).
Proof.
  intros [c Hc]%lookup_lt_is_Some_2. rw /bump Hc. f_equal. by apply list_eq_Forall2, Forall2_same_length_lookup_2; [rw length_insert length_alter|
    intros j x y Hx Hy; destruct (decide (i = j)) as [<-|Hij];
    [rw list_lookup_insert_eq in Hx; [by eapply lookup_lt_Some|]; rw list_lookup_alter_eq Hc in Hy; naive_solver|
     rw list_lookup_insert_ne // in Hx; rw list_lookup_alter_ne // in Hy; naive_solver]].
Qed.
(** One observation: the buckets from [i] on whose bound is large enough. *)
Lemma observe_buckets_ok v bs : ∀ i counts, i + length bs ≤ length counts →
  ∃ counts', observe_buckets v i bs counts = Ok counts' ∧ length counts' = length counts ∧
    (∀ j u, bs !! j = Some u → counts' !! (i + j) = (λ c, if SFleb v u then uint64 (c + 1) else c) <$> counts !! (i + j)) ∧
    (∀ j, j < i ∨ i + length bs ≤ j → counts' !! j = counts !! j).
Proof.
  induction bs as [|b bs IH]; intros i counts Hl; simpl in *; [by exists counts|].
  set (counts1 := if SFleb v b then alter (λ c, uint64 (c + 1)) i counts else counts).
  assert ((if SFleb v b then bump i counts else Ok counts) = Ok counts1) as ->.
  { rw /counts1. destruct (SFleb v b); [rw bump_ok //; lia|done]. }
  assert (length counts1 = length counts) as Hl1 by (rw /counts1; destruct (SFleb v b); [apply length_alter|done]).
  destruct (IH (S i) counts1) as (counts' & E & Hl' & Hin & Hout); [lia|]. exists counts'. split; [done|]. split; [lia|]. split.
  - intros [|j] u Hu; simpl in Hu.
    + injection Hu as <-. rw Nat.add_0_r Hout; [lia|]. rw /counts1. destruct (SFleb v b); [apply list_lookup_alter_eq|by rw option_fmap_id].
    + rw Nat.add_succ_r -Nat.add_succ_l (Hin j u Hu). f_equal. rw /counts1. destruct (SFleb v b); [rw list_lookup_alter_ne //; lia|done].
  - intros j Hj. rw Hout; [lia|]. rw /counts1. destruct (SFleb v b); [rw list_lookup_alter_ne //; lia|done].
Qed.

(** The histogram after the observations [vs]. *)
Record hist_inv (bs : list float64) (vs : list float64) (h : Histogram) : Prop := {
  hv_buckets : hi_buckets h = bs;
  hv_length : length (hi_counts h) = S (length bs);
  hv_count : hi_count h = Z.of_nat (length vs);
  hv_bucket i u : bs !! i = Some u → hi_counts h !! i = Some (le_count vs u);
  hv_inf : hi_counts h !! length bs = Some (Z.of_nat (length vs));
}.
Lemma uint64_small z : (0 ≤ z < 2 ^ 64)%Z → uint64 z = z.
Proof. apply Z.mod_small. Qed.
Lemma le_count_app vs v u : le_count (vs ++ [v]) u = if SFleb v u then (le_count vs u + 1)%Z else le_count vs u.
Proof. rw /le_count list.filter_app length_app. cbn. destruct (decide _) as [Hd|Hd]; destruct (SFleb v u); try done; simpl; lia. Qed.
Lemma le_count_bound vs u : (0 ≤ le_count vs u ≤ Z.of_nat (length vs))%Z.
Proof. rw /le_count. pose proof (length_filter (λ v, SFleb v u = true) vs). lia. Qed.
Lemma Observe_inv bs vs h v : hist_inv bs vs h → (Z.of_nat (length vs) + 1 < 2 ^ 64)%Z →
  ∃ h', Observe v h = Ok h' ∧ hist_inv bs (vs ++ [v]) h'.
Proof.
  intros [Hb Hl Hc Hin Hinf] Hlt. rw /Observe Hb.
  destruct (observe_buckets_ok v bs 0 (hi_counts h)) as (counts & E & Hl' & Hi & Ho); [lia|]. rw E /= bump_ok; [lia|]. simpl.
  eexists. split; [done|]. split; simpl.
  - done.
  - rw length_alter. lia.
  - rw Hc length_app /= uint64_small; lia.
  - intros i u Hu. rw list_lookup_alter_ne; [apply lookup_lt_Some in Hu; lia|]. rw (Hi i u Hu) (Hin i u Hu) /= le_count_app.
    destruct (SFleb v u); [|done]. pose proof (le_count_bound vs u). rw uint64_small //. lia.
  - rw list_lookup_alter_eq Ho; [lia|]. rw Hinf /= length_app /= uint64_small; [lia|]. do 2 f_equal. lia.
Qed.

Lemma bounds_ascending i j a b : i ≤ j → duration_bounds !! i = Some a → duration_bounds !! j = Some b → SFleb a b = true.
Proof.
  intros Hij Ha Hb. set (ok := λ p : nat * nat, match duration_bounds !! p.1, duration_bounds !! p.2 with
    Some a, Some b => negb (p.1 <=? p.2)%nat || SFleb a b | _, _ => true end).
  assert (forallb ok (list_prod (seq 0 11) (seq 0 11)) = true) as H by (vm_compute; reflexivity).
  rewrite List.forallb_forall in H. assert (ok (i, j) = true) as Hok.
  { apply H, in_prod; apply in_seq; apply lookup_lt_Some in Ha, Hb; simpl in *; lia. }
  rw /ok /= Ha Hb in Hok. by destruct (Nat.leb_spec i j); [|lia].
Qed.
(** The counts grow with the bounds. *)
Lemma hist_monotone vs h i j x y : hist_inv duration_bounds vs h → i ≤ j → hi_counts h !! i = Some x → hi_counts h !! j = Some y → (x ≤ y)%Z.
Proof.
  intros [_ Hlen _ Hb Hinf] Hij Hx Hy. assert (j < S (length duration_bounds)) as Hj by (rw -Hlen; by eapply lookup_lt_Some).
  destruct (decide (j = length duration_bounds)) as [->|Hj2].
  - rw Hinf in Hy. injection Hy as <-. destruct (decide (i = length duration_bounds)) as [->|Hi2]; [by rw Hinf in Hx; injection Hx as <-|].
    destruct (lookup_lt_is_Some_2 duration_bounds i) as [u Hu]; [lia|]. rw (Hb i u Hu) in Hx. injection Hx as <-. apply le_count_bound.
  - destruct (lookup_lt_is_Some_2 duration_bounds i) as [u Hu]; [lia|]. destruct (lookup_lt_is_Some_2 duration_bounds j) as [w Hw]; [lia|].
    rw (Hb i u Hu) in Hx. rw (Hb j w Hw) in Hy. injection Hx as <-. injection Hy as <-. by apply le_count_mono, (bounds_ascending i j).
Qed.

(** A run of requests: action, duration and success. *)
Record api_call : Type := mkCall { cl_action : string; cl_duration : Z; cl_success : bool }.
Fixpoint record_all (reqs : list api_call) (r : Registry) : result Registry :=
  match reqs with
  | [] => Ok r
  | q :: reqs => r ← RecordAPIRequest (cl_action q) (cl_duration q) (cl_success q) r; record_all reqs r
  end.
Definition count (P : api_call → bool) (reqs : list api_call) : Z := Z.of_nat (length (filter (λ q, P q = true) reqs)).
Definition labelled (a : string) (q : api_call) : bool := bool_decide (action_label (cl_action q) = a).
Definition failed_as (a : string) (q : api_call) : bool := negb (cl_success q) && labelled a q.
Definition seconds_of (reqs : list api_call) : list float64 := (λ q, duration_Seconds (cl_duration q)) <$> reqs.
Lemma count_app P reqs q : count P (reqs ++ [q]) = if P q then (count P reqs + 1)%Z else count P reqs.
Proof. rw /count list.filter_app length_app. cbn. destruct (decide _) as [Hd|Hd]; destruct (P q); try done; simpl; lia. Qed.
Lemma count_bound P reqs : (0 ≤ count P reqs ≤ Z.of_nat (length reqs))%Z.
Proof. rw /count. pose proof (length_filter (λ q, P q = true) reqs). lia. Qed.

Record registry_inv (reqs : list api_call) (r : Registry) : Prop := {
  rv_hist : hist_inv duration_bounds (seconds_of reqs) (rg_apiDuration r);
  rv_decrypt : rg_decryptFailures r = count (failed_as "Decrypt") reqs;
  rv_encrypt : rg_encryptFailures r = count (failed_as "Encrypt") reqs;
  rv_unseal : rg_unsealFailures r = count (failed_as "Unseal") reqs;
  rv_requests a : default 0%Z (rg_apiRequests r !! a) = count (labelled a) reqs;
  rv_labels a : is_Some (rg_apiRequests r !! a) → a ∈ "Unknown" :: allowedActions;
}.
Lemma registry_inv_new : registry_inv [] NewRegistry.
Proof.
  split; try done.
  - split; try done. intros i u Hu. rw (lookup_replicate_2 _ _ _) //. apply lookup_lt_Some in Hu. simpl in *. lia.
  - intros a. by rw lookup_empty => -[].
Qed.
Lemma action_label_known a : action_label a ∈ "Unknown" :: allowedActions.
Proof. rw /action_label. case_bool_decide; [|rw orb_true_r; set_solver]. destruct (_ <? _)%nat; set_solver. Qed.
Lemma RecordAPIRequest_inv reqs r q : registry_inv reqs r → (Z.of_nat (length reqs) + 1 < 2 ^ 64)%Z →
  ∃ r', RecordAPIRequest (cl_action q) (cl_duration q) (cl_success q) r = Ok r' ∧ registry_inv (reqs ++ [q]) r'.
Proof.
  intros [Hh Hd He Hu Hr Hl] Hlt. rw /RecordAPIRequest.
  destruct (Observe_inv _ _ _ (duration_Seconds (cl_duration q)) Hh) as (h' & E & Hh'); [by rw length_fmap|]. rw E /=.
  eexists. split; [done|].
  assert (∀ (b : bool) P, (if b then uint64 (count P reqs + 1) else count P reqs) = (if b then count P reqs + 1 else count P reqs)%Z) as Hu64.
  { intros b P. pose proof (count_bound P reqs). destruct b; [rw uint64_small //; lia|done]. }
  split; simpl; [by rw /seconds_of fmap_app|rw ?Hd ?He ?Hu Hu64 count_app; done..| |].
  - intros a. rw count_app /labelled. destruct (decide (action_label (cl_action q) = a)) as [<-|Hne].
    + rw lookup_insert_eq bool_decide_eq_true_2 //= Hr. by apply (Hu64 true).
    + by rw lookup_insert_ne // bool_decide_eq_false_2 // Hr.
  - intros a [x [[<- _]|[_ Hx]]%lookup_insert_Some]; [apply action_label_known|apply Hl; eauto].
Qed.
Lemma record_all_inv reqs : ∀ done r, registry_inv done r → (Z.of_nat (length (done ++ reqs)) < 2 ^ 64)%Z →
  ∃ r', record_all reqs r = Ok r' ∧ registry_inv (done ++ reqs) r'.
Proof.
  induction reqs as [|q reqs IH]; intros done r Hr Hlt; simpl; [exists r; by rw app_nil_r|].
  rw length_app /= in Hlt. destruct (RecordAPIRequest_inv done r q Hr) as (r1 & E & H1); [lia|]. rw E /=.
  destruct (IH (done ++ [q]) r1 H1) as (r' & E' & H'); [rw !length_app /=; lia|]. exists r'. by rw -assoc in H'.
Qed.

(** C36: the metrics account for the requests. For every run of fewer than 2^64 requests the
    registry records each without an index out of range; the histogram then counts, for
    each bound, the requests that took at most that long, counts them all in its last
    bucket and its total, and its counts grow with the bounds; each action's counter is
    the number of requests under its label, the three failure counters are the failed
    requests of their action; and there are never more than sixteen labels, whatever the
    requests name. *)
Theorem metrics_account reqs : (Z.of_nat (length reqs) < 2 ^ 64)%Z →
  ∃ r, record_all reqs NewRegistry = Ok r ∧
    (∀ i u, duration_bounds !! i = Some u → hi_counts (rg_apiDuration r) !! i = Some (le_count (seconds_of reqs) u)) ∧
    hi_counts (rg_apiDuration r) !! length duration_bounds = Some (Z.of_nat (length reqs)) ∧ hi_count (rg_apiDuration r) = Z.of_nat (length reqs) ∧
    (∀ i j x y, i ≤ j → hi_counts (rg_apiDuration r) !! i = Some x → hi_counts (rg_apiDuration r) !! j = Some y → (x ≤ y)%Z) ∧
    (∀ a, default 0%Z (rg_apiRequests r !! a) = count (labelled a) reqs) ∧
    rg_decryptFailures r = count (failed_as "Decrypt") reqs ∧ rg_encryptFailures r = count (failed_as "Encrypt") reqs ∧
    rg_unsealFailures r = count (failed_as "Unseal") reqs ∧ size (rg_apiRequests r) ≤ 16.
Proof.
  intros Hlt. destruct (record_all_inv reqs [] NewRegistry registry_inv_new Hlt) as (r & E & [Hh Hd He Hu Hr Hl]). simpl in *.
  pose proof Hh as [_ Hlen Hc Hb Hinf]. rw /seconds_of length_fmap in Hc Hinf. exists r. split_and!; try done.
  - intros i j x y. by apply (hist_monotone _ _ _ _ _ _ Hh).
  - transitivity (size (list_to_set ("Unknown" :: allowedActions) : gset string)); [|vm_compute; lia].
    rw -size_dom. apply subseteq_size. intros a Ha%elem_of_dom. apply elem_of_list_to_set. by apply Hl.
Qed.

Lemma metrics_account_witness : ∃ r, record_all [mkCall "Decrypt" 7000000 false; mkCall "Sign" 20000000 true] NewRegistry = Ok r ∧
  rg_decryptFailures r = 1%Z ∧ default 0%Z (rg_apiRequests r !! "Unknown") = 1%Z ∧ hi_counts (rg_apiDuration r) !! 1 = Some 1%Z.
Proof.
  destruct (metrics_account [mkCall "Decrypt" 7000000 false; mkCall "Sign" 20000000 true]) as (r & E & Hb & _ & _ & _ & Hr & Hd & _); [vm_compute; reflexivity|].
  exists r. split; [exact E|]. split; [rewrite Hd; vm_compute; reflexivity|]. split; [rewrite Hr; vm_compute; reflexivity|].
  rewrite (Hb 1 (thousandths 10)); [vm_compute; reflexivity|reflexivity].
Defined.
(** The names that the router gives its routes are not those of the list: rotation and
    destruction of keys arrive as [KeyOp], and count as unknown, as do signatures. *)
Example router_actions_unknown : action_label <$> ["KeyOp"; "Sign"; "Verify"; "ReEncrypt"; "GenerateMac"; "CreateAsymmetricKey"; "Encrypt"] =
  replicate 6 "Unknown" ++ ["Encrypt"].
Proof. vm_compute. reflexivity. Qed.
Example float_texts : formatFloat <$> duration_bounds = ["0.005"; "0.01"; "0.025"; "0.05"; "0.1"; "0.25"; "0.5"; "1"; "2.5"; "5"; "10"].
Proof. vm_compute. reflexivity. Qed.
(** An observation of less than half a microsecond is printed as zero, and so is an overflown sum. *)
Example small_texts : formatFloat <$> [f_div (f64 4) (f64 (10 ^ 7)); f_div (f64 3) (f64 (2 * 10 ^ 6)); S754_infinity false; f64 0] = ["0"; "0.000002"; "0"; "0"].
Proof. vm_compute. reflexivity. Qed.

(** ** What is alerted *)
(** A message is posted exactly for the operations on the list of an enabled alerter; a
    failure to post, and a status from 400 on, are reported to the caller. *)
Lemma Alert_spec cfg url post ev :
  Alert (NewAlerter cfg) url post ev =
  if al_Enabled cfg && bool_decide (ae_Operation ev ∈ al_HighRiskOperations cfg) then
    match url with
    | Ok _ => (Some (formatPayload cfg ev), match post with
        | Ok st => if bool_decide (400 ≤ st)%Z then Error (Err_new ("observability: alert webhook returned " +:+ decimal st)) else Ok tt
        | Error e => Error (Err_wrap "observability: send alert" e)
        | Panic m => Panic m
        end)
    | Error e => (None, Error (Err_wrap "observability: create alert request" e))
    | Panic m => (None, Panic m)
    end
  else (None, Ok tt).
Proof.
  rw /NewAlerter. destruct (al_Enabled cfg) eqn:Ee; [|done]. rw /= Ee /=.
  assert (isHighRisk cfg (ae_Operation ev) = bool_decide (ae_Operation ev ∈ al_HighRiskOperations cfg)) as ->.
  { apply eq_bool_prop_intro. rw bool_decide_spec /isHighRisk. split.
    - intros (op & Hin & ->%bool_decide_eq_true)%Is_true_true%existsb_exists. by apply list_elem_of_In.
    - intros Hin. apply Is_true_true, existsb_exists. exists (ae_Operation ev). split; [by apply list_elem_of_In|by apply bool_decide_eq_true_2]. }
  case_bool_decide; [|done]. destruct url as [[]| |]; [|done..]. by destruct post.
Qed.
(** The layouts tell the operation and the time, whatever the address. *)
Example payloads : let ev := mkAlertEvent "KEKUnwrapFailure" "" "k" 0 "" "d" in
  let cfg url := mkAlerting true url ["KEKUnwrapFailure"] in
  formatPayload (cfg "https://hooks.slack.com/x") ev =
    [("text", VStr ("🚨 *Yvonne KMS 高危操作告警*" +:+ nl +:+ nl +:+ "*操作*: KEKUnwrapFailure" +:+ nl +:+ "*操作者*: " +:+ nl +:+ "*资源*: k" +:+ nl +:+
       "*时间*: 0001-01-01T00:00:00Z" +:+ nl +:+ "*TraceID*: " +:+ nl +:+ "*描述*: d"))] ∧
  fst <$> formatPayload (cfg "https://events.pagerduty.com/v2") ev = ["routing_key"; "event_action"; "payload"] ∧
  field "timestamp" (formatPayload (cfg "http://h") ev) = Some (VStr "0001-01-01T00:00:00Z").
Proof. vm_compute. split_and!; reflexivity. Qed.
