(* ===== verification/Tracing.v ===== *)
(** Setting up tracing, [src/internal/observability/tracing.go]. The exporter and its transport are
    third-party code: what they answer is given as outcomes, and what the process holds of them
    afterwards (connections, the registered provider) is the state. *)

From S2P Require Import Prelude.

(** ** Definitions *)
Record TracerConfig : Type := mkTracer { tc_Enabled : bool; tc_Endpoint : string; tc_ServiceName : string }.
(** [grpc.NewClient], [otlptracegrpc.New], [resource.New] and [Shutdown] of the provider. *)
Record otel : Type := mkOtel { ot_NewClient : string → option error; ot_NewExporter : option error; ot_NewResource : option error; ot_Shutdown : option error }.
(** Open connections, in clear text all of them, and the service the global provider exports for. *)
Record tracing : Type := mkTracing { tg_conns : list string; tg_provider : option string }.
Inductive tracer : Type := Noop | Exporting (endpoint service : string).
Section Tracing.
Variable lib : otel.
Definition InitTracer (cfg : TracerConfig) (s : tracing) : tracing * result tracer :=
  if negb (tc_Enabled cfg) then (s, Ok Noop)
  else if bool_decide (tc_Endpoint cfg = "") then (s, Error (Err_new "observability: tracing endpoint is required when enabled"))
  else
    let serviceName := if bool_decide (tc_ServiceName cfg = "") then "yvonne-kms" else tc_ServiceName cfg in
    match ot_NewClient lib (tc_Endpoint cfg) with
    | Some e => (s, Error (Err_wrap "observability: create gRPC connection" e))
    | None =>
        let s := mkTracing (tc_Endpoint cfg :: tg_conns s) (tg_provider s) in
        match ot_NewExporter lib, ot_NewResource lib with
        | Some e, _ => (s, Error (Err_wrap "observability: create OTLP trace exporter" e))
        | None, Some e => (s, Error (Err_wrap "observability: create resource" e))
        | None, None => (mkTracing (tg_conns s) (Some serviceName), Ok (Exporting (tc_Endpoint cfg) serviceName))
        end
    end.
Fixpoint remove_one (c : string) (l : list string) : list string :=
  match l with [] => [] | x :: l => if bool_decide (x = c) then l else x :: remove_one c l end.
(** The function that [InitTracer] returns with the tracer: the error of the provider is logged. *)
Definition shutdown (t : tracer) (s : tracing) : tracing * option error :=
  match t with Noop => (s, None) | Exporting ep _ => (mkTracing (remove_one ep (tg_conns s)) (tg_provider s), ot_Shutdown lib) end.
Definition TracerFromContext (s : tracing) : option string * string := (tg_provider s, "yvonne-kms").

(** ** What a start holds, and a stop releases *)
(** Off, it touches nothing; on, it exports under the given or the default name; stopping closes
    the connection even when the provider fails to flush. *)
Lemma tracer_released cfg s s' t : InitTracer cfg s = (s', Ok t) → tg_conns (shutdown t s').1 = tg_conns s ∧ (tc_Enabled cfg = false → s' = s).
Proof.
  rw /InitTracer. destruct (tc_Enabled cfg); cbn; [|by intros [= <- <-]]. case_bool_decide; [done|].
  destruct (ot_NewClient lib _), (ot_NewExporter lib), (ot_NewResource lib); try done. intros [= <- <-]. cbn. by rewrite bool_decide_eq_true_2.
Qed.
(** A failure after the connection was made leaves it open; there is nothing to close it with. *)
Lemma failed_tracer_leaks cfg s s' e : InitTracer cfg s = (s', Error e) →
  tg_provider s' = tg_provider s ∧
  (tg_conns s' ≠ tg_conns s ↔ tc_Enabled cfg = true ∧ tc_Endpoint cfg ≠ "" ∧ ot_NewClient lib (tc_Endpoint cfg) = None).
Proof.
  rw /InitTracer. destruct (tc_Enabled cfg); cbn; [|done]. case_bool_decide as He; [intros [= <- _]; split; [done|]; naive_solver|].
  assert (∀ c (l : list string), c :: l ≠ l) as Hc by (intros c l [=]%(f_equal length); lia).
  destruct (ot_NewClient lib _); [intros [= <- _]; split; [done|]; naive_solver|].
  destruct (ot_NewExporter lib), (ot_NewResource lib); try done; intros [= <- _]; cbn; (split; [done|]); by split; [|intros _; apply Hc].
Qed.
End Tracing.
Example leaked_connection : InitTracer (mkOtel (λ _, None) (Some (Err_new "exporter")) None None) (mkTracer true "otel:4317" "") (mkTracing [] None) =
  (mkTracing ["otel:4317"] None, Error (Err_wrap "observability: create OTLP trace exporter" (Err_new "exporter"))).
Proof. reflexivity. Qed.
