(* ===== verification/Pki.v ===== *)
(** The life of the master key outside the vault: the key pair and the wrapped master key
    of [src/internal/seal/local_pki.go], and the commands of [src/cmd/yvonne/main.go] that
    create it, back it up and restore it. The host with its files and failing system
    calls is that of Backup.v; the store is any [KVStore]. *)

From S2P Require Import Prelude SecureBuffer Hash Shamir Vault Backup Store Postgres Oaep Manager Transit TransitSpec Auth RateLimit Jwt Settings.

(** ** The library around RSA keys *)
(** PEM blocks ([encoding/pem]) and the PKCS#1 forms ([crypto/x509]); [x509_ParsePKIXPublic]
    gives [None] for a key that is not RSA. *)
Class PEMLib : Type := {
  pem_EncodeToMemory : string → bytes → bytes;
  pem_Decode : bytes → option (string * bytes * bytes);   (* type, contents, rest of the input *)
  x509_MarshalPKCS1PrivateKey : RSAKey → bytes;
  x509_ParsePKCS1PrivateKey : bytes → result RSAKey;
  x509_MarshalPKCS1PublicKey : Z * Z → bytes;
  x509_ParsePKCS1PublicKey : bytes → result (Z * Z);
  x509_ParsePKIXPublicKey : bytes → result (option (Z * Z));
}.
(** An encoded block is found again, with nothing after it; the two forms of a generated
    key are parsed back to it. *)
Class PEMLaws {rlib : RSALib} {plib : PEMLib} : Prop := {
  pem_roundtrip t b : t ∈ ["RSA PRIVATE KEY"; "RSA PUBLIC KEY"] → pem_Decode (pem_EncodeToMemory t b) = Some (t, b, []);
  pem_nonempty t b : pem_EncodeToMemory t b ≠ [];
  pkcs1_private bits e e' k : rsa_GenerateKey bits e = (e', Ok k) → x509_ParsePKCS1PrivateKey (x509_MarshalPKCS1PrivateKey k) = Ok k;
  pkcs1_public bits e e' k : rsa_GenerateKey bits e = (e', Ok k) →
    x509_ParsePKCS1PublicKey (x509_MarshalPKCS1PublicKey (rsa_public k)) = Ok (rsa_public k);
}.

(** [rsa.EncryptOAEP] with [rand.Reader]: the length is checked before the seed is read. *)
Definition rsa_EncryptOAEP (label : bytes) (pub : Z * Z) (msg : bytes) : M entropy bytes := fun e =>
  if rsa_Size pub.1 <? length msg + 2 * hLen + 2 then (e, Error ErrMessageTooLong)
  else if length e <? hLen then ([], Error (Err_new "rand"))
  else (drop hLen e, EncryptOAEP label pub (take hLen e) msg).

(** ** System calls *)
Definition errNotExist : error := Err_new "file does not exist".
Definition os_Remove (path : string) : M Host () :=
  o ← os_call;
  match o with
  | Some _ => throw errOS
  | None => fun h => match h_files h !! path with
                     | Some _ => (set_files (delete path (h_files h)) h, Ok tt)
                     | None => (h, Error errNotExist)
                     end
  end.
(** A call whose error is dropped. *)
Definition ignore {S A} (m : M S A) : M S () := try_ m;; mret tt.

(** [strings.Split(path, "/")] *)
Definition split_path (s : string) : list string := split_on (char_of "/") s.
(** [filepath.Clean] on Unix, by parts: empty parts and "." vanish, ".." takes back the part
    before it, or vanishes at the root, or stays in front of a relative path. *)
Fixpoint clean_parts (rooted : bool) (out parts : list string) : list string :=
  match parts with
  | [] => rev out
  | p :: ps =>
      if bool_decide (p = "") || bool_decide (p = ".") then clean_parts rooted out ps
      else if bool_decide (p = "..") then
        match out with
        | q :: out' => if bool_decide (q = "..") then clean_parts rooted (p :: out) ps else clean_parts rooted out' ps
        | [] => if rooted then clean_parts rooted [] ps else clean_parts rooted [p] ps
        end
      else clean_parts rooted (p :: out) ps
  end.
Definition Clean (path : string) : string :=
  let rooted := has_prefix "/" path in
  let parts := clean_parts rooted [] (split_path path) in
  if rooted then "/" +:+ String.concat "/" parts
  else if bool_decide (parts = []) then "." else String.concat "/" parts.

(** ** local_pki.go *)
Definition WrappedMasterKeyKey : string := "master-key-wrapped".
Definition masterKeyLabel : bytes := str_bytes "yvonne-master-key".

Section Pki.
Context {S : Type} `{!KVStore S} {rlib : RSALib} {plib : PEMLib}.
(** The bytes of a stored value: documents are kept as trees, so their text is an argument. *)
Variable slice : data → bytes.

(** The host and the store; and, for the unsealer, its vault. *)
Abbreviation HS := (Host * S)%type.
Definition onH {X A} (m : M Host A) : M (Host * X) A := onS m.
Definition onStore {A} (m : M S A) : M HS A := fun '(h, s) => let '(s', r) := m s in ((h, s'), r).
Definition onVault {A} (m : M VaultState A) : M (HS * VaultState) A := fun '(w, v) => let '(v', r) := m v in ((w, v'), r).

(** [LocalPKIUnsealer]: the path; vault and store are the state. *)
Definition LocalPKIUnsealer : Type := string.

Definition parse_private (pemBytes : bytes) : result RSAKey :=
  if length pemBytes =? 0 then Error (Err_new "local_pki: empty PEM data")
  else match pem_Decode pemBytes with
  | None => Error (Err_new "local_pki: no PEM block found in private key data")
  | Some (ty, der, rest) =>
      if negb (length rest =? 0) then Error (Err_new "local_pki: trailing data after private key PEM block")
      else
        rsaKey ← (if bool_decide (ty = "RSA PRIVATE KEY") then wrap_err "local_pki: parse private key" (x509_ParsePKCS1PrivateKey der)
                  else if bool_decide (ty = "PRIVATE KEY") then
                    wrap_err "local_pki: parse private key"
                      (key ← x509_ParsePKCS8 der;
                       match key with Some k => Ok k | None => Error (Err_new "local_pki: not an RSA private key") end)
                  else Error (Err_new "local_pki: unsupported PEM type"));
        if bool_decide (Z.log2 (rsa_N rsaKey) + 1 < 2048)%Z then Error (Err_new "local_pki: RSA key too short") else Ok rsaKey
  end.

(** From the contents of the PEM file to the unsealed vault. *)
Definition unseal_with (pemBytes : bytes) : M (HS * VaultState) () :=
  rsaKey ← lift (parse_private pemBytes);
  wrappedKey ← onS (onStore (wrapM "local_pki: read wrapped master key" (kv_Get WrappedMasterKeyKey)));
  guardM (negb (data_empty wrappedKey)) (Err_new "local_pki: wrapped master key is empty");;
  decrypted ← lift (wrap_err "local_pki: RSA decrypt failed" (DecryptOAEP masterKeyLabel rsaKey (slice wrappedKey)));
  onVault (wrapM "local_pki: direct unseal failed" (DirectUnseal (Some (NewSecureBuffer decrypted).1))).

(** The deferred removal of the PEM file runs when the vault was unsealed, and its failure
    replaces the result. *)
Definition AutoUnseal (u : LocalPKIUnsealer) : M (HS * VaultState) () :=
  pemBytes ← wrapM "local_pki: read pem file" (onS (onH (os_ReadFile u)));
  unseal_with pemBytes;;
  removed ← try_ (onS (onH (os_Remove u)));
  match removed with
  | inr rmErr => guardM (errors_Is rmErr errNotExist) (Err_wrap "local_pki: CRITICAL failed to delete PEM file after unseal" rmErr)
  | inl _ => mret tt
  end.

Definition GenerateUnsealKeyPair : M entropy (bytes * bytes) :=
  privateKey ← wrapM "generate RSA-4096 key pair" (rsa_GenerateKey 4096);
  mret (pem_EncodeToMemory "RSA PRIVATE KEY" (x509_MarshalPKCS1PrivateKey privateKey),
        pem_EncodeToMemory "RSA PUBLIC KEY" (x509_MarshalPKCS1PublicKey (rsa_public privateKey))).

Definition parse_public (publicKeyPEM : bytes) : result (Z * Z) :=
  if length publicKeyPEM =? 0 then Error (Err_new "local_pki: empty public key PEM data")
  else match pem_Decode publicKeyPEM with
  | None => Error (Err_new "local_pki: no PEM block found in public key data")
  | Some (ty, der, rest) =>
      if negb (length rest =? 0) then Error (Err_new "local_pki: trailing data after public key PEM block")
      else if bool_decide (ty = "RSA PUBLIC KEY") then wrap_err "local_pki: parse PKCS1 public key" (x509_ParsePKCS1PublicKey der)
      else if bool_decide (ty = "PUBLIC KEY") then
        key ← wrap_err "local_pki: parse PKIX public key" (x509_ParsePKIXPublicKey der);
        match key with Some k => Ok k | None => Error (Err_new "local_pki: not an RSA public key") end
      else Error (Err_new "local_pki: unsupported public key PEM type")
  end.
Definition EncryptMasterKeyWithPublicKey (publicKeyPEM : bytes) (masterKey : SecureBuffer) : M entropy bytes :=
  pub ← lift (parse_public publicKeyPEM);
  wrapM "local_pki: RSA encrypt master key" (WithKey masterKey (rsa_EncryptOAEP masterKeyLabel pub)).

(** ** The commands of main.go
    [log.Fatalf] and [os.Exit] end a command with an error. *)
Definition runUnsealKeygenCmd (outPath : string) : M Host bytes :=
  guardM (negb (bool_decide (outPath = ""))) (Err_new "error: --out is required for 'unseal-keygen' command");;
  '(privPEM, pubPEM) ← wrapM "generate key pair failed" (onHostRand GenerateUnsealKeyPair);
  wrapM "write private key file failed" (os_WriteFile outPath privPEM true);;
  mret pubPEM.

(** [atomicWriteFileSecure]; [tmp] is the fresh name that [os.CreateTemp] chooses. *)
Definition set_file (path : string) (f : bytes * bool) : M Host () := modify (λ h, set_files (<[path := f]> (h_files h)) h).
Definition os_step (ctx : string) (cleanup : M Host ()) (act : option nat → M Host ()) : M Host () :=
  o ← os_call; act o;; match o with None => mret tt | Some _ => cleanup;; throw (Err_wrap ctx errOS) end.
Definition atomicWriteFileSecure (tmp path : string) (content : bytes) : M Host () :=
  o ← os_call;
  guardM (bool_decide (o = None)) (Err_wrap "create temp file" errOS);;
  present ← gets (λ h, h_files h !! tmp);
  guardM (bool_decide (present = None)) (Err_wrap "create temp file" errOS);;
  set_file tmp ([], true);;
  let remove := ignore (os_Remove tmp) in
  os_step "write temp file" (ignore os_call;; remove) (λ o, set_file tmp (from_option (λ n, take n content) content o, true));;
  os_step "sync temp file" (ignore os_call;; remove) (λ _, mret tt);;
  os_step "close temp file" remove (λ _, mret tt);;
  os_step "chmod temp file" remove (λ o, match o with None => set_file tmp (content, false) | Some _ => mret tt end);;
  os_step "rename temp to final" remove (λ o,
    match o with None => modify (λ h, set_files (<[path := (content, false)]> (delete tmp (h_files h))) h) | Some _ => mret tt end).

(** [connect] is the error of opening the database, [load] is [LoadYvonneConfig]. *)
Definition runInitCmd (load : string → result YvonneConfig) (connect : option error) (configPath tmp pubKeyPath wrappedOut : string) : M HS () :=
  guardM (negb (bool_decide (configPath = ""))) (Err_new "error: --config is required for 'init' command");;
  guardM (negb (bool_decide (pubKeyPath = ""))) (Err_new "error: --pub-key is required for 'init' command");;
  cfg ← lift (wrap_err "load config" (load configPath));
  guardM (bool_decide (sm_Type (yc_Storage cfg) = "postgres")) (Err_new "init: storage.type must be 'postgres' for cluster mode initialization");;
  pubKeyPEM ← wrapM "read public key" (onH (os_ReadFile pubKeyPath));
  lift (match connect with Some e => Error (Err_wrap "connect postgres" e) | None => Ok tt end);;
  existing ← try_ (onStore (kv_Get WrappedMasterKeyKey));
  guardM (match existing with inl v => data_empty v | inr _ => true end) (Err_new "FATAL: master-key-wrapped already exists in DB");;
  cmk ← wrapM "generate CMK" (onH (onHostRand (NewSecureBufferFromRandom 32)));
  wrappedCMK ← wrapM "encrypt CMK with public key" (onH (onHostRand (EncryptMasterKeyWithPublicKey pubKeyPEM cmk)));
  wrapM "write wrapped CMK to DB" (onStore (kv_Put WrappedMasterKeyKey (Raw wrappedCMK)));;
  (if bool_decide (wrappedOut = "") then mret tt
   else wrapM "write wrapped CMK to USB" (onH (atomicWriteFileSecure tmp wrappedOut wrappedCMK)));;
  verify ← wrapM "verification read failed" (onStore (kv_Get WrappedMasterKeyKey));
  guardM (length (slice verify) =? length wrappedCMK) (Err_new "verification failed: DB length").

Definition runBackupSplitCmd (load : string → result YvonneConfig) (connect : option error) (configPath outDir : string) (total threshold : Z) : M HS (list string) :=
  guardM (negb (bool_decide (configPath = "") || bool_decide (outDir = ""))) (Err_new "error: --config and --out-dir are required");;
  lift (wrap_err "load config" (load configPath));;
  lift (match connect with Some e => Error (Err_wrap "connect postgres" e) | None => Ok tt end);;
  wrappedCMK ← wrapM "read wrapped CMK from DB" (onStore (kv_Get WrappedMasterKeyKey));
  wrapM "split" (onH (SplitWrappedCMKToFiles (slice wrappedCMK) total threshold outDir)).

Definition validatePath (path : string) : result () :=
  if bool_decide (path = "") then Error (Err_new "empty path")
  else
    let clean := Clean path in
    if bool_decide (clean = "..") || has_prefix "../" clean || existsb (λ part, bool_decide (part = "..")) (split_path clean)
    then Error (Err_new "path contains parent directory traversal") else Ok tt.
Definition runBackupRestoreCmd (tmp outPath : string) (sharePaths : list string) : M Host () :=
  guardM (negb (bool_decide (outPath = ""))) (Err_new "error: --out is required");;
  lift (wrap_err "error: invalid --out path" (validatePath outPath));;
  guardM (negb (length sharePaths <? 2)) (Err_new "error: need at least 2 share files");;
  lift (foldr (λ p r, _ ← wrap_err "error: invalid share path" (validatePath p); r) (Ok tt) sharePaths);;
  wrappedCMK ← wrapM "restore" (CombineWrappedCMKFromFiles sharePaths);
  wrapM "write" (atomicWriteFileSecure tmp outPath wrappedCMK).


(** ** The unsealer *)
Lemma os_call_files h h' r : os_call h = (h', r) → h_files h' = h_files h ∧ h_rand h' = h_rand h ∧ ∃ o, r = Ok o.
Proof. rw /os_call. destruct (h_io h); intros [= <- <-]; split_and!; eauto. Qed.
Lemma ReadFile_files path h h' r : os_ReadFile path h = (h', r) →
  h_files h' = h_files h ∧ h_rand h' = h_rand h ∧ (∀ d, r = Ok d → ∃ m, h_files h !! path = Some (d, m)).
Proof.
  rw /os_ReadFile /mbind /M_bind. destruct (os_call h) as [h1 r1] eqn:E. apply os_call_files in E as (Hf & Hr & [n|] & ->).
  - intros [= <- <-]. by split.
  - intros [= <- <-]. split; [done|]. split; [done|]. rw Hf. intros d. destruct (h_files h !! path) as [[d' m]|]; [|done]. intros [= ->]. by exists m.
Qed.
Lemma Remove_files path h h' r : os_Remove path h = (h', r) →
  match r with
  | Ok _ => is_Some (h_files h !! path) ∧ h_files h' = delete path (h_files h)
  | Error e => h_files h' = h_files h ∧ (e = errOS ∨ e = errNotExist ∧ h_files h !! path = None)
  | Panic _ => False
  end.
Proof.
  rw /os_Remove /mbind /M_bind. destruct (os_call h) as [h1 r1] eqn:E. apply os_call_files in E as (Hf & _ & [n|] & ->).
  - intros [= <- <-]. auto.
  - rw Hf. destruct (h_files h !! path) eqn:El; intros [= <- <-]; auto.
Qed.

(** The key that the file at [u] and the stored value of [s] lead to. *)
Definition leads_to (u : string) (h : Host) (s : S) (mk : bytes) : Prop :=
  ∃ pem m k w, h_files h !! u = Some (pem, m) ∧ parse_private pem = Ok k ∧
    kv_map s !! WrappedMasterKeyKey = Some w ∧ data_empty w = false ∧ DecryptOAEP masterKeyLabel k (slice w) = Ok mk.

Lemma unseal_with_spec `{!KVStoreLaws S} pem h s v h' s' v' r : unseal_with pem (h, s, v) = (h', s', v', r) →
  h' = h ∧ kv_map s' = kv_map s ∧
  ((is_ok r = false ∧ v' = v) ∨
   r = Ok tt ∧ ∃ k w mk, parse_private pem = Ok k ∧ kv_map s !! WrappedMasterKeyKey = Some w ∧ data_empty w = false ∧
     DecryptOAEP masterKeyLabel k (slice w) = Ok mk ∧ DirectUnseal (Some (mkSB mk false)) v = (v', Ok tt)).
Proof.
  rw /unseal_with. intros (w1 & r1 & Hp & H)%M_bind_inv. injection Hp as <- <-.
  destruct (parse_private pem) as [k|e|m] eqn:Ep; [|by destruct H as [[= -> -> ->] ->]; auto..].
  apply M_bind_inv in H as (w2 & r2 & Hg & H). rw /onS /onStore in Hg.
  destruct (wrapM _ _ s) as [s2 r2'] eqn:Eg. injection Hg as <- <-.
  apply wrapM_inv in Eg as (rg & Eg & ->). pose proof (kv_get_map _ _ _ _ Eg) as Hm.
  destruct rg as [w|e|m]; simpl in H; [|by destruct H as [[= -> -> ->] ->]; auto..].
  pose proof (kv_get_ok _ _ _ _ Eg) as Hw.
  apply M_bind_inv in H as (w3 & r3 & Hn & H). rw /guardM in Hn.
  destruct (data_empty w) eqn:Ee; injection Hn as <- <-; [by destruct H as [[= -> -> ->] ->]; auto|].
  apply M_bind_inv in H as (w4 & r4 & Hd & H). injection Hd as <- <-.
  destruct (DecryptOAEP _ _ _) as [mk|e|m] eqn:Ed; simpl in H; [|by destruct H as [[= -> -> ->] ->]; auto..].
  rw /onVault in H. destruct (wrapM _ _ v) as [v5 r5] eqn:Eu. injection H as -> -> -> ->.
  split; [done|]. split; [done|]. apply wrapM_inv in Eu as (ru & Eu & ->).
  destruct ru as [[]|e|m]; [right|left..].
  - split; [done|]. by exists k, w, mk.
  - split; [done|]. revert Eu. rw /DirectUnseal. by repeat case_match; intros [= <- _].
  - exfalso. revert Eu. rw /DirectUnseal. by repeat case_match.
Qed.
Lemma DirectUnseal_ok k v v' : DirectUnseal (Some k) v = (v', Ok tt) → IsUnsealed v' = true ∧ vs_masterKey v' = Some k.
Proof.
  rw /DirectUnseal. destruct (vs_emergency v), (IsUnsealed v); try done. intros [= <-].
  rw /startResealTimer. by case_bool_decide.
Qed.

(** The outcomes of an automatic unsealing. *)
Lemma AutoUnseal_cases `{!KVStoreLaws S} u h s v h' s' v' r : AutoUnseal u (h, s, v) = (h', s', v', r) →
  kv_map s' = kv_map s ∧
  ((∃ mk, r = Ok tt ∧ leads_to u h s mk ∧ IsUnsealed v' = true ∧ vs_masterKey v' = Some (mkSB mk false) ∧ h_files h' = delete u (h_files h)) ∨
   (is_ok r = false ∧ v' = v ∧ h_files h' = h_files h) ∨
   (∃ mk, r = Error (Err_wrap "local_pki: CRITICAL failed to delete PEM file after unseal" errOS) ∧ leads_to u h s mk ∧
      IsUnsealed v' = true ∧ vs_masterKey v' = Some (mkSB mk false) ∧ h_files h' = h_files h)).
Proof.
  rw /AutoUnseal. intros (w1 & r1 & Hr & H)%M_bind_inv. apply wrapM_inv in Hr as (rr & Hr & ->).
  rw /onH /onS in Hr. destruct (os_ReadFile u h) as [h1 rf] eqn:Ef. injection Hr as <- <-.
  apply ReadFile_files in Ef as (Hf & _ & Hd). destruct rf as [pem|e|m]; simpl in H;
    [|by destruct H as [[= -> -> ->] ->]; split; [done|]; right; left..].
  destruct (Hd pem eq_refl) as [mode Hpem]. apply M_bind_inv in H as ([[h2 s2] v2] & r2 & Hu & H).
  apply unseal_with_spec in Hu as (-> & Hs2 & [[Hn ->]|(-> & k & w & mk & Hk & Hw & He & Hdec & Hdu)]).
  { destruct r2; [done|..]; destruct H as [[= -> -> ->] ->]; split; auto. }
  apply DirectUnseal_ok in Hdu as [Hun Hmk]. assert (leads_to u h s mk) as Hl by by exists pem, mode, k, w.
  apply M_bind_inv in H as (w3 & r3 & Ht & H). apply try_inv in Ht as (rt & Ht & ->). rw /onH /onS in Ht.
  destruct (os_Remove u h1) as [h3 rm] eqn:Er. injection Ht as <- <-. apply Remove_files in Er.
  destruct rm as [[]|e|m]; [| |done].
  - injection H as <- <- <- <-. split; [done|]. left. exists mk. rw -Hf. naive_solver.
  - destruct Er as [Hfe He']. rw /guardM in H. destruct He' as [->|[-> Hx]].
    + rw (_ : errors_Is errOS errNotExist = false) in H; [done|]. injection H as <- <- <- <-. split; [done|]. right; right. exists mk. by rw Hfe Hf.
    + rw Hf Hpem in Hx. done.
Qed.

(** What an automatic unsealing does, on every path. When it succeeds the vault is
    unsealed with the key that the private key in the PEM file decrypts from the stored
    value, and the PEM file is gone, with every other file as it was. When it fails
    nothing has changed, but for one case that is reported: the vault was unsealed and
    the file could not be removed. The stored values never change. *)
Theorem AutoUnseal_exact `{!KVStoreLaws S} u h s v h' s' v' r : AutoUnseal u (h, s, v) = (h', s', v', r) →
  kv_map s' = kv_map s ∧
  ((∃ mk, r = Ok tt ∧ leads_to u h s mk ∧ IsUnsealed v' = true ∧ vs_masterKey v' = Some (mkSB mk false) ∧ h_files h' = delete u (h_files h)) ∨
   (is_ok r = false ∧ v' = v ∧ h_files h' = h_files h) ∨
   (∃ mk, r = Error (Err_wrap "local_pki: CRITICAL failed to delete PEM file after unseal" errOS) ∧ leads_to u h s mk ∧
      IsUnsealed v' = true ∧ vs_masterKey v' = Some (mkSB mk false) ∧ h_files h' = h_files h)).
Proof. apply AutoUnseal_cases. Qed.

(** ** Creating the master key *)
Lemma onHostRand_inv {A} (m : M entropy A) h h' r : onHostRand m h = (h', r) →
  ∃ e, m (h_rand h) = (e, r) ∧ h' = mkHost e (h_files h) (h_io h).
Proof. rw /onHostRand. destruct (m (h_rand h)) as [e r']. intros [= <- <-]. by exists e. Qed.
Lemma write_file_ok path content mode o h h' : write_file path content mode o h = (h', Ok tt) → ∃ m, h_files h' !! path = Some (content, m).
Proof.
  rw /write_file. destruct (h_files h !! path) as [[d [|]]|]; [..|destruct o; intros [= <-]];
    [destruct o; intros [= <-]|done|]; rw lookup_insert_eq; eauto.
Qed.
(** What [unseal-keygen] leaves: a private key in the file and its public half as output. *)
Definition key_pair (priv pub : bytes) : Prop := ∃ e e' k, rsa_GenerateKey 4096 e = (e', Ok k) ∧
  priv = pem_EncodeToMemory "RSA PRIVATE KEY" (x509_MarshalPKCS1PrivateKey k) ∧
  pub = pem_EncodeToMemory "RSA PUBLIC KEY" (x509_MarshalPKCS1PublicKey (rsa_public k)).
Lemma Keygen_ok out h h' pub : runUnsealKeygenCmd out h = (h', Ok pub) →
  ∃ priv m, h_files h' !! out = Some (priv, m) ∧ key_pair priv pub.
Proof.
  rw /runUnsealKeygenCmd. intros H. inv_M. destruct a0 as [priv pub']. inv_M.
  apply onHostRand_inv in Hm0 as (e & Hg & ->). rw /GenerateUnsealKeyPair in Hg. inv_M.
  rw /os_WriteFile in Hm1. inv_M.
  match goal with H : write_file _ _ _ _ _ = (_, Ok ?u) |- _ => destruct u; apply write_file_ok in H as [m H] end.
  eexists _, m. split; [eassumption|]. by eexists _, _, _.
Qed.
Lemma pem_length `{!PEMLaws} t b : (length (pem_EncodeToMemory t b) =? 0) = false.
Proof. by destruct (pem_EncodeToMemory t b) eqn:E; [apply pem_nonempty in E|]. Qed.
Lemma key_pair_parses `{!RSALaws, !PEMLaws} priv pub : key_pair priv pub →
  ∃ k, rsa_valid k ∧ parse_private priv = Ok k ∧ parse_public pub = Ok (rsa_public k).
Proof.
  intros (e & e' & k & Hg & -> & ->). exists k. destruct (rsa_generate_valid _ _ _ _ Hg) as [Hv [Hlo _]]. split; [done|].
  rw /parse_private /parse_public. split.
  - rw pem_length pem_roundtrip; [set_solver|]. simpl.
    rw (pkcs1_private _ _ _ _ Hg) /=. rw bool_decide_eq_false_2 //.
    assert (4095 ≤ Z.log2 (rsa_N k))%Z; [|lia]. apply (Z.log2_le_mono) in Hlo. by rw Z.log2_pow2 in Hlo.
  - rw pem_length pem_roundtrip; [set_solver|]. simpl.
    by rw (pkcs1_public _ _ _ _ Hg).
Qed.

Lemma onS_split {X Y A} (m : M X A) (x : X) (y : Y) w r : onS m (x, y) = (w, r) → ∃ x', w = (x', y) ∧ m x = (x', r).
Proof. rw /onS. destruct (m x) as [x' r']. intros [= <- <-]. by exists x'. Qed.
Lemma onStore_split {A} (m : M S A) (h : Host) s w r : onStore m (h, s) = (w, r) → ∃ s', w = (h, s') ∧ m s = (s', r).
Proof. rw /onStore. destruct (m s) as [s' r']. intros [= <- <-]. by exists s'. Qed.
(** Takes the halves of the state apart in the steps of a command. *)
Ltac inv_halves :=
  repeat match goal with
  | w : (Host * S)%type |- _ => destruct w as [? ?]
  | H : onH _ _ = (_, _) |- _ => apply onS_split in H as (? & [= ? ?] & H); subst
  | H : onStore _ _ = (_, _) |- _ => apply onStore_split in H as (? & [= ? ?] & H); subst
  | H : onHostRand _ _ = (_, _) |- _ => apply onHostRand_inv in H as (? & H & ?); subst
  end.

(** The stored value is [cmk] under the public key of the PEM text. *)
Definition wrapped_under (pubPEM cmk ct : bytes) : Prop := ∃ pub seed, parse_public pubPEM = Ok pub ∧
  length seed = hLen ∧ EncryptOAEP masterKeyLabel pub seed cmk = Ok ct.
Lemma EncryptMaster_ok pubPEM cmk e e' ct : EncryptMasterKeyWithPublicKey pubPEM (mkSB cmk false) e = (e', Ok ct) → wrapped_under pubPEM cmk ct.
Proof.
  rw /EncryptMasterKeyWithPublicKey. intros H. inv_M. rw WithKey_live // /rsa_EncryptOAEP in H.
  case_match; [done|]. destruct (Nat.ltb_spec (length e) hLen); [done|]. injection H as _ H.
  eexists _, (take hLen e). split_and!; [eassumption|rw length_take; lia|exact H].
Qed.
Lemma wrapped_nonempty pubPEM cmk ct : wrapped_under pubPEM cmk ct → ct ≠ [].
Proof.
  intros (pub & seed & _ & _ & H). rw /EncryptOAEP in H. destruct (Nat.ltb_spec (rsa_Size pub.1) (length cmk + 2 * hLen + 2)); [done|].
  injection H as <-. intros Hn%(f_equal length). rw length_be_split /= in Hn. lia.
Qed.
Lemma Init_ok `{!KVStoreLaws S} load connect config tmp pubPath out h s h' s' : runInitCmd load connect config tmp pubPath out (h, s) = ((h', s'), Ok tt) →
  (∀ v, (kv_Get WrappedMasterKeyKey s).2 = Ok v → data_empty v = true) ∧
  ∃ pubPEM m ct, h_files h !! pubPath = Some (pubPEM, m) ∧ length (take 32 (h_rand h)) = 32 ∧
    kv_map s' !! WrappedMasterKeyKey = Some (Raw ct) ∧ wrapped_under pubPEM (take 32 (h_rand h)) ct.
Proof.
  rw /runInitCmd. intros H. inv_M. inv_halves. apply guardM_ok in H as [_ [= -> ->]]. apply try_inv in Hm5 as (rg & Hg & Ha4). inv_halves.
  apply ReadFile_files in Hm3 as (_ & Hr & Hf). destruct (Hf _ eq_refl) as [m Hpub].
  apply NewSecureBufferFromRandom_ok in Hm7 as (He & Hlen & Hlive). rw Hr in He.
  assert (take 32 (h_rand h) = sb_data a7) as Hcmk by (rw He take_app_length'; [lia|done]).
  assert (a7 = mkSB (sb_data a7) false) as Ha6 by (rw /live in Hlive; destruct a7; cbn in Hlive |- *; by rw Hlive). rw Ha6 in Hm8.
  apply EncryptMaster_ok in Hm8. pose proof (wrapped_nonempty _ _ _ Hm8) as Hne.
  split.
  { intros v Hv. rw Hg /= in Hv. subst rg. injection Ha4 as ->. exact Hm6. }
  exists a3, m, a8. split; [done|]. split; [rw Hcmk; lia|]. rw Hcmk. split; [|done].
  destruct a9. apply kv_put_ok in Hm9; [|by destruct a8]. apply kv_get_map in Hm11. rw Hm11.
  case_bool_decide; inv_M; inv_halves; rw Hm9; apply lookup_insert_eq.
Qed.

(** C33: the ceremony of the master key. After [unseal-keygen] has written a private key,
    and [init] has succeeded with the public key it printed, then on any host that still
    has the private key and over any store that still has the wrapped key, and answers,
    the unsealer opens a sealed vault: with the very 32 random bytes that [init] drew, and
    the private key is gone from the disk. [init] does not replace a wrapped key it can
    read. *)
Theorem init_then_AutoUnseal `{!KVStoreLaws S, !RSALaws, !PEMLaws} out h0 h1 pub load connect config tmp pubPath wout h m s h' s' :
  (∀ b, slice (Raw b) = b) →
  runUnsealKeygenCmd out h0 = (h1, Ok pub) → h_files h !! pubPath = Some (pub, m) →
  runInitCmd load connect config tmp pubPath wout (h, s) = ((h', s'), Ok tt) →
  (∀ v, (kv_Get WrappedMasterKeyKey s).2 = Ok v → data_empty v = true) ∧ length (take 32 (h_rand h)) = 32 ∧
  ∀ u host st v st' w, h_io host = [] → h_files host !! u = h_files h1 !! out →
    kv_map st !! WrappedMasterKeyKey = kv_map s' !! WrappedMasterKeyKey → kv_Get WrappedMasterKeyKey st = (st', Ok w) →
    vs_emergency v = false → IsUnsealed v = false →
    ∃ v', AutoUnseal u (host, st, v) = (set_files (delete u (h_files host)) host, st', v', Ok tt) ∧
      IsUnsealed v' = true ∧ vs_masterKey v' = Some (mkSB (take 32 (h_rand h)) false).
Proof.
  intros Hslice Hkg Hpub Hinit. apply Keygen_ok in Hkg as (priv & mode & Hpriv & Hpair).
  apply Init_ok in Hinit as (Hov & pubPEM & m' & ct & Hp & Hlen & Hst & Hw). split; [done|]. split; [done|].
  rw Hpub in Hp. injection Hp as -> <-. destruct (key_pair_parses _ _ Hpair) as (k & Hv & Hk & Hkp).
  destruct Hw as (pub' & seed & Hp' & Hs & He). rw Hkp in Hp'. injection Hp' as <-.
  pose proof (OAEP_roundtrip _ _ _ _ _ Hv Hs He) as Hd. assert (ct ≠ []) as Hne by by eapply wrapped_nonempty; eexists _, _.
  intros u host st v st' w Hio Hu Hmap Hget Hem Hun. pose proof (kv_get_ok _ _ _ _ Hget) as Hw.
  rw Hmap Hst in Hw. injection Hw as <-. rw Hpriv in Hu.
  exists (startResealTimer (set_state StateUnsealed (set_masterKey (Some (mkSB (take 32 (h_rand h)) false)) v))).
  split.
  - rw /AutoUnseal /mbind /M_bind /wrapM /onH /onS /os_ReadFile /mbind /M_bind /os_call Hio /= Hu /=.
    rw /unseal_with /mbind /M_bind /lift Hk /= /onS /onStore /wrapM Hget /= /guardM. destruct ct as [|c ct]; [done|].
    rw /= Hslice Hd /= /onVault /DirectUnseal Hem Hun /= /try_ /onH /os_Remove /mbind /M_bind /os_call Hio /= Hu.
    by destruct host; cbn in *; subst.
  - rw /startResealTimer. by case_bool_decide.
Qed.

(** ** Files that are written whole *)
(** The files of [h0], but perhaps for a temporary one. *)
Definition but_for (tmp : string) (h0 h : Host) : Prop := delete tmp (h_files h) = delete tmp (h_files h0).
Lemma but_for_call tmp h0 h h' o : but_for tmp h0 h → os_call h = (h', Ok o) → but_for tmp h0 h'.
Proof. rw /but_for. by intros Hb (-> & _)%os_call_files. Qed.
Lemma but_for_remove tmp h0 h h' r : but_for tmp h0 h → ignore (os_Remove tmp) h = (h', r) → r = Ok tt ∧ but_for tmp h0 h'.
Proof.
  rw /ignore /mbind /M_bind /try_ /but_for. intros Hb. destruct (os_Remove tmp h) as [h1 r1] eqn:E. apply Remove_files in E.
  destruct r1 as [[]|e|m]; [| |done]; intros [= <- <-]; (split; [done|]).
  - destruct E as [_ ->]. by rw delete_delete_eq.
  - destruct E as [-> _]. done.
Qed.
Lemma but_for_ignore_call tmp h0 h h' r : but_for tmp h0 h → ignore os_call h = (h', r) → r = Ok tt ∧ but_for tmp h0 h'.
Proof.
  rw /ignore /mbind /M_bind /try_. intros Hb. destruct (os_call h) as [h1 r1] eqn:E. pose proof (os_call_files _ _ _ E) as (_ & _ & o & ->).
  intros [= <- <-]. split; [done|]. by eapply but_for_call.
Qed.
(** A step of the write: done, or cleaned up and reported. *)
Lemma os_step_inv tmp h0 ctx cleanup act (Q : Host → Prop) h h' r : but_for tmp h0 h →
  (∀ h h' r, but_for tmp h0 h → cleanup h = (h', r) → r = Ok tt ∧ but_for tmp h0 h') →
  (∀ o h1, os_call h = (h1, Ok o) → ∃ h2, act o h1 = (h2, Ok tt) ∧ (o = None → Q h2) ∧ (o ≠ None → but_for tmp h0 h2)) →
  os_step ctx cleanup act h = (h', r) → (r = Ok tt ∧ Q h') ∨ (is_ok r = false ∧ but_for tmp h0 h').
Proof.
  intros Hb Hc Ha. rw /os_step /mbind /M_bind. destruct (os_call h) as [h1 r1] eqn:E.
  pose proof (os_call_files _ _ _ E) as (_ & _ & o & ->). destruct (Ha o h1 eq_refl) as (h2 & -> & HQ & HB).
  destruct o as [n|].
  - destruct (cleanup h2) as [h3 r3] eqn:Ec. apply Hc in Ec as [-> Hb3]; [|by apply HB]. intros [= <- <-]. auto.
  - intros [= <- <-]. left. auto.
Qed.
Lemma os_step_then tmp h0 ctx cleanup act (k : M Host ()) h h' r : but_for tmp h0 h →
  (∀ h h' r, but_for tmp h0 h → cleanup h = (h', r) → r = Ok tt ∧ but_for tmp h0 h') →
  (∀ o h1, but_for tmp h0 h1 → ∃ h2, act o h1 = (h2, Ok tt) ∧ but_for tmp h0 h2) →
  (os_step ctx cleanup act;; k) h = (h', r) → (∃ h2, but_for tmp h0 h2 ∧ k h2 = (h', r)) ∨ (is_ok r = false ∧ but_for tmp h0 h').
Proof.
  intros Hb Hc Ha (h2 & r2 & Hs & H)%M_bind_inv. apply (os_step_inv tmp h0 _ _ _ (but_for tmp h0)) in Hs; [|done..|].
  - destruct Hs as [[-> Hb2]|[Hn Hb2]]; [left; by exists h2|]. right. by destruct r2; [|destruct H as [-> ->]..].
  - intros o h1 Ho. destruct (Ha o h1) as (h3 & ? & ?); [by eapply but_for_call|]. by exists h3.
Qed.
Lemma atomicWrite_inv tmp path content h h' r : atomicWriteFileSecure tmp path content h = (h', r) →
  (r = Ok tt ∧ h_files h' = <[path := (content, false)]> (delete tmp (h_files h))) ∨ (is_ok r = false ∧ but_for tmp h h').
Proof.
  rw /atomicWriteFileSecure. intros (h1 & r1 & E & H)%M_bind_inv.
  pose proof (os_call_files _ _ _ E) as (Hf1 & _ & o & ->). assert (but_for tmp h h1) as Hb by by rw /but_for Hf1.
  apply M_bind_inv in H as (h2 & r2 & Hg & H). rw /guardM in Hg. case_bool_decide; injection Hg as <- <-; [|by right; destruct H as [-> ->]].
  apply M_bind_inv in H as (h2 & r2 & Hg & H). injection Hg as <- <-.
  apply M_bind_inv in H as (h2 & r2 & Hg & H). rw /guardM in Hg. case_bool_decide; injection Hg as <- <-; [|by right; destruct H as [-> ->]].
  apply M_bind_inv in H as (h2 & r2 & Hg & H). injection Hg as <- <-.
  set (h2 := set_files _ h1) in H. assert (but_for tmp h h2) as Hb2 by by rw /but_for /= delete_insert_eq.
  assert (∀ g g' q, but_for tmp h g → ignore (os_Remove tmp) g = (g', q) → q = Ok tt ∧ but_for tmp h g') as Hrm by apply but_for_remove.
  assert (∀ g g' q, but_for tmp h g → (ignore os_call;; ignore (os_Remove tmp)) g = (g', q) → q = Ok tt ∧ but_for tmp h g') as Hcr.
  { intros g g' q Hg. rw /mbind /M_bind. destruct (ignore os_call g) as [g1 q1] eqn:Eg. apply (but_for_ignore_call _ _ _ _ _ Hg) in Eg as [-> Hg1]. by apply Hrm. }
  eapply (os_step_then tmp h) in H; [|exact Hb2|exact Hcr|].
  2: { intros o' g Hg. eexists. split; [done|]. by rw /but_for /= delete_insert_eq. }
  destruct H as [(h3 & Hb3 & H)|?]; [|by right]. eapply (os_step_then tmp h) in H; [|exact Hb3|exact Hcr|by intros o' g Hg; exists g].
  destruct H as [(h4 & Hb4 & H)|?]; [|by right]. eapply (os_step_then tmp h) in H; [|exact Hb4|exact Hrm|by intros o' g Hg; exists g].
  destruct H as [(h5 & Hb5 & H)|?]; [|by right]. eapply (os_step_then tmp h) in H; [|exact Hb5|exact Hrm|].
  2: { intros [n|] g Hg; eexists; (split; [done|]); [done|]. by rw /but_for /= delete_insert_eq. }
  destruct H as [(h6 & Hb6 & H)|?]; [|by right].
  eapply (os_step_inv tmp h _ _ _ (λ h', h_files h' = <[path := (content, false)]> (delete tmp (h_files h)))) in H;
    [exact H|exact Hb6|exact Hrm|].
  intros [n|] g Hg%(but_for_call _ _ _ _ _ Hb6); eexists; (split; [done|]); split; try done. intros _. simpl.
  by rw Hg.
Qed.
(** Secret files are written whole or not at all: whatever system call of an atomic
    write fails, every file but the temporary one is as it was; and when it succeeds the
    target has the whole content, read-only, and no other file has changed. *)
Theorem atomicWrite_whole tmp path content h h' r : h_files h !! tmp = None → atomicWriteFileSecure tmp path content h = (h', r) →
  if is_ok r then h_files h' = <[path := (content, false)]> (h_files h)
  else ∀ p, p ≠ tmp → h_files h' !! p = h_files h !! p.
Proof.
  intros Ht [[-> Hd]|[Hr Hd]]%atomicWrite_inv; [|rw Hr].
  - by rw Hd /= delete_id.
  - intros p Hp. apply (f_equal (.!! p)) in Hd. by rw !lookup_delete_ne in Hd.
Qed.
Lemma atomicWrite_succeeds tmp path content h : h_io h = [] → h_files h !! tmp = None →
  ∃ h', atomicWriteFileSecure tmp path content h = (h', Ok tt) ∧ h_files h' = <[path := (content, false)]> (h_files h).
Proof.
  intros Hio Ht. destruct h as [e fs io]. cbn in Hio, Ht. subst io.
  eexists. split.
  - rw /atomicWriteFileSecure /os_step /mbind /M_bind /os_call /guardM /= Ht /=. reflexivity.
  - simpl. by rw !delete_insert_eq delete_id.
Qed.
Lemma paths_valid paths : (∀ p, p ∈ paths → validatePath p = Ok tt) →
  foldr (λ p r, _ ← wrap_err "error: invalid share path" (validatePath p); r) (Ok tt) paths = Ok tt.
Proof.
  induction paths as [|p ps IH]; intros H; [done|]. simpl. rw (H p); [by apply list_elem_of_here|]. simpl.
  apply IH. intros q Hq. by apply H, list_elem_of_further.
Qed.

(** C34: the cold backup of the master key, from command to command: after a successful
    [backup-split], [backup-restore] on any [threshold] or more of the files, in any order
    and on any host that still has them unchanged, writes exactly the stored wrapped key to
    the output path and changes no other file. *)
Theorem cold_backup_restores `{!KVStoreLaws S} load connect config dir total t h s h' s' paths sel host tmp out :
  runBackupSplitCmd load connect config dir total t (h, s) = ((h', s'), Ok paths) →
  NoDup sel → sel ⊆ paths → (t ≤ Z.of_nat (length sel))%Z →
  h_io host = [] → (∀ p, p ∈ sel → h_files host !! p = h_files h' !! p) → h_files host !! tmp = None →
  validatePath out = Ok tt → (∀ p, p ∈ sel → validatePath p = Ok tt) →
  ∃ w, kv_map s !! WrappedMasterKeyKey = Some w ∧ ∃ host', runBackupRestoreCmd tmp out sel host = (host', Ok tt) ∧
    h_files host' = <[out := (slice w, false)]> (h_files host).
Proof.
  rw /runBackupSplitCmd. intros H Hnd Hsub Ht Hio Hsame Htmp Hout Hsel. inv_M. inv_halves. apply onS_split in H as (h1 & [= -> ->] & H).
  match goal with H : kv_Get _ _ = (_, Ok ?w) |- _ => exists w; split; [by eapply kv_get_ok|] end.
  destruct (Split_files_inv _ _ _ _ _ _ _ H) as (e & e' & polys & n & HS & _). apply Split_ok in HS as (_ & _ & Ht2 & _).
  pose proof (backup_restores _ _ _ _ _ _ _ _ _ H Hnd Hsub Ht Hio Hsame) as Hc.
  destruct (atomicWrite_succeeds tmp out (slice a2) host Hio Htmp) as (host' & Hw & Hf). exists host'. split; [|exact Hf].
  rw /runBackupRestoreCmd /mbind /M_bind /guardM /lift Hout /=.
  assert (out ≠ "") as Hne by by intros ->. rw bool_decide_eq_false_2 //=.
  destruct (Nat.ltb_spec (length sel) 2); [lia|]. rw /= paths_valid //= /wrapM Hc /= Hw. done.
Qed.
End Pki.

(** ** A run of the commands
    The library of TransitSpec.v with its single key, and blocks marked by one byte. *)
#[export] Instance demo_pem : PEMLib := {
  pem_EncodeToMemory t b := (if bool_decide (t = "RSA PRIVATE KEY") then x01 else x02) :: b;
  pem_Decode b := match b with x01 :: b => Some ("RSA PRIVATE KEY", b, []) | x02 :: b => Some ("RSA PUBLIC KEY", b, []) | _ => None end;
  x509_MarshalPKCS1PrivateKey _ := [x30];
  x509_ParsePKCS1PrivateKey _ := Ok demo_rsa_key;
  x509_MarshalPKCS1PublicKey _ := [x31];
  x509_ParsePKCS1PublicKey _ := Ok (rsa_public demo_rsa_key);
  x509_ParsePKIXPublicKey _ := Ok None;
}.
#[export] Instance demo_pem_laws : PEMLaws.
Proof.
  split; cbn.
  - intros t b Ht. apply elem_of_cons in Ht as [->|Ht%list_elem_of_singleton]; [done|]. by subst.
  - done.
  - intros bits e e' k. by case_bool_decide; [intros [= _ <-]|].
  - intros bits e e' k. by case_bool_decide; [intros [= _ <-]|].
Qed.
Definition demo_slice (v : data) : bytes := match v with Raw b => b | _ => [x00] end.
Definition demo_rand (n : nat) : entropy := z2b ∘ Z.of_nat <$> seq 1 n.
Definition demo_host : Host := mkHost (demo_rand 100) ∅ [].
Definition demo_keygen : Host * result bytes := runUnsealKeygenCmd "/etc/unseal.pem" demo_host.
Definition demo_ready : Host := set_files (<["/tmp/pub.pem" := ([x02; x31], true)]> (h_files demo_keygen.1)) demo_keygen.1.
Definition empty_pg : Pg := mkPg ∅ true [] None.
Definition demo_init : (Host * Pg) * result () :=
  runInitCmd demo_slice (λ _, Ok demo_cluster) None "/etc/yvonne.json" "/mnt/.tmp" "/tmp/pub.pem" "/mnt/cmk.bin" (demo_ready, empty_pg).
Definition demo_sealed : VaultState := NewVaultState 5 3 0.

Lemma pairs3 {A B C} (x : A * B * C) : x = (x.1.1, x.1.2, x.2).
Proof. by destruct x as [[]]. Qed.
Lemma init_then_AutoUnseal_witness : ∃ st' v', AutoUnseal demo_slice "/etc/unseal.pem" (demo_init.1.1, demo_init.1.2, demo_sealed) =
    (set_files (delete "/etc/unseal.pem" (h_files demo_init.1.1)) demo_init.1.1, st', v', Ok tt) ∧
  IsUnsealed v' = true ∧ vs_masterKey v' = Some (mkSB (demo_rand 32) false).
Proof.
  assert (demo_init.2 = Ok tt) as Hinit by (vm_compute; reflexivity).
  destruct (init_then_AutoUnseal (S := Pg) demo_slice "/etc/unseal.pem" demo_host demo_keygen.1 [x02; x31] (λ _, Ok demo_cluster) None "/etc/yvonne.json" "/mnt/.tmp"
    "/tmp/pub.pem" "/mnt/cmk.bin" demo_ready true empty_pg demo_init.1.1 demo_init.1.2) as (_ & _ & H);
    [done|vm_compute; reflexivity|vm_compute; reflexivity|rewrite -Hinit; exact (pairs3 demo_init)|].
  destruct (kv_Get WrappedMasterKeyKey demo_init.1.2) as [st' x] eqn:Eg.
  assert (is_ok x = true) as Hx by (change x with (st', x).2; rw -Eg; vm_compute; reflexivity).
  destruct x as [w| |]; [|discriminate Hx..].
  destruct (H "/etc/unseal.pem" demo_init.1.1 demo_init.1.2 demo_sealed st' w) as (v' & Hu & Hv & Hk); [..|exists st', v'; split; [exact Hu|split; [exact Hv|exact Hk]]].
  - vm_compute. reflexivity.
  - vm_compute. reflexivity.
  - reflexivity.
  - exact Eg.
  - reflexivity.
  - reflexivity.
Defined.

(** A write that breaks off after five bytes. *)
Definition broken_write : Host * result () := atomicWriteFileSecure "/mnt/.tmp" "/mnt/cmk.bin" (demo_rand 20) (mkHost [] {["/mnt/cmk.bin" := ([x61], false)]} [None; Some 5]).
Lemma atomicWrite_whole_witness : is_ok broken_write.2 = false ∧ h_files broken_write.1 !! "/mnt/cmk.bin" = Some ([x61], false).
Proof.
  assert (is_ok broken_write.2 = false) as E by (vm_compute; reflexivity). split; [exact E|].
  pose proof (atomicWrite_whole "/mnt/.tmp" "/mnt/cmk.bin" (demo_rand 20) (mkHost [] {["/mnt/cmk.bin" := ([x61], false)]} [None; Some 5])
    broken_write.1 broken_write.2) as H.
  rewrite E in H. rewrite H; [reflexivity|exact (surjective_pairing broken_write)|discriminate|reflexivity].
Defined.

(** A short value in the place of the wrapped key. *)
Definition demo_pg : Pg := mkPg {[WrappedMasterKeyKey := Raw [x2a; x07]]} true [] None.
Definition demo_split : (Host * Pg) * result (list string) :=
  runBackupSplitCmd demo_slice (λ _, Ok demo_cluster) None "/etc/yvonne.json" "/mnt/usb" 3 2 (mkHost (demo_rand 20) ∅ [], demo_pg).
Definition demo_shares : list string := ["/mnt/usb/backup-003.dat"; "/mnt/usb/backup-001.dat"].
Lemma cold_backup_restores_witness : ∃ w, kv_map demo_pg !! WrappedMasterKeyKey = Some w ∧
  ∃ host', runBackupRestoreCmd "/mnt/.tmp" "/mnt/cmk.bin" demo_shares demo_split.1.1 = (host', Ok tt) ∧
    h_files host' = <["/mnt/cmk.bin" := (demo_slice w, false)]> (h_files demo_split.1.1).
Proof.
  assert (demo_split.2 = Ok ["/mnt/usb/backup-001.dat"; "/mnt/usb/backup-002.dat"; "/mnt/usb/backup-003.dat"]) as Hs by (vm_compute; reflexivity).
  apply (cold_backup_restores (S := Pg) demo_slice (λ _, Ok demo_cluster) None "/etc/yvonne.json" "/mnt/usb" 3 2 (mkHost (demo_rand 20) ∅ []) demo_pg
    demo_split.1.1 demo_split.1.2 ["/mnt/usb/backup-001.dat"; "/mnt/usb/backup-002.dat"; "/mnt/usb/backup-003.dat"]).
  - rewrite -Hs. exact (pairs3 demo_split).
  - apply (bool_decide_unpack _). vm_compute. exact I.
  - apply (bool_decide_unpack _). vm_compute. exact I.
  - vm_compute. discriminate.
  - vm_compute. reflexivity.
  - reflexivity.
  - vm_compute. reflexivity.
  - vm_compute. reflexivity.
  - intros p [->|[->|[]%not_elem_of_nil]%elem_of_cons]%elem_of_cons; vm_compute; reflexivity.
Defined.

(** [init] takes a failed read for an absent key: when the check fails and the
    next statement succeeds, the wrapped key of a running cluster is replaced by one of
    512 bytes. *)
Definition wrapped_size (p : Pg) : option nat := (λ d, length (demo_slice d)) <$> pg_table p !! WrappedMasterKeyKey.
Example init_overwrites :
  let h := mkHost (rev (demo_rand 100)) (h_files demo_ready) [] in
  let '((_, pg'), r) := runInitCmd demo_slice (λ _, Ok demo_cluster) None "/etc/yvonne.json" "/mnt/.tmp" "/tmp/pub.pem" "" (h, mkPg (pg_table demo_pg) true [Fails] None) in
  is_ok r = true ∧ wrapped_size demo_pg = Some 2 ∧ wrapped_size pg' = Some 512.
Proof. vm_compute. split_and!; reflexivity. Qed.
(** Without the fault it refuses. *)
Example init_refuses :
  let h := mkHost (rev (demo_rand 100)) (h_files demo_ready) [] in
  (runInitCmd demo_slice (λ _, Ok demo_cluster) None "/etc/yvonne.json" "/mnt/.tmp" "/tmp/pub.pem" "" (h, demo_pg)).2 = Error (Err_new "FATAL: master-key-wrapped already exists in DB").
Proof. vm_compute. reflexivity. Qed.
(** Parent directories are looked for after the path is cleaned: they may cancel out, and
    absolute paths pass. *)
Example paths_checked :
  (λ p, is_ok (validatePath p)) <$> ["out.bin"; "a/../b"; "/../etc/passwd"; "../x"; "a/../../x"; ".."; ""] = [true; true; true; false; false; false; false].
Proof. vm_compute. reflexivity. Qed.
