(* ===== verification/Core.v ===== *)
(** The transport-agnostic service layer, [src/internal/service/core.go] and
    [core_v12.go]: every operation is guarded by the seal state and the caller's
    policy, calls the key manager and the KEK, and leaves an audit record. The layer
    is stated over any [Unsealer] and any [KVStore]. *)

From S2P Require Import Prelude SecureBuffer Hash AesGcm Ciphertext Kek Vault Store Metadata Manager Auth.

(** ** The sealing layer as the services see it ([seal.Unsealer]) *)
Class Unsealer (V : Type) : Type := {
  us_IsSealed : V → bool;
  us_IsEmergencySealed : V → bool;
  us_KEKRef : ∀ {S A : Type}, V → (KEK → M S A) → M S A;
  us_EmergencySeal : V → V;
}.
(** [KEKRef] hands out one KEK, or refuses; a sealed unsealer refuses. *)
Class UnsealerLaws (V : Type) `{!Unsealer V} : Prop := {
  us_kek_or_error (v : V) :
    (∃ kek, ∀ S A (f : KEK → M S A), us_KEKRef v f = f kek) ∨
    (∃ e, ∀ S A (f : KEK → M S A), us_KEKRef v f = throw e);
}.

#[export] Instance VaultState_Unsealer : Unsealer VaultState := {|
  us_IsSealed := IsSealed;
  us_IsEmergencySealed := IsEmergencySealed;
  us_KEKRef S A := KEKRef;
  us_EmergencySeal v := (EmergencySeal v).1;
|}.
#[export] Instance VaultState_laws : UnsealerLaws VaultState.
Proof.
  split. intros v. rw /us_KEKRef /= /KEKRef. destruct (vs_masterKey v) as [k|]; [|right; by eexists].
  destruct (IsUnsealed v); [left|right]; by eexists.
Qed.

(** [HSMUnsealer]: a session with the module; no plaintext master key. *)
Record HSMUnsealer : Type := mkHSM { hsm_backend : CryptoBackend; hsm_session : bool }.
Definition NewHSMUnsealer (backend : CryptoBackend) : HSMUnsealer := mkHSM backend true.
Definition HSM_KEKRef {S A} (h : HSMUnsealer) (action : KEK → M S A) : M S A :=
  if hsm_session h then action (hsmKEK (hsm_backend h))
  else throw (Err_new "seal: HSM session not established, kek unavailable").
Definition HSM_Seal (h : HSMUnsealer) : HSMUnsealer := mkHSM (hsm_backend h) false.
#[export] Instance HSMUnsealer_Unsealer : Unsealer HSMUnsealer := {|
  us_IsSealed h := negb (hsm_session h);
  us_IsEmergencySealed _ := false;
  us_KEKRef S A := HSM_KEKRef;
  us_EmergencySeal := HSM_Seal;
|}.
#[export] Instance HSMUnsealer_laws : UnsealerLaws HSMUnsealer.
Proof.
  split. intros h. rw /us_KEKRef /= /HSM_KEKRef. destruct (hsm_session h); [left|right]; by eexists.
Qed.

(** ** State *)
(** An [audit.LogEntry] as its writers fill it in. [recordAudit] sets the first four
    fields and the time (of the clock) and leaves the trace and the status empty; the
    audit middleware of the router, which writes to the same log, sets the action, the
    actor, the time, the trace and the status. *)
Record audit_rec : Type := mkAudit {
  au_Action : string; au_Actor : string; au_Resource : string; au_Result : string; au_Time : Z;
  au_TraceID : bytes; au_Status : string
}.
(** [alerter.Alert] calls: operation and key. *)
Definition alert : Type := string * string.

Record Core (V S : Type) : Type := mkCore {
  c_seal : V;
  c_world : S * Env;          (* the manager, its store and environment *)
  c_audit : list audit_rec;   (* the entries in the log *)
  c_auditFaults : list bool;  (* the next calls of [auditLog.Record]: [true] fails, none left: all work *)
  c_auditOn : bool;           (* [auditLog != nil] *)
  c_adminToken : string;
  c_alerts : list alert;
  c_ctxActor : option string; (* the policy found in the request context *)
  c_healthy : bool;           (* [IsHealthy] of a store that reports it; else true *)
}.
Arguments mkCore {V S}. Arguments c_seal {V S}. Arguments c_world {V S}. Arguments c_audit {V S}.
Arguments c_auditFaults {V S}. Arguments c_auditOn {V S}. Arguments c_adminToken {V S}. Arguments c_alerts {V S}.
Arguments c_ctxActor {V S}. Arguments c_healthy {V S}.

Section Core.
Context {V S : Type} `{!Unsealer V, !KVStore S}.
Abbreviation CoreT := (Core V S).
Abbreviation MC := (M CoreT).

Definition set_world (w : S * Env) (c : CoreT) : CoreT :=
  mkCore (c_seal c) w (c_audit c) (c_auditFaults c) (c_auditOn c) (c_adminToken c) (c_alerts c) (c_ctxActor c) (c_healthy c).
Definition set_seal (v : V) (c : CoreT) : CoreT :=
  mkCore v (c_world c) (c_audit c) (c_auditFaults c) (c_auditOn c) (c_adminToken c) (c_alerts c) (c_ctxActor c) (c_healthy c).
(** [_ = auditLog.Record(entry)]: an entry that the log does not take is lost. *)
Definition auditRecord (a : audit_rec) (c : CoreT) : CoreT :=
  mkCore (c_seal c) (c_world c) (if default false (head (c_auditFaults c)) then c_audit c else c_audit c ++ [a])
    (tail (c_auditFaults c)) (c_auditOn c) (c_adminToken c) (c_alerts c) (c_ctxActor c) (c_healthy c).
Definition add_alert (a : alert) (c : CoreT) : CoreT :=
  mkCore (c_seal c) (c_world c) (c_audit c) (c_auditFaults c) (c_auditOn c) (c_adminToken c) (c_alerts c ++ [a]) (c_ctxActor c)
    (c_healthy c).

(** A step of the manager; a step that only draws randomness. *)
Definition onM {A} (m : M (S * Env) A) : MC A := fun c =>
  let '(w, r) := m (c_world c) in (set_world w c, r).
Definition withKEK {A} (action : KEK → MC A) : MC A := fun c => us_KEKRef (c_seal c) action c.

Definition recordAudit (action keyID status : string) : MC () := fun c =>
  if c_auditOn c
  then (auditRecord (mkAudit action (default "system" (c_ctxActor c)) keyID status (m_now (c_world c).2) [] "") c, Ok tt)
  else (c, Ok tt).

(** ** Guards *)
Definition errEmergencySealed : error := Err_new "vault is emergency sealed".
Definition errVaultSealed : error := Err_new "vault is sealed".
Definition errDegraded : error := Err_new "database unavailable (degraded mode)".
Definition errActionDenied : error := Err_new "access denied: action".
Definition errKeyDenied : error := Err_new "access denied: key".

Definition requireUnsealed : MC () := fun c =>
  if us_IsEmergencySealed (c_seal c) then (c, Error errEmergencySealed)
  else if us_IsSealed (c_seal c) then (c, Error errVaultSealed)
  else (c, Ok tt).
Definition requireWritable : MC () := fun c => if c_healthy c then (c, Ok tt) else (c, Error errDegraded).
Definition authorize (policy : option Policy) (action keyID : string) : MC () :=
  match policy with
  | None => mret tt
  | Some p =>
      guardM (IsActionAllowed p action) errActionDenied;;
      guardM (IsKeyAllowed p keyID) errKeyDenied
  end.

(** [if err != nil { recordAudit(error); return err }; recordAudit(success)] *)
Definition audited {A} (action keyID : string) (m : MC A) : MC A :=
  r ← try_ m;
  match r with
  | inr e => recordAudit action keyID "error";; throw e
  | inl a => recordAudit action keyID "success";; mret a
  end.

(** ** Operations of core.go *)
Definition Health (c : CoreT) : string :=
  if us_IsEmergencySealed (c_seal c) then "emergency_sealed"
  else if us_IsSealed (c_seal c) then "sealed" else "unsealed".

Definition CoreEmergencySeal (adminToken : string) : MC () :=
  configured ← gets c_adminToken;
  guardM (negb (bool_decide (configured = ""))) (Err_new "service: emergency seal not configured");;
  if negb (bool_decide (adminToken = configured)) then
    recordAudit "EmergencySeal" "" "denied";; throw (Err_new "service: invalid admin token")
  else
    modify (λ c, set_seal (us_EmergencySeal (c_seal c)) c);;
    onM ClearCache;;
    recordAudit "EmergencySeal" "" "success".

(** The returned buffer is absent when the caller did not ask for it. *)
Definition CoreCreateKey (keyID : string) (rotationPeriodDays : Z) (returnDEK : bool) (policy : option Policy) :
    MC (string * Z * option SecureBuffer) :=
  requireUnsealed;; requireWritable;; authorize policy "CreateKey" keyID;;
  audited "CreateKey" keyID (withKEK (λ kek,
    '(meta, plainDEK) ← onM (CreateKey keyID (Some kek) rotationPeriodDays);
    mret (km_KeyID meta, km_Version meta, if returnDEK then Some plainDEK else None))).

Definition CoreRotateKey (keyID : string) (policy : option Policy) : MC (string * Z * SecureBuffer) :=
  requireUnsealed;; requireWritable;; authorize policy "KeyOp" keyID;;
  audited "RotateKey" keyID (withKEK (λ kek,
    '(meta, plainDEK) ← onM (RotateKey keyID (Some kek));
    mret (km_KeyID meta, km_Version meta, plainDEK))).

Definition CoreShredKey (keyID : string) (version : Z) (policy : option Policy) : MC () :=
  requireUnsealed;; requireWritable;; authorize policy "KeyOp" keyID;;
  audited "ShredKey" keyID (onM (ShredKey keyID version)).
Definition CoreSoftDeleteKey (keyID : string) (version : Z) (policy : option Policy) : MC () :=
  requireUnsealed;; requireWritable;; authorize policy "KeyOp" keyID;;
  audited "SoftDeleteKey" keyID (onM (SoftDeleteKey keyID version)).
Definition CoreRestoreKey (keyID : string) (version : Z) (policy : option Policy) : MC () :=
  requireUnsealed;; requireWritable;; authorize policy "KeyOp" keyID;;
  audited "RestoreKey" keyID (onM (RestoreKey keyID version)).

Definition CoreGenerateDataKey (keyID : string) (policy : option Policy) : MC (SecureBuffer * bytes) :=
  requireUnsealed;; authorize policy "KeyOp" keyID;;
  audited "GenerateDataKey" keyID (withKEK (λ kek, onM (GenerateDataKey keyID (Some kek)))).

(** [kek.UnwrapDEK] with the alert on failure. *)
Definition unwrapOrAlert (keyID : string) (kek : KEK) (material : bytes) : MC SecureBuffer :=
  match kek_UnwrapDEK kek material with
  | Error e => modify (add_alert ("KEKUnwrapFailure", keyID));; throw e
  | r => lift r
  end.

Definition Encrypt (keyID : string) (plaintext : bytes) (policy : option Policy) : MC (bytes * Z) :=
  requireUnsealed;; authorize policy "Encrypt" keyID;;
  audited "Encrypt" keyID (
    meta ← onM (GetActiveKey keyID);
    ciphertext ← withKEK (λ kek,
      plaintextDEK ← unwrapOrAlert keyID kek (km_Material meta);
      onM (onRand (EncryptVersioned plaintextDEK (SafeUint32 (km_Version meta)) plaintext)));
    mret (ciphertext, km_Version meta)).

(** The length check and the decoding come before anything is recorded. *)
Definition Decrypt (keyID : string) (ciphertext : bytes) (policy : option Policy) : MC (SecureBuffer * Z) :=
  requireUnsealed;; authorize policy "Decrypt" keyID;;
  guardM (MinCiphertextSize <=? length ciphertext)%nat (Err_new "service: ciphertext too short");;
  '(version, _, _) ← lift (DecodeVersionedCiphertext ciphertext);
  audited "Decrypt" keyID (
    meta ← onM (GetKeyForDecrypt keyID version);
    withKEK (λ kek,
      plaintextDEK ← unwrapOrAlert keyID kek (km_Material meta);
      lift (DecryptVersioned plaintextDEK ciphertext))).

(** ** Operations of core_v12.go *)
Definition isAsymmetricKeyType (keyType : string) : bool :=
  bool_decide (keyType = "rsa") || bool_decide (keyType = "ecdsa") || bool_decide (keyType = "sm2").
Definition isSymmetricKeyType (keyType : string) : bool :=
  bool_decide (keyType = "") || bool_decide (keyType = "aes") || bool_decide (keyType = "sm4").
(** Compares byte by byte and stops at the first difference. *)
Fixpoint subtleEqual (a b : bytes) : bool :=
  match a, b with
  | [], [] => true
  | x :: a, y :: b => bool_decide (x = y) && subtleEqual a b
  | _, _ => false
  end.

(** RSA-PSS, ECDSA and SM2 are library code: a signature of the SHA-256 digest
    ([signAsymmetric]; SM2 takes the data) under a private key in its stored form,
    and its check under a stored public key. *)
Record signer : Type := {
  sg_sign : string → bytes → bytes → result bytes;          (* key type, private key, input *)
  sg_verify : string → bytes → bytes → bytes → result bool; (* key type, public key, input, signature *)
}.
Definition sign_input (keyType : string) (data : bytes) : bytes :=
  if bool_decide (keyType = "sm2") then data else sha256 data.

Definition Sign (sg : signer) (keyID : string) (data : bytes) (policy : option Policy) : MC (bytes * Z) :=
  requireUnsealed;; authorize policy "Sign" keyID;;
  audited "Sign" keyID (
    meta ← onM (GetActiveKey keyID);
    guardM (isAsymmetricKeyType (km_KeyType meta)) (Err_new "service: sign requires asymmetric key");;
    sig ← withKEK (λ kek,
      privSB ← lift (wrap_err "service: sign: unwrap key" (kek_UnwrapDEK kek (km_Material meta)));
      privKey ← lift (WithKeyR privSB Ok);
      lift (sg_sign sg (km_KeyType meta) privKey (sign_input (km_KeyType meta) data)));
    mret (sig, km_Version meta)).

Definition Verify (sg : signer) (keyID : string) (data signature : bytes) (policy : option Policy) : MC (bool * Z) :=
  requireUnsealed;; authorize policy "Verify" keyID;;
  audited "Verify" keyID (
    meta ← onM (GetActiveKey keyID);
    guardM (negb (bool_decide (km_PublicKey meta = []))) (Err_new "service: verify: no public key");;
    guardM (isAsymmetricKeyType (km_KeyType meta)) (Err_new "service: unsupported key type");;
    valid ← lift (sg_verify sg (km_KeyType meta) (km_PublicKey meta) (sign_input (km_KeyType meta) data) signature);
    mret (valid, km_Version meta)).

Definition GenerateMac (keyID : string) (data : bytes) (policy : option Policy) : MC (bytes * Z) :=
  requireUnsealed;; authorize policy "GenerateMac" keyID;;
  audited "GenerateMac" keyID (
    meta ← onM (GetActiveKey keyID);
    guardM (isSymmetricKeyType (km_KeyType meta)) (Err_new "service: mac requires symmetric key");;
    mac ← withKEK (λ kek,
      keySB ← lift (kek_UnwrapDEK kek (km_Material meta));
      key ← lift (WithKeyR keySB Ok);
      mret (hmac_sha256 key data));
    mret (mac, km_Version meta)).

Definition VerifyMac (keyID : string) (data expectedMac : bytes) (policy : option Policy) : MC (bool * Z) :=
  '(mac, version) ← GenerateMac keyID data policy;
  let valid := (length mac =? length expectedMac)%nat && subtleEqual mac expectedMac in
  recordAudit "VerifyMac" keyID "success";;
  mret (valid, version).

Definition GenerateDataKeyWithoutPlaintext (keyID : string) (policy : option Policy) : MC bytes :=
  requireUnsealed;; authorize policy "KeyOp" keyID;;
  audited "GenerateDataKeyWithoutPlaintext" keyID (withKEK (λ kek,
    '(_, ct) ← onM (GenerateDataKey keyID (Some kek)); mret ct)).

Definition ReEncrypt (sourceKeyID : string) (ciphertext : bytes) (destKeyID : string) (policy : option Policy) :
    MC (bytes * Z) :=
  requireUnsealed;; authorize policy "Decrypt" sourceKeyID;; authorize policy "Encrypt" destKeyID;;
  dec ← try_ (Decrypt sourceKeyID ciphertext policy);
  match dec with
  | inr e => recordAudit "ReEncrypt" sourceKeyID "error";; throw (Err_wrap "service: re-encrypt: decrypt source" e)
  | inl (plaintext, _) =>
      plainBytes ← lift (WithKeyR plaintext Ok);
      enc ← try_ (Encrypt destKeyID plainBytes policy);
      match enc with
      | inr e => recordAudit "ReEncrypt" destKeyID "error";; throw (Err_wrap "service: re-encrypt: encrypt dest" e)
      | inl (ct, version) =>
          recordAudit "ReEncrypt" (sourceKeyID +:+ "→" +:+ destKeyID) "success";; mret (ct, version)
      end
  end.

Definition GetPublicKey (keyID : string) (policy : option Policy) : MC (bytes * Z) :=
  requireUnsealed;; authorize policy "KeyOp" keyID;;
  audited "GetPublicKey" keyID (
    meta ← onM (GetActiveKey keyID);
    guardM (negb (bool_decide (km_PublicKey meta = []))) (Err_new "service: key has no public key");;
    mret (km_PublicKey meta, km_Version meta)).

Definition DisableKey (keyID : string) (policy : option Policy) : MC () :=
  requireUnsealed;; authorize policy "KeyOp" keyID;;
  audited "DisableKey" keyID (
    meta ← onM (GetActiveKey keyID);
    onM (SoftDeleteKey keyID (km_Version meta))).
Definition EnableKey (keyID : string) (version : Z) (policy : option Policy) : MC () :=
  requireUnsealed;; authorize policy "KeyOp" keyID;;
  audited "EnableKey" keyID (onM (RestoreKey keyID version)).
Definition CancelKeyDeletion (keyID : string) (version : Z) (policy : option Policy) : MC () :=
  EnableKey keyID version policy.
End Core.
