(* ===== verification/Api.v ===== *)
(** The HTTP interface, [src/internal/api]: the router with its rate limit, audit,
    authentication and seal middleware ([v1_router.go], [middleware.go]), and the
    handlers of keys, cryptography, import, audit queries and system control. A
    request carries its body as the text that was read; the decoding of a text into
    each request type is an argument. Error texts that print values are shortened to their
    fixed part. Approval and second-factor routes run the
    programs of [Approval.v]. *)

From S2P Require Import Prelude SecureBuffer Hash AesGcm Ciphertext Kek Vault Store Metadata Oaep AuditLog Manager Transit Auth Totp Approval RateLimit Core.

(** ** Requests and responses *)
Record request (T : Type) : Type := mkRequest {
  rq_Method : string;
  rq_Path : string;             (* in the clean form [http.ServeMux] routes *)
  rq_QueryKeyID : string;       (* [req.URL.Query().Get("key_id")] *)
  rq_QueryID : string;
  rq_Authorization : string;
  rq_Origin : string;
  rq_XForwardedFor : string;
  rq_XRealIP : string;
  rq_RemoteAddr : string;
  rq_Body : option T;           (* [None]: reading failed, for instance past 1 MB *)
}.
Arguments rq_Method {T}. Arguments rq_Path {T}. Arguments rq_QueryKeyID {T}. Arguments rq_QueryID {T}.
Arguments rq_Authorization {T}. Arguments rq_Origin {T}. Arguments rq_XForwardedFor {T}. Arguments rq_XRealIP {T}.
Arguments rq_RemoteAddr {T}. Arguments rq_Body {T}. Arguments mkRequest {T}.

(** The request types of the handlers. *)
Record createKeyRequest : Type := mkCreateKey { ck_KeyID : string; ck_ReturnDEK : option bool }.
Record createAsymmetricKeyRequest : Type := mkCreateAsym { cy_KeyID : string; cy_KeyType : string }.
Record encryptRequest : Type := mkEncrypt { er_KeyID : string; er_Plaintext : bytes }.
Record decryptRequest : Type := mkDecrypt { dr_KeyID : string; dr_Ciphertext : bytes }.
Record signRequest : Type := mkSign { sr_KeyID : string; sr_Data : bytes }.
Record verifyRequest : Type := mkVerify { vr_KeyID : string; vr_Data : bytes; vr_Signature : bytes }.
Record verifyMacRequest : Type := mkVerifyMac { vm_KeyID : string; vm_Data : bytes; vm_Mac : bytes }.
Record reEncryptRequest : Type := mkReEncrypt { re_SourceKeyID : string; re_DestKeyID : string; re_Ciphertext : bytes }.
Record importRequest : Type := mkImport { im_KeyID : string; im_TransitKeyID : string; im_WrappedMaterial : string }.
Record auditQueryRequest : Type := mkAuditQuery {
  aq_StartTime : string; aq_EndTime : string; aq_Actor : string; aq_Action : string; aq_Limit : Z
}.
Record panicRequest : Type := mkPanicRq { pr_AdminToken : string; pr_Confirm : bool }.

(** [json.Unmarshal] into each of them; [base64.StdEncoding.DecodeString]; and
    [time.Parse(time.RFC3339, _)] on a request's text. *)
Class Decoder (T : Type) : Type := {
  dec_createKey : T → option createKeyRequest;
  dec_createAsymmetricKey : T → option createAsymmetricKeyRequest;
  dec_shred : T → option Z;
  dec_encrypt : T → option encryptRequest;
  dec_decrypt : T → option decryptRequest;
  dec_sign : T → option signRequest;
  dec_verify : T → option verifyRequest;
  dec_verifyMac : T → option verifyMacRequest;
  dec_reEncrypt : T → option reEncryptRequest;
  dec_import : T → option importRequest;
  dec_auditQuery : T → option auditQueryRequest;
  dec_panic : T → option panicRequest;
  dec_unseal : T → option bytes;
  dec_createApproval : T → option createApprovalRequest;
  dec_ticketID : T → option string;
  dec_roleID : T → option string;
  dec_mfaCode : T → option (string * bytes);
  dec_base64 : string → option bytes;
  dec_time : string → option Z;
}.

Inductive answer : Type :=
  | AHealth (sealed : bool) (state : string)
  | AUnsealed (unsealed : bool)
  | AAlreadyUnsealed
  | AEmergencySealed
  | ACreated (keyID : string) (version : Z) (dek : option bytes)
  | ARotated (keyID : string) (version : Z) (dek : bytes)
  | AShredded (keyID : string) (version : Z)
  | ASoftDeleted (keyID : string) (version : Z)
  | ARestored (keyID : string) (version : Z)
  | ADataKey (keyID : string) (plaintext ciphertext : bytes)
  | AAsymmetric (keyID : string) (version : Z) (keyType : string) (publicKey : bytes)
  | AEncrypted (ciphertext : bytes) (version : Z)
  | ADecrypted (plaintext : bytes) (version : Z)
  | ASigned (signature : bytes) (version : Z)
  | AVerified (valid : bool) (version : Z)
  | AMac (mac : bytes) (version : Z)
  | AWrappedDataKey (ciphertext : bytes)
  | AReEncrypted (ciphertext : bytes) (version : Z) (source dest : string)
  | APublicKey (publicKey : bytes) (version : Z)
  | ATransitPub (pub : TransitPublicKey)
  | AImported (keyID : string) (version : Z)
  | AAudit (entries : list QueryResult)
  | AApproval (p : Approval.payload)
  | AMetrics.                   (* the text of the metrics registry *)
Inductive reply : Type := JOk (a : answer) | JErr (status : Z) (msg : string) | NoContent.
Definition status_of (r : reply) : Z := match r with JOk _ => 200 | JErr s _ => s | NoContent => 204 end.

(** [seal.Unsealer], the part the system routes use. *)
Class UnsealerAdmin (V : Type) : Type := {
  us_ProvideShare : bytes → V → V * (bool * option error);
  us_State : V → string;
}.
#[export] Instance VaultState_Admin : UnsealerAdmin VaultState :=
  {| us_ProvideShare := ProvideShare; us_State v := State_String (vs_state v) |}.
#[export] Instance HSMUnsealer_Admin : UnsealerAdmin HSMUnsealer := {|
  us_ProvideShare _ h := (h, (false, Some (Err_new "seal: HSM mode does not use Shamir shares")));
  us_State h := if hsm_session h then "unsealed" else "sealed";
|}.

(** ** CORS *)
Definition isOriginAllowed (origin : string) (allowed : list string) : bool :=
  existsb (λ a, bool_decide (a = "*") || bool_decide (a = origin)) allowed.

(** ** Paths *)
Definition keys_prefix : string := "/api/v1/keys/".
(** [strings.SplitN(s, "/", 2)] *)
Definition split_slash (s : string) : string * option string :=
  let l := chars s in
  match index_of_char (char_of "/") l with
  | Some i => (unchars (take i l), Some (unchars (drop (i + 1) l)))
  | None => (s, None)
  end.
Definition extractKeyIDFromPath (path : string) : string :=
  if has_prefix keys_prefix path then (split_slash (str_drop (String.length keys_prefix) path)).1 else "".

(** ** The router *)
(** What the router was built with. [cf_errText] is [err.Error()], with the values the
    errors of this development leave out; [cf_audit] is the logger with the files of
    its directory, when both are configured. *)
Record Config : Type := mkCfg {
  cf_authenticator : option (string → result Policy);   (* [None]: development mode *)
  cf_adminToken : string;
  cf_audit : option (AuditLogger * gmap string bytes);
  cf_stores : Approval.config;
  cf_origins : list string;
  cf_signer : signer;
  cf_keygen : keygen;
  cf_sm2 : option keygen;
  cf_errText : error → string;
  cf_metrics : bool;            (* a metrics registry is configured *)
}.
Record Router (V S : Type) : Type := mkRouter {
  r_core : Core V S;
  r_transit : TransitKeyManager;
  r_approvals : Approval.sys;
  r_limiter : option RateLimiter;
}.
Arguments mkRouter {V S}. Arguments r_core {V S}. Arguments r_transit {V S}. Arguments r_approvals {V S}.
Arguments r_limiter {V S}.

Section Api.
Context {V S T : Type} `{!Unsealer V, !UnsealerAdmin V, !KVStore S, !Decoder T} {rlib : RSALib}.
Variable cfg : Config.
Abbreviation R := (Router V S).
Abbreviation MR := (M R).
Abbreviation Req := (request T).
(** A handler: the policy is the one in the request's context. *)
Abbreviation Handler := (option Policy → Req → MR reply).

Definition set_core (c : Core V S) (r : R) : R := mkRouter c (r_transit r) (r_approvals r) (r_limiter r).
Definition onCore {A} (m : M (Core V S) A) : MR A := fun r =>
  let '(c, x) := m (r_core r) in (set_core c r, x).
Definition onManager {A} (m : M (S * Env) A) : MR A := onCore (onM m).
(** [r.seal.KEKRef] with a closure over the manager. *)
Definition withKEKRef {A} (f : KEK → M (S * Env) A) : MR A := onCore (withKEK (λ kek, onM (f kek))).
Definition clock : MR Z := gets (λ r, m_now (c_world (r_core r)).2).

(** Early returns. *)
Definition fail (status : Z) (msg : string) : MR reply := mret (JErr status msg).
Definition need (b : bool) (status : Z) (msg : string) (k : MR reply) : MR reply := if b then k else fail status msg.
Definition need_method (m : string) (rq : Req) (k : MR reply) : MR reply :=
  need (bool_decide (rq_Method rq = m)) 405 "method not allowed" k.
Definition with_body {A} (dec : T → option A) (badJSON : string) (rq : Req) (k : A → MR reply) : MR reply :=
  match rq_Body rq with
  | None => fail 400 "read request body failed"
  | Some t => match dec t with Some b => k b | None => fail 400 badJSON end
  end.
Definition on_result {A} (m : MR A) (onErr : error → reply) (k : A → MR reply) : MR reply :=
  r ← try_ m; match r with inl a => k a | inr e => mret (onErr e) end.

(** [writeAPIError] *)
Definition api_status (msg : string) : Z  :=
  (if str_contains "not found" msg then 404
  else if str_contains "unauthorized" msg || str_contains "denied" msg || str_contains "cannot access" msg then 403
  else if str_contains "sealed" msg then 503
  else if str_contains "requires asymmetric" msg || str_contains "requires symmetric" msg || str_contains "no public key" msg then 400
  else 500)%Z.
Definition writeAPIError (e : error) : reply := JErr (api_status (cf_errText cfg e)) (cf_errText cfg e).
Definition internalError (e : error) : reply := JErr 500 (cf_errText cfg e).

Definition TenantFromContext (p : option Policy) : string := from_option p_TenantID "" p.
Definition authorizeBodyKeyIDWithDetail (p : option Policy) (keyID : string) : bool :=
  from_option (λ p, IsKeyAllowed p keyID) true p.
(** The bytes of a buffer, as the handlers copy them out for the response. *)
Definition buffer_bytes (sb : SecureBuffer) : MR bytes := lift (WithKeyR sb Ok).

(** ** handler_keys.go *)
Definition handleCreateKey : Handler := fun p rq =>
  need_method "POST" rq (with_body dec_createKey "invalid request body" rq (λ body,
  need (negb (bool_decide (ck_KeyID body = ""))) 400 "key_id is required" (
  let scopedKeyID := ScopedKeyID (TenantFromContext p) (ck_KeyID body) in
  on_result (withKEKRef (λ kek, CreateKey scopedKeyID (Some kek) 0)) (λ _, JErr 500 "create key failed") (λ '(m, pdek),
  if default true (ck_ReturnDEK body)
  then dek ← buffer_bytes pdek; mret (JOk (ACreated (km_KeyID m) (km_Version m) (Some dek)))
  else mret (JOk (ACreated (km_KeyID m) (km_Version m) None)))))).

Definition handleRotateKey (keyID : string) : MR reply :=
  on_result (withKEKRef (λ kek, RotateKey keyID (Some kek))) (λ _, JErr 500 "rotate key failed") (λ '(m, pdek),
  dek ← buffer_bytes pdek; mret (JOk (ARotated keyID (km_Version m) dek))).
(** The three operations that take a version in the body. *)
Definition with_version (rq : Req) (k : Z → MR reply) : MR reply :=
  with_body dec_shred "invalid request body" rq (λ version,
  need (bool_decide (1 ≤ version)%Z) 400 "version is required and must be >= 1" (k version)).
Definition destroyed_or (destroyed other : string) (e : error) : reply :=
  if bool_decide (e = ErrKeyDestroyed) then JErr 400 destroyed else JErr 500 other.
Definition handleShredKey (rq : Req) (keyID : string) : MR reply :=
  with_version rq (λ version,
  on_result (onManager (ShredKey keyID version)) (λ _, JErr 500 "shred key failed") (λ _, mret (JOk (AShredded keyID version)))).
Definition handleSoftDeleteKey (rq : Req) (keyID : string) : MR reply :=
  with_version rq (λ version,
  on_result (onManager (SoftDeleteKey keyID version)) (destroyed_or "key is already destroyed" "soft-delete failed")
    (λ _, mret (JOk (ASoftDeleted keyID version)))).
Definition handleRestoreKey (rq : Req) (keyID : string) : MR reply :=
  with_version rq (λ version,
  on_result (onManager (RestoreKey keyID version)) (destroyed_or "key is destroyed, cannot restore" "restore failed")
    (λ _, mret (JOk (ARestored keyID version)))).
Definition handleGenerateDataKey (keyID : string) : MR reply :=
  on_result (withKEKRef (λ kek, GenerateDataKey keyID (Some kek))) (λ _, JErr 404 "generate data key failed") (λ '(plainDEK, ct),
  raw ← buffer_bytes plainDEK; mret (JOk (ADataKey keyID raw ct))).

Definition handleKeyOps : Handler := fun p rq =>
  match split_slash (if has_prefix keys_prefix (rq_Path rq) then str_drop (String.length keys_prefix) (rq_Path rq) else rq_Path rq) with
  | (keyID, Some action) =>
      need (negb (bool_decide (keyID = ""))) 400 "key_id is required" (
      if bool_decide (action = "rotate") then need_method "POST" rq (handleRotateKey keyID)
      else if bool_decide (action = "shred") then need_method "DELETE" rq (handleShredKey rq keyID)
      else if bool_decide (action = "soft-delete") then need_method "PATCH" rq (handleSoftDeleteKey rq keyID)
      else if bool_decide (action = "restore") then need_method "POST" rq (handleRestoreKey rq keyID)
      else if bool_decide (action = "generate-data-key") then need_method "POST" rq (handleGenerateDataKey keyID)
      else fail 404 ("unknown key operation: " +:+ action))
  | (_, None) => fail 404 "invalid key path"
  end.

Definition handleCreateAsymmetricKey : Handler := fun p rq =>
  need_method "POST" rq (with_body dec_createAsymmetricKey "invalid request body" rq (λ body,
  need (negb (bool_decide (cy_KeyID body = ""))) 400 "key_id is required" (
  need (isAsymmetricKeyType (cy_KeyType body)) 400 "key_type must be rsa, ecdsa, or sm2" (
  on_result (withKEKRef (λ kek, CreateAsymmetricKey (cf_keygen cfg) (cf_sm2 cfg) (cy_KeyID body) (cy_KeyType body) (Some kek)))
    writeAPIError (λ meta,
  mret (JOk (AAsymmetric (km_KeyID meta) (km_Version meta) (km_KeyType meta) (km_PublicKey meta)))))))).

(** ** handler_v1.go *)
(** [err == lifecycle.ErrKeyNotActive]; [GetActiveKey] returns another error value, so
    the second status is the one an inactive key gets. *)
Definition ErrKeyNotActive : error := Err_new "lifecycle: key is not active, encrypt refused".
Definition handleV1Encrypt : Handler := fun p rq =>
  need_method "POST" rq (with_body dec_encrypt "invalid request body" rq (λ body,
  need (negb (bool_decide (er_KeyID body = ""))) 400 "key_id is required" (
  need (authorizeBodyKeyIDWithDetail p (er_KeyID body)) 403 "access denied" (
  let scopedKeyID := ScopedKeyID (TenantFromContext p) (er_KeyID body) in
  on_result (onManager (GetActiveKey scopedKeyID))
    (λ e, if bool_decide (e = ErrKeyNotActive) then JErr 403 "key is not active, encrypt refused" else JErr 404 "active key not found") (λ meta,
  on_result (withKEKRef (λ kek,
      plaintextDEK ← lift (kek_UnwrapDEK kek (km_Material meta));
      onRand (EncryptVersioned plaintextDEK (SafeUint32 (km_Version meta)) (er_Plaintext body))))
    (λ _, JErr 500 "encrypt failed") (λ ciphertext,
  mret (JOk (AEncrypted ciphertext (km_Version meta))))))))).

Definition handleV1Decrypt : Handler := fun p rq =>
  need_method "POST" rq (with_body dec_decrypt "invalid request body" rq (λ body,
  need (negb (bool_decide (dr_KeyID body = ""))) 400 "key_id is required" (
  need (authorizeBodyKeyIDWithDetail p (dr_KeyID body)) 403 "access denied" (
  let scopedKeyID := ScopedKeyID (TenantFromContext p) (dr_KeyID body) in
  need (MinCiphertextSize <=? length (dr_Ciphertext body))%nat 400 "ciphertext too short" (
  on_result (lift (DecodeVersionedCiphertext (dr_Ciphertext body))) (λ _, JErr 400 "invalid ciphertext format") (λ '(version, _, _),
  on_result (onManager (GetKeyForDecrypt scopedKeyID version))
    (λ e, if bool_decide (e = ErrKeyDestroyed) then JErr 400 "key version is destroyed, decrypt refused"
          else JErr 404 "key version not found") (λ meta,
  on_result (withKEKRef (λ kek,
      plaintextDEK ← lift (kek_UnwrapDEK kek (km_Material meta));
      lift (DecryptVersioned plaintextDEK (dr_Ciphertext body))))
    (λ _, JErr 500 "decrypt failed") (λ '(plaintextSB, _),
  plaintext ← buffer_bytes plaintextSB; mret (JOk (ADecrypted plaintext version)))))))))).

(** ** handler_v12.go *)
Definition errRead : error := Err_new "http: request body too large".
Definition with_body12 {A} (dec : T → option A) (rq : Req) (k : A → MR reply) : MR reply :=
  match rq_Body rq with
  | None => fail 400 (cf_errText cfg errRead)
  | Some t => match dec t with Some b => k b | None => fail 400 "invalid JSON" end
  end.

Definition handleV1Sign : Handler := fun p rq =>
  need_method "POST" rq (with_body12 dec_sign rq (λ body,
  need (negb (bool_decide (sr_KeyID body = ""))) 400 "key_id is required" (
  on_result (onCore (Sign (cf_signer cfg) (ScopedKeyID (TenantFromContext p) (sr_KeyID body)) (sr_Data body) p))
    writeAPIError (λ '(sig, v), mret (JOk (ASigned sig v)))))).
Definition handleV1Verify : Handler := fun p rq =>
  need_method "POST" rq (with_body12 dec_verify rq (λ body,
  need (negb (bool_decide (vr_KeyID body = ""))) 400 "key_id is required" (
  on_result (onCore (Verify (cf_signer cfg) (ScopedKeyID (TenantFromContext p) (vr_KeyID body)) (vr_Data body) (vr_Signature body) p))
    writeAPIError (λ '(valid, v), mret (JOk (AVerified valid v)))))).

(** The key of a MAC, copied out of its buffer. *)
Definition mac_key (meta : KeyMetadata) : MR bytes := withKEKRef (λ kek,
  keySB ← lift (kek_UnwrapDEK kek (km_Material meta));
  lift (WithKeyR keySB Ok)).
(** The policy is read and dropped; the key id is not scoped. *)
Definition handleV1GenerateMac : Handler := fun p rq =>
  need_method "POST" rq (with_body12 dec_sign rq (λ body,
  need (negb (bool_decide (sr_KeyID body = ""))) 400 "key_id is required" (
  on_result (onManager (GetActiveKey (sr_KeyID body))) internalError (λ meta,
  need (isSymmetricKeyType (km_KeyType meta)) 400 "mac requires symmetric key" (
  on_result (mac_key meta) internalError (λ key,
  mret (JOk (AMac (hmac_sha256 key (sr_Data body)) (km_Version meta))))))))).
Definition handleV1VerifyMac : Handler := fun p rq =>
  need_method "POST" rq (with_body12 dec_verifyMac rq (λ body,
  on_result (onManager (GetActiveKey (vm_KeyID body))) internalError (λ meta,
  on_result (mac_key meta) internalError (λ key,
  mret (JOk (AVerified (bool_decide (hmac_sha256 key (vm_Data body) = vm_Mac body)) (km_Version meta))))))).

Definition handleV1GDKWithoutPlaintext : Handler := fun p rq =>
  need_method "POST" rq (
  need (negb (bool_decide (rq_QueryKeyID rq = ""))) 400 "key_id is required" (
  on_result (withKEKRef (λ kek, GenerateDataKey (ScopedKeyID (TenantFromContext p) (rq_QueryKeyID rq)) (Some kek)))
    internalError (λ '(_, ct), mret (JOk (AWrappedDataKey ct))))).
Definition handleV1ReEncrypt : Handler := fun p rq =>
  need_method "POST" rq (with_body12 dec_reEncrypt rq (λ body,
  let source := ScopedKeyID (TenantFromContext p) (re_SourceKeyID body) in
  let dest := ScopedKeyID (TenantFromContext p) (re_DestKeyID body) in
  on_result (onCore (ReEncrypt source (re_Ciphertext body) dest p)) writeAPIError (λ '(ct, v),
  mret (JOk (AReEncrypted ct v source dest))))).
Definition handleV1GetPublicKey : Handler := fun p rq =>
  need_method "GET" rq (
  need (negb (bool_decide (rq_QueryKeyID rq = ""))) 400 "key_id is required" (
  on_result (onManager (GetActiveKey (rq_QueryKeyID rq))) internalError (λ meta,
  need (negb (bool_decide (km_PublicKey meta = []))) 400 "key has no public key" (
  mret (JOk (APublicKey (km_PublicKey meta) (km_Version meta))))))).

(** ** handler_byok.go *)
Definition onTransit {A} (m : M TransitKeyManager A) : MR A := fun r =>
  let '(t, x) := m (r_transit r) in (mkRouter (r_core r) t (r_approvals r) (r_limiter r), x).
Definition handleTransitPub : Handler := fun p rq =>
  need_method "GET" rq (
  on_result (fun r =>
      let w := c_world (r_core r) in
      let '((t, rnd), x) := GenerateTransitKey (m_now w.2) (m_now w.2) (r_transit r, m_rand w.2) in
      (mkRouter (set_world (w.1, set_rand rnd w.2) (r_core r)) t (r_approvals r) (r_limiter r), x))
    (λ _, JErr 500 "generate transit key failed") (λ pub, mret (JOk (ATransitPub pub)))).

(** [ImportKey] on the router's manager and key table. *)
Definition importKey (targetKeyID transitKeyID : string) (wrapped : bytes) (kek : KEK) : MR KeyMetadata := fun r =>
  let '((w, t), x) := ImportKey targetKeyID transitKeyID wrapped (Some kek) (c_world (r_core r), r_transit r) in
  (mkRouter (set_world w (r_core r)) t (r_approvals r) (r_limiter r), x).
Definition handleImportKey : Handler := fun p rq =>
  need_method "POST" rq (with_body dec_import "invalid request body" rq (λ body,
  need (negb (bool_decide (im_KeyID body = ""))) 400 "key_id is required" (
  need (negb (bool_decide (im_TransitKeyID body = ""))) 400 "transit_key_id is required" (
  need (negb (bool_decide (im_WrappedMaterial body = ""))) 400 "wrapped_material is required" (
  match dec_base64 (T := T) (im_WrappedMaterial body) with
  | None => fail 400 "invalid wrapped_material base64"
  | Some wrapped =>
      on_result (fun r => us_KEKRef (c_seal (r_core r)) (importKey (im_KeyID body) (im_TransitKeyID body) wrapped) r)
        (λ _, JErr 500 "import failed") (λ meta, mret (JOk (AImported (im_KeyID body) (km_Version meta))))
  end))))).

(** ** handler_audit.go *)
Definition query_limit (limit : Z) : Z :=
  (if bool_decide (limit < 0)%Z then 10000
  else if bool_decide (limit = 0)%Z then 100
  else if bool_decide (10000 < limit)%Z then 10000 else limit)%Z.
Definition with_time (text : string) (msg : string) (k : option Z → MR reply) : MR reply :=
  if bool_decide (text = "") then k None
  else match dec_time (T := T) text with Some t => k (Some t) | None => fail 400 msg end.
Definition handleAuditQuery : Handler := fun p rq =>
  need_method "POST" rq (with_body dec_auditQuery "invalid request body" rq (λ body,
  with_time (aq_StartTime body) "invalid start_time (use RFC3339)" (λ start,
  with_time (aq_EndTime body) "invalid end_time (use RFC3339)" (λ stop,
  match cf_audit cfg with
  | None => fail 503 "audit query not configured (no log directory)"
  | Some (logger, dir) =>
      mret (JOk (AAudit (Query logger dir (mkFilter start stop (aq_Actor body) (aq_Action body) (query_limit (aq_Limit body))))))
  end)))).

(** ** handler_sys.go *)
Definition handleHealth (rq : Req) : MR reply :=
  need_method "GET" rq (
  r ← get_st;
  mret (JOk (AHealth (us_IsSealed (c_seal (r_core r))) (us_State (c_seal (r_core r)))))).
Definition handleSysUnseal : Handler := fun p rq =>
  need_method "POST" rq (with_body dec_unseal "invalid request body" rq (λ share r,
  let '(v, (unsealed, err)) := us_ProvideShare share (c_seal (r_core r)) in
  (set_core (set_seal v (r_core r)) r,
   Ok (match err with
       | Some _ => if (unsealed : bool) then JOk AAlreadyUnsealed else JErr 400 "unseal failed"
       | None => JOk (AUnsealed unsealed)
       end)))).
Definition handleEmergencySeal : Handler := fun p rq =>
  need_method "POST" rq (with_body dec_panic "invalid request body" rq (λ body,
  need (pr_Confirm body) 400 "confirm must be true to trigger emergency seal" (
  need (negb (bool_decide (cf_adminToken cfg = ""))) 403 "emergency seal not configured (no admin token set)" (
  need (bool_decide (pr_AdminToken body = cf_adminToken cfg)) 403 "invalid admin token" (
  onCore (modify (λ c, set_seal (us_EmergencySeal (c_seal c)) c));;
  onManager ClearCache;;
  mret (JOk AEmergencySealed)))))).

(** ** Approval and second-factor routes *)
Definition to_body {A} (dec : T → option A) (rq : Req) : Approval.body A :=
  match rq_Body rq with
  | None => ReadFailed
  | Some t => match dec t with Some a => Body a | None => BadJSON end
  end.
Definition onApprovals (arq : api_request) : MR reply := fun r =>
  let y := r_approvals r in
  let y := mkSys (m_now (c_world (r_core r)).2) (y_rand y) (y_tickets y) (y_mfa y) (y_threads y) (y_reqs y ++ [arq]) in
  let '(rep, y) := run (handler (cf_stores cfg) arq) y in
  (mkRouter (r_core r) (r_transit r) y (r_limiter r),
   match rep with
   | JSONOK p => Ok (JOk (AApproval p))
   | JSONError s m => Ok (JErr s m)
   | Passed | Panicked => Panic "nil pointer dereference"
   end).

(** ** Middleware *)
(** [requireUnsealedV1] *)
Definition requireUnsealedV1 (next : MR reply) : MR reply := fun r =>
  if us_IsEmergencySealed (c_seal (r_core r)) then (r, Ok (JErr 503 "vault is emergency sealed"))
  else if us_IsSealed (c_seal (r_core r)) then (r, Ok (JErr 503 "kms is sealed"))
  else next r.

(** The policy goes into the context: to the handler, and to the actor that the service
    layer records. *)
Definition set_ctx (actor : option string) (c : Core V S) : Core V S :=
  mkCore (c_seal c) (c_world c) (c_audit c) (c_auditFaults c) (c_auditOn c) (c_adminToken c) (c_alerts c) actor (c_healthy c).
Definition RequireAuth (action : string) (next : Handler) (rq : Req) : MR reply :=
  match ExtractBearerToken (rq_Authorization rq) with
  | Ok token =>
      match cf_authenticator cfg with
      | None => lift (Panic "nil pointer dereference: authenticator")
      | Some authenticate =>
          match authenticate token with
          | Ok policy =>
              need (IsActionAllowed policy action) 403 "access denied" (
              let keyID := extractKeyIDFromPath (rq_Path rq) in
              need (bool_decide (keyID = "") || IsKeyAllowed policy keyID) 403 "key not allowed" (
              onCore (modify (set_ctx (Some (p_RoleID policy))));;
              next (Some policy) rq))
          | Error _ => fail 401 "authentication failed"
          | Panic m => lift (Panic m)
          end
      end
  | _ => fail 401 "authentication required"
  end.
Definition authAndSeal (action : string) (next : Handler) (rq : Req) : MR reply :=
  requireUnsealedV1 (match cf_authenticator cfg with
    | Some _ => RequireAuth action next rq
    | None => next None rq
    end).

(** A panic of the handler is turned into a reply. *)
Definition recovered (m : MR reply) : MR reply := fun r =>
  match m r with (r', Panic _) => (r', Ok (JErr 500 "internal error")) | x => x end.
Definition status_text (status : Z) : string :=
  if bool_decide (status = 403)%Z then "unauthorized" else if bool_decide (status < 400)%Z then "success" else "failure".
(** The actor is looked up in the context of the request the middleware was given; the
    policy is put into the context of the copy that [RequireAuth] passes on, so the
    lookup finds none and the remote address is recorded. [NewV1Router] hands its log
    to the service layer too, so the entry follows those of the handler in the same
    log; the error of [Record] is dropped. *)
Definition auditMiddleware (action : string) (next : MR reply) (rq : Req) : MR reply := fun r =>
  if us_IsEmergencySealed (c_seal (r_core r)) then (r, Ok (JErr 503 "vault is emergency sealed"))
  else
    (onCore (modify (set_ctx None));;
     trace ← try_ (onManager (onRand (GenerateSecureRandom 16)));
     match trace with
     | inr _ => fail 500 "trace id generation failed"
     | inl traceID =>
         rep ← recovered next;
         now ← clock;
         onCore (modify (auditRecord (mkAudit action (rq_RemoteAddr rq) "" "" now traceID (status_text (status_of rep)))));;
         mret rep
     end) r.

(** ** Routes *)
Inductive guard : Type := Open | Authenticated (action : string) | AuthAndSeal (action : string).
Record route : Type := mkRoute { rt_path : string; rt_action : string; rt_guard : guard; rt_handler : Handler }.
Definition approval_handler (arq : option Policy → Req → api_request) : Handler := fun p rq => onApprovals (arq p rq).

(** The registry's counters are not part of the model. *)
Definition metricsHandler : Handler := fun p rq => mret (JOk AMetrics).
(** Without an authenticator, outside the audit middleware. *)
Definition loopbackOnly (next : MR reply) (rq : Req) : MR reply :=
  let host := default (rq_RemoteAddr rq) (SplitHostPort (rq_RemoteAddr rq)) in
  if bool_decide (host = "") then next
  else need (existsb (λ h, bool_decide (host = h)) ["127.0.0.1"; "::1"; "localhost"]) 403 "metrics endpoint allows loopback only" next.

(** [register], in its order; [/api/v1/keys/] is the only subtree. *)
Definition routes : list route :=
  [mkRoute "/api/v1/sys/unseal" "Unseal" Open handleSysUnseal;
   mkRoute "/api/v1/sys/panic" "EmergencySeal" Open handleEmergencySeal;
   mkRoute "/api/v1/keys" "CreateKey" (AuthAndSeal "CreateKey") handleCreateKey;
   mkRoute "/api/v1/keys/transit-pub" "TransitKey" Open handleTransitPub;
   mkRoute "/api/v1/keys/import" "ImportKey" (AuthAndSeal "ImportKey") handleImportKey;
   mkRoute "/api/v1/audit/query" "AuditQuery" (AuthAndSeal "AuditQuery") handleAuditQuery;
   mkRoute "/api/v1/encrypt" "Encrypt" (AuthAndSeal "Encrypt") handleV1Encrypt;
   mkRoute "/api/v1/decrypt" "Decrypt" (AuthAndSeal "Decrypt") handleV1Decrypt;
   mkRoute "/api/v1/sign" "Sign" (AuthAndSeal "Sign") handleV1Sign;
   mkRoute "/api/v1/verify" "Verify" (AuthAndSeal "Verify") handleV1Verify;
   mkRoute "/api/v1/mac/generate" "GenerateMac" (AuthAndSeal "GenerateMac") handleV1GenerateMac;
   mkRoute "/api/v1/mac/verify" "VerifyMac" (AuthAndSeal "VerifyMac") handleV1VerifyMac;
   mkRoute "/api/v1/re-encrypt" "ReEncrypt" (AuthAndSeal "ReEncrypt") handleV1ReEncrypt;
   mkRoute "/api/v1/keys/gdk-no-plaintext" "GenerateDataKeyWithoutPlaintext" (AuthAndSeal "KeyOp") handleV1GDKWithoutPlaintext;
   mkRoute "/api/v1/keys/public-key" "GetPublicKey" (AuthAndSeal "KeyOp") handleV1GetPublicKey;
   mkRoute "/api/v1/keys/asymmetric" "CreateAsymmetricKey" (AuthAndSeal "KeyOp") handleCreateAsymmetricKey;
   mkRoute "/api/v1/auth/mfa/setup" "MFASetup" (Authenticated "MFASetup")
     (approval_handler (λ p rq, RqMFASetup (rq_Method rq) (to_body dec_roleID rq) p));
   mkRoute "/api/v1/auth/mfa/verify" "MFAVerify" (Authenticated "MFAVerify")
     (approval_handler (λ p rq, RqMFAVerify (rq_Method rq) (to_body dec_mfaCode rq)));
   mkRoute "/api/v1/auth/mfa/disable" "MFADisable" (Authenticated "MFADisable")
     (approval_handler (λ p rq, RqMFADisable (rq_Method rq) (to_body dec_mfaCode rq)));
   mkRoute "/api/v1/approvals" "Approval" (Authenticated "Approval")
     (approval_handler (λ p rq, RqApprovals (rq_Method rq) (rq_QueryID rq) (to_body dec_createApproval rq) p));
   mkRoute "/api/v1/approvals/approve" "ApprovalApprove" (Authenticated "ApprovalApprove")
     (approval_handler (λ p rq, RqApprove (rq_Method rq) (to_body dec_ticketID rq) p));
   mkRoute "/api/v1/approvals/reject" "ApprovalReject" (Authenticated "ApprovalReject")
     (approval_handler (λ p rq, RqReject (rq_Method rq) (to_body dec_ticketID rq) p))] ++
  (if cf_metrics cfg && bool_decide (is_Some (cf_authenticator cfg))
   then [mkRoute "/metrics" "Metrics" (Authenticated "Metrics") metricsHandler] else []).
Definition keyops_route : route := mkRoute keys_prefix "KeyOp" (AuthAndSeal "KeyOp") handleKeyOps.
(** [http.ServeMux]: an exact pattern, else the longest subtree that contains the path. *)
Definition find_route (path : string) : option route :=
  match List.find (λ rt, bool_decide (rt_path rt = path)) routes with
  | Some rt => Some rt
  | None => if has_prefix keys_prefix path then Some keyops_route else None
  end.
Definition guarded (rt : route) (rq : Req) : MR reply :=
  match rt_guard rt with
  | Open => rt_handler rt None rq
  | Authenticated action => RequireAuth action (rt_handler rt) rq
  | AuthAndSeal action => authAndSeal action (rt_handler rt) rq
  end.
Definition mux (rq : Req) : MR reply :=
  if bool_decide (rq_Path rq = "/api/v1/sys/health") then handleHealth rq
  else
    match find_route (rq_Path rq) with
    | Some rt => auditMiddleware (rt_action rt) (guarded rt rq) rq
    | None =>
        if cf_metrics cfg && bool_decide (cf_authenticator cfg = None ∧ rq_Path rq = "/metrics") then loopbackOnly (metricsHandler None rq) rq
        else fail 404 "404 page not found"
    end.

(** The reply with the allowed origin of its CORS headers, if any. *)
Definition cors_origin (rq : Req) : option string :=
  if negb (bool_decide (rq_Origin rq = "")) && isOriginAllowed (rq_Origin rq) (cf_origins cfg) then Some (rq_Origin rq) else None.
Definition limited (rq : Req) : MR bool := fun r =>
  match r_limiter r with
  | None => (r, Ok false)
  | Some rl =>
      let ip := clientIPFromRequest (rq_XForwardedFor rq) (rq_XRealIP rq) (rq_RemoteAddr rq) (rl_trustedProxies rl) in
      let '(rl, ok) := Allow (m_now (c_world (r_core r)).2) ip rl in
      (mkRouter (r_core r) (r_transit r) (r_approvals r) (Some rl), Ok (negb ok))
  end.
Definition ServeHTTP (rq : Req) : MR (option string * reply) :=
  over ← limited rq;
  if (over : bool) then mret (None, JErr 429 "rate limit exceeded")
  else if bool_decide (rq_Method rq = "OPTIONS") then mret (cors_origin rq, NoContent)
  else rep ← mux rq; mret (cors_origin rq, rep).
End Api.
