(* ===== verification/CoreSpec.v ===== *)
(** What the service layer guarantees: refusal when sealed or denied, one audit
    record per executed operation, and the round trips a client relies on, across
    any history of the key manager. *)

From S2P Require Import Prelude SecureBuffer Hash AesGcm Ciphertext Kek Vault Store Postgres Metadata Manager Transit Lifecycle Cache KeyManagement Auth Core.
Import MemoryKV.

(** ** The operations as a client request *)
Inductive core_op : Type :=
  | RqCreateKey (id : string) (days : Z) (returnDEK : bool)
  | RqRotateKey (id : string)
  | RqShredKey (id : string) (v : Z)
  | RqSoftDeleteKey (id : string) (v : Z)
  | RqRestoreKey (id : string) (v : Z)
  | RqGenerateDataKey (id : string)
  | RqGenerateDataKeyWithoutPlaintext (id : string)
  | RqEncrypt (id : string) (pt : bytes)
  | RqDecrypt (id : string) (ct : bytes)
  | RqReEncrypt (src : string) (ct : bytes) (dst : string)
  | RqSign (id : string) (d : bytes)
  | RqVerify (id : string) (d s : bytes)
  | RqGenerateMac (id : string) (d : bytes)
  | RqVerifyMac (id : string) (d m : bytes)
  | RqGetPublicKey (id : string)
  | RqDisableKey (id : string)
  | RqEnableKey (id : string) (v : Z)
  | RqCancelKeyDeletion (id : string) (v : Z).

(** The permissions a request needs: action and key id. *)
Definition op_needs (op : core_op) : list (string * string) :=
  match op with
  | RqCreateKey id _ _ => [("CreateKey", id)]
  | RqRotateKey id | RqShredKey id _ | RqSoftDeleteKey id _ | RqRestoreKey id _
  | RqGenerateDataKey id | RqGenerateDataKeyWithoutPlaintext id | RqGetPublicKey id
  | RqDisableKey id | RqEnableKey id _ | RqCancelKeyDeletion id _ => [("KeyOp", id)]
  | RqEncrypt id _ => [("Encrypt", id)]
  | RqDecrypt id _ => [("Decrypt", id)]
  | RqReEncrypt src _ dst => [("Decrypt", src); ("Encrypt", dst)]
  | RqSign id _ => [("Sign", id)]
  | RqVerify id _ _ => [("Verify", id)]
  | RqGenerateMac id _ | RqVerifyMac id _ _ => [("GenerateMac", id)]
  end.

Section Refusals.
Context {V S : Type} `{!Unsealer V, !KVStore S}.
Abbreviation CoreT := (Core V S).
Abbreviation MC := (M CoreT).

Definition forget {A} (m : MC A) : MC () := m;; mret tt.
Definition run_op (sg : signer) (op : core_op) (policy : option Policy) : MC () :=
  match op with
  | RqCreateKey id days rd => forget (CoreCreateKey id days rd policy)
  | RqRotateKey id => forget (CoreRotateKey id policy)
  | RqShredKey id v => CoreShredKey id v policy
  | RqSoftDeleteKey id v => CoreSoftDeleteKey id v policy
  | RqRestoreKey id v => CoreRestoreKey id v policy
  | RqGenerateDataKey id => forget (CoreGenerateDataKey id policy)
  | RqGenerateDataKeyWithoutPlaintext id => forget (GenerateDataKeyWithoutPlaintext id policy)
  | RqEncrypt id pt => forget (Encrypt id pt policy)
  | RqDecrypt id ct => forget (Decrypt id ct policy)
  | RqReEncrypt src ct dst => forget (ReEncrypt src ct dst policy)
  | RqSign id d => forget (Sign sg id d policy)
  | RqVerify id d s => forget (Verify sg id d s policy)
  | RqGenerateMac id d => forget (GenerateMac id d policy)
  | RqVerifyMac id d m => forget (VerifyMac id d m policy)
  | RqGetPublicKey id => forget (GetPublicKey id policy)
  | RqDisableKey id => DisableKey id policy
  | RqEnableKey id v => EnableKey id v policy
  | RqCancelKeyDeletion id v => CancelKeyDeletion id v policy
  end.

(** ** Refusals *)
(** A computation refuses: it fails and changes nothing. *)
Definition refuses {A} (m : MC A) (c : CoreT) : Prop := ∃ e, m c = (c, Error e).

Lemma refuses_bind {A B} (m : MC A) (f : A → MC B) c : refuses m c → refuses (m ≫= f) c.
Proof. intros [e H]. exists e. by apply M_bind_fail. Qed.
(** A guard passes or refuses. *)
Definition gate (m : MC ()) (c : CoreT) : Prop := m c = (c, Ok tt) ∨ refuses m c.
Lemma gate_then {B} (m : MC ()) (f : () → MC B) c : gate m c → refuses (f tt) c → refuses (m ≫= f) c.
Proof.
  intros [Hm|Hm] [e He]; [|by apply refuses_bind]. exists e. by rw (M_bind_step _ _ _ _ _ Hm).
Qed.
Lemma gate_unsealed c : gate requireUnsealed c.
Proof. rw /gate /refuses /requireUnsealed. destruct (us_IsEmergencySealed (c_seal c)), (us_IsSealed (c_seal c)); eauto. Qed.
Lemma gate_writable c : gate requireWritable c.
Proof. rw /gate /refuses /requireWritable. destruct (c_healthy c); eauto. Qed.
Lemma gate_authorize p a k c : gate (authorize p a k) c.
Proof.
  rw /gate /refuses /authorize. destruct p as [p|]; [|by left].
  rw /mbind /M_bind /guardM. destruct (IsActionAllowed p a), (IsKeyAllowed p k); eauto.
Qed.
Lemma sealed_refuses c : us_IsEmergencySealed (c_seal c) = true ∨ us_IsSealed (c_seal c) = true →
  refuses requireUnsealed c.
Proof.
  rw /refuses /requireUnsealed. intros [->| ->]; [eauto|]. destruct (us_IsEmergencySealed (c_seal c)); eauto.
Qed.
Definition denied (p : Policy) (need : string * string) : bool :=
  negb (IsActionAllowed p need.1 && IsKeyAllowed p need.2).
Lemma denied_refuses p a k c : denied p (a, k) = true → refuses (authorize (Some p) a k) c.
Proof.
  rw /denied /refuses /authorize /mbind /M_bind /guardM /=.
  destruct (IsActionAllowed p a), (IsKeyAllowed p k); try done; eauto.
Qed.
End Refusals.

(** Walk through the guards of an operation up to the one that refuses. *)
Ltac solve_gates :=
  repeat first
    [ match goal with H : ∀ B f, refuses (authorize _ _ _ ≫= f) _ |- _ => apply H end
    | apply gate_then; [apply gate_unsealed|]
    | apply gate_then; [apply gate_writable|]
    | apply gate_then; [apply gate_authorize|]
    | apply refuses_bind ].

Section CoreSpec.
Context {V S : Type} `{!Unsealer V, !UnsealerLaws V, !KVStore S, !KVStoreLaws S}.
Abbreviation CoreT := (Core V S).
Abbreviation MC := (M CoreT).

(** C10: no request touches anything while the vault is sealed, emergency-sealed, or
    the caller's policy lacks a permission the request needs: it fails and leaves
    the store, the cache, the randomness and the audit trail exactly as they were. *)
Theorem core_guards sg op policy (c : CoreT) :
  us_IsEmergencySealed (c_seal c) = true ∨ us_IsSealed (c_seal c) = true ∨
  (∃ p need, policy = Some p ∧ need ∈ op_needs op ∧ denied p need = true) →
  ∃ e, run_op sg op policy c = (c, Error e).
Proof.
  intros H. change (refuses (run_op sg op policy) c).
  assert ((us_IsEmergencySealed (c_seal c) = true ∨ us_IsSealed (c_seal c) = true) ∨
          ∃ p need, policy = Some p ∧ need ∈ op_needs op ∧ denied p need = true) as [Hs|(p & [a k] & -> & Hin & Hd)] by tauto.
  - pose proof (sealed_refuses c Hs) as Hr. destruct op; repeat apply refuses_bind; exact Hr.
  - pose proof (denied_refuses p a k c Hd) as Hr.
    assert (∀ B (f : () → MC B), refuses (authorize (Some p) a k ≫= f) c) as Hgo by (intros; by apply refuses_bind).
    destruct op; simpl in Hin; repeat (apply elem_of_cons in Hin as [Hin|Hin]; [injection Hin as -> ->|]);
      try (by apply elem_of_nil in Hin); solve_gates.
Qed.

(** ** The audit trail *)
Definition trail (c : CoreT) : list audit_rec * bool * list bool := (c_audit c, c_auditOn c, c_auditFaults c).
Lemma keeps_trail_onM {A} (m : M (S * Env) A) : keeps trail (onM m).
Proof. intros c c' r H. rw /onM in H. destruct (m (c_world c)). by injection H as <- _. Qed.
Lemma keeps_trail_alert a : keeps trail (modify (add_alert a)).
Proof. by intros c c' r [= <- _]. Qed.
Lemma keeps_trail_withKEK {A} (f : KEK → MC A) : (∀ kek, keeps trail (f kek)) → keeps trail (withKEK f).
Proof.
  intros Hf c c' r H. rw /withKEK in H. destruct (us_kek_or_error (c_seal c)) as [[kek E]|[e E]]; rw E in H.
  - by eapply Hf.
  - by injection H as <- _.
Qed.
#[local] Hint Resolve keeps_trail_onM keeps_trail_alert : keeps.
Ltac solve_trail :=
  repeat first [ progress solve_keeps | apply keeps_trail_withKEK; intros ? | apply keeps_bind; [|intros ?] | case_match ].

(** The ways an operation may end, seen from the audit trail: a panic, a refusal
    that changed nothing, or exactly one record of the outcome. *)
Definition records {A} (action keyID : string) (m : MC A) : Prop := ∀ c c' r, m c = (c', r) → c_auditOn c = true ∧ c_auditFaults c = [] →
  (∃ p, r = Panic p) ∨ (c' = c ∧ is_ok r = false) ∨
  (∃ a, c_audit c' = c_audit c ++ [a] ∧ au_Action a = action ∧ au_Resource a = keyID ∧
     au_Actor a = default "system" (c_ctxActor c') ∧ au_Result a = if is_ok r then "success" else "error").

Lemma recordAudit_ok action keyID status (c c' : CoreT) r : recordAudit action keyID status c = (c', r) →
  c_auditOn c = true ∧ c_auditFaults c = [] → r = Ok tt ∧ ∃ a, c_audit c' = c_audit c ++ [a] ∧ au_Action a = action ∧
    au_Resource a = keyID ∧ au_Actor a = default "system" (c_ctxActor c') ∧ au_Result a = status.
Proof.
  rw /recordAudit. intros H [Hon Hf]. rw Hon in H. injection H as <- <-. split; [done|]. rw /auditRecord Hf /=. by eexists.
Qed.

Lemma records_audited {A} action keyID (m : MC A) : keeps trail m → records action keyID (audited action keyID m).
Proof.
  intros Hm c c' r H Hon. apply M_bind_inv in H as (c1 & r1 & H1 & H). apply try_inv in H1 as (r1' & H1 & ->).
  apply Hm in H1. injection H1 as Ea Eo Ef. rw -Eo -Ef in Hon. destruct r1' as [a|e|p]; [..|destruct H as [_ ->]; eauto].
  all: right; right; apply M_bind_inv in H as (c2 & r2 & H2 & H);
    apply recordAudit_ok in H2 as (-> & rec & Hr & Hrest); [|done]; injection H as <- <-; exists rec;
    by rw Hr Ea.
Qed.
Lemma records_gate {A} action keyID g (f : () → MC A) : (∀ c, gate g c) → records action keyID (f tt) →
  records action keyID (g ≫= f).
Proof.
  intros Hg Hf c c' r H Hon. destruct (Hg c) as [Hc|[e Hc]].
  - rw (M_bind_step _ _ _ _ _ Hc) in H. by eapply Hf.
  - rw (M_bind_fail _ _ _ _ _ Hc) in H. injection H as <- <-. by right; left.
Qed.
Lemma records_lift {A B} action keyID (x : result B) (f : B → MC A) : (∀ b, records action keyID (f b)) →
  records action keyID (lift x ≫= f).
Proof.
  intros Hf c c' r H Hon. destruct x as [b|e|p].
  - exact (Hf b c c' r H Hon).
  - injection H as <- <-. by right; left.
  - injection H as <- <-. left. eauto.
Qed.
Lemma records_forget {A} action keyID (m : MC A) : records action keyID m → records action keyID (forget m).
Proof.
  intros Hm c c' r H Hon. apply M_bind_inv in H as (c1 & r1 & H1 & H). pose proof (Hm _ _ _ H1 Hon) as H2.
  destruct r1 as [a|e|p]; [injection H as <- <-|destruct H as [-> ->]..].
  - destruct H2 as [[p ?]|[[_ ?]|?]]; [done..|]. by right; right.
  - destruct H2 as [[p ?]|[[-> _]|?]]; [done|by right; left|by right; right].
  - left. by exists p.
Qed.
Lemma gate_guardM b e (c : CoreT) : gate (guardM b e) c.
Proof. rw /gate /refuses /guardM. destruct b; eauto. Qed.

(** The record an operation leaves; re-encryption and MAC verification, which are
    built from other audited operations, leave more than one. *)
Definition op_audit (op : core_op) : option (string * string) :=
  match op with
  | RqCreateKey id _ _ => Some ("CreateKey", id)
  | RqRotateKey id => Some ("RotateKey", id)
  | RqShredKey id _ => Some ("ShredKey", id)
  | RqSoftDeleteKey id _ => Some ("SoftDeleteKey", id)
  | RqRestoreKey id _ => Some ("RestoreKey", id)
  | RqGenerateDataKey id => Some ("GenerateDataKey", id)
  | RqGenerateDataKeyWithoutPlaintext id => Some ("GenerateDataKeyWithoutPlaintext", id)
  | RqEncrypt id _ => Some ("Encrypt", id)
  | RqDecrypt id _ => Some ("Decrypt", id)
  | RqSign id _ => Some ("Sign", id)
  | RqVerify id _ _ => Some ("Verify", id)
  | RqGenerateMac id _ => Some ("GenerateMac", id)
  | RqGetPublicKey id => Some ("GetPublicKey", id)
  | RqDisableKey id => Some ("DisableKey", id)
  | RqEnableKey id _ | RqCancelKeyDeletion id _ => Some ("EnableKey", id)
  | RqReEncrypt _ _ _ | RqVerifyMac _ _ _ => None
  end.

(** Every request that is carried out is accounted for: with an audit log
    attached that takes its entries, a request either panics, or is refused without any change, or appends
    exactly one record naming its action, the key and the caller, whose result is
    success precisely when the caller got a result. *)
Theorem one_audit_record sg op policy action keyID (c c' : CoreT) r :
  op_audit op = Some (action, keyID) → c_auditOn c = true ∧ c_auditFaults c = [] → run_op sg op policy c = (c', r) →
  (∃ p, r = Panic p) ∨ (c' = c ∧ is_ok r = false) ∨
  (∃ a, c_audit c' = c_audit c ++ [a] ∧ au_Action a = action ∧ au_Resource a = keyID ∧
     au_Actor a = default "system" (c_ctxActor c') ∧ au_Result a = if is_ok r then "success" else "error").
Proof.
  intros Ha Hon H. revert H Hon. enough (records action keyID (run_op sg op policy)) as Hrec by apply Hrec.
  destruct op; simpl in Ha; simplify_eq; simpl; try apply records_forget;
    repeat (apply records_gate; [first [exact gate_unsealed | exact gate_writable | intros; apply gate_authorize
      | intros; apply gate_guardM]|]);
    try (apply records_lift; intros [[? ?] ?]); apply records_audited; rw ?/unwrapOrAlert; solve_trail.
Qed.

(** ** Calls of the log *)
(** What a log keeps of a sequence of calls of [Record]. *)
Fixpoint taken (faults : list bool) (es : list audit_rec) : list audit_rec :=
  match es with
  | [] => []
  | e :: es => (if default false (head faults) then [] else [e]) ++ taken (tail faults) es
  end.
(** Between two states the log was called with these entries, in this order. *)
Definition logged (es : list audit_rec) (c c' : CoreT) : Prop :=
  c_audit c' = c_audit c ++ taken (c_auditFaults c) es ∧ c_auditFaults c' = drop (length es) (c_auditFaults c).
Lemma taken_app faults es es' : taken faults (es ++ es') = taken faults es ++ taken (drop (length es) faults) es'.
Proof.
  induction es as [|e es IH] in faults |- *; [done|]. cbn [taken app length]. rw IH assoc. do 2 f_equal. by destruct faults; rw ?drop_nil.
Qed.
Lemma taken_all es : taken [] es = es.
Proof. induction es as [|e es IH]; [done|]. by rw /= IH. Qed.
Lemma logged_trans es es' c c1 c2 : logged es c c1 → logged es' c1 c2 → logged (es ++ es') c c2.
Proof. intros [H1 H2] [H3 H4]. split; [by rw H3 H1 H2 taken_app assoc|by rw H4 H2 drop_drop length_app]. Qed.
Lemma logged_record a c : logged [a] c (auditRecord a c).
Proof.
  rw /logged /auditRecord /=. destruct (c_auditFaults c) as [|[|] fs] eqn:E; by rw /= ?E ?app_nil_r ?drop_0.
Qed.
Lemma logged_none c c' : trail c' = trail c → logged [] c c'.
Proof. intros [= E1 _ E2]. split; [by rw E1 app_nil_r|done]. Qed.

(** A step that calls the log at most [n] times, with entries of the service layer: they
    carry no trace. *)
Definition untraced (e : audit_rec) : Prop := au_TraceID e = [].
Definition logs {X A} (π : X → CoreT) (n : nat) (m : M X A) : Prop := ∀ x x' y, m x = (x', y) →
  ∃ es, logged es (π x) (π x') ∧ length es ≤ n ∧ Forall untraced es.
Lemma logs_quiet {X A} (π : X → CoreT) n (m : M X A) : keeps (λ x, trail (π x)) m → logs π n m.
Proof. intros Hm x x' y H. exists []. split_and!; [by eapply logged_none, Hm|simpl; lia|done]. Qed.
Lemma logs_mono {X A} (π : X → CoreT) n n' (m : M X A) : n ≤ n' → logs π n m → logs π n' m.
Proof. intros Hn Hm x x' y H. destruct (Hm _ _ _ H) as (es & ? & ? & ?). exists es. split_and!; [done|lia|done]. Qed.
Lemma logs_bind {X A B} (π : X → CoreT) n n' (m : M X A) (f : A → M X B) : logs π n m → (∀ a, logs π n' (f a)) → logs π (n + n') (m ≫= f).
Proof.
  intros Hm Hf x x' y (x1 & z & H1 & H)%M_bind_inv. destruct (Hm _ _ _ H1) as (es & Hes & Hn & Ht).
  destruct z as [a|e|p]; [|destruct H as [-> _]; exists es; split_and!; [done|lia|done]..].
  destruct (Hf a _ _ _ H) as (es' & Hes' & Hn' & Ht'). exists (es ++ es').
  split_and!; [by eapply logged_trans|rw length_app; lia|by apply Forall_app].
Qed.
Lemma logs_try {X A} (π : X → CoreT) n (m : M X A) : logs π n m → logs π n (try_ m).
Proof. intros Hm x x' y (z & H & _)%try_inv. by eapply Hm. Qed.
Lemma logs_recordAudit action keyID status : logs id 1 (recordAudit action keyID status).
Proof.
  intros c c' y H. rw /recordAudit in H. destruct (c_auditOn c); injection H as <- _.
  - eexists [_]. split_and!; [apply logged_record|done|by constructor].
  - exists []. split_and!; [by apply logged_none|simpl; lia|done].
Qed.
Lemma logs_audited {A} action keyID (m : MC A) : keeps trail m → logs id 1 (audited action keyID m).
Proof.
  intros Hm. apply (logs_bind _ 0 1); [by apply logs_quiet, keeps_try|].
  intros [a|e]; (apply (logs_bind _ 1 0); [apply logs_recordAudit|intros _; apply logs_quiet]); [apply keeps_ret|apply keeps_throw].
Qed.
Lemma logs_gate {A} n g (f : () → MC A) : (∀ c, gate g c) → (∀ u, logs id n (f u)) → logs id n (g ≫= f).
Proof.
  intros Hg Hf. apply (logs_bind _ 0 n); [|done]. apply logs_quiet. intros c c' y H.
  destruct (Hg c) as [E|[e E]]; rw E in H; by injection H as <- _.
Qed.
Lemma logs_lift {A B} n (x : result B) (f : B → MC A) : (∀ b, logs id n (f b)) → logs id n (lift x ≫= f).
Proof. intros Hf. apply (logs_bind _ 0 n); [|done]. apply logs_quiet, keeps_lift. Qed.
Lemma service_logs sg keyID data sig p :
  logs id 1 (Sign sg keyID data p) ∧ logs id 1 (Verify sg keyID data sig p) ∧ logs id 1 (Encrypt keyID data p) ∧ logs id 1 (Decrypt keyID data p).
Proof.
  split_and!; repeat (apply logs_gate; [first [exact gate_unsealed | intros; apply gate_authorize | intros; apply gate_guardM]|intros ?]);
    try (apply logs_lift; intros [[? ?] ?]); apply logs_audited; rw ?/unwrapOrAlert; solve_trail.
Qed.
Lemma ReEncrypt_logs src ct dst p : logs id 3 (ReEncrypt src ct dst p).
Proof.
  do 3 (apply logs_gate; [first [exact gate_unsealed | intros; apply gate_authorize]|intros ?]).
  apply (logs_bind _ 1 2); [apply logs_try, (service_logs {| sg_sign _ _ _ := Ok []; sg_verify _ _ _ _ := Ok true |} src ct [] p)|].
  intros [[sb v]|e]; [|apply (logs_bind _ 1 1); [apply logs_recordAudit|intros _; apply logs_quiet, keeps_throw]].
  apply logs_lift. intros pt.
  apply (logs_bind _ 1 1); [apply logs_try, (service_logs {| sg_sign _ _ _ := Ok []; sg_verify _ _ _ _ := Ok true |} dst pt [] p)|].
  intros [[ct' v']|e]; (apply (logs_bind _ 1 0); [apply logs_recordAudit|intros _; apply logs_quiet]); [apply keeps_ret|apply keeps_throw].
Qed.
End CoreSpec.

(** ** Round trips across any history *)
Section RoundTrips.
Context {V S : Type} `{!Unsealer V, !UnsealerLaws V, !KVStore S, !KVStoreLaws S, !ReliableStore S}.
Abbreviation CoreT := (Core V S).

(** The service answers [action] on [id] under [pol], with [kek]. *)
Record open_for (kek : KEK) (pol : option Policy) (action id : string) (c : CoreT) : Prop := {
  of_emergency : us_IsEmergencySealed (c_seal c) = false;
  of_sealed : us_IsSealed (c_seal c) = false;
  of_kek T A (f : KEK → M T A) : us_KEKRef (c_seal c) f = f kek;
  of_policy : match pol with
              | None => True
              | Some p => IsActionAllowed p action = true ∧ IsKeyAllowed p id = true
              end;
}.
Lemma open_unsealed kek pol action id c : open_for kek pol action id c → requireUnsealed c = (c, Ok tt).
Proof. intros [He Hs _ _]. by rw /requireUnsealed He Hs. Qed.
Lemma open_authorized kek pol action id c : open_for kek pol action id c →
  authorize pol action id c = (c, Ok tt).
Proof.
  intros [_ _ _ Hp]. rw /authorize. destruct pol as [p|]; [|done]. destruct Hp as [Ha Hk].
  by rw /mbind /M_bind /guardM Ha Hk.
Qed.

Lemma audited_ok {A} action id (m : M CoreT A) c c1 a : m c = (c1, Ok a) →
  ∃ c2, audited action id m c = (c2, Ok a) ∧ c_world c2 = c_world c1 ∧ c_seal c2 = c_seal c1.
Proof.
  intros H. rw /audited /mbind /M_bind /try_ H /recordAudit. destruct (c_auditOn c1); by eexists.
Qed.
Lemma audited_inv {A} action id (m : M CoreT A) c c2 a : audited action id m c = (c2, Ok a) →
  ∃ c1, m c = (c1, Ok a) ∧ c_world c2 = c_world c1.
Proof.
  rw /audited /mbind /M_bind /try_. destruct (m c) as [c1 [a'|e|p]] eqn:E; [| |done]; rw /recordAudit.
  - destruct (c_auditOn c1); intros [= <- <-]; by eexists.
  - by destruct (c_auditOn c1).
Qed.

Lemma Decode_of_Decrypt dek ct sb v : DecryptVersioned dek ct = Ok (sb, v) →
  MinCiphertextSize <= length ct ∧ ∃ nonce body, DecodeVersionedCiphertext ct = Ok (v, nonce, body).
Proof.
  rw /DecryptVersioned. intros H. apply result_bind_ok in H as ([[v' nonce] body] & Hd & H).
  apply result_bind_ok in H as (sb' & _ & H). simplify_eq. split; [|by eexists _, _].
  rw /DecodeVersionedCiphertext in Hd.
  destruct (Nat.ltb_spec (length ct) MinCiphertextSize); [done|lia].
Qed.

(** A version that is still readable decrypts what its key encrypted. *)
Lemma decrypt_later kek id v mat dek ct sb pol (c : CoreT) : open_for kek pol "Decrypt" id c →
  readable id v mat (c_world c) → kek_UnwrapDEK kek mat = Ok dek → DecryptVersioned dek ct = Ok (sb, v) →
  ∃ c', Decrypt id ct pol c = (c', Ok (sb, v)).
Proof.
  intros Ho Hr Hu Hd. destruct (Decode_of_Decrypt _ _ _ _ Hd) as (Hlen & nonce & body & Hdec).
  rw /Decrypt (M_bind_step _ _ _ _ _ (open_unsealed _ _ _ _ _ Ho)) (M_bind_step _ _ _ _ _ (open_authorized _ _ _ _ _ Ho)).
  rw (M_bind_step _ _ c c tt). { by rw /guardM (proj2 (Nat.leb_le _ _) Hlen). }
  rw Hdec (M_bind_step _ _ c c (v, nonce, body)) //.
  destruct (GetKeyForDecrypt_total id v mat (c_world c) Hr) as (w1 & meta & Hg).
  destruct (GetKeyForDecrypt_readable id v mat _ _ _ Hr Hg) as (Hmat & _).
  match goal with |- ∃ c', audited _ _ ?m _ = _ => assert (m c = (set_world w1 c, Ok (sb, v))) as Hm end.
  { rw (M_bind_step _ _ c (set_world w1 c) meta); [by rw /onM Hg|].
    rw /withKEK (of_kek _ _ _ _ _ Ho) Hmat /unwrapOrAlert Hu. by rw /mbind /M_bind /lift Hd. }
  destruct (audited_ok "Decrypt" id _ _ _ _ Hm) as (c2 & H2 & _). by exists c2.
Qed.

(** Histories that leave a version alone. *)
Fixpoint spares (id : string) (v : Z) (ops : list mgr_op) (w : S * Env) : Prop :=
  match ops with
  | [] => True
  | op :: ops => op_ok op w ∧ ¬ op_destroys op id v ∧ spares id v ops (mgr_apply op w)
  end.
Lemma spares_readable id v mat ops w : readable id v mat w → spares id v ops w →
  readable id v mat (mgr_run ops w).
Proof.
  revert w. induction ops as [|op ops IH]; intros w Hr Hs; [done|]. destruct Hs as (Hok & Hd & Hs).
  simpl. apply IH; [by apply mgr_apply_readable|done].
Qed.

Definition none_destroyed (id : string) (w : S * Env) : Prop :=
  ∀ v m, stored (wmap w) id v m → km_State m ≠ StateDestroyed.
Lemma GetActiveKey_readable id (w w' : S * Env) m : winv w → none_destroyed id w →
  GetActiveKey id w = (w', Ok m) → readable id (km_Version m) (km_Material m) w' ∧ (1 ≤ km_Version m)%Z.
Proof.
  intros Hw Hnd H. rw /GetActiveKey in H.
  apply M_bind_ok in H as (w1 & v & H1 & H). apply wrapM_ok in H1.
  assert (wmap w1 = wmap w ∧ winv w1 ∧ (1 ≤ v)%Z) as (Em & Hw1 & Hv).
  { assert (keeps (wmap (S := S)) (onS (findLatestVersion id))) as Hk by solve_keeps.
    split; [by eapply Hk|]. split.
    - eapply (keeps_preserves (onS (findLatestVersion id))); [done|solve_keeps|done|done].
    - destruct w as [s e]. rw /onS in H1. destruct (findLatestVersion id s) as [s1 x] eqn:E.
      injection H1 as _ ->. by eapply getLatest_pos. }
  apply M_bind_ok in H as (w2 & m' & Hl & H). apply M_bind_ok in H as (w3 & u & [_ ->]%guardM_ok & H).
  injection H as <- <-. destruct (load_readable id v w1 w2 m' Hw1 Hl) as [Hr Hver].
  { intros m0. rw Em. apply Hnd. }
  by rw Hver.
Qed.
Lemma active_version_fits id (w w' : S * Env) m : winv w → none_destroyed id w → (∀ v m, stored (wmap w) id v m → (v < 2 ^ 32)%Z) →
  GetActiveKey id w = (w', Ok m) → (1 ≤ km_Version m < 2 ^ 32)%Z.
Proof.
  intros Hw Hnd Hfit Hg. destruct (GetActiveKey_readable id _ _ _ Hw Hnd Hg) as [(_ & _ & m' & Hst & _) Hpos]. split; [done|].
  assert (keeps (wmap (S := S)) (GetActiveKey id)) as Hk by (rw /GetActiveKey; solve_keeps). rw (Hk _ _ _ Hg) in Hst. by eapply Hfit.
Qed.
Lemma readable_set_rand id v mat (s : S) e rnd : readable id v mat (s, e) → readable id v mat (s, set_rand rnd e).
Proof. done. Qed.
Lemma SafeUint32_id v : (0 ≤ v < 2 ^ 32)%Z → SafeUint32 v = v.
Proof. intros Hv. rw /SafeUint32. repeat case_bool_decide; try lia; done. Qed.
Lemma seal_open dek v pt e e' ct : (0 ≤ v < 2 ^ 32)%Z → EncryptVersioned dek (SafeUint32 v) pt e = (e', Ok ct) →
  DecryptVersioned dek ct = Ok (mkSB pt false, v).
Proof.
  intros Hv H. rw SafeUint32_id // in H. apply EncryptVersioned_ok in H as (Hk & Hl & nonce & Hn & -> & ->).
  apply DecryptVersioned_ok. split_and!; [done|done|done|lia|lia|by exists nonce].
Qed.

Lemma Encrypt_inv kek id pt pol (c c1 : CoreT) ct v : open_for kek pol "Encrypt" id c →
  Encrypt id pt pol c = (c1, Ok (ct, v)) →
  ∃ w1 meta dek rnd, GetActiveKey id (c_world c) = (w1, Ok meta) ∧ v = km_Version meta ∧
    kek_UnwrapDEK kek (km_Material meta) = Ok dek ∧
    EncryptVersioned dek (SafeUint32 v) pt (m_rand w1.2) = (rnd, Ok ct) ∧
    c_world c1 = (w1.1, set_rand rnd w1.2).
Proof.
  intros Ho H. rw /Encrypt (M_bind_step _ _ _ _ _ (open_unsealed _ _ _ _ _ Ho))
    (M_bind_step _ _ _ _ _ (open_authorized _ _ _ _ _ Ho)) in H.
  apply audited_inv in H as (c2 & H & ->). apply M_bind_ok in H as (c3 & meta & Hg & H).
  rw /onM in Hg. destruct (GetActiveKey id (c_world c)) as [w1 x] eqn:Eg. injection Hg as <- ->.
  apply M_bind_ok in H as (c4 & ct' & Hk & H). injection H as <- <- <-.
  rw /withKEK (of_kek _ _ _ _ _ Ho) in Hk. apply M_bind_ok in Hk as (c5 & dek & Hu & Hk).
  rw /unwrapOrAlert in Hu. destruct (kek_UnwrapDEK kek (km_Material meta)) as [dek'| |] eqn:Eu; [|done..].
  injection Hu as <- ->. rw /onM /onRand in Hk. destruct w1 as [s1 e1]. simpl in Hk.
  destruct (EncryptVersioned dek (SafeUint32 (km_Version meta)) pt (m_rand e1)) as [rnd y] eqn:Ee.
  injection Hk as <- ->. exists (s1, e1), meta, dek, rnd. done.
Qed.

(** An encryption, any history that spares the version, and the decryption. *)
Lemma encrypt_decrypt_later kek id pt pol pol' ops (c c1 c2 : CoreT) ct v :
  winv (c_world c) → none_destroyed id (c_world c) → open_for kek pol "Encrypt" id c →
  Encrypt id pt pol c = (c1, Ok (ct, v)) → (v < 2 ^ 32)%Z →
  spares id v ops (c_world c1) → c_world c2 = mgr_run ops (c_world c1) → open_for kek pol' "Decrypt" id c2 →
  ∃ c3, Decrypt id ct pol' c2 = (c3, Ok (mkSB pt false, v)).
Proof.
  intros Hw Hnd Ho He Hv Hs Ew Ho2.
  destruct (Encrypt_inv _ _ _ _ _ _ _ _ Ho He) as (w1 & meta & dek & rnd & Hg & -> & Hu & Henc & Ew1).
  destruct (GetActiveKey_readable id _ _ _ Hw Hnd Hg) as [Hr Hpos].
  apply (decrypt_later kek id _ (km_Material meta) dek); [done| |done|].
  - rw Ew. apply spares_readable; [|done]. rw Ew1. destruct w1 as [s1 e1]. by apply readable_set_rand.
  - eapply seal_open; [lia|done].
Qed.

(** C1: what the service encrypts it decrypts, whatever happened to the keys in
    between: a ciphertext of an Active key decrypts to its plaintext and version
    after any sequence of creations, rotations, soft deletes, restores, lookups,
    cache invalidations and shreds of other versions, under any policy that allows
    it, as long as the vault is open under the same key-encryption key and neither
    the version itself nor the reaper was asked to destroy it. *)
Theorem Encrypt_then_Decrypt kek id pt pol pol' ops (c c1 c2 : CoreT) ct v :
  winv (c_world c) → none_destroyed id (c_world c) → open_for kek pol "Encrypt" id c →
  Encrypt id pt pol c = (c1, Ok (ct, v)) → (v < 2 ^ 32)%Z →
  spares id v ops (c_world c1) → c_world c2 = mgr_run ops (c_world c1) → open_for kek pol' "Decrypt" id c2 →
  ∃ c3, Decrypt id ct pol' c2 = (c3, Ok (mkSB pt false, v)).
Proof. apply encrypt_decrypt_later. Qed.

Lemma CoreGDK_inv kek id pol (c c1 : CoreT) plain ct : open_for kek pol "KeyOp" id c →
  CoreGenerateDataKey id pol c = (c1, Ok (plain, ct)) →
  ∃ w1 meta dek rnd rnd', GetActiveKey id (c_world c) = (w1, Ok meta) ∧ live plain ∧
    Z.of_nat (length (sb_data plain)) = dekSizeFromKEK kek ∧
    kek_UnwrapDEK kek (km_Material meta) = Ok dek ∧
    EncryptVersioned dek (SafeUint32 (km_Version meta)) (sb_data plain) rnd = (rnd', Ok ct) ∧
    c_world c1 = (w1.1, set_rand rnd' w1.2).
Proof.
  intros Ho H. rw /CoreGenerateDataKey (M_bind_step _ _ _ _ _ (open_unsealed _ _ _ _ _ Ho))
    (M_bind_step _ _ _ _ _ (open_authorized _ _ _ _ _ Ho)) in H.
  apply audited_inv in H as (c2 & H & ->). rw /withKEK (of_kek _ _ _ _ _ Ho) /onM in H.
  destruct (GenerateDataKey id (Some kek) (c_world c)) as [w x] eqn:Eg. injection H as <- ->.
  rw /GenerateDataKey in Eg. apply M_bind_ok in Eg as (w0 & u & [_ ->]%guardM_ok & H).
  apply M_bind_ok in H as (w0' & k & Hk & H). injection Hk as <- <-.
  apply M_bind_ok in H as (w1 & meta & Hg%wrapM_ok & H).
  apply M_bind_ok in H as (w2 & pl & Hp%wrapM_ok & H).
  apply M_bind_ok in H as (w3 & dek & Hu%wrapM_ok & H). apply lift_ok in Hu as [Hu ->].
  apply M_bind_ok in H as (w4 & ct' & Hc%wrapM_ok & H). injection H as <- <- <-.
  destruct w1 as [s1 e1]. rw /onRand in Hp.
  destruct (NewSecureBufferFromRandom (dekSizeFromKEK kek) (m_rand e1)) as [rnd y] eqn:En. injection Hp as <- ->.
  apply NewSecureBufferFromRandom_ok in En as (_ & Hlen & Hlive).
  rw /onRand /= WithKey_live // in Hc.
  destruct (EncryptVersioned dek (SafeUint32 (km_Version meta)) (sb_data pl) rnd) as [rnd' z] eqn:Ee.
  injection Hc as <- ->. exists (s1, e1), meta, dek, rnd, rnd'. done.
Qed.

(** Envelope encryption closes: the wrapped form of a generated data key
    decrypts to that data key (of the KEK's key size), after any history of the
    manager that spares the wrapping version. *)
Theorem GenerateDataKey_then_Decrypt kek id pol pol' ops (c c1 c2 : CoreT) plain ct :
  winv (c_world c) → none_destroyed id (c_world c) → open_for kek pol "KeyOp" id c →
  CoreGenerateDataKey id pol c = (c1, Ok (plain, ct)) →
  (∀ v m, stored (wmap (c_world c)) id v m → (v < 2 ^ 32)%Z) →
  (∀ v, ExtractVersion ct = Ok v → spares id v ops (c_world c1)) → c_world c2 = mgr_run ops (c_world c1) →
  open_for kek pol' "Decrypt" id c2 →
  Z.of_nat (length (sb_data plain)) = dekSizeFromKEK kek ∧
  ∃ c3 v, Decrypt id ct pol' c2 = (c3, Ok (plain, v)).
Proof.
  intros Hw Hnd Ho He Hfit Hs Ew Ho2.
  destruct (CoreGDK_inv _ _ _ _ _ _ _ Ho He) as (w1 & meta & dek & rnd & rnd' & Hg & Hl & Hlen & Hu & Henc & Ew1).
  destruct (GetActiveKey_readable id _ _ _ Hw Hnd Hg) as [Hr Hpos]. split; [done|].
  pose proof (active_version_fits _ _ _ _ Hw Hnd Hfit Hg) as [_ Hlt].
  assert (plain = mkSB (sb_data plain) false) as -> by (destruct plain; rw /live /= in Hl; by subst).
  destruct (decrypt_later kek id (km_Version meta) (km_Material meta) dek ct (mkSB (sb_data plain) false) pol' c2)
    as [c3 Hd]; [done| |done|by eapply seal_open; [lia|]|by exists c3, (km_Version meta)].
  rw Ew. apply spares_readable.
  - rw Ew1. destruct w1 as [s1 e1]. by apply readable_set_rand.
  - apply Hs. rw SafeUint32_id in Henc; [lia|].
    apply EncryptVersioned_ok in Henc as (_ & _ & nonce & _ & _ & ->). apply ExtractVersion_app. lia.
Qed.

Lemma throw_after_record {A} action id status e (c c' : CoreT) (a : A) :
  (recordAudit action id status;; throw e) c = (c', Ok a) → False.
Proof. rw /recordAudit /mbind /M_bind. by destruct (c_auditOn c). Qed.

Lemma Decrypt_inv kek id ct pol (c c1 : CoreT) sb v : open_for kek pol "Decrypt" id c →
  Decrypt id ct pol c = (c1, Ok (sb, v)) →
  ∃ ver meta, GetKeyForDecrypt id ver (c_world c) = (c_world c1, Ok meta) ∧ c_seal c1 = c_seal c.
Proof.
  intros Ho H. rw /Decrypt (M_bind_step _ _ _ _ _ (open_unsealed _ _ _ _ _ Ho))
    (M_bind_step _ _ _ _ _ (open_authorized _ _ _ _ _ Ho)) in H.
  apply M_bind_ok in H as (c0 & u & [_ ->]%guardM_ok & H).
  apply M_bind_ok in H as (c0 & [[ver n] b] & [_ ->]%lift_ok & H).
  assert (c_seal c1 = c_seal c) as Es.
  { rw /audited in H. apply M_bind_ok in H as (c2 & x & H2 & H). apply try_inv in H2 as (r & H2 & _).
    assert (c_seal c2 = c_seal c) as <-.
    { apply M_bind_inv in H2 as (c3 & r3 & H3 & H2). rw /onM in H3.
      destruct (GetKeyForDecrypt id ver (c_world c)) as [w' y]. injection H3 as <- ->.
      destruct r3 as [meta| |]; [|by destruct H2 as [-> _]..]. rw /withKEK (of_kek _ _ _ _ _ Ho) in H2.
      apply M_bind_inv in H2 as (c4 & r4 & H4 & H2). rw /unwrapOrAlert in H4.
      assert (c_seal c4 = c_seal c) as <- by (destruct (kek_UnwrapDEK _ _); by injection H4 as <- _).
      destruct r4; [by injection H2 as <- _|by destruct H2 as [-> _]..]. }
    destruct x; apply M_bind_ok in H as (c5 & u' & H5 & H); [|done]. injection H as <-.
    rw /recordAudit in H5. by destruct (c_auditOn c2); injection H5 as <-. }
  apply audited_inv in H as (c2 & H & Ew). apply M_bind_ok in H as (c3 & meta & Hg & H).
  rw /onM in Hg. destruct (GetKeyForDecrypt id ver (c_world c)) as [w1 x] eqn:Eg. injection Hg as <- ->.
  exists ver, meta. split; [|done]. rw Ew Eg. do 2 f_equal. rw /withKEK (of_kek _ _ _ _ _ Ho) in H.
  apply M_bind_ok in H as (c5 & dek & Hu & H). rw /unwrapOrAlert in Hu.
  destruct (kek_UnwrapDEK kek (km_Material meta)); [|done..]. injection Hu as <- _.
  by apply lift_ok in H as [_ ->].
Qed.

(** Re-encryption moves a plaintext between keys: when [ReEncrypt] succeeds, the
    source ciphertext decrypts to a plaintext that the new ciphertext decrypts to
    under the destination key. *)
Theorem ReEncrypt_preserves kek src ct dst pol pol' (c c1 c2 : CoreT) ct' v :
  winv (c_world c) → none_destroyed dst (c_world c) →
  open_for kek pol "Decrypt" src c → open_for kek pol "Encrypt" dst c →
  ReEncrypt src ct dst pol c = (c1, Ok (ct', v)) → (v < 2 ^ 32)%Z →
  c_world c2 = c_world c1 → open_for kek pol' "Decrypt" dst c2 →
  ∃ cs sb vs c3, Decrypt src ct pol c = (cs, Ok (sb, vs)) ∧ Decrypt dst ct' pol' c2 = (c3, Ok (sb, v)).
Proof.
  intros Hw Hnd Hod Hoe H Hv Ew Ho2. rw /ReEncrypt (M_bind_step _ _ _ _ _ (open_unsealed _ _ _ _ _ Hod))
    (M_bind_step _ _ _ _ _ (open_authorized _ _ _ _ _ Hod)) (M_bind_step _ _ _ _ _ (open_authorized _ _ _ _ _ Hoe)) in H.
  apply M_bind_ok in H as (cs & dec & Hd & H). apply try_inv in Hd as (rd & Hd & Er).
  destruct rd as [[sb vs]|e|p]; simplify_eq; [|by apply throw_after_record in H].
  destruct (Decrypt_inv _ _ _ _ _ _ _ _ Hod Hd) as (ver & m & Hg & Ess).
  apply M_bind_ok in H as (cs' & pt & Hp & H). apply lift_ok in Hp as [Hp ->].
  rw /WithKeyR in Hp. destruct (sb_destroyed sb) eqn:Hsb; [done|]. injection Hp as <-.
  apply M_bind_ok in H as (c4 & enc & He & H). apply try_inv in He as (re & He & Er).
  destruct re as [[ct4 v4]|e|p]; simplify_eq; [|by apply throw_after_record in H].
  apply M_bind_ok in H as (c5 & u & Hr & H). injection H as <- <- <-.
  assert (c_world c5 = c_world c4) as E5.
  { rw /recordAudit in Hr. by destruct (c_auditOn c4); injection Hr as <-. }
  exists cs, sb, vs. assert (sb = mkSB (sb_data sb) false) as Esb by (destruct sb; simpl in Hsb; by subst).
  assert (open_for kek pol "Encrypt" dst cs) as Hoe'.
  { destruct Hoe. split; rw ?Ess; done. }
  destruct (Encrypt_inv _ _ _ _ _ _ _ _ Hoe' He) as (w2 & meta & dek & rnd & Hga & -> & Hu & Henc & Ew2).
  assert (wmap (c_world cs) = wmap (c_world c)) as Em.
  { assert (keeps (wmap (S := S)) (GetKeyForDecrypt src ver)) as Hk by (rw /GetKeyForDecrypt; solve_keeps). by eapply Hk. }
  destruct (GetActiveKey_readable dst (c_world cs) w2 meta) as [Hrd Hpos]; [|by intros ??; rw Em; apply Hnd|done|].
  { by eapply GetKeyForDecrypt_preserves. }
  destruct (decrypt_later kek dst (km_Version meta) (km_Material meta) dek ct4 sb pol' c2) as [c3 Hd3]; [done| |done| |].
  - rw Ew E5 Ew2. destruct w2 as [s2 e2]. by apply readable_set_rand.
  - rw Esb. eapply seal_open; [lia|done].
  - by exists c3.
Qed.
End RoundTrips.

(** ** Witnesses: a service over an in-memory store and a directly unsealed vault *)
Definition demo_vault : VaultState := (DirectUnseal (Some demo_key) (NewVaultState 5 3 0)).1.
Definition demo_core (w : WMem * Env) : Core VaultState WMem :=
  mkCore demo_vault w [] [] true "root-token" [] (Some "app") true.

Lemma winv_demo rnd : winv (demo_world rnd).
Proof. split; [apply demo_inv|]. intros id v m H. change ((∅ : gmap string KeyMetadata) !! metadataKey id v = Some m) in H.
  by rw lookup_empty in H.
Qed.
Lemma winv_run ops (w : WMem * Env) : winv w → run_ok_b ops w = true → winv (mgr_run ops w).
Proof.
  revert w. induction ops as [|op ops IH]; intros w Hw Hb; [done|]. simpl in *.
  apply andb_true_iff in Hb as [Ho Hb]. apply IH; [|done]. apply mgr_apply_winv; [|done].
  destruct op; try done; apply fresh_b_sound; (done || apply Hw).
Qed.
(** No record of the store is marked destroyed, by evaluation. *)
Definition none_destroyed_b (f : gmap string data) : bool :=
  forallb (λ kd, match unmarshal_meta kd.2 with Ok m => negb (bool_decide (km_State m = StateDestroyed)) | _ => true end)
    (map_to_list f).
Lemma none_destroyed_sound (w : WMem * Env) id : none_destroyed_b (wmap w) = true → none_destroyed id w.
Proof.
  rw /none_destroyed_b forallb_forall. intros H v m (d & Hd & Hm).
  specialize (H (metadataKey id v, d)). simpl in H. rw Hm in H.
  apply (bool_decide_eq_false_1 (km_State m = StateDestroyed)), negb_true_iff, H, list_elem_of_In, elem_of_map_to_list, Hd.
Qed.

Lemma demo_open action id w : open_for (NewSoftwareKEK demo_key) None action id (demo_core w).
Proof. split; try done. Qed.

Definition demo_two : WMem * Env :=
  mgr_run [OpCreate "k" demo_kek 0; OpCreate "j" demo_kek 0] (demo_world (demo_entropy 600)).
Lemma demo_two_winv : winv demo_two.
Proof. apply winv_run; [apply winv_demo|vm_compute; reflexivity]. Qed.
Lemma demo_two_fine id : none_destroyed id demo_two.
Proof. apply none_destroyed_sound. vm_compute. reflexivity. Qed.

Lemma core_guards_witness :
  ∃ e, run_op {| sg_sign _ _ _ := Ok []; sg_verify _ _ _ _ := Ok true |} (RqReEncrypt "order-1" [] "pay-1")
    (Some demo_policy) (demo_core demo_two) = (demo_core demo_two, Error e).
Proof.
  apply core_guards. right; right. exists demo_policy, ("Encrypt", "pay-1"). split_and!; [done| |vm_compute; reflexivity].
  simpl. right; left.
Defined.

(** The history between encryption and decryption in the witnesses. *)
Definition demo_between : list mgr_op :=
  [OpRotate "k" demo_kek; OpSoftDelete "k" 1; OpShred "k" 2; OpClear; OpClock 5000000].
Lemma demo_between_spares w : spares (S := WMem) "k" 1 demo_between w.
Proof. cbn [spares demo_between op_ok op_destroys]. split_and!; try exact I; intros H; done || by destruct H. Qed.

Lemma Encrypt_then_Decrypt_witness : ∃ c1 ct c3,
  Encrypt "k" [x68; x69] None (demo_core demo_two) = (c1, Ok (ct, 1%Z)) ∧
  Decrypt "k" ct None (demo_core (mgr_run demo_between (c_world c1))) = (c3, Ok (mkSB [x68; x69] false, 1%Z)).
Proof.
  destruct (Encrypt "k" [x68; x69] None (demo_core demo_two)) as [c1 r] eqn:E.
  assert (∃ ct, r = Ok (ct, 1%Z)) as [ct ->].
  { change r with (c1, r).2. rw -E. eexists. vm_compute. reflexivity. }
  destruct (Encrypt_then_Decrypt (NewSoftwareKEK demo_key) "k" [x68; x69] None None demo_between
    (demo_core demo_two) c1 (demo_core (mgr_run demo_between (c_world c1))) ct 1) as [c3 H].
  - apply demo_two_winv.
  - apply demo_two_fine.
  - apply demo_open.
  - exact E.
  - lia.
  - apply demo_between_spares.
  - reflexivity.
  - apply demo_open.
  - exists c1, ct, c3. split; [reflexivity|exact H].
Defined.

Lemma demo_two_versions v m : stored (wmap demo_two) "k" v m → (v < 2 ^ 32)%Z.
Proof.
  intros Hst. assert (∃ m1, stored (wmap demo_two) "k" 1 m1 ∧ km_State m1 = StateActive) as (m1 & Hm1 & Ha1).
  { eexists. split; [apply stored_eval; vm_compute; reflexivity|reflexivity]. }
  pose proof (inv_newest _ (proj1 demo_two_winv) "k" 1%Z m1 v m Hm1 Ha1 Hst). lia.
Qed.
Lemma GenerateDataKey_then_Decrypt_witness : ∃ c1 plain ct c3 v,
  CoreGenerateDataKey "k" None (demo_core demo_two) = (c1, Ok (plain, ct)) ∧
  Decrypt "k" ct None (demo_core (mgr_run demo_between (c_world c1))) = (c3, Ok (plain, v)).
Proof.
  destruct (CoreGenerateDataKey "k" None (demo_core demo_two)) as [c1 r] eqn:E.
  assert (∃ p, r = Ok p ∧ ExtractVersion p.2 = Ok 1%Z) as ([plain ct] & -> & Hx).
  { change r with (c1, r).2. rw -E. eexists. split; [vm_compute; reflexivity|vm_compute; reflexivity]. }
  destruct (GenerateDataKey_then_Decrypt (NewSoftwareKEK demo_key) "k" None None demo_between
    (demo_core demo_two) c1 (demo_core (mgr_run demo_between (c_world c1))) plain ct) as [_ (c3 & v & H)].
  - apply demo_two_winv.
  - apply demo_two_fine.
  - apply demo_open.
  - exact E.
  - exact demo_two_versions.
  - intros v Hv. simpl in Hx. rw Hx in Hv. injection Hv as <-. apply demo_between_spares.
  - reflexivity.
  - apply demo_open.
  - exists c1, plain, ct, c3, v. split; [reflexivity|exact H].
Defined.

Lemma ReEncrypt_preserves_witness : ∃ c0 ct c1 ct' c3,
  Encrypt "k" [x68; x69] None (demo_core demo_two) = (c0, Ok (ct, 1%Z)) ∧
  ReEncrypt "k" ct "j" None (demo_core demo_two) = (c1, Ok (ct', 1%Z)) ∧
  Decrypt "j" ct' None (demo_core (c_world c1)) = (c3, Ok (mkSB [x68; x69] false, 1%Z)).
Proof.
  destruct (Encrypt "k" [x68; x69] None (demo_core demo_two)) as [c0 r] eqn:E.
  assert (∃ ct, r = Ok (ct, 1%Z) ∧ (Decrypt "k" ct None (demo_core demo_two)).2 = Ok (mkSB [x68; x69] false, 1%Z) ∧
    ∃ ct', (ReEncrypt "k" ct "j" None (demo_core demo_two)).2 = Ok (ct', 1%Z)) as (ct & -> & Hd & ct' & Hr).
  { change r with (c0, r).2. rw -E. eexists. split; [vm_compute; reflexivity|]. split; [vm_compute; reflexivity|].
    eexists. vm_compute. reflexivity. }
  destruct (ReEncrypt "k" ct "j" None (demo_core demo_two)) as [c1 r1] eqn:E1. simpl in Hr. subst r1.
  destruct (ReEncrypt_preserves (NewSoftwareKEK demo_key) "k" ct "j" None None (demo_core demo_two) c1
    (demo_core (c_world c1)) ct' 1) as (cs & sb & vs & c3 & Hs & H).
  - apply demo_two_winv.
  - apply demo_two_fine.
  - apply demo_open.
  - apply demo_open.
  - exact E1.
  - lia.
  - reflexivity.
  - apply demo_open.
  - rw Hs in Hd. injection Hd as -> ->. exists c0, ct, c1, ct', c3. split_and!; [reflexivity|exact E1|exact H].
Defined.

Lemma one_audit_record_witness : ∃ c' r a,
  run_op {| sg_sign _ _ _ := Ok []; sg_verify _ _ _ _ := Ok true |} (RqRotateKey "k") None (demo_core demo_two) = (c', r) ∧
  c_audit c' = [a] ∧ au_Action a = "RotateKey" ∧ au_Result a = "success".
Proof.
  set (sg := {| sg_sign _ _ _ := Ok []; sg_verify _ _ _ _ := Ok true |}).
  destruct (run_op sg (RqRotateKey "k") None (demo_core demo_two)) as [c' r] eqn:E.
  assert (r = Ok tt) as -> by (change r with (c', r).2; rw -E; vm_compute; reflexivity).
  destruct (one_audit_record sg (RqRotateKey "k") None "RotateKey" "k" (demo_core demo_two) c' _ eq_refl (conj eq_refl eq_refl) E)
    as [[p Hp]|[[_ Hp]|(a & Ha & Hact & _ & _ & Hr)]]; [discriminate|discriminate|].
  exists c', (Ok tt), a. split_and!; [reflexivity|exact Ha|exact Hact|exact Hr].
Defined.
