(* ===== verification/ApiSpec.v ===== *)
(** What the HTTP interface guarantees: every routed request gets a reply, and outside the
    emergency state one call of the audit log; requests without the rights their route asks for
    change nothing; the encryption handlers agree with the service layer; and an
    emergency seal freezes the interface. The examples at the end show the requests
    that the checks of the handlers miss. *)

From S2P Require Import Prelude SecureBuffer Hash AesGcm Ciphertext Kek Vault Store Metadata Oaep AuditLog Manager Transit Lifecycle Cache KeyManagement Auth Totp Approval RateLimit Core CoreSpec TransitSpec Api.
Import MemoryKV.

Section ApiSpec.
Context {V S T : Type} `{!Unsealer V, !UnsealerAdmin V, !KVStore S, !Decoder T} {rlib : RSALib}.
Variable cfg : Config.
Abbreviation R := (Router V S).
Abbreviation MR := (M R).
Abbreviation Req := (request T).

(** ** Handlers reply *)
(** A computation that leaves the audit log alone, and one that ends in a value or a
    panic (handlers turn errors into replies). *)
Definition logless {A} (m : MR A) : Prop := keeps (λ r, trail (r_core r)) m.
Definition replies {A} (m : MR A) : Prop := ∀ r r' e, m r ≠ (r', Error e).

Lemma replies_bind {A B} (m : MR A) (f : A → MR B) : replies m → (∀ a, replies (f a)) → replies (m ≫= f).
Proof.
  intros Hm Hf r r' e (r1 & x & H1 & H)%M_bind_inv. destruct x; [by eapply Hf| |by destruct H as [_ ?]].
  by eapply Hm.
Qed.
Lemma replies_ret {A} (a : A) : replies (mret a).
Proof. by intros r r' e [=]. Qed.
Lemma replies_on_result {A} (m : MR A) onErr k : (∀ a, replies (k a)) → replies (on_result m onErr k).
Proof.
  intros Hk. rw /on_result. apply replies_bind; [|intros [a|e]; [apply Hk|apply replies_ret]].
  intros r r' e (x & H & E)%try_inv. by destruct x.
Qed.
Lemma replies_need b s msg k : replies k → replies (need b s msg k).
Proof. intros Hk. rw /need. destruct b; [done|apply replies_ret]. Qed.
Lemma replies_method m rq k : replies k → replies (need_method (T := T) m rq k).
Proof. apply replies_need. Qed.
Lemma replies_body {A} (dec : T → option A) msg rq k : (∀ a, replies (k a)) → replies (with_body dec msg rq k).
Proof.
  intros Hk. rw /with_body. destruct (rq_Body rq) as [t|]; [|apply replies_ret].
  destruct (dec t); [apply Hk|apply replies_ret].
Qed.
Lemma replies_body12 {A} (dec : T → option A) rq k : (∀ a, replies (k a)) → replies (with_body12 cfg dec rq k).
Proof.
  intros Hk. rw /with_body12. destruct (rq_Body rq) as [t|]; [|apply replies_ret].
  destruct (dec t); [apply Hk|apply replies_ret].
Qed.
Lemma replies_buffer sb : replies (buffer_bytes sb).
Proof. rw /buffer_bytes /WithKeyR. intros r r' e [= _ H]. by destruct (sb_destroyed sb). Qed.

Lemma logless_onCore {A} (m : M (Core V S) A) : keeps trail m → logless (onCore m).
Proof.
  intros Hm r r' x H. rw /onCore in H. destruct (m (r_core r)) as [c y] eqn:E. apply Hm in E. by injection H as <- _.
Qed.
Lemma logless_onManager {A} (m : M (S * Env) A) : logless (onManager m).
Proof. apply logless_onCore. intros c c' r H. rw /onM in H. destruct (m (c_world c)). by injection H as <- _. Qed.
Lemma logless_modify f : (∀ c : Core V S, trail (f c) = trail c) → logless (onCore (modify f)).
Proof. intros Hf. apply logless_onCore. intros c c' r [= <- _]. apply Hf. Qed.
Lemma logs_onCore {A} n (m : M (Core V S) A) : logs id n m → logs r_core n (onCore m).
Proof.
  intros Hm r r' x H. rw /onCore in H. destruct (m (r_core r)) as [c y] eqn:E. injection H as <- _. by apply Hm in E.
Qed.
Lemma logless_bind {A B} (m : MR A) (f : A → MR B) : logless m → (∀ a, logless (f a)) → logless (m ≫= f).
Proof. apply keeps_bind. Qed.
Lemma logless_on_result {A} (m : MR A) onErr k : logless m → (∀ a, logless (k a)) → logless (on_result m onErr k).
Proof.
  intros Hm Hk. apply keeps_bind; [by apply keeps_try|]. intros [a|e]; [apply Hk|apply keeps_ret].
Qed.
Lemma logless_need b s msg k : logless k → logless (need b s msg k).
Proof. intros Hk. rw /need. destruct b; [done|apply keeps_ret]. Qed.
Lemma logless_method m rq k : logless k → logless (need_method (T := T) m rq k).
Proof. apply logless_need. Qed.
Lemma logless_body {A} (dec : T → option A) msg rq k : (∀ a, logless (k a)) → logless (with_body dec msg rq k).
Proof.
  intros Hk. rw /with_body. destruct (rq_Body rq) as [t|]; [|apply keeps_ret].
  destruct (dec t); [apply Hk|apply keeps_ret].
Qed.
Lemma logless_body12 {A} (dec : T → option A) rq k : (∀ a, logless (k a)) → logless (with_body12 cfg dec rq k).
Proof.
  intros Hk. rw /with_body12. destruct (rq_Body rq) as [t|]; [|apply keeps_ret].
  destruct (dec t); [apply Hk|apply keeps_ret].
Qed.
Lemma logless_withKEKRef {A} (f : KEK → M (S * Env) A) `{!UnsealerLaws V} : logless (withKEKRef f).
Proof. apply logless_onCore, keeps_trail_withKEK. intros kek. apply keeps_trail_onM. Qed.
End ApiSpec.

Ltac api_step :=
  first [ apply replies_ret | apply replies_buffer | apply replies_method | apply replies_need
        | apply replies_body; intros ? | apply replies_body12; intros ? | apply replies_on_result; intros ?
        | apply replies_bind; [|intros ?]
        | apply keeps_ret | apply logless_onManager | by apply logless_withKEKRef | apply logless_modify; [done] | apply keeps_lift | apply logless_method | apply logless_need
        | apply logless_body; intros ? | apply logless_body12; intros ?
        | apply logless_on_result; [|intros ?] | apply logless_bind; [|intros ?]
        | progress (cbn zeta beta) | case_match ].

Section Logging.
Context {V S T : Type} `{!Unsealer V, !UnsealerAdmin V, !UnsealerLaws V, !KVStore S, !Decoder T} {rlib : RSALib}.
Variable cfg : Config.
Abbreviation R := (Router V S).
Abbreviation MR := (M R).

Definition well_behaved (h : option Policy → request T → MR reply) : Prop := ∀ p rq, replies (h p rq) ∧ logless (h p rq).
(** Three handlers go through the service layer, which writes to the log itself. *)
Definition service_calls (action : string) : nat :=
  if bool_decide (action = "Sign") then 1 else if bool_decide (action = "Verify") then 1
  else if bool_decide (action = "ReEncrypt") then 3 else 0.

Lemma keys_well_behaved : well_behaved handleCreateKey ∧ well_behaved handleKeyOps ∧ well_behaved (handleCreateAsymmetricKey cfg).
Proof.
  split_and!; intros p rq;
    rw /handleCreateKey /handleKeyOps /handleCreateAsymmetricKey /handleRotateKey /handleShredKey /handleSoftDeleteKey
       /handleRestoreKey /handleGenerateDataKey /with_version /buffer_bytes;
    (split; [|rw /logless]; repeat api_step).
Qed.
Lemma crypto_well_behaved : well_behaved handleV1Encrypt ∧ well_behaved handleV1Decrypt ∧
  well_behaved (handleV1GenerateMac cfg) ∧ well_behaved (handleV1VerifyMac cfg) ∧
  well_behaved (handleV1GDKWithoutPlaintext cfg) ∧ well_behaved (handleV1GetPublicKey cfg).
Proof.
  split_and!; intros p rq;
    rw /handleV1Encrypt /handleV1Decrypt /handleV1GenerateMac /handleV1VerifyMac
       /handleV1GDKWithoutPlaintext /handleV1GetPublicKey /mac_key /buffer_bytes;
    (split; [|rw /logless]; repeat api_step).
Qed.
Lemma logs_on_result {A} n (m : MR A) onErr k : logs r_core n m → (∀ a, logless (k a)) → logs r_core n (on_result m onErr k).
Proof.
  intros Hm Hk. apply (logs_mono _ (n + 0)); [lia|]. apply logs_bind; [by apply logs_try|].
  intros [a|e]; apply logs_quiet; [apply Hk|apply keeps_ret].
Qed.
Lemma logs_need n b s msg (k : MR reply) : logs r_core n k → logs r_core n (need b s msg k).
Proof. intros Hk. rw /need. destruct b; [done|apply logs_quiet, keeps_ret]. Qed.
Lemma logs_body12 {A} n (dec : T → option A) rq k : (∀ a, logs (S := S) (V := V) r_core n (k a)) → logs r_core n (with_body12 cfg dec rq k).
Proof.
  intros Hk. rw /with_body12. destruct (rq_Body rq) as [t|]; [|apply logs_quiet, keeps_ret].
  destruct (dec t); [apply Hk|apply logs_quiet, keeps_ret].
Qed.
Lemma service_handlers p (rq : request T) :
  (replies (handleV1Sign (V := V) (S := S) cfg p rq) ∧ logs r_core 1 (handleV1Sign (V := V) (S := S) cfg p rq)) ∧
  (replies (handleV1Verify (V := V) (S := S) cfg p rq) ∧ logs r_core 1 (handleV1Verify (V := V) (S := S) cfg p rq)) ∧
  (replies (handleV1ReEncrypt (V := V) (S := S) cfg p rq) ∧ logs r_core 3 (handleV1ReEncrypt (V := V) (S := S) cfg p rq)).
Proof.
  split_and!; try (rw /handleV1Sign /handleV1Verify /handleV1ReEncrypt; by repeat api_step).
  all: apply logs_need, logs_body12; intros b; try apply logs_need; apply logs_on_result; [apply logs_onCore|intros [? ?]; apply keeps_ret].
  - apply (service_logs _ _ _ [] _).
  - apply service_logs.
  - apply ReEncrypt_logs.
Qed.
Lemma import_logless k t w : ∀ r r' x, us_KEKRef (c_seal (r_core r)) (importKey k t w) r = (r', x) → trail (S := S) (V := V) (r_core r') = trail (r_core r).
Proof.
  intros r r' x. destruct (us_kek_or_error (c_seal (r_core r))) as [[kek E]|[e E]]; rw E; [|by intros [= <- _]].
  rw /importKey. destruct (ImportKey _ _ _ _ _) as [[w1 t1] y]. by intros [= <- _].
Qed.
Lemma transport_well_behaved : well_behaved handleTransitPub ∧ well_behaved handleImportKey.
Proof.
  split; intros p rq; rw /handleTransitPub /handleImportKey; (split; [|rw /logless]; repeat api_step).
  - intros r r' x. destruct (GenerateTransitKey _ _ _) as [[t rnd] y]. by intros [= <- _].
  - intros r r' x. apply import_logless.
Qed.
Lemma with_time_replies text msg k : (∀ t, replies (k t)) → replies (V := V) (S := S) (with_time (T := T) text msg k).
Proof. intros Hk. rw /with_time. case_bool_decide; [apply Hk|]. destruct (dec_time text); [apply Hk|apply replies_ret]. Qed.
Lemma with_time_logless text msg k : (∀ t, logless (k t)) → logless (V := V) (S := S) (with_time (T := T) text msg k).
Proof. intros Hk. rw /with_time. case_bool_decide; [apply Hk|]. destruct (dec_time text); [apply Hk|apply keeps_ret]. Qed.
Lemma query_well_behaved : well_behaved (handleAuditQuery cfg).
Proof.
  intros p rq. rw /handleAuditQuery. split.
  - apply replies_method, replies_body. intros b. do 2 (apply with_time_replies; intros ?). by repeat case_match.
  - apply logless_method, logless_body. intros b. do 2 (apply with_time_logless; intros ?).
    repeat case_match; apply keeps_ret.
Qed.
Lemma system_well_behaved : well_behaved handleSysUnseal ∧ well_behaved (handleEmergencySeal cfg).
Proof.
  split; intros p rq; rw /handleSysUnseal /handleEmergencySeal; (split; [|rw /logless]; repeat api_step).
  - intros r r' e. destruct (us_ProvideShare _ _) as [v [u err]]. by intros [=].
  - intros r r' x. destruct (us_ProvideShare _ _) as [v [u err]]. by intros [= <- _].
  - intros r r' e. by intros [=].
  - intros r r' e. rw /onManager /onCore /onM /ClearCache /modE /modify. destruct (c_world (r_core r)). by intros [=].
Qed.
Lemma approval_well_behaved arq : well_behaved (approval_handler cfg arq).
Proof.
  intros p rq. rw /approval_handler /onApprovals. split.
  - intros r r' e. destruct (run _ _) as [rep y]. by destruct rep.
  - intros r r' x. destruct (run _ _) as [rep y]. by intros [= <- _].
Qed.
Definition calls_bounded (rt : route (V := V) (S := S) (T := T)) : Prop := ∀ p rq,
  replies (rt_handler rt p rq) ∧ logs r_core (service_calls (rt_action rt)) (rt_handler rt p rq).
Lemma quiet_route rt : well_behaved (rt_handler rt) → calls_bounded rt.
Proof. intros Hh p rq. destruct (Hh p rq). split; [done|by apply logs_quiet]. Qed.
Lemma route_well_behaved path rt : find_route cfg path = Some rt → calls_bounded rt.
Proof.
  destruct keys_well_behaved as (? & ? & ?), crypto_well_behaved as (? & ? & ? & ? & ? & ?),
    transport_well_behaved as (? & ?), system_well_behaved as (? & ?). pose proof query_well_behaved.
  rw /find_route. destruct (List.find _ _) as [rt'|] eqn:E.
  - intros [= <-]. apply List.find_some in E as [[E|E]%List.in_app_or _].
    + repeat (destruct E as [<-|E];
        [first [by apply quiet_route | apply quiet_route, approval_well_behaved | intros p rq; apply (service_handlers p rq)]|]). done.
    + destruct (_ && _); [|done]. destruct E as [<-|[]]. apply quiet_route. intros p rq. split; [apply replies_ret|apply keeps_ret].
  - destruct (has_prefix keys_prefix path); [|done]. intros [= <-]. by apply quiet_route.
Qed.

(** The guards pass this on. *)
Lemma logs_ret {A} n (a : A) : logs (S := S) (V := V) r_core n (mret a).
Proof. apply logs_quiet, keeps_ret. Qed.
Lemma require_auth_well_behaved action n (h : option Policy → request T → MR reply) rq : (∀ p rq, replies (h p rq) ∧ logs r_core n (h p rq)) →
  replies (RequireAuth cfg action h rq) ∧ logs r_core n (RequireAuth cfg action h rq).
Proof.
  intros Hh. rw /RequireAuth. destruct (ExtractBearerToken _); [|split; [apply replies_ret|apply logs_ret]..].
  destruct (cf_authenticator cfg) as [f|]; [|split; [by intros r r' e|apply logs_quiet, keeps_lift]].
  destruct (f _) as [p| |]; [|split; [apply replies_ret|apply logs_ret]|split; [by intros r r' e|apply logs_quiet, keeps_lift]].
  destruct (Hh (Some p) rq). split.
  - apply replies_need, replies_need, replies_bind; [by intros r r' e|done].
  - apply logs_need, logs_need, (logs_bind _ 0 n); [by apply logs_quiet, logless_modify|done].
Qed.
Lemma seal_well_behaved n (m : MR reply) : replies m → logs r_core n m → replies (requireUnsealedV1 m) ∧ logs r_core n (requireUnsealedV1 m).
Proof.
  intros H1 H2. split; intros r r' e H; rw /requireUnsealedV1 in H.
  - destruct (us_IsEmergencySealed _); [done|]. destruct (us_IsSealed _); [done|]. by eapply H1.
  - destruct (us_IsEmergencySealed _); [injection H as <- _; exact (logs_ret n tt r r _ eq_refl)|].
    destruct (us_IsSealed _); [injection H as <- _; exact (logs_ret n tt r r _ eq_refl)|]. by eapply H2.
Qed.
Lemma guarded_well_behaved path (rt : route (V := V) (S := S) (T := T)) rq : find_route cfg path = Some rt →
  replies (guarded cfg rt rq) ∧ logs r_core (service_calls (rt_action rt)) (guarded cfg rt rq).
Proof.
  intros Hh%route_well_behaved. rw /guarded. destruct (rt_guard rt) as [|a|a].
  - apply Hh.
  - by apply require_auth_well_behaved.
  - rw /authAndSeal. destruct (cf_authenticator cfg) as [f|] eqn:E.
    + apply seal_well_behaved; apply (require_auth_well_behaved _ (service_calls (rt_action rt)) _ rq Hh).
    + apply seal_well_behaved; apply Hh.
Qed.

(** The middleware around a computation, outside the emergency state. *)
Definition traced (r : R) : R :=
  let w := c_world (r_core r) in
  set_core (set_world (w.1, set_rand (drop 16 (m_rand w.2)) w.2) (set_ctx None (r_core r))) r.
(** The entry of a request: the trace is drawn first, the time is that of the answer. *)
Definition request_entry (action : string) (rq : request T) (r : R) (rep : reply) (now : Z) : audit_rec :=
  mkAudit action (rq_RemoteAddr rq) "" "" now (take 16 (m_rand (c_world (r_core r)).2)) (status_text (status_of rep)).
Lemma audit_step action (m : MR reply) (rq : request T) r r1 x : us_IsEmergencySealed (c_seal (r_core r)) = false →
  16 ≤ length (m_rand (c_world (r_core r)).2) → m (traced r) = (r1, x) →
  (∀ e, x ≠ Error e) →
  ∃ rep r', auditMiddleware action m rq r = (r', Ok rep) ∧ (∀ a, x = Ok a → rep = a) ∧
    (∀ p, x = Panic p → rep = JErr 500 "internal error") ∧
    r_core r' = auditRecord (request_entry action rq r rep (m_now (c_world (r_core r1)).2)) (r_core r1) ∧
    r_transit r' = r_transit r1 ∧ r_approvals r' = r_approvals r1 ∧ r_limiter r' = r_limiter r1.
Proof.
  intros He Hl Hm Hx. rw /auditMiddleware He.
  assert ((onCore (modify (set_ctx None));;
    trace ← try_ (onManager (onRand (GenerateSecureRandom 16)));
    mret trace : MR (bytes + error)) r = (traced r, Ok (inl (take 16 (m_rand (c_world (r_core r)).2))))) as Ht.
  { destruct r as [c t y l]. destruct c as [v [s e] au af ao ad al ctx he]. simpl in Hl.
    rw /mbind /M_bind /try_ /onManager /onCore /onM /onRand /=. rw GenerateSecureRandom_total; [lia|]. done. }
  assert (∃ rep, recovered m (traced r) = (r1, Ok rep) ∧ (∀ a, x = Ok a → rep = a) ∧
    (∀ p, x = Panic p → rep = JErr 500 "internal error")) as (rep & Hr & H1 & H2).
  { rw /recovered Hm. destruct x as [a|e|p]; [exists a; split_and!; [done|by intros a' [= <-]|done]|by destruct (Hx e)|].
    eexists. split_and!; [done..|]. by intros p' _. }
  eexists rep, _. split_and!; [|exact H1|exact H2|..].
  { apply M_bind_inv in Ht as (r2 & y & H3 & Ht). destruct y as [u| |]; [|by destruct Ht..]. rw (M_bind_step _ _ _ _ _ H3).
    apply M_bind_inv in Ht as (r3 & y & H4 & Ht). destruct y as [tr| |]; [|by destruct Ht..]. injection Ht as -> ->.
    rw (M_bind_step _ _ _ _ _ H4). rw (M_bind_step _ _ _ _ _ Hr). rw (M_bind_step _ _ _ _ _ (eq_refl : clock r1 = _)). reflexivity. }
  all: done.
Qed.
Lemma no_trace action (m : MR reply) (rq : request T) r : us_IsEmergencySealed (c_seal (r_core r)) = false →
  length (m_rand (c_world (r_core r)).2) < 16 →
  ∃ r', auditMiddleware action m rq r = (r', Ok (JErr 500 "trace id generation failed")) ∧ logged [] (r_core r) (r_core r').
Proof.
  intros He Hl. rw /auditMiddleware He. destruct r as [c t y l]. destruct c as [v [s e] au af ao ad al ctx he]. simpl in Hl.
  rw /mbind /M_bind /try_ /onManager /onCore /onM /onRand /=.
  assert (∃ e' err, GenerateSecureRandom 16 (m_rand e) = (e', Error err)) as (e' & err & ->).
  { rw /GenerateSecureRandom. repeat case_bool_decide; try lia; by eexists _, _. }
  eexists. split; [done|]. by apply logged_none.
Qed.

(** C22: what a request to a route (any but the health check) writes to the audit log, which
    the router shares with the service layer. In the emergency state it is answered
    503, and writes nothing; without 16 random bytes to name a trace it is answered
    500, and writes nothing. Otherwise it gets a reply, also when its handler panics,
    and calls the log exactly once for itself, after everything its handler did: with
    the route's action, the remote address as the actor, the trace and the status
    class of the reply. Before that only the service layer calls it, with entries that
    have no trace: at most once for a signature or a verification, at most three times
    for a re-encryption, and never on any other route. The log keeps the entries it
    takes, in this order; all of them when no call fails. The reply comes also when
    calls fail. *)
Theorem requests_logged rq (rt : route (V := V) (S := S) (T := T)) (r : R) :
  rq_Path rq ≠ "/api/v1/sys/health" → find_route cfg (rq_Path rq) = Some rt →
  (us_IsEmergencySealed (c_seal (r_core r)) = true → mux cfg rq r = (r, Ok (JErr 503 "vault is emergency sealed"))) ∧
  (us_IsEmergencySealed (c_seal (r_core r)) = false → length (m_rand (c_world (r_core r)).2) < 16 →
     ∃ r', mux cfg rq r = (r', Ok (JErr 500 "trace id generation failed")) ∧ logged [] (r_core r) (r_core r')) ∧
  (us_IsEmergencySealed (c_seal (r_core r)) = false → 16 ≤ length (m_rand (c_world (r_core r)).2) →
     ∃ r' rep es, mux cfg rq r = (r', Ok rep) ∧ length es ≤ service_calls (rt_action rt) ∧ Forall untraced es ∧
       let entries := es ++ [request_entry (rt_action rt) rq r rep (m_now (c_world (r_core r')).2)] in
       logged entries (r_core r) (r_core r') ∧
       (c_auditFaults (r_core r) = [] → c_audit (r_core r') = c_audit (r_core r) ++ entries)).
Proof.
  intros Hh Hrt. rw /mux bool_decide_eq_false_2 // Hrt. split_and!.
  { intros He. by rw /auditMiddleware He. }
  { apply no_trace. }
  intros He Hl. destruct (guarded_well_behaved _ _ rq Hrt) as [Hrep Hlog].
  destruct (guarded cfg rt rq (traced r)) as [r1 x] eqn:Hg. destruct (Hlog _ _ _ Hg) as (es & Hes & Hn & Ht).
  destruct (audit_step (rt_action rt) _ rq r r1 x He Hl Hg) as (rep & r' & Ha & _ & _ & Ec & _).
  { intros e ->. by eapply Hrep. }
  assert (logged (es ++ [request_entry (rt_action rt) rq r rep (m_now (c_world (r_core r')).2)]) (r_core r) (r_core r')) as Hall.
  { rw Ec. exact (logged_trans _ _ _ _ _ Hes (logged_record _ _)). }
  exists r', rep, es. cbn zeta. split_and!; [done..|]. intros Hf. destruct Hall as [-> _]. by rw Hf taken_all.
Qed.
End Logging.

(** ** Access *)
Section Access.
Context {V S T : Type} `{!Unsealer V, !UnsealerAdmin V, !UnsealerLaws V, !KVStore S, !Decoder T} {rlib : RSALib}.
Variable cfg : Config.
Abbreviation R := (Router V S).
Abbreviation MR := (M R).
Abbreviation Req := (request T).
Abbreviation Route := (route (V := V) (S := S) (T := T)).

(** The caller holds a token of a role that may do [action] on the key of the path. *)
Definition caller (rq : Req) (action : string) (p : Policy) : Prop :=
  ∃ authenticate token, cf_authenticator cfg = Some authenticate ∧ ExtractBearerToken (rq_Authorization rq) = Ok token ∧
    authenticate token = Ok p ∧ IsActionAllowed p action = true ∧
    (extractKeyIDFromPath (rq_Path rq) = "" ∨ IsKeyAllowed p (extractKeyIDFromPath (rq_Path rq)) = true).
Definition route_guard_action (g : guard) : option string :=
  match g with Open => None | Authenticated a | AuthAndSeal a => Some a end.

(** What a refused request leaves as it was: everything but the random source, the
    actor of the context and the log (and the list of its faults to come). *)
Record untouched (r r' : R) : Prop := {
  ut_seal : c_seal (r_core r') = c_seal (r_core r);
  ut_store : (c_world (r_core r')).1 = (c_world (r_core r)).1;
  ut_cache : m_cache (c_world (r_core r')).2 = m_cache (c_world (r_core r)).2;
  ut_alerts : c_alerts (r_core r') = c_alerts (r_core r);
  ut_transit : r_transit r' = r_transit r;
  ut_approvals : r_approvals r' = r_approvals r;
}.
Lemma untouched_traced (r : R) : untouched r (traced r).
Proof. by destruct r as [[? [? ?] ? ? ? ? ? ? ?] ? ? ?]. Qed.

(** A guard runs its handler for a caller with the rights, or answers without effect. *)
Lemma RequireAuth_cases action h (rq : Req) (r : R) :
  (∃ p, caller rq action p ∧ RequireAuth cfg action h rq r = h (Some p) rq (set_core (set_ctx (Some (p_RoleID p)) (r_core r)) r)) ∨
  (∃ rep, RequireAuth cfg action h rq r = (r, Ok rep) ∧ (status_of rep = 401 ∨ status_of rep = 403)%Z) ∨
  ∃ m, RequireAuth cfg action h rq r = (r, Panic m).
Proof.
  rw /RequireAuth. destruct (ExtractBearerToken _) as [token| |] eqn:Et; [|right; left; eexists; split; [done|by left]..].
  destruct (cf_authenticator cfg) as [f|] eqn:Ef; [|right; right; by eexists].
  destruct (f token) as [p| |] eqn:Ep; [|right; left; eexists; split; [done|by left]|right; right; by eexists].
  rw /need. destruct (IsActionAllowed p action) eqn:Ea; [|right; left; eexists; split; [done|by right]].
  destruct (bool_decide _ || _) eqn:Ek; [|right; left; eexists; split; [done|by right]].
  left. exists p. split; [|done]. exists f, token. split_and!; [done..|].
  apply orb_true_iff in Ek as [?%bool_decide_eq_true|?]; [by left|by right].
Qed.

Lemma guarded_cases (rt : Route) (rq : Req) (r : R) action : cf_authenticator cfg ≠ None → route_guard_action (rt_guard rt) = Some action →
  (∃ p r1, caller rq action p ∧ guarded cfg rt rq r = rt_handler rt (Some p) rq r1 ∧
     r1 = set_core (set_ctx (Some (p_RoleID p)) (r_core r)) r ∧
     (rt_guard rt = AuthAndSeal action → us_IsSealed (c_seal (r_core r)) = false)) ∨
  (∃ rep, guarded cfg rt rq r = (r, Ok rep) ∧ (status_of rep = 401 ∨ status_of rep = 403 ∨ status_of rep = 503)%Z) ∨
  ∃ m, guarded cfg rt rq r = (r, Panic m).
Proof.
  intros Hn Hg. rw /guarded. destruct (rt_guard rt) as [|a|a]; [done|..]; injection Hg as ->.
  - destruct (RequireAuth_cases action (rt_handler rt) rq r) as [(p & Hp & ->)|[(rep & -> & Hs)|(m & ->)]].
    + left. eexists p, _. by split_and!.
    + right. left. exists rep. split; [done|]. destruct Hs; auto.
    + right. right. by exists m.
  - rw /authAndSeal /requireUnsealedV1. destruct (cf_authenticator cfg) as [f|] eqn:Ef; [|done].
    destruct (us_IsEmergencySealed _); [right; left; eexists; split; [done|by right; right]|].
    destruct (us_IsSealed _) eqn:Es; [right; left; eexists; split; [done|by right; right]|].
    destruct (RequireAuth_cases action (rt_handler rt) rq r) as [(p & Hp & ->)|[(rep & -> & Hs)|(m & ->)]].
    + left. eexists p, _. by split_and!.
    + right. left. exists rep. split; [done|]. destruct Hs; auto.
    + right. right. by exists m.
Qed.

(** C20: no rights, no effect. On a router with an authenticator, a request to a route
    that asks for an action is answered with an error and changes neither the seal,
    nor the store or the cache, nor the transport keys, the tickets and the
    second-factor states, and calls the audit log for the entry of the request only,
    unless its token belongs to a role that may do that action, and whose key patterns cover the key
    id in its path, and, on the routes that need it, the service is unsealed. *)
Theorem refused_without_effect (rq : Req) (rt : Route) (r : R) action :
  cf_authenticator cfg ≠ None → rq_Path rq ≠ "/api/v1/sys/health" → find_route cfg (rq_Path rq) = Some rt →
  route_guard_action (rt_guard rt) = Some action →
  us_IsEmergencySealed (c_seal (r_core r)) = false → 16 ≤ length (m_rand (c_world (r_core r)).2) →
  (∀ p, ¬ caller rq action p) ∨ (rt_guard rt = AuthAndSeal action ∧ us_IsSealed (c_seal (r_core r)) = true) →
  ∃ r' rep now, mux cfg rq r = (r', Ok rep) ∧ (400 ≤ status_of rep)%Z ∧ untouched r r' ∧
    logged [request_entry (rt_action rt) rq r rep now] (r_core r) (r_core r').
Proof.
  intros Hn Hh Hrt Hg He Hl Hno. rw /mux bool_decide_eq_false_2 // Hrt.
  assert (∃ x, guarded cfg rt rq (traced r) = (traced r, x) ∧ (∀ e, x ≠ Error e) ∧ ∀ rep, x = Ok rep → (400 ≤ status_of rep)%Z)
    as (x & Hx & Hne & Hst).
  { destruct (guarded_cases rt rq (traced r) action Hn Hg) as [(p & r1 & Hp & _ & _ & Hs)|[(rep & E & Hs)|(m & E)]].
    - destruct Hno as [Hno|[Hag Hse]]; [by destruct (Hno p)|]. specialize (Hs Hag).
      rw (ut_seal _ _ (untouched_traced r)) in Hs. congruence.
    - exists (Ok rep). split_and!; [done..|]. intros rep' [= <-]. lia.
    - exists (Panic m). by split_and!. }
  destruct (audit_step (rt_action rt) (guarded cfg rt rq) rq r (traced r) x He Hl Hx Hne) as (rep & r' & Ha & Ho & Hp & Ec & Et & Ey & _).
  eexists r', rep, _. split; [done|]. split_and!; [..|rw Ec; exact (logged_record _ (r_core (traced r)))].
  - destruct x as [a|e|m]; [rw (Ho a) //; by apply Hst|by destruct (Hne e)|]. by rw (Hp m).
  - destruct (untouched_traced r) as [? ? ? ? ? ?]. split; rw ?Ec /auditRecord /=; congruence.
Qed.

(** ** Success *)
Lemma need_ok b st msg (k : MR reply) r r' a : need b st msg k r = (r', Ok (JOk a)) → b = true ∧ k r = (r', Ok (JOk a)).
Proof. rw /need. by destruct b. Qed.
Lemma method_ok m (rq : Req) (k : MR reply) r r' a : need_method m rq k r = (r', Ok (JOk a)) → rq_Method rq = m ∧ k r = (r', Ok (JOk a)).
Proof. intros [H ?]%need_ok. by apply bool_decide_eq_true in H. Qed.
Lemma body_ok {A} (dec : T → option A) msg (rq : Req) (k : A → MR reply) r r' a : with_body dec msg rq k r = (r', Ok (JOk a)) →
  ∃ t b, rq_Body rq = Some t ∧ dec t = Some b ∧ k b r = (r', Ok (JOk a)).
Proof. rw /with_body. destruct (rq_Body rq) as [t|]; [|done]. destruct (dec t) as [b|] eqn:E; [|done]. intros H. by exists t, b. Qed.
Lemma body12_ok {A} (dec : T → option A) (rq : Req) (k : A → MR reply) r r' a : with_body12 cfg dec rq k r = (r', Ok (JOk a)) →
  ∃ t b, rq_Body rq = Some t ∧ dec t = Some b ∧ k b r = (r', Ok (JOk a)).
Proof. rw /with_body12. destruct (rq_Body rq) as [t|]; [|done]. destruct (dec t) as [b|] eqn:E; [|done]. intros H. by exists t, b. Qed.
Lemma result_ok {A} (m : MR A) onErr k r r' a : (∀ e b, onErr e ≠ JOk b) → on_result m onErr k r = (r', Ok (JOk a)) →
  ∃ r1 x, m r = (r1, Ok x) ∧ k x r1 = (r', Ok (JOk a)).
Proof.
  intros He H. rw /on_result in H. apply M_bind_ok in H as (r1 & x & Hm & H).
  apply try_inv in Hm as (y & Hm & E). destruct y as [b|e|]; [|injection E as ->|done].
  - injection E as ->. by exists r1, b.
  - injection H as _ H. by apply He in H.
Qed.
Lemma mux_ok (rq : Req) (rt : Route) (r r' : R) a : rq_Path rq ≠ "/api/v1/sys/health" → find_route cfg (rq_Path rq) = Some rt →
  mux cfg rq r = (r', Ok (JOk a)) → ∃ r1 r2 e, guarded cfg rt rq r1 = (r2, Ok (JOk a)) ∧ r_core r' = auditRecord e (r_core r2).
Proof.
  intros Hh Hrt. rw /mux bool_decide_eq_false_2 // Hrt /auditMiddleware. destruct (us_IsEmergencySealed _); [done|].
  intros H. apply M_bind_ok in H as (r1 & u & _ & H). apply M_bind_ok in H as (r2 & tr & _ & H).
  destruct tr as [t|]; [|done]. apply M_bind_ok in H as (r3 & rep & Hr & H).
  apply M_bind_ok in H as (r4 & now & [= <- _] & H). apply M_bind_ok in H as (r5 & u' & [= <- _] & H). injection H as <- ->.
  rw /recovered in Hr. exists r2. destruct (guarded cfg rt rq r2) as [r6 [x| |]] eqn:Eg; [|done..].
  injection Hr as <- ->. by eexists r6, _.
Qed.
Lemma success_caller (rq : Req) (rt : Route) action (r r' : R) a : cf_authenticator cfg ≠ None → rq_Path rq ≠ "/api/v1/sys/health" →
  find_route cfg (rq_Path rq) = Some rt → route_guard_action (rt_guard rt) = Some action →
  mux cfg rq r = (r', Ok (JOk a)) →
  ∃ p r1 r2, caller rq action p ∧ rt_handler rt (Some p) rq r1 = (r2, Ok (JOk a)).
Proof.
  intros Hn Hh Hrt Hg (r1 & r2 & ent & H & _)%(mux_ok _ rt); [|done..].
  destruct (guarded_cases rt rq r1 action Hn Hg) as [(p & r3 & Hp & E & _)|[(rep & E & Hs)|(m & E)]]; rw E in H; [|injection H as <- ->|done].
  - by exists p, r3, r2.
  - simpl in Hs. lia.
Qed.
Lemma authorize_ok p action id (c c' : Core V S) u : authorize (Some p) action id c = (c', Ok u) → IsKeyAllowed p id = true ∧ c' = c.
Proof.
  intros H. apply M_bind_ok in H as (c1 & u1 & [_ ->]%guardM_ok & H). by apply guardM_ok in H as [? ->].
Qed.
(** A guarded operation of the service that succeeded was authorised. *)
Lemma core_authorized {A} p action id (m : M (Core V S) A) (r r1 : R) x :
  onCore (requireUnsealed;; authorize (Some p) action id;; m) r = (r1, Ok x) → IsKeyAllowed p id = true.
Proof.
  rw /onCore. intros H. match type of H with context [let '(_, _) := ?m in _] => destruct m as [c y] eqn:E end.
  injection H as _ ->. apply M_bind_ok in E as (c1 & u & _ & E). apply M_bind_ok in E as (c2 & u2 & Ha & _). by apply authorize_ok in Ha as [? _].
Qed.

Lemma keyop_route path (rt : Route) : find_route cfg path = Some rt → rt_action rt = "KeyOp" → rt = keyops_route.
Proof.
  rw /find_route. destruct (List.find _ _) as [rt'|] eqn:Ef.
  - intros [= <-]. apply List.find_some in Ef as [[Ef|Ef]%List.in_app_or _].
    + repeat (destruct Ef as [<-|Ef]; [done|]). done.
    + destruct (_ && _); [|done]. by destruct Ef as [<-|[]].
  - destruct (has_prefix keys_prefix _); [by intros [= <-]|done].
Qed.

(** C19: success needs rights on the key. On a router with an authenticator, a successful
    reply to an encryption, decryption, signature, verification, re-encryption or
    key-operation request means that the caller's role may do the action and that its
    key patterns cover the key: the key of the body for encryption and decryption,
    the tenant's key for the operations of the service layer, the key of the path
    for rotation, shredding, soft deletion, restoration and data keys. *)
Theorem success_authorized (rq : Req) (r r' : R) a :
  cf_authenticator cfg ≠ None → mux cfg rq r = (r', Ok (JOk a)) →
  (rq_Path rq = "/api/v1/encrypt" → ∃ p t b, caller rq "Encrypt" p ∧ rq_Body rq = Some t ∧ dec_encrypt t = Some b ∧
     IsKeyAllowed p (er_KeyID b) = true) ∧
  (rq_Path rq = "/api/v1/decrypt" → ∃ p t b, caller rq "Decrypt" p ∧ rq_Body rq = Some t ∧ dec_decrypt t = Some b ∧
     IsKeyAllowed p (dr_KeyID b) = true) ∧
  (rq_Path rq = "/api/v1/sign" → ∃ p t b, caller rq "Sign" p ∧ rq_Body rq = Some t ∧ dec_sign t = Some b ∧
     IsKeyAllowed p (ScopedKeyID (p_TenantID p) (sr_KeyID b)) = true) ∧
  (rq_Path rq = "/api/v1/verify" → ∃ p t b, caller rq "Verify" p ∧ rq_Body rq = Some t ∧ dec_verify t = Some b ∧
     IsKeyAllowed p (ScopedKeyID (p_TenantID p) (vr_KeyID b)) = true) ∧
  (rq_Path rq = "/api/v1/re-encrypt" → ∃ p t b, caller rq "ReEncrypt" p ∧ rq_Body rq = Some t ∧ dec_reEncrypt t = Some b ∧
     IsKeyAllowed p (ScopedKeyID (p_TenantID p) (re_SourceKeyID b)) = true ∧
     IsKeyAllowed p (ScopedKeyID (p_TenantID p) (re_DestKeyID b)) = true) ∧
  (rt_action <$> find_route (V := V) (S := S) (T := T) cfg (rq_Path rq) = Some "KeyOp" → extractKeyIDFromPath (rq_Path rq) ≠ "" →
     ∃ p, caller rq "KeyOp" p ∧ IsKeyAllowed p (extractKeyIDFromPath (rq_Path rq)) = true).
Proof.
  intros Hn Hm.
  assert (∀ path action (h : option Policy → Req → MR reply), rq_Path rq = path → find_route cfg path = Some (mkRoute path action (AuthAndSeal action) h) →
    path ≠ "/api/v1/sys/health" → ∃ p r1 r2, caller rq action p ∧ h (Some p) rq r1 = (r2, Ok (JOk a))) as Hcall.
  { intros path action h <- Hrt Hh. destruct (success_caller rq _ action r r' a Hn Hh Hrt eq_refl Hm) as (p & r1 & r2 & ? & ?). eauto. }
  split_and!.
  - intros E. destruct (Hcall "/api/v1/encrypt" "Encrypt" handleV1Encrypt E eq_refl ltac:(done)) as (p & r1 & r2 & Hc & H).
    apply method_ok in H as [_ H]. apply body_ok in H as (t & b & Ht & Hb & H). apply need_ok in H as [_ H].
    apply need_ok in H as [Hk _]. by exists p, t, b.
  - intros E. destruct (Hcall "/api/v1/decrypt" "Decrypt" handleV1Decrypt E eq_refl ltac:(done)) as (p & r1 & r2 & Hc & H).
    apply method_ok in H as [_ H]. apply body_ok in H as (t & b & Ht & Hb & H). apply need_ok in H as [_ H].
    apply need_ok in H as [Hk _]. by exists p, t, b.
  - intros E. destruct (Hcall "/api/v1/sign" "Sign" (handleV1Sign cfg) E eq_refl ltac:(done)) as (p & r1 & r2 & Hc & H).
    apply method_ok in H as [_ H]. apply body12_ok in H as (t & b & Ht & Hb & H). apply need_ok in H as [_ H].
    apply result_ok in H as (r3 & x & H & _); [|done]. apply core_authorized in H. by exists p, t, b.
  - intros E. destruct (Hcall "/api/v1/verify" "Verify" (handleV1Verify cfg) E eq_refl ltac:(done)) as (p & r1 & r2 & Hc & H).
    apply method_ok in H as [_ H]. apply body12_ok in H as (t & b & Ht & Hb & H). apply need_ok in H as [_ H].
    apply result_ok in H as (r3 & x & H & _); [|done]. apply core_authorized in H. by exists p, t, b.
  - intros E. destruct (Hcall "/api/v1/re-encrypt" "ReEncrypt" (handleV1ReEncrypt cfg) E eq_refl ltac:(done)) as (p & r1 & r2 & Hc & H).
    apply method_ok in H as [_ H]. apply body12_ok in H as (t & b & Ht & Hb & H).
    apply result_ok in H as (r3 & x & H & _); [|done]. exists p, t, b. split_and!; try done.
    + by apply core_authorized in H.
    + rw /onCore in H. destruct (ReEncrypt _ _ _ _ (r_core r1)) as [c y] eqn:Er. injection H as _ ->.
      apply M_bind_ok in Er as (c1 & u & _ & Er). apply M_bind_ok in Er as (c2 & u2 & _ & Er).
      apply M_bind_ok in Er as (c3 & u3 & Ha & _). by apply authorize_ok in Ha as [? _].
  - intros Hrt Hk. destruct (find_route (V := V) (S := S) (T := T) cfg (rq_Path rq)) as [rt|] eqn:E; [|done]. injection Hrt as Hrt.
    pose proof (keyop_route _ _ E Hrt) as ->.
    destruct (success_caller rq keyops_route "KeyOp" r r' a) as (p & r1 & r2 & Hc & _); try done.
    { intros Hp. rw Hp /find_route /routes in E. by destruct (_ && _) in E. }
    exists p. split; [done|]. destruct Hc as (f & tok & _ & _ & _ & _ & [?|?]); done.
Qed.
End Access.

(** ** Agreement with the service layer *)
Section Agreement.
Context {V S T : Type} `{!Unsealer V, !UnsealerAdmin V, !UnsealerLaws V, !KVStore S, !Decoder T} {rlib : RSALib}.
Abbreviation R := (Router V S).
Abbreviation MR := (M R).
Abbreviation Req := (request T).

Lemma audited_same {A} action id (m : M (Core V S) A) c c1 y : m c = (c1, y) →
  ∃ c2, audited action id m c = (c2, y) ∧ c_world c2 = c_world c1.
Proof.
  intros H. rw /audited /mbind /M_bind /try_ H /recordAudit. destruct y as [a|e|p]; [| |by exists c1];
    destruct (c_auditOn c1); by eexists.
Qed.
Lemma open_gate {A} (m : M (Core V S) A) action id c : us_IsEmergencySealed (c_seal c) = false → us_IsSealed (c_seal c) = false →
  (requireUnsealed;; authorize None action id;; m) c = m c.
Proof. intros H1 H2. by rw /mbind /M_bind /requireUnsealed H1 H2. Qed.

(** A closure over the manager, run on the router. *)
Lemma kek_step {A} (f : KEK → M (S * Env) A) (r : R) :
  withKEKRef f r = let '(w, x) := us_KEKRef (c_seal (r_core r)) f (c_world (r_core r)) in (set_core (set_world w (r_core r)) r, x).
Proof.
  rw /withKEKRef /onCore /withKEK. destruct (us_kek_or_error (c_seal (r_core r))) as [[kek E]|[e E]]; rw !E.
  - rw /onM. by destruct (f kek (c_world (r_core r))).
  - by destruct r as [[]].
Qed.

Lemma audited_back {A} action id (m : M (Core V S) A) c c2 y : audited action id m c = (c2, y) →
  ∃ c1, m c = (c1, y) ∧ c_world c2 = c_world c1.
Proof.
  destruct (m c) as [c1 z] eqn:E. intros H. destruct (audited_same action id m c c1 z E) as (c3 & H3 & Ew).
  rw H in H3. injection H3 as <- <-. by exists c1.
Qed.

Lemma encrypt_agrees p (rq : Req) t b (r r' : R) x c' y :
  rq_Method rq = "POST" → rq_Body rq = Some t → dec_encrypt t = Some b → er_KeyID b ≠ "" →
  authorizeBodyKeyIDWithDetail p (er_KeyID b) = true →
  us_IsEmergencySealed (c_seal (r_core r)) = false → us_IsSealed (c_seal (r_core r)) = false →
  handleV1Encrypt p rq r = (r', x) →
  Encrypt (ScopedKeyID (TenantFromContext p) (er_KeyID b)) (er_Plaintext b) None (r_core r) = (c', y) →
  c_world (r_core r') = c_world c' ∧ (∀ ct v, x = Ok (JOk (AEncrypted ct v)) ↔ y = Ok (ct, v)).
Proof.
  intros Hm Ht Hb Hk Ha H1 H2. rw /handleV1Encrypt /need_method /with_body Hm Ht Hb /need bool_decide_eq_true_2 //.
  rw (bool_decide_eq_false_2 _ Hk) Ha. cbn [negb]. set (id := ScopedKeyID _ _). rw /Encrypt open_gate //.
  intros H (c1 & HE & ->)%audited_back. destruct r as [c tr ap li]. cbn [r_core] in *.
  destruct c as [v w au af ao ad al ctx he]. cbn [c_seal c_world] in *.
  rw /on_result /mbind /M_bind /try_ /onManager /onCore /onM in H. rw /mbind /M_bind /onM in HE. cbn [c_world r_core] in *.
  destruct (GetActiveKey id w) as [w1 [meta|e|m]].
  2: { injection H as <- <-. injection HE as <- <-. split; [done|]. by case_bool_decide. }
  2: { injection H as <- <-. by injection HE as <- <-. }
  rw kek_step in H. rw /withKEK in HE. cbn [set_core set_world r_core c_seal c_world] in *.
  destruct (us_kek_or_error v) as [[kek E]|[e E]]; rw !E in H HE.
  2: { injection H as <- <-. by injection HE as <- <-. }
  rw /mbind /M_bind /unwrapOrAlert /lift in H HE.
  destruct (kek_UnwrapDEK kek (km_Material meta)) as [dek|e|m]; cbn [lift] in H, HE.
  2: { injection H as <- <-. by injection HE as <- <-. }
  2: { injection H as <- <-. by injection HE as <- <-. }
  destruct w1 as [s1 e1]. rw /onRand /onM in H HE. cbn [c_world set_world] in HE.
  destruct (EncryptVersioned dek _ _ (m_rand e1)) as [rnd [ct|e|m]]; injection H as <- <-; injection HE as <- <-;
    (split; [done|]); naive_solver.
Qed.

Lemma decrypt_agrees p (rq : Req) t b (r r' : R) x c' y :
  rq_Method rq = "POST" → rq_Body rq = Some t → dec_decrypt t = Some b → dr_KeyID b ≠ "" →
  authorizeBodyKeyIDWithDetail p (dr_KeyID b) = true →
  us_IsEmergencySealed (c_seal (r_core r)) = false → us_IsSealed (c_seal (r_core r)) = false →
  handleV1Decrypt p rq r = (r', x) →
  Decrypt (ScopedKeyID (TenantFromContext p) (dr_KeyID b)) (dr_Ciphertext b) None (r_core r) = (c', y) →
  c_world (r_core r') = c_world c' ∧ (∀ pt v, x = Ok (JOk (ADecrypted pt v)) ↔ y = Ok (mkSB pt false, v)).
Proof.
  intros Hm Ht Hb Hk Ha H1 H2. rw /handleV1Decrypt /need_method /with_body Hm Ht Hb /need bool_decide_eq_true_2 //.
  rw (bool_decide_eq_false_2 _ Hk) Ha. cbn [negb]. set (id := ScopedKeyID _ _). rw /Decrypt open_gate //.
  destruct r as [c tr ap li]. cbn [r_core] in *. destruct c as [v w au af ao ad al ctx he]. cbn [c_seal c_world] in *.
  rw /mbind /M_bind /guardM /on_result /try_. destruct (MinCiphertextSize <=? length (dr_Ciphertext b)).
  2: { intros [= <- <-] [= <- <-]. by split. }
  rw /lift. cbn [mbind M_bind]. destruct (DecodeVersionedCiphertext (dr_Ciphertext b)) as [[[ver nonce] body]|e|m] eqn:Ed.
  2: { intros [= <- <-] [= <- <-]. by split. }
  2: { intros [= <- <-] [= <- <-]. by split. }
  intros H (c1 & HE & ->)%audited_back. rw /mbind /M_bind /onManager /onCore /onM in H. rw /mbind /M_bind /onM in HE. cbn [c_world r_core] in *.
  destruct (GetKeyForDecrypt id ver w) as [w1 [meta|e|m]].
  2: { injection H as <- <-. injection HE as <- <-. split; [done|]. by case_bool_decide. }
  2: { injection H as <- <-. by injection HE as <- <-. }
  rw /try_ kek_step in H. rw /withKEK in HE. cbn [set_core set_world r_core c_seal c_world] in *.
  destruct (us_kek_or_error v) as [[kek E]|[e E]]; rw !E in H HE.
  2: { injection H as <- <-. by injection HE as <- <-. }
  rw /mbind /M_bind /unwrapOrAlert /lift in H HE.
  destruct (kek_UnwrapDEK kek (km_Material meta)) as [dek|e|m]; cbn [lift] in H, HE.
  2: { injection H as <- <-. by injection HE as <- <-. }
  2: { injection H as <- <-. by injection HE as <- <-. }
  destruct (DecryptVersioned dek (dr_Ciphertext b)) as [[sb ver']|e|m] eqn:Edv.
  2: { injection H as <- <-. by injection HE as <- <-. }
  2: { injection H as <- <-. by injection HE as <- <-. }
  destruct (Decode_of_Decrypt _ _ _ _ Edv) as (_ & n' & b' & Ed'). rw Ed in Ed'. injection Ed' as -> _ _.
  apply DecryptVersioned_ok in Edv as (_ & _ & Hl & _). rw /buffer_bytes /lift WithKeyR_live // in H.
  injection H as <- <-. injection HE as <- <-. split; [done|]. intros pt v'. destruct sb as [d z]. rw /live /= in Hl. subst z.
  naive_solver.
Qed.

(** The encryption and decryption handlers, which repeat the service layer's code, do
    what [Core.Encrypt] and [Core.Decrypt] do on the key id of the caller's tenant:
    they leave the same store, cache and random source behind, and they answer with
    a ciphertext, a plaintext and a version exactly when the service does, with the
    same ones. *)
Theorem handlers_agree_with_core p (rq : Req) t (r r' : R) x :
  rq_Method rq = "POST" → rq_Body rq = Some t →
  us_IsEmergencySealed (c_seal (r_core r)) = false → us_IsSealed (c_seal (r_core r)) = false →
  (∀ b c' y, dec_encrypt t = Some b → er_KeyID b ≠ "" → authorizeBodyKeyIDWithDetail p (er_KeyID b) = true →
     handleV1Encrypt p rq r = (r', x) →
     Encrypt (ScopedKeyID (TenantFromContext p) (er_KeyID b)) (er_Plaintext b) None (r_core r) = (c', y) →
     c_world (r_core r') = c_world c' ∧ ∀ ct v, x = Ok (JOk (AEncrypted ct v)) ↔ y = Ok (ct, v)) ∧
  (∀ b c' y, dec_decrypt t = Some b → dr_KeyID b ≠ "" → authorizeBodyKeyIDWithDetail p (dr_KeyID b) = true →
     handleV1Decrypt p rq r = (r', x) →
     Decrypt (ScopedKeyID (TenantFromContext p) (dr_KeyID b)) (dr_Ciphertext b) None (r_core r) = (c', y) →
     c_world (r_core r') = c_world c' ∧ ∀ pt v, x = Ok (JOk (ADecrypted pt v)) ↔ y = Ok (mkSB pt false, v)).
Proof.
  intros Hm Ht H1 H2. split; intros b c' y Hb Hk Ha Hh Hc.
  - by apply (encrypt_agrees p rq t b r r' x c' y).
  - by apply (decrypt_agrees p rq t b r r' x c' y).
Qed.
End Agreement.

(** ** Emergency *)
Section Emergency.
Context {S T : Type} `{!KVStore S, !Decoder T} {rlib : RSALib}.
Variable cfg : Config.
Abbreviation R := (Router VaultState S).
Abbreviation Req := (request T).

(** A sequence of requests, with the replies. *)
Fixpoint mux_all (rqs : list Req) (r : R) : R * list (result reply) :=
  match rqs with
  | [] => (r, [])
  | rq :: rqs => let '(r, x) := mux cfg rq r in let '(r, xs) := mux_all rqs r in (r, x :: xs)
  end.
(** The replies of a frozen interface. *)
Definition frozen_reply (rq : Req) (x : result reply) : Prop :=
  rq_Path rq ≠ "/api/v1/sys/health" → (cf_authenticator cfg = None → rq_Path rq ≠ "/metrics") →
  ∃ rep, x = Ok rep ∧ (status_of rep = 503 ∨ status_of rep = 404)%Z.

Lemma frozen_mux (rq : Req) (r : R) : vs_emergency (c_seal (r_core r)) = true →
  ∃ x, mux cfg rq r = (r, x) ∧ frozen_reply rq x.
Proof.
  intros He. rw /mux. case_bool_decide as Hh.
  { rw /handleHealth /need_method /need. case_bool_decide; (eexists; split; [reflexivity|by intros ?]). }
  destruct (find_route cfg (rq_Path rq)) as [rt|] eqn:E.
  { rw /auditMiddleware /= /IsEmergencySealed He. eexists. split; [done|]. intros _ _. eexists. split; [done|]. by left. }
  destruct (_ && _) eqn:Em.
  - apply andb_true_iff in Em as [_ [Hn Hm]%bool_decide_eq_true]. rw /loopbackOnly /need /metricsHandler.
    repeat case_match; (eexists; split; [done|]; intros _ Hx; by destruct (Hx Hn)).
  - eexists. split; [done|]. intros _ _. eexists. split; [done|]. by right.
Qed.
Lemma frozen_all (rqs : list Req) (r : R) : vs_emergency (c_seal (r_core r)) = true →
  ∃ xs, mux_all rqs r = (r, xs) ∧ Forall2 frozen_reply rqs xs.
Proof.
  intros He. induction rqs as [|rq rqs (xs & E & IH)]; [by exists []|].
  destruct (frozen_mux rq r He) as (x & Ex & Hx). exists (x :: xs). cbn [mux_all]. rw Ex E. split; [done|]. by constructor.
Qed.

(** C21: an emergency seal through the interface. A successful request to the panic route
    confirmed the seal and carried the configured, non-empty administrator token; it
    leaves the vault in its emergency state with the master key and the collected
    shares gone and the cache empty. From then on requests change nothing at all:
    whatever arrives, every route but the health check and, without an authenticator,
    the metrics answers 503 (404 where there is no route). *)
Theorem emergency_freezes (rq : Req) (r r' : R) a :
  rq_Path rq = "/api/v1/sys/panic" → mux cfg rq r = (r', Ok (JOk a)) →
  (∃ t b, rq_Body rq = Some t ∧ dec_panic t = Some b ∧ pr_Confirm b = true ∧ pr_AdminToken b = cf_adminToken cfg ∧ cf_adminToken cfg ≠ "") ∧
  vs_emergency (c_seal (r_core r')) = true ∧ vs_masterKey (c_seal (r_core r')) = None ∧ vs_collected (c_seal (r_core r')) = [] ∧
  dc_data (m_cache (c_world (r_core r')).2) = ∅ ∧
  ∀ rqs : list Req, ∃ xs, mux_all rqs r' = (r', xs) ∧ Forall2 frozen_reply rqs xs.
Proof.
  intros Hp H.
  apply (mux_ok cfg rq (mkRoute "/api/v1/sys/panic" "EmergencySeal" Open (handleEmergencySeal cfg))) in H as (r1 & r2 & ent & H & E);
    [|by rw Hp..].
  rw /guarded /= /handleEmergencySeal in H. apply method_ok in H as [_ H]. apply body_ok in H as (t & b & Ht & Hb & H).
  apply need_ok in H as [Hc H]. apply need_ok in H as [Hn%negb_true_iff H]. apply bool_decide_eq_false in Hn.
  apply need_ok in H as [Ha H]. apply bool_decide_eq_true in Ha.
  assert (vs_emergency (c_seal (r_core r')) = true ∧ vs_masterKey (c_seal (r_core r')) = None ∧ vs_collected (c_seal (r_core r')) = [] ∧
    dc_data (m_cache (c_world (r_core r')).2) = ∅) as (He & ? & ? & ?).
  { rw E. destruct r1 as [[v [s e] ? ? ? ? ? ? ?] ? ? ?]. injection H as <- _. rw /EmergencySeal /cancelReseal /=. by destruct (vs_cancel v). }
  split; [by exists t, b|]. split_and!; [done..|]. intros rqs. by apply frozen_all.
Qed.
End Emergency.

(** ** Witnesses *)
(** Requests as values, with the decoder that returns them. *)
Inductive demo_text : Type :=
  | TCreate (b : createKeyRequest) | TAsym (b : createAsymmetricKeyRequest) | TVersion (v : Z)
  | TEncrypt (b : encryptRequest) | TDecrypt (b : decryptRequest) | TSign (b : signRequest) | TPanic (b : panicRequest).
#[export] Instance demo_decoder : Decoder demo_text := {
  dec_createKey t := match t with TCreate b => Some b | _ => None end;
  dec_createAsymmetricKey t := match t with TAsym b => Some b | _ => None end;
  dec_shred t := match t with TVersion v => Some v | _ => None end;
  dec_encrypt t := match t with TEncrypt b => Some b | _ => None end;
  dec_decrypt t := match t with TDecrypt b => Some b | _ => None end;
  dec_sign t := match t with TSign b => Some b | _ => None end;
  dec_verify _ := None; dec_verifyMac _ := None; dec_reEncrypt _ := None; dec_import _ := None; dec_auditQuery _ := None;
  dec_panic t := match t with TPanic b => Some b | _ => None end;
  dec_unseal _ := None; dec_createApproval _ := None; dec_ticketID _ := None; dec_roleID _ := None; dec_mfaCode _ := None;
  dec_base64 _ := None; dec_time _ := None;
}.
Definition demo_roles : AppRoleAuthenticator :=
  RegisterPolicy "blue" "tb" (mkPolicy "blue" ["*"] ["*"] false 0 [] "b") (
  RegisterPolicy "narrow" "tn" (mkPolicy "narrow" ["order-*"] ["*"] false 0 [] "") (
  RegisterPolicy "ops" "to" (mkPolicy "ops" ["*"] ["*"] false 0 [] "") NewAppRoleAuthenticator)).
Definition demo_cfg : Config :=
  mkCfg (Some (Authenticate demo_roles)) "root-token" None (mkConfig true true) [] {| sg_sign _ _ _ := Ok []; sg_verify _ _ _ _ := Ok true |}
    (λ _ e, (e, Ok (mkSB [x01] false, [x02]))) None (λ _, "") true.
Definition demo_rq (method path token : string) (body : demo_text) : request demo_text :=
  mkRequest method path "" "" ("Bearer " +:+ token) "" "" "" "10.0.0.1:99" (Some body).
Definition demo_router : Router VaultState WMem :=
  mkRouter (demo_core demo_two) NewTransitKeyManager (started 0 []) None.
Definition demo_encrypt (token : string) : request demo_text := demo_rq "POST" "/api/v1/encrypt" token (TEncrypt (mkEncrypt "k" [x68; x69])).
Definition demo_panic : request demo_text := demo_rq "POST" "/api/v1/sys/panic" "" (TPanic (mkPanicRq "root-token" true)).
(** The key of a request is "k", or "j", both created without a tenant. *)
Definition ask (rq : request demo_text) : result reply := (mux demo_cfg rq demo_router).2.

Lemma requests_logged_witness : ∃ r' rep, mux demo_cfg (demo_encrypt "to") demo_router = (r', Ok rep) ∧
  c_audit (r_core r') = [request_entry "Encrypt" (demo_encrypt "to") demo_router rep (m_now (c_world (r_core r')).2)].
Proof.
  destruct (requests_logged demo_cfg (demo_encrypt "to") (mkRoute "/api/v1/encrypt" "Encrypt" (AuthAndSeal "Encrypt") handleV1Encrypt) demo_router)
    as (_ & _ & H); [discriminate|reflexivity|].
  destruct H as (r' & rep & es & Hm & Hn & _ & _ & Ha); [reflexivity|vm_compute; lia|].
  exists r', rep. split; [exact Hm|]. rw (Ha eq_refl). destruct es as [|e es]; [reflexivity|].
  assert (service_calls "Encrypt" = 0) as E by (vm_compute; reflexivity). cbn [rt_action] in Hn. rw E in Hn. cbn [length] in Hn. lia.
Defined.

Lemma refused_without_effect_witness : ∃ r' rep now, mux demo_cfg (demo_encrypt "none") demo_router = (r', Ok rep) ∧
  (400 ≤ status_of rep)%Z ∧ untouched demo_router r' ∧
  logged [request_entry "Encrypt" (demo_encrypt "none") demo_router rep now] (r_core demo_router) (r_core r').
Proof.
  apply (refused_without_effect demo_cfg (demo_encrypt "none") (mkRoute "/api/v1/encrypt" "Encrypt" (AuthAndSeal "Encrypt") handleV1Encrypt) demo_router "Encrypt").
  - discriminate.
  - discriminate.
  - reflexivity.
  - reflexivity.
  - reflexivity.
  - vm_compute. lia.
  - left. intros p (f & tok & [= <-] & [= <-] & H & _). vm_compute in H. discriminate H.
Defined.

Lemma success_authorized_witness : ∃ r' a p t b, mux demo_cfg (demo_encrypt "to") demo_router = (r', Ok (JOk a)) ∧
  caller demo_cfg (demo_encrypt "to") "Encrypt" p ∧ rq_Body (demo_encrypt "to") = Some t ∧ dec_encrypt t = Some b ∧ IsKeyAllowed p (er_KeyID b) = true.
Proof.
  destruct (mux demo_cfg (demo_encrypt "to") demo_router) as [r' x] eqn:E.
  assert (∃ ct v, x = Ok (JOk (AEncrypted ct v))) as (ct & v & ->).
  { change x with (r', x).2. rw -E. eexists _, _. vm_compute. reflexivity. }
  exists r', (AEncrypted ct v).
  destruct (success_authorized demo_cfg (demo_encrypt "to") demo_router r' (AEncrypted ct v)) as (H & _); [discriminate|exact E|].
  destruct (H eq_refl) as (p & t & b & Hp). exists p, t, b. split; [reflexivity|exact Hp].
Defined.

Lemma handlers_agree_with_core_witness : ∃ r' c' ct, handleV1Encrypt None (demo_encrypt "") demo_router = (r', Ok (JOk (AEncrypted ct 1))) ∧
  Encrypt "k" [x68; x69] None (demo_core demo_two) = (c', Ok (ct, 1%Z)) ∧ c_world (r_core r') = c_world c'.
Proof.
  destruct (handleV1Encrypt None (demo_encrypt "") demo_router) as [r' x] eqn:E.
  destruct (Encrypt "k" [x68; x69] None (demo_core demo_two)) as [c' y] eqn:Ec.
  assert (∃ ct, y = Ok (ct, 1%Z)) as (ct & ->) by (change y with (c', y).2; rw -Ec; eexists; vm_compute; reflexivity).
  destruct (handlers_agree_with_core None (demo_encrypt "") (TEncrypt (mkEncrypt "k" [x68; x69])) demo_router r' x) as [H _]; [reflexivity..|].
  destruct (H (mkEncrypt "k" [x68; x69]) c' (Ok (ct, 1%Z))) as [Hw Hr]; [reflexivity|discriminate|reflexivity|exact E|exact Ec|].
  exists r', c', ct. split_and!; [|reflexivity|exact Hw]. by rw (proj2 (Hr ct 1%Z) eq_refl).
Defined.

Lemma emergency_freezes_witness : ∃ r', mux demo_cfg demo_panic demo_router = (r', Ok (JOk AEmergencySealed)) ∧
  vs_masterKey (c_seal (r_core r')) = None ∧
  ∃ xs, mux_all demo_cfg [demo_encrypt "to"; demo_panic] r' = (r', xs) ∧ Forall2 (frozen_reply demo_cfg) [demo_encrypt "to"; demo_panic] xs.
Proof.
  destruct (mux demo_cfg demo_panic demo_router) as [r' x] eqn:E.
  assert (x = Ok (JOk AEmergencySealed)) as -> by (change x with (r', x).2; rw -E; vm_compute; reflexivity).
  destruct (emergency_freezes demo_cfg demo_panic demo_router r' AEmergencySealed eq_refl E) as (_ & _ & Hk & _ & _ & Hf).
  exists r'. split_and!; [reflexivity|exact Hk|apply Hf].
Defined.

(** A signature is recorded by the service layer, which names the role, and by the
    router, which names the address; when the log fails at the first call, only the
    second is left. *)
Example two_entries :
  let sign := mux demo_cfg (demo_rq "POST" "/api/v1/sign" "to" (TSign (mkSign "k" []))) in
  let fields c := (λ e, (au_Action e, au_Actor e, au_Result e, au_Status e)) <$> c_audit c in
  let failing c := mkCore (c_seal c) (c_world c) (c_audit c) [true] (c_auditOn c) (c_adminToken c) (c_alerts c) (c_ctxActor c) (c_healthy c) in
  fields (r_core (sign demo_router).1) = [("Sign", "ops", "error", ""); ("Sign", "10.0.0.1:99", "", "failure")] ∧
  fields (r_core (sign (set_core (failing (r_core demo_router)) demo_router)).1) = [("Sign", "10.0.0.1:99", "", "failure")].
Proof. vm_compute. split; reflexivity. Qed.

(** ** What the checks miss *)
(** A role that may only use keys "order-…" gets 403 for "k" from encryption, and yet
    may create "k" anew, and read its MAC. *)
Example create_ignores_key_patterns :
  ask (demo_encrypt "tn") = Ok (JErr 403 "access denied") ∧
  ask (demo_rq "POST" "/api/v1/keys" "tn" (TCreate (mkCreateKey "k" (Some false)))) = Ok (JOk (ACreated "k" 1 None)) ∧
  (∃ mac, ask (demo_rq "POST" "/api/v1/mac/generate" "tn" (TSign (mkSign "k" []))) = Ok (JOk (AMac mac 1))).
Proof. split_and!; [vm_compute; reflexivity..|]. eexists. vm_compute. reflexivity. Qed.
(** The key that creation replaces lives on in the cache only: once that is empty, what was
    encrypted before is lost. *)
Example create_over_existing_key :
  let '(r1, x) := mux demo_cfg (demo_encrypt "to") demo_router in
  match x with
  | Ok (JOk (AEncrypted ct _)) =>
      let dec := demo_rq "POST" "/api/v1/decrypt" "to" (TDecrypt (mkDecrypt "k" ct)) in
      let r2 := (mux demo_cfg (demo_rq "POST" "/api/v1/keys" "to" (TCreate (mkCreateKey "k" None))) r1).1 in
      (mux demo_cfg dec r2).2 = Ok (JOk (ADecrypted [x68; x69] 1)) ∧
      (mux demo_cfg dec (onManager ClearCache r2).1).2 = Ok (JErr 500 "decrypt failed")
  | _ => False
  end.
Proof. vm_compute. split; reflexivity. Qed.
(** Tenant "b" has no key "k", yet its role destroys the one without a tenant by its path. *)
Example path_operations_ignore_tenants :
  ask (demo_encrypt "tb") = Ok (JErr 404 "active key not found") ∧
  ask (demo_rq "DELETE" "/api/v1/keys/k/shred" "tb" (TVersion 1)) = Ok (JOk (AShredded "k" 1)).
Proof. split; vm_compute; reflexivity. Qed.
(** The creation of asymmetric keys checks "asymmetric" against the key patterns. *)
Example asymmetric_checks_path_segment :
  ask (demo_rq "POST" "/api/v1/keys/asymmetric" "tn" (TAsym (mkCreateAsym "order-1" "rsa"))) = Ok (JErr 403 "key not allowed").
Proof. vm_compute. reflexivity. Qed.
