(* ===== verification/Asym.v ===== *)
(** Asymmetric keys: [src/internal/crypto/asymmetric.go], [asymmetric_helpers.go] and the SM2 files
    [sm2.go], [sm2_pem.go], [sm2_asymmetric.go], with their use in [service/core_v12.go] and
    [core_v12_sm2.go]. The arithmetic of RSA-PSS, ECDSA and SM2 and the DER and PEM codecs are a
    class of library calls with their documented behaviour. *)

From S2P Require Import Prelude SecureBuffer Hash AesGcm Ciphertext Kek Vault Store Postgres Metadata Manager Transit Lifecycle Cache KeyManagement Auth Core CoreSpec.
Import MemoryKV.

(** ** The libraries *)
Class AsymLib : Type := {
  rsaPriv : Type; rsaPub : Type; ecPriv : Type; ecPub : Type; sm2Priv : Type; sm2Pub : Type; foreignKey : Type;
  lib_rsa_GenerateKey : Z → M entropy rsaPriv;
  lib_rsa_public : rsaPriv → rsaPub;
  lib_rsa_bits : rsaPub → Z;                                     (* [key.N.BitLen()] *)
  lib_rsa_SignPSS : rsaPriv → bytes → result bytes;              (* of a SHA-256 digest, with some salt *)
  lib_rsa_VerifyPSS : rsaPub → bytes → bytes → result ();
  lib_ec_GenerateKey : M entropy ecPriv;                         (* on P-256 *)
  lib_ec_public : ecPriv → ecPub;
  lib_ec_P256 : ecPub → bool;                                    (* [key.Curve == elliptic.P256()] *)
  lib_ec_SignASN1 : ecPriv → bytes → result bytes;
  lib_ec_VerifyASN1 : ecPub → bytes → bytes → bool;
  lib_sm2_GenerateKey : M entropy sm2Priv;
  lib_sm2_public : sm2Priv → sm2Pub;
  lib_sm2_curve : sm2Pub → bool;                                 (* [Curve == sm2.P256Sm2()] *)
  lib_Sm2Sign : sm2Priv → bytes → bytes → result (Z * Z);        (* message, user id *)
  lib_Sm2Verify : sm2Pub → bytes → bytes → Z → Z → bool;
  lib_SignDigitToSignData : Z → Z → result bytes;
  lib_SignDataToSignDigit : bytes → result (Z * Z);
  lib_EncryptAsn1 : sm2Pub → bytes → M entropy bytes;
  lib_DecryptAsn1 : sm2Priv → bytes → result bytes;
  lib_MarshalSm2PublicKey : sm2Pub → result bytes;
  lib_ParseSm2PublicKey : bytes → result sm2Pub;
  lib_MarshalSm2PrivateKey : sm2Priv → result bytes;
  lib_ParseSm2PrivateKey : bytes → result sm2Priv;
  lib_pem_Encode : string → bytes → bytes;
  lib_pem_Decode : bytes → option (string * bytes * bytes);      (* type, contents, rest *)
  lib_MarshalPKCS8 : rsaPriv + ecPriv → result bytes;
  lib_ParsePKCS8 : bytes → result (rsaPriv + ecPriv + foreignKey);
  lib_MarshalPKIX : rsaPub + ecPub → result bytes;
  lib_ParsePKIX : bytes → result (rsaPub + ecPub + foreignKey);
}.
Class AsymLaws `{!AsymLib} : Prop := {
  law_rsa_bits bits e e' k : lib_rsa_GenerateKey bits e = (e', Ok k) → lib_rsa_bits (lib_rsa_public k) = bits;
  law_rsa_verify k digest sig : lib_rsa_SignPSS k digest = Ok sig → lib_rsa_VerifyPSS (lib_rsa_public k) digest sig = Ok tt ∧ sig ≠ [];
  law_ec_curve e e' k : lib_ec_GenerateKey e = (e', Ok k) → lib_ec_P256 (lib_ec_public k) = true;
  law_ec_verify k digest sig : lib_ec_SignASN1 k digest = Ok sig → lib_ec_VerifyASN1 (lib_ec_public k) digest sig = true ∧ sig ≠ [];
  law_sm2_curve e e' k : lib_sm2_GenerateKey e = (e', Ok k) → lib_sm2_curve (lib_sm2_public k) = true;
  law_sm2_verify k m uid r s : lib_Sm2Sign k m uid = Ok (r, s) → lib_Sm2Verify (lib_sm2_public k) m uid r s = true;
  law_sm2_encrypt k pt e e' ct : lib_EncryptAsn1 (lib_sm2_public k) pt e = (e', Ok ct) → lib_DecryptAsn1 k ct = Ok pt;
  law_digit r s d : lib_SignDigitToSignData r s = Ok d → lib_SignDataToSignDigit d = Ok (r, s);
  law_pem t b : t ∈ ["PUBLIC KEY"; "PRIVATE KEY"] → lib_pem_Decode (lib_pem_Encode t b) = Some (t, b, []) ∧ lib_pem_Encode t b ≠ [];
  law_pkcs8 k der : lib_MarshalPKCS8 k = Ok der → lib_ParsePKCS8 der = Ok (inl k) ∧ der ≠ [];
  law_pkix k der : lib_MarshalPKIX k = Ok der → lib_ParsePKIX der = Ok (inl k);
  law_sm2_public k der : lib_MarshalSm2PublicKey k = Ok der → lib_ParseSm2PublicKey der = Ok k;
  law_sm2_private k der : lib_MarshalSm2PrivateKey k = Ok der → lib_ParseSm2PrivateKey der = Ok k;
}.

Section Asym.
Context `{!AsymLib}.
(** ** asymmetric.go *)
Definition rsaKeyBits : Z := 4096.
Definition errUnsupportedKeyType : error := Err_new "crypto: unsupported key type, must be 'rsa' or 'ecdsa'".
Definition GenerateAsymmetricKey (keyType : string) : M entropy (rsaPriv + ecPriv) :=
  if bool_decide (keyType = KeyTypeRSA) then priv ← wrapM "crypto: generate RSA-4096 key" (lib_rsa_GenerateKey rsaKeyBits); mret (inl priv)
  else if bool_decide (keyType = KeyTypeECDSA) then priv ← wrapM "crypto: generate ECDSA P-256 key" lib_ec_GenerateKey; mret (inr priv)
  else throw errUnsupportedKeyType.
Definition crypto_Sign (privateKey : rsaPriv + ecPriv) (digest : bytes) : result bytes :=
  if bool_decide (digest = []) then Error (Err_new "crypto: empty digest")
  else match privateKey with
       | inl key => if bool_decide (lib_rsa_bits (lib_rsa_public key) < 2048)%Z then Error (Err_new "crypto: RSA key too short")
                    else wrap_err "crypto: RSA-PSS sign" (lib_rsa_SignPSS key digest)
       | inr key => if negb (lib_ec_P256 (lib_ec_public key)) then Error (Err_new "crypto: ECDSA curve must be P-256")
                    else wrap_err "crypto: ECDSA sign" (lib_ec_SignASN1 key digest)
       end.
Definition crypto_Verify (publicKey : rsaPub + ecPub) (digest signature : bytes) : result () :=
  if bool_decide (digest = []) || bool_decide (signature = []) then Error (Err_new "crypto: empty digest or signature")
  else match publicKey with
       | inl key => if bool_decide (lib_rsa_bits key < 2048)%Z then Error (Err_new "crypto: RSA public key too short")
                    else wrap_err "crypto: RSA-PSS verify" (lib_rsa_VerifyPSS key digest signature)
       | inr key => if negb (lib_ec_P256 key) then Error (Err_new "crypto: ECDSA public key curve must be P-256")
                    else if negb (lib_ec_VerifyASN1 key digest signature) then Error (Err_new "crypto: ECDSA verify failed") else Ok tt
       end.
Definition PrivateKeyToDER (privateKey : rsaPriv + ecPriv) : result bytes :=
  wrap_err "crypto: marshal private key to PKCS#8 DER" (lib_MarshalPKCS8 privateKey).
(** The buffer, and the DER as it is left in memory. *)
Definition PrivateKeyToSecureDER (privateKey : rsaPriv + ecPriv) : result (SecureBuffer * bytes) :=
  der ← PrivateKeyToDER privateKey; let '(sb, der) := NewSecureBuffer der in Ok (sb, clear der).
(** ** asymmetric_helpers.go *)
Definition PublicKeyToPEM (publicKey : rsaPub + ecPub) : result bytes :=
  der ← wrap_err "crypto: marshal public key" (lib_MarshalPKIX publicKey); Ok (lib_pem_Encode "PUBLIC KEY" der).
Definition ParsePrivateKeyFromDER (der : bytes) : result (rsaPriv + ecPriv) :=
  key ← wrap_err "crypto: parse PKCS#8 private key" (lib_ParsePKCS8 der);
  match key with inl k => Ok k | inr _ => Error (Err_new "crypto: unsupported private key type") end.
Definition ParsePublicKeyFromPEM (pemBytes : bytes) : result (rsaPub + ecPub) :=
  if bool_decide (pemBytes = []) then Error (Err_new "crypto: empty public key PEM data")
  else match lib_pem_Decode pemBytes with
       | None => Error (Err_new "crypto: no PEM block found in public key data")
       | Some (t, b, rest) =>
           if negb (bool_decide (rest = [])) then Error (Err_new "crypto: trailing data after public key PEM block")
           else if negb (bool_decide (t = "PUBLIC KEY")) then Error (Err_new "crypto: unexpected PEM type")
           else key ← wrap_err "crypto: parse PKIX public key" (lib_ParsePKIX b);
                match key with inl k => Ok k | inr _ => Error (Err_new "crypto: unsupported public key type (possible algorithm confusion)") end
       end.

(** ** sm2_pem.go and sm2.go *)
Definition marshalSMPublicKeyPEM (pub : sm2Pub) : result bytes :=
  der ← wrap_err "marshal SM2 public key" (lib_MarshalSm2PublicKey pub); Ok (lib_pem_Encode "PUBLIC KEY" der).
Definition marshalSMPrivateKeyPEM (priv : sm2Priv) : result bytes :=
  der ← wrap_err "marshal SM2 private key" (lib_MarshalSm2PrivateKey priv); Ok (lib_pem_Encode "PRIVATE KEY" der).
(** One PEM block of the given type with nothing after it. *)
Definition sm2_block (what type : string) (pemData : bytes) : result bytes :=
  if bool_decide (pemData = []) then Error (Err_new (what +:+ ": empty PEM data"))
  else match lib_pem_Decode pemData with
       | None => Error (Err_new (what +:+ ": no PEM block found"))
       | Some (t, b, rest) =>
           if negb (bool_decide (rest = [])) then Error (Err_new (what +:+ ": trailing data after PEM block"))
           else if negb (bool_decide (t = type)) then Error (Err_new (what +:+ ": unexpected PEM type"))
           else Ok b
       end.
Definition parseSMPublicKeyPEM (pemData : bytes) : result sm2Pub :=
  b ← sm2_block "parse SM2 public key" "PUBLIC KEY" pemData;
  pub ← wrap_err "parse SM2 public key DER" (lib_ParseSm2PublicKey b);
  if lib_sm2_curve pub then Ok pub else Error (Err_new "parse SM2 public key: unexpected curve (possible algorithm confusion attack)").
Definition parseSMPrivateKeyPEM (pemData : bytes) : result sm2Priv :=
  b ← sm2_block "parse SM2 private key" "PRIVATE KEY" pemData;
  priv ← wrap_err "parse SM2 private key (PKCS8)" (lib_ParseSm2PrivateKey b);
  if lib_sm2_curve (lib_sm2_public priv) then Ok priv
  else Error (Err_new "parse SM2 private key: unexpected curve (possible algorithm confusion attack)").
(** A nil pointer is [None]. *)
Record SM2PublicKey : Type := mkSM2Pub { s2_Key : sm2Pub; s2_PEM : bytes }.
Definition SM2PrivateKey : Type := sm2Priv.
Definition GenerateSM2KeyPair : M entropy (SM2PublicKey * SM2PrivateKey) :=
  priv ← wrapM "crypto: sm2 generate key" lib_sm2_GenerateKey;
  pubPEM ← wrapM "crypto: sm2 public key to PEM" (lift (marshalSMPublicKeyPEM (lib_sm2_public priv)));
  mret (mkSM2Pub (lib_sm2_public priv) pubPEM, priv).
Definition SM2Encrypt (pub : option SM2PublicKey) (plaintext : bytes) : M entropy bytes :=
  match pub with
  | None => throw (Err_new "crypto: sm2 encrypt: nil public key")
  | Some pub => wrapM "crypto: sm2 encrypt" (lib_EncryptAsn1 (s2_Key pub) plaintext)
  end.
Definition SM2Decrypt (priv : option SM2PrivateKey) (ciphertext : bytes) : result bytes :=
  match priv with
  | None => Error (Err_new "crypto: sm2 decrypt: nil private key")
  | Some priv => wrap_err "crypto: sm2 decrypt" (lib_DecryptAsn1 priv ciphertext)
  end.
(** The user id is a variable of the package. *)
Definition default_UID : bytes := str_bytes "1234567812345678".
Definition SetSM2UID (uid sm2UID : bytes) : bytes := match uid with [] => sm2UID | _ => uid end.
Definition SM2Sign (sm2UID : bytes) (priv : option SM2PrivateKey) (msg : bytes) : result bytes :=
  match priv with
  | None => Error (Err_new "crypto: sm2 sign: nil private key")
  | Some priv =>
      '(r, s) ← wrap_err "crypto: sm2 sign" (lib_Sm2Sign priv msg sm2UID);
      wrap_err "crypto: sm2 sign encode" (lib_SignDigitToSignData r s)
  end.
Definition SM2Verify (sm2UID : bytes) (pub : option SM2PublicKey) (msg sig : bytes) : result bool :=
  match pub with
  | None => Error (Err_new "crypto: sm2 verify: nil public key")
  | Some pub =>
      '(r, s) ← wrap_err "crypto: sm2 verify decode" (lib_SignDataToSignDigit sig);
      Ok (lib_Sm2Verify (s2_Key pub) msg sm2UID r s)
  end.
Definition SM2PrivateKeyToPEM (priv : option SM2PrivateKey) : result bytes :=
  match priv with None => Error (Err_new "crypto: sm2 private key to PEM: nil key") | Some priv => marshalSMPrivateKeyPEM priv end.
Definition SM2PrivateKeyFromPEM (pemData : bytes) : result SM2PrivateKey := parseSMPrivateKeyPEM pemData.
Definition SM2PublicKeyFromPEM (pemData : bytes) : result SM2PublicKey :=
  pub ← parseSMPublicKeyPEM pemData; Ok (mkSM2Pub pub pemData).
(** sm2_asymmetric.go *)
Definition GenerateSM2AsymmetricKey : M entropy (SecureBuffer * bytes) :=
  '(pub, priv) ← GenerateSM2KeyPair;
  privPEM ← wrapM "crypto: sm2 private key to PEM" (lift (SM2PrivateKeyToPEM (Some priv)));
  mret ((NewSecureBuffer privPEM).1, s2_PEM pub).

(** ** core_v12.go and core_v12_sm2.go *)
Definition signSM2 (uid privKeyPEM data : bytes) : result bytes :=
  priv ← wrap_err "service: parse SM2 private key" (SM2PrivateKeyFromPEM privKeyPEM);
  wrap_err "service: SM2 sign" (SM2Sign uid (Some priv) data).
Definition verifySM2Key (uid pubKeyPEM data signature : bytes) : result bool :=
  pub ← wrap_err "service: parse SM2 public key" (SM2PublicKeyFromPEM pubKeyPEM);
  wrap_err "service: SM2 verify" (SM2Verify uid (Some pub) data signature).
(** [signAsymmetric] and the branch of [verifyAsymmetric], given the SHA-256 digest of the data:
    a signature that does not verify is an answer, not an error. *)
Definition sign_digest (privKeyDER digest : bytes) : result bytes :=
  privKey ← wrap_err "service: parse private key" (ParsePrivateKeyFromDER privKeyDER); crypto_Sign privKey digest.
Definition verify_digest (pubKeyPEM digest signature : bytes) : result bool :=
  pubKey ← wrap_err "service: parse public key" (ParsePublicKeyFromPEM pubKeyPEM); Ok (is_ok (crypto_Verify pubKey digest signature)).
Definition signAsymmetric (privKeyDER data : bytes) : result bytes := sign_digest privKeyDER (sha256 data).
Definition verifyAsymmetric (uid pubKeyPEM data signature : bytes) (keyType : string) : result bool :=
  if bool_decide (keyType = KeyTypeSM2) then verifySM2Key uid pubKeyPEM data signature
  else if bool_decide (keyType = KeyTypeRSA) || bool_decide (keyType = KeyTypeECDSA) then verify_digest pubKeyPEM (sha256 data) signature
  else Error (Err_new "service: unsupported key type").
(** The signer that [Core.Sign] and [Core.Verify] are given. *)
Definition service_signer (uid : bytes) : signer := {|
  sg_sign keyType priv input := if bool_decide (keyType = KeyTypeSM2) then signSM2 uid priv input else sign_digest priv input;
  sg_verify keyType pub input sig := if bool_decide (keyType = KeyTypeSM2) then verifySM2Key uid pub input sig else verify_digest pub input sig;
|}.
(** The generators of the key manager: steps 1, 2 and 4 of [CreateAsymmetricKey], and SM2. *)
Definition generated (k : rsaPriv + ecPriv) : rsaPub + ecPub := match k with inl k => inl (lib_rsa_public k) | inr k => inr (lib_ec_public k) end.
Definition asym_keygen : keygen := λ algoType,
  privKey ← GenerateAsymmetricKey algoType;
  '(derSB, _) ← lift (PrivateKeyToSecureDER privKey);
  pubPEM ← lift (PublicKeyToPEM (generated privKey));
  mret (derSB, pubPEM).
Definition sm2_keygen : keygen := λ _, GenerateSM2AsymmetricKey.

(** ** Both halves fit *)
Context `{!AsymLaws}.
Lemma parse_public k pem : PublicKeyToPEM k = Ok pem → ParsePublicKeyFromPEM pem = Ok k.
Proof.
  rw /PublicKeyToPEM. intros (der & Hder%wrap_err_ok & [= <-])%result_bind_ok. destruct (law_pem "PUBLIC KEY" der) as [E Hne]; [left|].
  rw /ParsePublicKeyFromPEM bool_decide_eq_false_2 // E /=. by rw (law_pkix _ _ Hder).
Qed.
Lemma parse_private k sb rest : PrivateKeyToSecureDER k = Ok (sb, rest) → ParsePrivateKeyFromDER (sb_data sb) = Ok k ∧ sb_data sb ≠ [] ∧ live sb.
Proof.
  rw /PrivateKeyToSecureDER /PrivateKeyToDER. intros (der & [Hp Hne]%wrap_err_ok%law_pkcs8 & [= <- _])%result_bind_ok.
  by rw /ParsePrivateKeyFromDER /= Hp.
Qed.
Lemma sign_verifies keyType e e' k digest sig : GenerateAsymmetricKey keyType e = (e', Ok k) → crypto_Sign k digest = Ok sig →
  crypto_Verify (generated k) digest sig = Ok tt.
Proof.
  rw /GenerateAsymmetricKey /crypto_Sign /crypto_Verify. intros Hg Hs.
  destruct (decide (digest = [])) as [->|Hd]; [done|]. rw bool_decide_eq_false_2 // in Hs. rw [bool_decide (digest = [])]bool_decide_eq_false_2 //=.
  destruct (decide (keyType = KeyTypeRSA)); [|destruct (decide (keyType = KeyTypeECDSA))].
  - rw bool_decide_eq_true_2 // in Hg. inv_M. rw (law_rsa_bits _ _ _ _ Hm) bool_decide_eq_false_2 // in Hs.
    apply wrap_err_ok, law_rsa_verify in Hs as [Hv Hne]. by rw /= (law_rsa_bits _ _ _ _ Hm) !bool_decide_eq_false_2 // Hv.
  - rw bool_decide_eq_false_2 // bool_decide_eq_true_2 // in Hg. inv_M. rw (law_ec_curve _ _ _ Hm) /= in Hs.
    apply wrap_err_ok, law_ec_verify in Hs as [Hv Hne]. by rw /= (law_ec_curve _ _ _ Hm) bool_decide_eq_false_2 // Hv.
  - by rw !bool_decide_eq_false_2 // in Hg.
Qed.
Lemma sm2_pair e e' sb pub : GenerateSM2AsymmetricKey e = (e', Ok (sb, pub)) → ∃ k, parseSMPrivateKeyPEM (sb_data sb) = Ok k ∧
  parseSMPublicKeyPEM pub = Ok (lib_sm2_public k) ∧ sb_data sb ≠ [] ∧ live sb.
Proof.
  rw /GenerateSM2AsymmetricKey /GenerateSM2KeyPair. intros Hk. inv_M. exists a0. simpl in Hm |- *.
  rw /marshalSMPublicKeyPEM in Hm1. apply result_bind_ok in Hm1 as (der & Hder%wrap_err_ok & [= <-]).
  rw /marshalSMPrivateKeyPEM in Hm. apply result_bind_ok in Hm as (der' & Hder'%wrap_err_ok & [= <-]).
  destruct (law_pem "PUBLIC KEY" der) as [E Hne]; [left|]. destruct (law_pem "PRIVATE KEY" der') as [E' Hne']; [right; left|].
  rw /parseSMPrivateKeyPEM /parseSMPublicKeyPEM /sm2_block !bool_decide_eq_false_2 // E E' /=.
  rw (law_sm2_public _ _ Hder) (law_sm2_private _ _ Hder') /= (law_sm2_curve _ _ _ Hm0). done.
Qed.

(** A key type, a private key as stored and a public key as stored that were generated together. *)
Definition paired (keyType : string) (sb : SecureBuffer) (pub : bytes) : Prop :=
  ∃ e e', (if bool_decide (keyType = KeyTypeSM2) then sm2_keygen keyType e else asym_keygen keyType e) = (e', Ok (sb, pub)).
Lemma paired_live keyType sb pub : paired keyType sb pub → sb_data sb ≠ [] ∧ live sb.
Proof.
  intros (e & e' & Hg). case_bool_decide.
  - by apply sm2_pair in Hg as (k & _ & _ & ?).
  - rw /asym_keygen in Hg. inv_M. destruct a0 as [sb0 rest]. inv_M. by apply parse_private in Hm0 as (_ & ?).
Qed.
Lemma paired_signs uid keyType sb pub input sig : paired keyType sb pub →
  sg_sign (service_signer uid) keyType (sb_data sb) input = Ok sig → sg_verify (service_signer uid) keyType pub input sig = Ok true.
Proof.
  intros (e & e' & Hg). rw /=. case_bool_decide.
  - apply sm2_pair in Hg as (k & Hpriv & Hpub & _). rw /signSM2 /verifySM2Key /SM2PrivateKeyFromPEM /SM2PublicKeyFromPEM Hpriv Hpub /=.
    intros ([r s] & Hs%wrap_err_ok & Hd%wrap_err_ok)%wrap_err_ok%result_bind_ok. rw (law_digit _ _ _ Hd) /=. by rw (law_sm2_verify _ _ _ _ _ Hs).
  - rw /asym_keygen in Hg. inv_M. destruct a0 as [sb0 rest]. inv_M. apply parse_private in Hm0 as (Hpriv & _).
    match goal with H : PublicKeyToPEM _ = _ |- _ => apply parse_public in H as Hpub end.
    rw /sign_digest /verify_digest Hpriv Hpub /=. intros Hs. by rw (sign_verifies _ _ _ _ _ _ Hm Hs).
Qed.

(** The record of a created key holds both halves of one pair. *)
Definition holds_pair (kek : KEK) (meta : KeyMetadata) : Prop :=
  ∃ sb, paired (km_KeyType meta) sb (km_PublicKey meta) ∧ kek_UnwrapDEK kek (km_Material meta) = Ok (mkSB (sb_data sb) false).
Section Service.
Context {V S : Type} `{!Unsealer V, !UnsealerLaws V, !KVStore S, !KVStoreLaws S}.
Lemma created_holds_pair kek `{!LawfulKEK kek} id alg (w w' : S * Env) meta :
  CreateAsymmetricKey asym_keygen (Some sm2_keygen) id alg (Some kek) w = (w', Ok meta) → holds_pair kek meta ∧ km_Version meta = 1%Z.
Proof.
  rw /CreateAsymmetricKey. intros Hc. inv_M. injection Hm0 as <- <-. destruct a3 as [sb pub]. inv_M. split; [|done].
  assert (paired alg sb pub) as Hp.
  { destruct s2 as [st env]. rw /onRand in Hm3. destruct (a2 alg (m_rand env)) as [rnd r] eqn:Eg. injection Hm3 as _ ->. exists (m_rand env), rnd.
    case_bool_decide; injection Hm2 as _ <-; exact Eg. }
  exists sb. split; [exact Hp|]. destruct s3 as [st env]. rw /onRand in Hm0. destruct (kek_WrapDEK kek sb (m_rand env)) as [rnd r] eqn:Ew.
  injection Hm0 as _ ->. eapply kek_roundtrip; [|done]. by eapply paired_live.
Qed.
Lemma pair_public_nonempty kek meta : holds_pair kek meta → km_PublicKey meta ≠ [].
Proof.
  intros (sb & (e & e' & Hg) & _) E. rw E in Hg. case_bool_decide.
  - by apply sm2_pair in Hg as (k & _ & ? & _).
  - rw /asym_keygen in Hg. inv_M. destruct a0 as [sb0 rest]. inv_M. match goal with H : PublicKeyToPEM _ = _ |- _ => by apply parse_public in H end.
Qed.
Lemma Sign_inv sg kek id data pol (c c1 : Core V S) w1 meta sig v : open_for kek pol "Sign" id c → GetActiveKey id (c_world c) = (w1, Ok meta) →
  Sign sg id data pol c = (c1, Ok (sig, v)) → v = km_Version meta ∧ isAsymmetricKeyType (km_KeyType meta) = true ∧
  ∃ sb key, kek_UnwrapDEK kek (km_Material meta) = Ok sb ∧ WithKeyR sb Ok = Ok key ∧ sg_sign sg (km_KeyType meta) key (sign_input (km_KeyType meta) data) = Ok sig.
Proof.
  intros Ho Hg Hs. rw /Sign (M_bind_step _ _ _ _ _ (open_unsealed _ _ _ _ _ Ho)) (M_bind_step _ _ _ _ _ (open_authorized _ _ _ _ _ Ho)) in Hs.
  apply audited_inv in Hs as (c2 & Hs & _). apply M_bind_ok in Hs as (c3 & meta' & Hm & Hs). rw /onM Hg in Hm. injection Hm as <- <-.
  apply M_bind_ok in Hs as (c4 & [] & [Ha ->]%guardM_ok & Hs). apply M_bind_ok in Hs as (c5 & sig' & Hk & [= _ <- <-]).
  rw /withKEK (of_kek _ _ _ _ c Ho) in Hk. apply M_bind_ok in Hk as (c6 & sb & [Hu%wrap_err_ok ->]%lift_ok & Hk).
  apply M_bind_ok in Hk as (c7 & key & [Hkey ->]%lift_ok & [Hsig _]%lift_ok). split; [done|]. split; [done|]. by exists sb, key.
Qed.
Lemma Verify_ok sg kek id data sig pol (c : Core V S) w1 meta b : open_for kek pol "Verify" id c → GetActiveKey id (c_world c) = (w1, Ok meta) →
  km_PublicKey meta ≠ [] → isAsymmetricKeyType (km_KeyType meta) = true →
  sg_verify sg (km_KeyType meta) (km_PublicKey meta) (sign_input (km_KeyType meta) data) sig = Ok b →
  ∃ c1, Verify sg id data sig pol c = (c1, Ok (b, km_Version meta)).
Proof.
  intros Ho Hg Hp Ha Hv. rw /Verify (M_bind_step _ _ _ _ _ (open_unsealed _ _ _ _ _ Ho)) (M_bind_step _ _ _ _ _ (open_authorized _ _ _ _ _ Ho)).
  edestruct (audited_ok (V := V) (S := S) (A := bool * Z) "Verify" id) as (c2 & H2 & _); [|exists c2; exact H2].
  rw /mbind /M_bind /onM Hg /guardM bool_decide_eq_false_2 //= Ha /lift Hv. reflexivity.
Qed.

(** C40: what the service signs it verifies: after [CreateAsymmetricKey] for RSA, ECDSA or SM2, as
    long as that record is the active one, every signature that [Sign] returns for it is accepted
    by [Verify] of the same data, whoever asks, at version 1; the halves survive the DER and PEM
    forms, the wrapping by the key-encryption key and the hashing on both sides. *)
Theorem created_key_signs kek `{!LawfulKEK kek} uid id alg (w w' : S * Env) meta :
  CreateAsymmetricKey asym_keygen (Some sm2_keygen) id alg (Some kek) w = (w', Ok meta) →
  ∀ data pol (c c1 : Core V S) w1 sig v,
    open_for kek pol "Sign" id c → GetActiveKey id (c_world c) = (w1, Ok meta) → Sign (service_signer uid) id data pol c = (c1, Ok (sig, v)) →
    v = 1%Z ∧
    ∀ pol' (c2 : Core V S) w2, open_for kek pol' "Verify" id c2 → GetActiveKey id (c_world c2) = (w2, Ok meta) →
      ∃ c3, Verify (service_signer uid) id data sig pol' c2 = (c3, Ok (true, 1%Z)).
Proof.
  intros [Hpair Hv1]%created_holds_pair data pol c c1 w1 sig v Ho Hg Hs; [|done].
  apply (Sign_inv _ kek) with (w1 := w1) (meta := meta) in Hs as (-> & Ha & sb & key & Hu & Hkey & Hsig); [|done..]. split; [done|].
  intros pol' c2 w2 Ho' Hg'. rw -Hv1. eapply Verify_ok; [done|done|by eapply pair_public_nonempty|done|].
  destruct Hpair as (sb0 & Hp & Hu0). rw Hu0 in Hu. injection Hu as <-. injection Hkey as <-. by eapply paired_signs.
Qed.
End Service.
End Asym.

(** ** Libraries that behave as documented *)
(** One key of each kind; a signature is a mark in front of the digest. *)
Definition pem_mark (t : string) : byte := if bool_decide (t = "PUBLIC KEY") then x01 else x02.
#[export] Instance demo_asym : AsymLib := {
  rsaPriv := unit; rsaPub := unit; ecPriv := unit; ecPub := unit; sm2Priv := unit; sm2Pub := unit; foreignKey := unit;
  lib_rsa_GenerateKey bits := if bool_decide (bits = 4096%Z) then mret tt else throw (Err_new "rsa: key size");
  lib_rsa_public _ := tt; lib_rsa_bits _ := 4096%Z;
  lib_rsa_SignPSS _ d := Ok (x52 :: d);
  lib_rsa_VerifyPSS _ d sig := if bool_decide (sig = x52 :: d) then Ok tt else Error (Err_new "crypto/rsa: verification error");
  lib_ec_GenerateKey := mret tt; lib_ec_public _ := tt; lib_ec_P256 _ := true;
  lib_ec_SignASN1 _ d := Ok (x45 :: d); lib_ec_VerifyASN1 _ d sig := bool_decide (sig = x45 :: d);
  lib_sm2_GenerateKey := mret tt; lib_sm2_public _ := tt; lib_sm2_curve _ := true;
  lib_Sm2Sign _ m _ := Ok (Z.of_nat (length m), 1%Z);
  lib_Sm2Verify _ m _ r s := bool_decide (r = Z.of_nat (length m)) && bool_decide (s = 1%Z);
  lib_SignDigitToSignData r s := if bool_decide (0 ≤ r < 256 ∧ s = 1)%Z then Ok [z2b r] else Error (Err_new "asn1");
  lib_SignDataToSignDigit d := match d with [b] => Ok (b2z b, 1%Z) | _ => Error (Err_new "asn1") end;
  lib_EncryptAsn1 _ pt := mret pt; lib_DecryptAsn1 _ ct := Ok ct;
  lib_MarshalSm2PublicKey _ := Ok [x30]; lib_ParseSm2PublicKey _ := Ok tt;
  lib_MarshalSm2PrivateKey _ := Ok [x31]; lib_ParseSm2PrivateKey _ := Ok tt;
  lib_pem_Encode t b := pem_mark t :: b;
  lib_pem_Decode l := match l with x01 :: b => Some ("PUBLIC KEY", b, []) | x02 :: b => Some ("PRIVATE KEY", b, []) | _ => None end;
  lib_MarshalPKCS8 k := match k with inl _ => Ok [x01] | inr _ => Ok [x02] end;
  lib_ParsePKCS8 der := match der with [x01] => Ok (inl (inl tt)) | [x02] => Ok (inl (inr tt)) | _ => Ok (inr tt) end;
  lib_MarshalPKIX k := match k with inl _ => Ok [x01] | inr _ => Ok [x02] end;
  lib_ParsePKIX der := match der with [x01] => Ok (inl (inl tt)) | [x02] => Ok (inl (inr tt)) | _ => Ok (inr tt) end;
}.
#[export] Instance demo_asym_laws : AsymLaws.
Proof.
  split; cbn.
  - intros bits e e' k. case_bool_decide; [by subst|done].
  - intros k d sig [= <-]. by rw bool_decide_eq_true_2.
  - done.
  - intros k d sig [= <-]. by rw bool_decide_eq_true_2.
  - done.
  - intros k m uid r s [= <- <-]. by rw !bool_decide_eq_true_2.
  - by intros k pt e e' ct [= _ ->].
  - intros r s d. case_bool_decide as Hr; [|done]. intros [= <-]. destruct Hr as [Hr ->]. by rw b2z_z2b Z.mod_small.
  - intros t b [->|[->|[]%not_elem_of_nil]%elem_of_cons]%elem_of_cons; done.
  - intros [[]|[]] der [= <-]; done.
  - intros [[]|[]] der [= <-]; done.
  - by intros [] der _.
  - by intros [] der _.
Qed.
Definition demo_created : (WMem * Env) * result KeyMetadata :=
  CreateAsymmetricKey asym_keygen (Some sm2_keygen) "sig" KeyTypeECDSA (Some (NewSoftwareKEK demo_key)) (demo_world (demo_entropy 40)).
Lemma created_key_signs_witness : ∃ c1 sig c3,
  Sign (service_signer default_UID) "sig" [x68; x69] None (demo_core demo_created.1) = (c1, Ok (sig, 1%Z)) ∧
  Verify (service_signer default_UID) "sig" [x68; x69] sig None (demo_core demo_created.1) = (c3, Ok (true, 1%Z)).
Proof.
  assert (match demo_created.2, (GetActiveKey "sig" demo_created.1).2 with Ok m, Ok m' => m = m' | _, _ => False end) as Hm by (vm_compute; reflexivity).
  assert (match (Sign (service_signer default_UID) "sig" [x68; x69] None (demo_core demo_created.1)).2 with Ok _ => True | _ => False end) as Hs by (vm_compute; exact I).
  destruct demo_created as [w' [meta| |]] eqn:Ec; [|destruct Hm..].
  destruct (GetActiveKey "sig" w') as [w1 [meta'| |]] eqn:Eg; simpl in Hm, Hs; rewrite ?Eg in Hm; [|destruct Hm..]. simpl in Hm. subst meta'.
  destruct (Sign (service_signer default_UID) "sig" [x68; x69] None (demo_core w')) as [c1 [[sig v]| |]] eqn:Es; [|destruct Hs..].
  destruct (created_key_signs (V := VaultState) (NewSoftwareKEK demo_key) default_UID "sig" KeyTypeECDSA _ _ meta Ec
    [x68; x69] None (demo_core w') c1 w1 sig v (demo_open "Sign" "sig" w') Eg Es) as [-> H].
  destruct (H None (demo_core w') w1 (demo_open "Verify" "sig" w') Eg) as [c3 H3].
  exists c1, sig, c3. split; [exact Es|exact H3].
Defined.
