(* ===== verification/ExtAuth.v ===== *)
(** What the external authenticators fetch and check beyond [Jwt]: the SM2 signing method for
    tokens ([src/internal/auth/jwt_sm2.go]) and the download of the key set from the API server
    of the cluster ([FetchK8sJWKSFromAPI] of [src/internal/auth/k8s_authenticator.go]). *)

From S2P Require Import Prelude Hash Json Rfc3339 Metadata Auth Jwt Settings Asym.

(** ** jwt_sm2.go *)
Section Sm2.
Context `{!AsymLib}.
(** [key any] *)
Inductive jwt_key : Type := JSm2Public (k : sm2Pub) | JSm2Private (k : sm2Priv) | JOtherKey.
Definition Alg : string := "SM2".
Definition jwt_uid : bytes := str_bytes "1234567812345678".
Definition ErrSignatureInvalid : error := Err_new "signature is invalid".
Definition VerifySM2 (signingString : string) (signature : bytes) (key : jwt_key) : result () :=
  match key with
  | JSm2Public pub =>
      '(r, s) ← wrap_err "auth: SM2 verify: decode signature" (lib_SignDataToSignDigit signature);
      if lib_Sm2Verify pub (str_bytes signingString) jwt_uid r s then Ok tt else Error ErrSignatureInvalid
  | _ => Error (Err_new "auth: SM2 verify: invalid key type")
  end.
Definition SignSM2 (signingString : string) (key : jwt_key) : result bytes :=
  match key with
  | JSm2Private priv =>
      '(r, s) ← wrap_err "auth: SM2 sign" (lib_Sm2Sign priv (str_bytes signingString) jwt_uid);
      wrap_err "auth: SM2 sign: encode" (lib_SignDigitToSignData r s)
  | _ => Error (Err_new "auth: SM2 sign: invalid key type")
  end.
End Sm2.

(** ** A JSON value in a stream *)
(** [json.Decoder.Decode] into a [json.RawMessage]: the text of the first value. The scanner
    returns what follows a value; [depth] counts the enclosing arrays and objects. *)
Definition maxNestingDepth : Z := 10000.
Fixpoint skip_digits (l : bytes) : bytes := match l with b :: l' => if is_digit b then skip_digits l' else l | [] => [] end.
Definition some_digits (l : bytes) : option bytes := match l with b :: l' => if is_digit b then Some (skip_digits l') else None | [] => None end.
Definition scan_exp (l : bytes) : option bytes :=
  match l with
  | (x65 | x45) :: (x2b | x2d) :: l => some_digits l
  | (x65 | x45) :: l => some_digits l
  | _ => Some l
  end.
Definition scan_number (l : bytes) : option bytes :=
  let l := match l with x2d :: l => l | _ => l end in
  l ← match l with x30 :: l => Some l | _ => some_digits l end;
  l ← match l with x2e :: l => some_digits l | _ => Some l end;
  scan_exp l.
(** The rest of a string, after its opening quote. *)
Definition scan_string (l : bytes) : option bytes := snd <$> parse_str l.
Definition literal (w : string) (l : bytes) : option bytes :=
  if bool_decide (take (String.length w) l = str_bytes w) then Some (drop (String.length w) l) else None.
(** What begins at a byte, and what is expected next: a value, the elements of an array, or the
    members of an object. *)
Inductive starts : Type := SString | SObject | SArray | SWord (w : string) | SNumber.
Definition starts_with (b : byte) : starts :=
  match b with
  | x22 => SString | x7b => SObject | x5b => SArray | x74 => SWord "true" | x66 => SWord "false" | x6e => SWord "null" | _ => SNumber
  end.
Inductive expect : Type := EValue | EElements | EMembers.
Fixpoint scan (fuel : nat) (depth : Z) (x : expect) (l : bytes) : option bytes :=
  match fuel with
  | 0 => None
  | S fuel =>
      let nested (x : expect) (closing : byte) (l : bytes) : option bytes :=
        if bool_decide (maxNestingDepth < depth + 1)%Z then None
        else match eat closing l with Some l => Some l | None => scan fuel (depth + 1) x l end in
      let continue (x : expect) (closing : byte) (l : bytes) : option bytes :=
        match eat x2c l with Some l => scan fuel depth x l | None => eat closing l end in
      match x with
      | EValue =>
          match skip_ws l with
          | [] => None
          | b :: l' => match starts_with b with
                       | SString => scan_string l'
                       | SObject => nested EMembers x7d l'
                       | SArray => nested EElements x5d l'
                       | SWord w => literal w (b :: l')
                       | SNumber => scan_number (b :: l')
                       end
          end
      | EElements => l ← scan fuel depth EValue l; continue EElements x5d l
      | EMembers => l ← eat x22 l; l ← scan_string l; l ← eat x3a l; l ← scan fuel depth EValue l; continue EMembers x7d l
      end
  end.
Definition decode_raw (body : bytes) : option bytes :=
  let l := skip_ws body in
  rest ← scan (S (2 * length l)) 0 EValue l;
  Some (take (length l - length rest) l).

(** ** FetchK8sJWKSFromAPI *)
(** The request; [jr_roots] are the certificates the server is checked against. *)
Record jwks_request : Type := mkJwksRequest { jr_url : string; jr_authorization : bytes; jr_roots : bytes; jr_MinVersion : Z; jr_timeout : Z }.
(** What the pod offers: its environment, its files, and the network. *)
Record pod : Type := mkPod {
  pd_Getenv : string → string;
  pd_ReadFile : string → option bytes;
  pd_parseIP : string → bool;
  pd_AppendCertsFromPEM : bytes → bool;
  pd_NewRequest : string → bool;                       (* the URL parses *)
  pd_Do : jwks_request → result (Z * bytes);           (* status and body *)
}.
Definition sa_dir : string := "/var/run/secrets/kubernetes.io/serviceaccount/".
Definition jwks_url (host port : string) : string := "https://" +:+ host +:+ ":" +:+ port +:+ "/openid/v1/jwks".
(** The request that is sent, if any, and the outcome. *)
Definition FetchK8sJWKSFromAPI (pd : pod) : option jwks_request * result bytes :=
  let apiServer := pd_Getenv pd "KUBERNETES_SERVICE_HOST" in
  if bool_decide (apiServer = "") then (None, Error (Err_new "auth: k8s: not running in cluster (KUBERNETES_SERVICE_HOST not set)"))
  else match validateHost (pd_parseIP pd) apiServer with
  | Error e => (None, Error (Err_wrap "auth: k8s: invalid KUBERNETES_SERVICE_HOST" e))
  | Panic m => (None, Panic m)
  | Ok _ =>
      let apiPort := pd_Getenv pd "KUBERNETES_SERVICE_PORT" in
      let apiPort := if bool_decide (apiPort = "") then "443" else apiPort in
      match Atoi apiPort, pd_ReadFile pd (sa_dir +:+ "token"), pd_ReadFile pd (sa_dir +:+ "ca.crt") with
      | None, _, _ => (None, Error (Err_new "auth: k8s: invalid KUBERNETES_SERVICE_PORT"))
      | _, None, _ => (None, Error (Err_new "auth: k8s: read SA token"))
      | _, _, None => (None, Error (Err_new "auth: k8s: read CA"))
      | Some _, Some saToken, Some caCert =>
          let url := jwks_url apiServer apiPort in
          if negb (pd_AppendCertsFromPEM pd caCert) then (None, Error (Err_new "auth: k8s: failed to parse CA certificate"))
          else if negb (pd_NewRequest pd url) then (None, Error (Err_new "parse url"))
          else
            let req := mkJwksRequest url (str_bytes "Bearer " ++ saToken) caCert 0x0303 (10 * nano) in
            (Some req,
             match pd_Do pd req with
             | Error e => Error (Err_wrap "auth: k8s: fetch JWKS" e)
             | Panic m => Panic m
             | Ok (status, body) =>
                 if negb (bool_decide (status = 200%Z)) then Error (Err_new "auth: k8s: JWKS fetch status")
                 else match decode_raw body with Some jwks => Ok jwks | None => Error (Err_new "auth: k8s: decode JWKS") end
             end)
      end
  end.

(** ** Properties *)
(** A token signed by the method is accepted under the public half of the key, and a token
    that is accepted carries a signature of its text. *)
Lemma sm2_token_roundtrip `{!AsymLib, !AsymLaws} text k sig : SignSM2 text (JSm2Private k) = Ok sig → VerifySM2 text sig (JSm2Public (lib_sm2_public k)) = Ok tt.
Proof.
  rw /SignSM2 /VerifySM2. destruct (lib_Sm2Sign _ _ _) as [[r s]| |] eqn:E; [|done..]. cbn.
  destruct (lib_SignDigitToSignData r s) as [d| |] eqn:Ed; [|done..]. intros [= <-].
  rewrite (law_digit _ _ _ Ed). cbn. by rewrite (law_sm2_verify _ _ _ _ _ E).
Qed.
Lemma sm2_token_sound `{!AsymLib} text sig key : VerifySM2 text sig key = Ok tt →
  ∃ pub r s, key = JSm2Public pub ∧ lib_SignDataToSignDigit sig = Ok (r, s) ∧ lib_Sm2Verify pub (str_bytes text) jwt_uid r s = true.
Proof.
  rw /VerifySM2. destruct key as [pub| |]; [|done..]. destruct (lib_SignDataToSignDigit sig) as [[r s]| |]; [|done..]. cbn.
  destruct (lib_Sm2Verify _ _ _ _ _) eqn:E; [|done]. by exists pub, r, s.
Qed.

(** *** The scanner *)
Lemma skip_ws_suffix l : ∃ k, l = k ++ skip_ws l.
Proof. induction l as [|b l [k IH]]; [by exists []|]. cbn. destruct (is_ws b); [exists (b :: k); cbn; by f_equal|by exists []]. Qed.
Lemma skip_digits_suffix l : ∃ k, l = k ++ skip_digits l.
Proof. induction l as [|b l [k IH]]; [by exists []|]. cbn. destruct (is_digit b); [exists (b :: k); cbn; by f_equal|by exists []]. Qed.
(** [tail_of l l']: the second text is what is left of the first. *)
Definition tail_of (l l' : bytes) : Prop := ∃ k, l = k ++ l'.
#[local] Instance tail_of_preorder : PreOrder tail_of.
Proof. split; [intros l; by exists []|]. intros l1 l2 l3 [k ->] [k' ->]. exists (k ++ k'). by rewrite app_assoc. Qed.
Lemma tail_cons b l l' : tail_of l l' → tail_of (b :: l) l'.
Proof. intros [k ->]. by exists (b :: k). Qed.
Lemma tail_skip l l' b : skip_ws l = b :: l' → tail_of l l'.
Proof. intros E. destruct (skip_ws_suffix l) as [k Hk]. rewrite E in Hk. exists (k ++ [b]). by rewrite -app_assoc. Qed.
Lemma tail_length l l' : tail_of l l' → length l' ≤ length l.
Proof. intros [k ->]. rw length_app. lia. Qed.
Lemma some_digits_tail l l' : some_digits l = Some l' → tail_of l l'.
Proof. destruct l as [|b l]; [done|]. cbn. destruct (is_digit b); [|done]. intros [= <-]. apply tail_cons, skip_digits_suffix. Qed.
Lemma scan_exp_tail l l' : scan_exp l = Some l' → tail_of l l'.
Proof.
  destruct l as [|b l]; [intros [= <-]; reflexivity|].
  assert (∀ k, some_digits k = Some l' → tail_of l k → tail_of (b :: l) l') as H.
  { intros k Hk%some_digits_tail Hl. apply tail_cons. by etrans. }
  rw /scan_exp. destruct b; try (intros [= <-]; reflexivity); (destruct l as [|c l]; [done|]; destruct c; intros E; (eapply H; [exact E|]); first [reflexivity|apply tail_cons; reflexivity]).
Qed.
Lemma scan_number_tail l l' : scan_number l = Some l' → tail_of l l'.
Proof.
  rw /scan_number. set (l0 := match l with x2d :: k => k | _ => l end).
  assert (tail_of l l0) as H0 by (rw /l0; destruct l as [|b l]; [reflexivity|]; destruct b; first [reflexivity|by apply tail_cons]).
  set (int := match l0 with x30 :: k => Some k | _ => some_digits l0 end). destruct int as [l1|] eqn:E1; [|done].
  assert (tail_of l0 l1) as H1.
  { rw /int in E1. destruct l0 as [|b l2]; [done|]. destruct b; try by apply some_digits_tail. injection E1 as <-. by apply tail_cons. }
  cbn. set (frac := match l1 with x2e :: k => some_digits k | _ => Some l1 end). destruct frac as [l2|] eqn:E2; [|done].
  assert (tail_of l1 l2) as H2.
  { rw /frac in E2. destruct l1 as [|b k]; [by injection E2 as <-|]. destruct b; try (injection E2 as <-; reflexivity). by apply tail_cons, some_digits_tail. }
  cbn. intros H3%scan_exp_tail. do 3 (etrans; [eassumption|]). done.
Qed.
Lemma parse_raw_tail l s l' : parse_raw l = Some (s, l') → tail_of l l'.
Proof.
  revert s l'. induction l as [l IH] using (induction_ltof1 _ length). unfold ltof in IH.
  intros s l'. destruct l as [|b l1]; [done|]. cbn [parse_raw]. destruct (Byte.eqb b x22); [intros [= _ <-]; by apply tail_cons|].
  destruct (Byte.eqb b x5c).
  - destruct l1 as [|e l2]; [done|]. destruct (Byte.eqb e x75).
    + destruct l2 as [|a1 [|a2 [|a3 [|a4 l3]]]]; [done..|]. destruct (hex4 _ _ _ _) as [z|]; [|done]. cbn [mbind option_bind].
      assert (∀ k, tail_of l3 k → length k ≤ length l3 → ∀ c, ('(s, l) ← parse_raw k; Some (c ++ s, l)) = Some (s, l') → tail_of l3 l') as Hk.
      { intros k Hk Hlen c. destruct (parse_raw k) as [[s1 l4]|] eqn:E; [|done]. intros [= _ <-]. etrans; [exact Hk|]. eapply IH; [|exact E]. cbn. lia. }
      intros H. do 6 apply tail_cons. pose proof (Hk l3 (reflexivity _) ltac:(lia)) as H0.
      destruct l3 as [|x1 [|x2 [|x3 [|x4 [|x5 [|x6 l4]]]]]]; try by eapply H0. destruct (surrogates _ _); [|by eapply H0].
      eapply (Hk l4); [by do 6 apply tail_cons|cbn; lia|exact H].
    + destruct (simple_escape e); [|done]. cbn. destruct (parse_raw l2) as [[s1 l4]|] eqn:E; [|done].
      intros [= _ <-]. do 2 apply tail_cons. eapply IH; [|exact E]. cbn. lia.
  - case_bool_decide; [done|]. destruct (parse_raw l1) as [[s1 l4]|] eqn:E; [|done]. intros [= _ <-]. apply tail_cons. eapply IH; [|exact E]. cbn. lia.
Qed.
Lemma scan_string_tail l l' : scan_string l = Some l' → tail_of l l'.
Proof. rw /scan_string /parse_str. destruct (parse_raw l) as [[s k]|] eqn:E; [|done]. intros [= <-]. by eapply parse_raw_tail. Qed.
Lemma literal_tail w l l' : literal w l = Some l' → tail_of l l'.
Proof. rw /literal. case_bool_decide; [|done]. intros [= <-]. exists (take (String.length w) l). by rewrite take_drop. Qed.
Lemma eat_tail c l l' : eat c l = Some l' → tail_of l l' ∧ length l' < length l.
Proof.
  rw /eat. destruct (skip_ws l) as [|b k] eqn:E; [done|]. case_match; [|done]. intros [= <-]. split; [by eapply tail_skip|].
  destruct (skip_ws_suffix l) as [j Hj]. rewrite Hj E length_app. cbn. lia.
Qed.
(** What is left of a list is left of it; a shorter one when a value was read. *)
Lemma scan_tail fuel : ∀ d x l l', scan fuel d x l = Some l' → tail_of l l'.
Proof.
  induction fuel as [|fuel IH]; [done|]. intros d x l l'. cbn [scan].
  assert (∀ x c k, match eat c k with Some k => Some k | None => scan fuel (d + 1) x k end = Some l' → tail_of k l') as Hn.
  { intros x' c k. destruct (eat c k) eqn:E; [intros [= <-]; by apply eat_tail in E as [? _]|apply IH]. }
  assert (∀ x c k, match eat x2c k with Some k => scan fuel d x k | None => eat c k end = Some l' → tail_of k l') as Hc.
  { intros x' c k. destruct (eat x2c k) eqn:E; [intros H%IH; apply eat_tail in E as [? _]; by etrans|intros H; by apply eat_tail in H as [? _]]. }
  destruct x.
  - destruct (skip_ws l) as [|b k] eqn:E; [done|]. pose proof (tail_skip _ _ _ E) as Ht.
    assert (tail_of l (b :: k)) as Ht' by (destruct (skip_ws_suffix l) as [j Hj]; rewrite E in Hj; by exists j).
    destruct (starts_with b); [intros H%scan_string_tail| | |intros H%literal_tail|intros H%scan_number_tail]; try (by apply (transitivity Ht)); try (by apply (transitivity Ht'));
      case_bool_decide; try done; intros Hs%Hn; by apply (transitivity Ht).
  - destruct (scan fuel d EValue l) as [k|] eqn:E; [|done]. apply IH in E. cbn. intros H%Hc. by etrans.
  - destruct (eat x22 l) as [k1|] eqn:E1; [|done]. apply eat_tail in E1 as [E1 _]. cbn. destruct (scan_string k1) as [k2|] eqn:E2; [|done].
    apply scan_string_tail in E2. cbn. destruct (eat x3a k2) as [k3|] eqn:E3; [|done]. apply eat_tail in E3 as [E3 _]. cbn.
    destruct (scan fuel d EValue k3) as [k4|] eqn:E4; [|done]. apply IH in E4. cbn. intros H%Hc. do 4 (etrans; [eassumption|]). done.
Qed.
(** The fuel of [decode_raw] is enough: more gives the same. *)
Definition bias (x : expect) : nat := match x with EValue => 0 | _ => 1 end.
Lemma scan_fuel f1 : ∀ f2 d x l, 2 * length l + bias x < f1 → 2 * length l + bias x < f2 → scan f1 d x l = scan f2 d x l.
Proof.
  induction f1 as [|f1 IH]; [lia|]. intros [|f2] d x l H1 H2; [lia|]. cbn [scan].
  assert (∀ x' c k, length k < length l → match eat c k with Some k => Some k | None => scan f1 (d + 1) x' k end =
    match eat c k with Some k => Some k | None => scan f2 (d + 1) x' k end) as Hn.
  { intros x' c k Hk. destruct (eat c k); [done|]. apply IH; destruct x'; cbn; lia. }
  assert (∀ x' c k, length k ≤ length l → bias x = 1 → match eat x2c k with Some k => scan f1 d x' k | None => eat c k end =
    match eat x2c k with Some k => scan f2 d x' k | None => eat c k end) as Hc.
  { intros x' c k Hk Hb. destruct (eat x2c k) eqn:E; [|done]. apply eat_tail in E as [_ E]. apply IH; destruct x'; cbn; lia. }
  destruct x.
  - destruct (skip_ws_suffix l) as [j Hj]. destruct (skip_ws l) as [|b k]; [done|].
    assert (length k < length l) as Hk by (rewrite Hj length_app; cbn; lia).
    destruct (starts_with b); try done; case_bool_decide; try done; by apply Hn.
  - cbn in H1, H2. rewrite (IH f2 d EValue l); [cbn; lia|cbn; lia|]. destruct (scan f2 d EValue l) as [k|] eqn:E; [|done]. cbn.
    apply scan_tail, tail_length in E. by apply Hc.
  - cbn in H1, H2. destruct (eat x22 l) as [k1|] eqn:E1; [|done]. apply eat_tail in E1 as [_ E1]. cbn. destruct (scan_string k1) as [k2|] eqn:E2; [|done].
    apply scan_string_tail, tail_length in E2. cbn. destruct (eat x3a k2) as [k3|] eqn:E3; [|done]. apply eat_tail in E3 as [_ E3]. cbn.
    rewrite (IH f2 d EValue k3); [cbn; lia|cbn; lia|]. destruct (scan f2 d EValue k3) as [k|] eqn:E; [|done]. cbn.
    apply scan_tail, tail_length in E. apply Hc; [lia|done].
Qed.
(** The key set is a part of the body, cut at the end of a JSON value. *)
Lemma decode_raw_part body raw : decode_raw body = Some raw → ∃ before after, body = before ++ raw ++ after ∧ skip_ws body = raw ++ after ∧
  ∀ fuel, 2 * length (raw ++ after) < fuel → scan fuel 0 EValue (raw ++ after) = Some after.
Proof.
  rw /decode_raw. destruct (skip_ws_suffix body) as [before Hb]. destruct (scan _ 0 EValue (skip_ws body)) as [rest|] eqn:E; [|done]. cbn. intros [= <-].
  destruct (scan_tail _ _ _ _ _ E) as [raw Hr]. assert (take (length (skip_ws body) - length rest) (skip_ws body) = raw) as ->.
  { rewrite Hr length_app. apply take_app_length'. lia. }
  exists before, rest. rewrite Hr in Hb. split_and!; [done..|]. intros fuel Hf. rewrite Hr in E. erewrite scan_fuel; [exact E|cbn; lia|cbn; lia].
Qed.

(** *** The request *)
Definition port_char (ch : Ascii.ascii) : Prop := is_Some (digit ch) ∨ ch = Ascii.ascii_of_nat 43 ∨ ch = Ascii.ascii_of_nat 45.
Lemma scan_digits_chars acc seen l z : scan_digits acc seen l = Some (z, []) → Forall port_char l.
Proof.
  revert acc seen. induction l as [|ch l IH]; intros acc seen; [constructor|]. cbn. destruct (digit ch) as [d|] eqn:E; [|by destruct seen].
  intros H. constructor; [left; by rewrite E|by eapply IH].
Qed.
Lemma Atoi_chars s z : Atoi s = Some z → Forall port_char (chars s).
Proof.
  rw /Atoi /scan_int. destruct (chars s) as [|ch l]; [done|]. set (r := λ x : Z * list Ascii.ascii, if bool_decide _ then Some x else None).
  assert (∀ l' f, match scan_digits 0 false l' ≫= λ x, r (f x, x.2) with Some (z, []) => Some z | _ => None end = Some z → Forall port_char l') as H.
  { intros l' f. destruct (scan_digits 0 false l') as [[y k]|] eqn:E; [|done]. cbn. rw /r. case_bool_decide; [|done]. cbn. destruct k; [|done]. intros _. by eapply scan_digits_chars. }
  assert (∀ l', match scan_digits 0 false l' ≫= r with Some (z, []) => Some z | _ => None end = Some z → Forall port_char l') as H'.
  { intros l' Hl. apply (H l' fst). erewrite option_bind_ext_fun; [exact Hl|]. by intros []. }
  case_bool_decide; [intros Hl; constructor; [by right; right|by eapply (H l (λ x, - x.1)%Z)]|].
  case_bool_decide; [intros Hl; constructor; [by right; left|by apply H']|apply H'].
Qed.
(** Addresses in text form have hexadecimal digits, dots and colons. *)
Definition ip_char (ch : Ascii.ascii) : Prop := host_char ch = true ∨ ch = colon.
Lemma validateHost_chars parseIP host : (∀ s, parseIP s = true → Forall ip_char (chars s)) → validateHost parseIP host = Ok tt → Forall ip_char (chars host).
Proof.
  rw /validateHost. intros Hip. repeat (case_match; try done); intros _; [by apply Hip|].
  apply list.Forall_forall. intros ch Hch. left. rewrite -> List.forallb_forall in *. by apply H3, list_elem_of_In.
Qed.
(** The token of the service account goes only to the key set of the server the environment
    names, over TLS with the certificates of the cluster: nothing in the host or in the port
    can end the authority part of the URL or set another one. *)
Theorem jwks_request_confined pd req res : (∀ s, pd_parseIP pd s = true → Forall ip_char (chars s)) →
  FetchK8sJWKSFromAPI pd = (Some req, res) →
  ∃ host port token, jr_url req = jwks_url host port ∧ Forall ip_char (chars host) ∧ Forall port_char (chars port) ∧
    host = pd_Getenv pd "KUBERNETES_SERVICE_HOST" ∧ pd_ReadFile pd (sa_dir +:+ "token") = Some token ∧ jr_authorization req = str_bytes "Bearer " ++ token ∧
    pd_ReadFile pd (sa_dir +:+ "ca.crt") = Some (jr_roots req) ∧ pd_AppendCertsFromPEM pd (jr_roots req) = true ∧
    (∀ jwks, res = Ok jwks → ∃ before after, pd_Do pd req = Ok (200%Z, before ++ jwks ++ after)).
Proof.
  intros Hip. rw /FetchK8sJWKSFromAPI. case_bool_decide; [done|]. destruct (validateHost _ _) as [[]| |] eqn:Hh; [|done..].
  set (port := if bool_decide _ then "443" else _). destruct (Atoi port) as [z|] eqn:Hp; [|done].
  destruct (pd_ReadFile pd (sa_dir +:+ "token")) as [token|]; [|done]. destruct (pd_ReadFile pd (sa_dir +:+ "ca.crt")) as [ca|]; [|done].
  destruct (pd_AppendCertsFromPEM pd ca) eqn:Hca; [|done]. destruct (pd_NewRequest _ _); [|done]. cbn [negb]. intros [= <- <-].
  exists (pd_Getenv pd "KUBERNETES_SERVICE_HOST"), port, token. split_and!; try done; [by eapply validateHost_chars|by eapply Atoi_chars|].
  intros jwks. destruct (pd_Do _ _) as [[status body]| |]; [|done..]. case_bool_decide as Hs; [|done]. cbn [negb]. subst status.
  destruct (decode_raw body) as [raw|] eqn:E; [|done]. intros [= <-]. apply decode_raw_part in E as (b & a & -> & _). eauto.
Qed.

(** *** Examples *)
(** A text written with single quotes for double ones. *)
Definition json_text (s : string) : bytes := (λ b, if Byte.eqb b x27 then x22 else b) <$> str_bytes s.
Definition demo_pod (host port : string) : pod :=
  mkPod (λ v, if bool_decide (v = "KUBERNETES_SERVICE_HOST") then host else if bool_decide (v = "KUBERNETES_SERVICE_PORT") then port else "")
    (λ p, if bool_decide (p = sa_dir +:+ "token") then Some (str_bytes "t0") else Some (str_bytes "ca"))
    (λ s, bool_decide (s ∈ ["10.0.0.1"; "fd00::1"])) (λ _, true) (λ _, true)
    (λ _, Ok (200%Z, json_text " {'keys': [{'kid': 'a', 'n': 1.5e3}, null, [true, {}]]} and more")).
Lemma demo_ips s : pd_parseIP (demo_pod "10.0.0.1" "") s = true → Forall ip_char (chars s).
Proof.
  cbn [pd_parseIP demo_pod]. rewrite bool_decide_eq_true. intros [->|[->|[]%not_elem_of_nil]%elem_of_cons]%elem_of_cons; repeat constructor; by (left; reflexivity) || by right.
Qed.
Lemma jwks_request_confined_witness : ∃ req res, FetchK8sJWKSFromAPI (demo_pod "10.0.0.1" "") = (Some req, res) ∧
  res = Ok (json_text "{'keys': [{'kid': 'a', 'n': 1.5e3}, null, [true, {}]]}") ∧ ∃ host port token, jr_url req = jwks_url host port ∧ Forall ip_char (chars host) ∧ Forall port_char (chars port) ∧
    host = "10.0.0.1" ∧ pd_ReadFile (demo_pod "10.0.0.1" "") (sa_dir +:+ "token") = Some token ∧ jr_authorization req = str_bytes "Bearer " ++ token ∧
    pd_ReadFile (demo_pod "10.0.0.1" "") (sa_dir +:+ "ca.crt") = Some (jr_roots req) ∧ true = true ∧
    (∀ jwks, res = Ok jwks → ∃ before after, pd_Do (demo_pod "10.0.0.1" "") req = Ok (200%Z, before ++ jwks ++ after)).
Proof.
  destruct (FetchK8sJWKSFromAPI (demo_pod "10.0.0.1" "")) as [[req|] res] eqn:E; [|vm_compute in E; discriminate E].
  exists req, res. split; [reflexivity|]. split; [vm_compute in E; injection E as _ <-; vm_compute; reflexivity|].
  exact (jwks_request_confined (demo_pod "10.0.0.1" "") req res demo_ips E).
Defined.
(** An IPv6 address passes the check and is put into the URL without brackets, where its
    groups run into the port. *)
Example ipv6_without_brackets : match FetchK8sJWKSFromAPI (demo_pod "fd00::1" "443") with (Some req, _) => jr_url req | _ => "" end = "https://fd00::1:443/openid/v1/jwks".
Proof. vm_compute. reflexivity. Qed.
(** Nothing is sent for what is not a host. *)
Example foreign_hosts_refused : (λ h, (FetchK8sJWKSFromAPI (demo_pod h "")).1) <$> [""; "http://a"; "a/b"; "a@b"; "a?b"; "10.0.0.1#"] = [None; None; None; None; None; None].
Proof. vm_compute. reflexivity. Qed.
