(* ===== verification/Sdk.v ===== *)
(** The client library over the wire. The bodies of the requests and of the replies of
    [src/internal/api] as JSON texts (the request types of the handlers, [helpers.go]); the
    construction of clients and the methods of [src/sdk/go/yvonne/client.go], which write and
    read such texts around the calls of [SdkClient.v]; and what the two sides give together:
    a method returns what the router answered, and what one client encrypts another decrypts. *)

From S2P Require Import Prelude SecureBuffer Hash Utf8 Base64 Json Wire Rfc3339 AesGcm Ciphertext Kek Vault Store Metadata Oaep AuditLog Manager Transit Lifecycle Cache KeyManagement Auth Totp Approval RateLimit SdkClient Core CoreSpec TransitSpec Api ApiSpec.

(** ** Request bodies, as the handlers read them *)
Abbreviation fields A := (bytes → update A).
Definition createKey_fields : fields createKeyRequest := λ k,
  if named "key_id" k then at_field ck_KeyID (λ x b, mkCreateKey x (ck_ReturnDEK b)) into_string
  else if named "return_dek" k then at_field ck_ReturnDEK (λ x b, mkCreateKey (ck_KeyID b) x) into_opt_bool
  else skip_member.
Definition createAsymmetricKey_fields : fields createAsymmetricKeyRequest := λ k,
  if named "key_id" k then at_field cy_KeyID (λ x b, mkCreateAsym x (cy_KeyType b)) into_string
  else if named "key_type" k then at_field cy_KeyType (λ x b, mkCreateAsym (cy_KeyID b) x) into_string
  else skip_member.
Definition shred_fields : fields Z := λ k, if named "version" k then into_int else skip_member.
Definition encrypt_fields : fields encryptRequest := λ k,
  if named "key_id" k then at_field er_KeyID (λ x b, mkEncrypt x (er_Plaintext b)) into_string
  else if named "plaintext" k then at_field er_Plaintext (λ x b, mkEncrypt (er_KeyID b) x) into_bytes
  else skip_member.
Definition decrypt_fields : fields decryptRequest := λ k,
  if named "key_id" k then at_field dr_KeyID (λ x b, mkDecrypt x (dr_Ciphertext b)) into_string
  else if named "ciphertext" k then at_field dr_Ciphertext (λ x b, mkDecrypt (dr_KeyID b) x) into_bytes
  else skip_member.
Definition sign_fields : fields signRequest := λ k,
  if named "key_id" k then at_field sr_KeyID (λ x b, mkSign x (sr_Data b)) into_string
  else if named "data" k then at_field sr_Data (λ x b, mkSign (sr_KeyID b) x) into_bytes
  else skip_member.
Definition verify_fields : fields verifyRequest := λ k,
  if named "key_id" k then at_field vr_KeyID (λ x b, mkVerify x (vr_Data b) (vr_Signature b)) into_string
  else if named "data" k then at_field vr_Data (λ x b, mkVerify (vr_KeyID b) x (vr_Signature b)) into_bytes
  else if named "signature" k then at_field vr_Signature (λ x b, mkVerify (vr_KeyID b) (vr_Data b) x) into_bytes
  else skip_member.
Definition verifyMac_fields : fields verifyMacRequest := λ k,
  if named "key_id" k then at_field vm_KeyID (λ x b, mkVerifyMac x (vm_Data b) (vm_Mac b)) into_string
  else if named "data" k then at_field vm_Data (λ x b, mkVerifyMac (vm_KeyID b) x (vm_Mac b)) into_bytes
  else if named "mac" k then at_field vm_Mac (λ x b, mkVerifyMac (vm_KeyID b) (vm_Data b) x) into_bytes
  else skip_member.
Definition reEncrypt_fields : fields reEncryptRequest := λ k,
  if named "source_key_id" k then at_field re_SourceKeyID (λ x b, mkReEncrypt x (re_DestKeyID b) (re_Ciphertext b)) into_string
  else if named "dest_key_id" k then at_field re_DestKeyID (λ x b, mkReEncrypt (re_SourceKeyID b) x (re_Ciphertext b)) into_string
  else if named "ciphertext" k then at_field re_Ciphertext (λ x b, mkReEncrypt (re_SourceKeyID b) (re_DestKeyID b) x) into_bytes
  else skip_member.
Definition import_fields : fields importRequest := λ k,
  if named "key_id" k then at_field im_KeyID (λ x b, mkImport x (im_TransitKeyID b) (im_WrappedMaterial b)) into_string
  else if named "transit_key_id" k then at_field im_TransitKeyID (λ x b, mkImport (im_KeyID b) x (im_WrappedMaterial b)) into_string
  else if named "wrapped_material" k then at_field im_WrappedMaterial (λ x b, mkImport (im_KeyID b) (im_TransitKeyID b) x) into_string
  else skip_member.
Definition auditQuery_fields : fields auditQueryRequest := λ k,
  if named "start_time" k then at_field aq_StartTime (λ x b, mkAuditQuery x (aq_EndTime b) (aq_Actor b) (aq_Action b) (aq_Limit b)) into_string
  else if named "end_time" k then at_field aq_EndTime (λ x b, mkAuditQuery (aq_StartTime b) x (aq_Actor b) (aq_Action b) (aq_Limit b)) into_string
  else if named "actor" k then at_field aq_Actor (λ x b, mkAuditQuery (aq_StartTime b) (aq_EndTime b) x (aq_Action b) (aq_Limit b)) into_string
  else if named "action" k then at_field aq_Action (λ x b, mkAuditQuery (aq_StartTime b) (aq_EndTime b) (aq_Actor b) x (aq_Limit b)) into_string
  else if named "limit" k then at_field aq_Limit (λ x b, mkAuditQuery (aq_StartTime b) (aq_EndTime b) (aq_Actor b) (aq_Action b) x) into_int
  else skip_member.
Definition panic_fields : fields panicRequest := λ k,
  if named "admin_token" k then at_field pr_AdminToken (λ x b, mkPanicRq x (pr_Confirm b)) into_string
  else if named "confirm" k then at_field pr_Confirm (λ x b, mkPanicRq (pr_AdminToken b) x) into_bool
  else skip_member.
Definition unseal_fields : fields bytes := λ k, if named "share" k then into_bytes else skip_member.
Definition createApproval_fields : fields createApprovalRequest := λ k,
  if named "operation" k then at_field ca_Operation (λ x b, mkCreate x (ca_KeyID b) (ca_Required b) (ca_TTLHours b)) into_string
  else if named "key_id" k then at_field ca_KeyID (λ x b, mkCreate (ca_Operation b) x (ca_Required b) (ca_TTLHours b)) into_string
  else if named "required" k then at_field ca_Required (λ x b, mkCreate (ca_Operation b) (ca_KeyID b) x (ca_TTLHours b)) into_int
  else if named "ttl_hours" k then at_field ca_TTLHours (λ x b, mkCreate (ca_Operation b) (ca_KeyID b) (ca_Required b) x) into_int
  else skip_member.
Definition ticket_fields : fields string := λ k, if named "ticket_id" k then into_string else skip_member.
Definition role_fields : fields string := λ k, if named "role_id" k then into_string else skip_member.
Definition mfa_fields : fields (string * string) := λ k,
  if named "role_id" k then at_field fst (λ x b, (x, b.2)) into_string
  else if named "code" k then at_field snd (λ x b, (b.1, x)) into_string
  else skip_member.
(** The handlers on the texts of their bodies. *)
Definition into_new {A} (f : fields A) (zero : A) : bytes → option A := unmarshal_into (into_struct f) zero.
#[export] Instance wire_decoder : Decoder bytes := {
  dec_createKey := into_new createKey_fields (mkCreateKey "" None);
  dec_createAsymmetricKey := into_new createAsymmetricKey_fields (mkCreateAsym "" "");
  dec_shred := into_new shred_fields 0%Z;
  dec_encrypt := into_new encrypt_fields (mkEncrypt "" []);
  dec_decrypt := into_new decrypt_fields (mkDecrypt "" []);
  dec_sign := into_new sign_fields (mkSign "" []);
  dec_verify := into_new verify_fields (mkVerify "" [] []);
  dec_verifyMac := into_new verifyMac_fields (mkVerifyMac "" [] []);
  dec_reEncrypt := into_new reEncrypt_fields (mkReEncrypt "" "" []);
  dec_import := into_new import_fields (mkImport "" "" "");
  dec_auditQuery := into_new auditQuery_fields (mkAuditQuery "" "" "" "" 0);
  dec_panic := into_new panic_fields (mkPanicRq "" false);
  dec_unseal := into_new unseal_fields [];
  dec_createApproval := into_new createApproval_fields (mkCreate "" "" 0 0);
  dec_ticketID := into_new ticket_fields "";
  dec_roleID := into_new role_fields "";
  dec_mfaCode l := (λ '(role, code), (role, str_bytes code)) <$> into_new mfa_fields ("", "") l;
  dec_base64 s := b64_DecodeString (str_bytes s);
  dec_time s := parse_time (str_bytes s);
}.

(** ** Replies, as the handlers write them *)
Definition obj (o : list (string * wval)) : wval := WObj ((λ kv, (str_bytes kv.1, kv.2)) <$> o).
(** A slice that was appended to: none of no bytes. *)
Definition of_appended (b : bytes) : wval := match b with [] => WNull | _ => of_bytes b end.
Section Replies.
(** The lists of tickets and of audit entries, and what the interface describes itself with. *)
Variable other_json : answer → wval.
Variable metrics_text : bytes.

Definition answer_json (a : answer) : wval :=
  match a with
  | AHealth sealed state => obj [("sealed", WBool sealed); ("state", of_string state); ("status", of_string "alive")]
  | AUnsealed unsealed => obj [("unsealed", WBool unsealed)]
  | AAlreadyUnsealed => obj [("note", of_string "already unsealed, extra share rejected"); ("unsealed", WBool true)]
  | ACreated keyID version dek => obj [("key_id", of_string keyID); ("version", WInt version); ("plaintext_dek", from_option of_appended WNull dek)]
  | ARotated keyID version dek => obj [("key_id", of_string keyID); ("plaintext_dek", of_appended dek); ("version", WInt version)]
  | AShredded keyID version => obj [("key_id", of_string keyID); ("shred", WBool true); ("version", WInt version)]
  | ADataKey keyID plaintext ciphertext =>
      obj [("key_id", of_string keyID); ("plaintext_dek", of_bytes plaintext); ("ciphertext_dek", of_bytes ciphertext)]
  | AEncrypted ciphertext version => obj [("ciphertext", of_bytes ciphertext); ("version", WInt version)]
  | ADecrypted plaintext version => obj [("plaintext", of_appended plaintext); ("version", WInt version)]
  | a => other_json a
  end.
(** [envelope] *)
Definition envelope_json (rep : reply) : wval :=
  match rep with
  | JOk a => obj [("ok", WBool true); ("data", answer_json a)]
  | JErr _ msg => obj (("ok", WBool false) :: if bool_decide (msg = "") then [] else [("error", of_string msg)])
  | NoContent => WNull
  end.
(** The body of a reply: [writeJSON] ends it with a line break; data keys are written by their
    handler, and unknown paths are answered by [http.NotFound]. *)
Definition reply_text (rep : reply) : bytes :=
  match rep with
  | NoContent => []
  | JOk AMetrics => metrics_text
  | JOk (ADataKey _ _ _) => render_w (envelope_json rep)
  | JErr status msg =>
      if bool_decide (msg = "404 page not found") then str_bytes msg ++ [x0a] else render_w (envelope_json rep) ++ [x0a]
  | _ => render_w (envelope_json rep) ++ [x0a]
  end.
Lemma reply_text_read a : a ≠ AMetrics → decode_first (reply_text (JOk a)) = Some (wclean (envelope_json (JOk a))).
Proof.
  intros Ha. assert (∃ ws, reply_text (JOk a) = render_w (envelope_json (JOk a)) ++ ws ∧ Forall (λ b, is_ws b = true) ws) as (ws & E & Hws).
  { destruct a; try done; first [by exists []; rw app_nil_r; split; [|constructor] | exists [x0a]; split; [done|by repeat constructor]]. }
  rw E. by apply unmarshal_render.
Qed.
Lemma error_text_read status msg : msg ≠ "404 page not found" → decode_first (reply_text (JErr status msg)) = Some (wclean (envelope_json (JErr status msg))).
Proof. intros Hm. rw /reply_text bool_decide_eq_false_2 //. apply unmarshal_render. by repeat constructor. Qed.
End Replies.

(** ** Clients *)
Record sdk : Type := mkSdk {
  sk_baseURL : string;
  sk_token : string;
  sk_timeout : Z;               (* of its HTTP client *)
  sk_client : Client;           (* retries and the trace header *)
  sk_breaker : option CircuitBreaker;
}.
Definition New (baseURL token : string) : sdk := mkSdk baseURL token 30000000000 (mkClient None "") None.
Definition NewWithHTTP (baseURL token : string) (timeout : Z) : sdk := let c := New baseURL token in mkSdk (sk_baseURL c) (sk_token c) timeout (sk_client c) (sk_breaker c).
Definition WithRetry (cfg : option RetryConfig) (c : sdk) : sdk :=
  mkSdk (sk_baseURL c) (sk_token c) (sk_timeout c) (mkClient cfg (cl_traceIDHeader (sk_client c))) (sk_breaker c).
Definition WithCircuitBreaker (cfg : option CircuitBreakerConfig) (c : sdk) : sdk :=
  mkSdk (sk_baseURL c) (sk_token c) (sk_timeout c) (sk_client c) (Some (NewCircuitBreaker cfg)).
Definition WithTraceID (header : string) (c : sdk) : sdk :=
  mkSdk (sk_baseURL c) (sk_token c) (sk_timeout c) (mkClient (cl_retryConfig (sk_client c)) header) (sk_breaker c).
Definition WithTimeout (d : Z) (c : sdk) : sdk := mkSdk (sk_baseURL c) (sk_token c) d (sk_client c) (sk_breaker c).
Definition NewWithOpts (baseURL token : string) (opts : list (sdk → sdk)) : sdk := foldl (λ c opt, opt c) (New baseURL token) opts.

(** The request [doOnce] makes. *)
Record http_request : Type := mkHttp {
  hr_Method : string; hr_URL : string; hr_ContentType : option string; hr_Authorization : option string; hr_Body : option bytes
}.
Definition new_request (c : sdk) (method path : string) (body : option wval) : http_request :=
  mkHttp method (sk_baseURL c +:+ path) ((λ _, "application/json") <$> body)
    (if bool_decide (sk_token c = "") then None else Some ("Bearer " +:+ sk_token c)) (render_w <$> body).

(** The types of the answers. *)
Record HealthResponse : Type := mkHealth { hp_Status : string; hp_Sealed : bool; hp_State : string }.
Record KeyResponse : Type := mkKeyResponse { kp_KeyID : string; kp_Version : Z; kp_PlaintextDEK : bytes }.
Record EncryptResponse : Type := mkEncrypted { ep_Ciphertext : bytes; ep_Version : Z }.
Record DecryptResponse : Type := mkDecrypted { dp_Plaintext : bytes; dp_Version : Z }.
Record GenerateDataKeyResponse : Type := mkDataKey { gp_PlaintextDEK : bytes; gp_CiphertextDEK : bytes }.
Definition health_fields : fields HealthResponse := λ k,
  if named "status" k then at_field hp_Status (λ x b, mkHealth x (hp_Sealed b) (hp_State b)) into_string
  else if named "sealed" k then at_field hp_Sealed (λ x b, mkHealth (hp_Status b) x (hp_State b)) into_bool
  else if named "state" k then at_field hp_State (λ x b, mkHealth (hp_Status b) (hp_Sealed b) x) into_string
  else skip_member.
Definition key_fields : fields KeyResponse := λ k,
  if named "key_id" k then at_field kp_KeyID (λ x b, mkKeyResponse x (kp_Version b) (kp_PlaintextDEK b)) into_string
  else if named "version" k then at_field kp_Version (λ x b, mkKeyResponse (kp_KeyID b) x (kp_PlaintextDEK b)) into_int
  else if named "plaintext_dek" k then at_field kp_PlaintextDEK (λ x b, mkKeyResponse (kp_KeyID b) (kp_Version b) x) into_bytes
  else skip_member.
Definition encrypted_fields : fields EncryptResponse := λ k,
  if named "ciphertext" k then at_field ep_Ciphertext (λ x b, mkEncrypted x (ep_Version b)) into_bytes
  else if named "version" k then at_field ep_Version (λ x b, mkEncrypted (ep_Ciphertext b) x) into_int
  else skip_member.
Definition decrypted_fields : fields DecryptResponse := λ k,
  if named "plaintext" k then at_field dp_Plaintext (λ x b, mkDecrypted x (dp_Version b)) into_bytes
  else if named "version" k then at_field dp_Version (λ x b, mkDecrypted (dp_Plaintext b) x) into_int
  else skip_member.
Definition datakey_fields : fields GenerateDataKeyResponse := λ k,
  if named "plaintext_dek" k then at_field gp_PlaintextDEK (λ x b, mkDataKey x (gp_CiphertextDEK b)) into_bytes
  else if named "ciphertext_dek" k then at_field gp_CiphertextDEK (λ x b, mkDataKey (gp_PlaintextDEK b) x) into_bytes
  else skip_member.
(** The envelope around them; [ShredKey] has no field for the data. *)
Record response (A : Type) : Type := mkResponse { rs_OK : bool; rs_Data : A; rs_Err : string }.
Arguments mkResponse {A}. Arguments rs_OK {A}. Arguments rs_Data {A}. Arguments rs_Err {A}.
Definition response_fields {A} (data : update A) : fields (response A) := λ k,
  if named "ok" k then at_field rs_OK (λ x b, mkResponse x (rs_Data b) (rs_Err b)) into_bool
  else if named "data" k then at_field rs_Data (λ x b, mkResponse (rs_OK b) x (rs_Err b)) data
  else if named "error" k then at_field rs_Err (λ x b, mkResponse (rs_OK b) (rs_Data b) x) into_string
  else skip_member.
(** The error of a refused request: whatever of its body fits the envelope. *)
Definition error_of (body : bytes) : string :=
  match decode_first body with
  | Some v => rs_Err (into_struct (response_fields (@skip_member ())) v (mkResponse false tt "")).1
  | None => ""
  end.

(** What a method returns. *)
Inductive sdk_result (A : Type) : Type := Got (a : A) | CallFailed (o : outcome) | NotOK (err : string).
Arguments Got {A}. Arguments CallFailed {A}. Arguments NotOK {A}.

Section Exchange.
Context {V S : Type} `{!Unsealer V, !UnsealerAdmin V, !KVStore S} {rlib : RSALib}.
Variable cfg : Config.
Variable other_json : answer → wval.
Variable metrics_text : bytes.
(** [net/http]: the path of a URL that names this server, with the query's [key_id] and [id],
    in a form the router does not have to clean; the text of the error where the URL does not
    parse, and of a connection closed without a reply; and the texts of decoding errors. *)
Variable url : string → (string * string * string) + string.
Variable closed : string.
Variable json_error : bytes → string.
Variable addr : string.         (* the client's address *)
Abbreviation R := (Router V S).
Abbreviation serve_text := (reply_text other_json metrics_text).

Definition maxRequestBodyBytes : Z := 1024 * 1024.
Definition received (hr : http_request) (path key id : string) : request bytes :=
  mkRequest (hr_Method hr) path key id (default "" (hr_Authorization hr)) "" "" "" addr
    (let b := default [] (hr_Body hr) in if bool_decide (Z.of_nat (length b) ≤ maxRequestBodyBytes)%Z then Some b else None).
(** One request: the router and the variable the reply is decoded into. *)
Definition exchange_with {A} (u : update A) (hr : http_request) (st : R * A) : (R * A) * exchange :=
  match url (hr_URL hr) with
  | inr e => (st, RequestFails e)
  | inl (path, key, id) =>
      let '(r, x) := ServeHTTP cfg (received hr path key id) st.1 in
      match x with
      | Ok (_, rep) =>
          let body := serve_text rep in
          if bool_decide (400 ≤ status_of rep)%Z then ((r, st.2), Responds (status_of rep) (error_of body) None)
          else
            match decode_first body with
            | None => ((r, st.2), Responds (status_of rep) "" (Some (json_error body)))
            | Some v => let '(a, ok) := u v st.2 in ((r, a), Responds (status_of rep) "" (if (ok : bool) then None else Some (json_error body)))
            end
      | _ => ((r, st.2), TransportFails closed)
      end
  end.

(** Calls. Between two attempts others use the service ([meanwhile]); the variable for the
    reply is the same in all of them. *)
Variable wild : float64 → Z.
Variable meanwhile : nat → R → R.
Fixpoint before_attempt {A} (u : update A) (hr : http_request) (st : R * A) (i : nat) : R * A :=
  match i with
  | O => st
  | Datatypes.S j => let st := (exchange_with u hr (before_attempt u hr st j)).1 in (meanwhile i st.1, st.2)
  end.
Definition after_attempts {A} (u : update A) (hr : http_request) (st : R * A) (n : nat) : R * A :=
  match n with O => st | Datatypes.S j => (exchange_with u hr (before_attempt u hr st j)).1 end.
Definition sdk_do {A} (c : sdk) (ctx : string) (en : environment) (method path : string) (body : option wval) (u : update A) (zero : A) (r : R) :
  (sdk * R) * (outcome * A) :=
  let hr := new_request c method path body in
  let en := mkEnvironment (λ i, (exchange_with u hr (before_attempt u hr (r, zero) (Z.to_nat i))).2)
              (en_cancelled en) (en_clock en) (en_random en) (en_start en) (en_traceID en) in
  let '(ca, out) := client_do wild (sk_client c) en (mkCall (sk_breaker c) ctx [] []) in
  let st := after_attempts u hr (r, zero) (length (ca_sent ca)) in
  ((mkSdk (sk_baseURL c) (sk_token c) (sk_timeout c) (sk_client c) (ca_breaker ca), st.1), (out, st.2)).

(** The methods: the envelope's data, when the call succeeded and the envelope says so. *)
Definition sdk_method {A} (c : sdk) (ctx : string) (en : environment) (method path : string) (body : option wval) (check : bool)
    (data : update A) (zero : A) (r : R) : (sdk * R) * sdk_result A :=
  let '(st, (out, resp)) := sdk_do c ctx en method path body (into_struct (response_fields data)) (mkResponse false zero "") r in
  (st, match out with
       | Done => if check && negb (rs_OK resp) then NotOK ("yvonne: " +:+ rs_Err resp) else Got (rs_Data resp)
       | out => CallFailed out
       end).
Definition Health c ctx en : R → (sdk * R) * sdk_result HealthResponse :=
  sdk_method c ctx en "GET" "/api/v1/sys/health" None false (into_struct health_fields) (mkHealth "" false "").
Definition SdkCreateKey c ctx en (keyID : string) (returnDEK : option bool) : R → (sdk * R) * sdk_result KeyResponse :=
  sdk_method c ctx en "POST" "/api/v1/keys"
    (Some (obj (("key_id", of_string keyID) :: from_option (λ b, [("return_dek", WBool b)]) [] returnDEK))) true
    (into_struct key_fields) (mkKeyResponse "" 0 []).
Definition SdkRotateKey c ctx en (keyID : string) : R → (sdk * R) * sdk_result KeyResponse :=
  sdk_method c ctx en "POST" ("/api/v1/keys/" +:+ keyID +:+ "/rotate") None true (into_struct key_fields) (mkKeyResponse "" 0 []).
Definition SdkShredKey c ctx en (keyID : string) (version : Z) : R → (sdk * R) * sdk_result () :=
  sdk_method c ctx en "DELETE" ("/api/v1/keys/" +:+ keyID +:+ "/shred") (Some (obj [("version", WInt version)])) true skip_member tt.
Definition SdkEncrypt c ctx en (keyID : string) (plaintext : bytes) : R → (sdk * R) * sdk_result EncryptResponse :=
  sdk_method c ctx en "POST" "/api/v1/encrypt" (Some (obj [("key_id", of_string keyID); ("plaintext", of_bytes plaintext)])) true
    (into_struct encrypted_fields) (mkEncrypted [] 0).
Definition SdkDecrypt c ctx en (keyID : string) (ciphertext : bytes) : R → (sdk * R) * sdk_result DecryptResponse :=
  sdk_method c ctx en "POST" "/api/v1/decrypt" (Some (obj [("ciphertext", of_bytes ciphertext); ("key_id", of_string keyID)])) true
    (into_struct decrypted_fields) (mkDecrypted [] 0).
Definition SdkGenerateDataKey c ctx en (keyID : string) : R → (sdk * R) * sdk_result GenerateDataKeyResponse :=
  sdk_method c ctx en "POST" ("/api/v1/keys/" +:+ keyID +:+ "/generate-data-key") None true (into_struct datakey_fields) (mkDataKey [] []).

(** ** What a method makes of a reply *)
(** A client without retries and breaker, as [New] makes it. *)
Definition plain (c : sdk) : Prop := cl_retryConfig (sk_client c) = None ∧ sk_breaker c = None.
Definition http_error (status : Z) (err : string) : outcome :=
  Failed (if bool_decide (err = "") then "yvonne: HTTP " +:+ pretty status else "yvonne: HTTP " +:+ pretty status +:+ ": " +:+ err).
Definition read_reply {A} (check : bool) (data : update A) (zero : A) (rep : reply) : sdk_result A :=
  let body := serve_text rep in
  if bool_decide (400 ≤ status_of rep)%Z then CallFailed (http_error (status_of rep) (error_of body))
  else
    match decode_first body with
    | None => CallFailed (Failed ("yvonne: decode response: " +:+ json_error body))
    | Some v =>
        let '(resp, ok) := into_struct (response_fields data) v (mkResponse false zero "") in
        if negb ok then CallFailed (Failed ("yvonne: decode response: " +:+ json_error body))
        else if check && negb (rs_OK resp) then NotOK ("yvonne: " +:+ rs_Err resp) else Got (rs_Data resp)
    end.
(** A plain client makes one request, and reads its reply. *)
Lemma plain_do {A} c ctx en method path body (u : update A) zero (r : R) st x : plain c →
  exchange_with u (new_request c method path body) (r, zero) = (st, x) →
  sdk_do c ctx en method path body u zero r = ((c, st.1), (match doOnce x with None => Done | Some e => Failed e end, st.2)).
Proof.
  intros [Hr Hb] E. rw /sdk_do /client_do. cbn [ca_breaker]. rw Hr Hb !bool_decide_eq_false_2; [by intros [? ?]..|].
  cbn [orb send ca_sent ca_breaker length app after_attempts before_attempt en_exchange]. change (Z.to_nat 0) with 0.
  cbn [before_attempt]. rw E. cbn [fst snd]. destruct c. cbn in Hb. by subst.
Qed.
Lemma plain_method {A} c ctx en method path body check (data : update A) zero (r r' : R) p key id origin rep :
  plain c → url (sk_baseURL c +:+ path) = inl (p, key, id) →
  ServeHTTP cfg (received (new_request c method path body) p key id) r = (r', Ok (origin, rep)) →
  sdk_method c ctx en method path body check data zero r = ((c, r'), read_reply check data zero rep).
Proof.
  intros Hp Hu Hs. rw /sdk_method. destruct (exchange_with (into_struct (response_fields data)) (new_request c method path body) (r, mkResponse false zero "")) as [st x] eqn:E.
  rw (plain_do _ _ _ _ _ _ _ _ _ _ _ Hp E). rw /exchange_with in E. cbn [hr_URL new_request fst snd] in E. rw Hu Hs in E.
  rw /read_reply /http_error. destruct (bool_decide (400 ≤ status_of rep)%Z) eqn:H4.
  { injection E as <- <-. cbn [fst snd doOnce]. rw H4. by destruct (bool_decide (error_of _ = "")). }
  destruct (decode_first (serve_text rep)) as [v|]; [|injection E as <- <-; cbn [fst snd doOnce]; by rw H4].
  destruct (into_struct _ _ _) as [resp ok]. injection E as <- <-. cbn [fst snd doOnce]. rw H4. by destruct ok.
Qed.

(** The texts of the methods, read back. *)
Lemma unmarshal_into_render {A} (u : update A) zero v : unmarshal_into u zero (render_w v) = let '(a, ok) := u (wclean v) zero in if (ok : bool) then Some a else None.
Proof. rw /unmarshal_into -(app_nil_r (render_w v)). by rw (proj1 (unmarshal_render v [] ltac:(constructor))). Qed.
Lemma into_of_appended b : into_bytes (wclean (of_appended b)) [] = (b, true).
Proof. destruct b; [done|apply into_of_bytes]. Qed.
Lemma wclean_members o : wclean (obj o) = WObj ((λ kv, (to_valid (str_bytes kv.1), wclean kv.2)) <$> o).
Proof. rw /obj. cbn [wclean]. by rw -list_fmap_compose. Qed.
Ltac read_members :=
  rewrite ?wclean_members; cbn [fmap list_fmap fst snd wclean app];
  lazy -[into_string into_bytes into_int of_string of_bytes of_appended wclean clean];
  repeat first [rewrite into_of_string | rewrite into_of_bytes | rewrite into_of_int; [assumption|] | rewrite into_of_appended];
  try reflexivity.
Abbreviation int64_range v := (-2 ^ 63 ≤ v < 2 ^ 63)%Z.
(** The handlers receive what the methods were given, with invalid UTF-8 in the id replaced. *)
Lemma bodies_read id pt ct rd v : int64_range v →
  dec_encrypt (render_w (obj [("key_id", of_string id); ("plaintext", of_bytes pt)])) = Some (mkEncrypt (clean id) pt) ∧
  dec_decrypt (render_w (obj [("ciphertext", of_bytes ct); ("key_id", of_string id)])) = Some (mkDecrypt (clean id) ct) ∧
  dec_createKey (render_w (obj (("key_id", of_string id) :: from_option (λ b, [("return_dek", WBool b)]) [] rd))) = Some (mkCreateKey (clean id) rd) ∧
  dec_shred (render_w (obj [("version", WInt v)])) = Some v.
Proof.
  intros Hv.
  change (dec_encrypt ?t) with (into_new encrypt_fields (mkEncrypt "" []) t). change (dec_decrypt ?t) with (into_new decrypt_fields (mkDecrypt "" []) t).
  change (dec_createKey ?t) with (into_new createKey_fields (mkCreateKey "" None) t). change (dec_shred ?t) with (into_new shred_fields 0%Z t).
  rw /into_new !unmarshal_into_render. split_and!; [| |destruct rd|]; read_members.
Qed.
(** The methods return what the handlers answered: data, and errors by status and message. *)
Lemma answer_read {A} check (data : update A) zero a d ok : a ≠ AMetrics → data (wclean (answer_json other_json a)) zero = (d, ok) →
  read_reply check data zero (JOk a) = if ok then Got d else CallFailed (Failed ("yvonne: decode response: " +:+ json_error (serve_text (JOk a)))).
Proof.
  intros Ha Hd. rw /read_reply reply_text_read // bool_decide_eq_false_2; [simpl; lia|].
  assert (into_struct (response_fields data) (wclean (envelope_json other_json (JOk a))) (mkResponse false zero "") = (mkResponse true d "", ok)) as ->.
  { cbn [envelope_json]. rewrite wclean_members. cbn [fmap list_fmap fst snd]. change (wclean (WBool true)) with (WBool true).
    lazy -[answer_json wclean]. rewrite Hd. by destruct ok. }
  cbn [rs_OK rs_Data negb]. destruct ok; [by destruct check|done].
Qed.
Lemma answers_read keyID v dek pt ct sealed state check : int64_range v →
  read_reply check (into_struct health_fields) (mkHealth "" false "") (JOk (AHealth sealed state)) = Got (mkHealth "alive" sealed (clean state)) ∧
  read_reply check (into_struct key_fields) (mkKeyResponse "" 0 []) (JOk (ACreated keyID v dek)) = Got (mkKeyResponse (clean keyID) v (default [] dek)) ∧
  read_reply check (into_struct key_fields) (mkKeyResponse "" 0 []) (JOk (ARotated keyID v pt)) = Got (mkKeyResponse (clean keyID) v pt) ∧
  read_reply check skip_member tt (JOk (AShredded keyID v)) = Got tt ∧
  read_reply check (into_struct encrypted_fields) (mkEncrypted [] 0) (JOk (AEncrypted ct v)) = Got (mkEncrypted ct v) ∧
  read_reply check (into_struct decrypted_fields) (mkDecrypted [] 0) (JOk (ADecrypted pt v)) = Got (mkDecrypted pt v) ∧
  read_reply check (into_struct datakey_fields) (mkDataKey [] []) (JOk (ADataKey keyID pt ct)) = Got (mkDataKey pt ct).
Proof.
  intros Hv. split_and!; (refine (answer_read _ _ _ _ _ true _ _); [done|]); cbn [answer_json]; [|destruct dek; cbn [from_option default]|..]; read_members.
Qed.
Lemma error_read {A} check (data : update A) zero s m : (400 ≤ s)%Z → m ≠ "404 page not found" →
  read_reply check data zero (JErr s m) = CallFailed (http_error s (clean m)).
Proof.
  intros Hs Hm. rw /read_reply bool_decide_eq_true_2 //. assert (error_of (serve_text (JErr s m)) = clean m) as ->; [|done].
  rw /error_of error_text_read //. cbn [envelope_json]. destruct (decide (m = "")) as [->|Hne]; [done|]. rw (bool_decide_eq_false_2 _ Hne). read_members.
Qed.

(** ** Requests that are served *)
Context `{!UnsealerLaws V, !KVStoreLaws S, !ReliableStore S}.
(** The service is open under [kek], the limiter lets the request pass, and there is randomness
    for the trace id of its log entry. *)
Record serving (kek : KEK) (rq : request bytes) (r : R) : Prop := {
  sv_emergency : us_IsEmergencySealed (c_seal (r_core r)) = false;
  sv_sealed : us_IsSealed (c_seal (r_core r)) = false;
  sv_kek X A (f : KEK → M X A) : us_KEKRef (c_seal (r_core r)) f = f kek;
  sv_passes : (limited rq r).2 = Ok false;
  sv_random : 16 ≤ length (m_rand (c_world (r_core r)).2);
}.
(** The client's token is that of a role with policy [p]. *)
Definition token_of (c : sdk) (p : Policy) : Prop :=
  ∃ f tok, cf_authenticator cfg = Some f ∧ ExtractBearerToken ("Bearer " +:+ sk_token c) = Ok tok ∧ f tok = Ok p.
(** The service as a handler finds it. *)
Definition entered (p : Policy) (r : R) : R := set_core (set_ctx (Some (p_RoleID p)) (r_core (traced r))) (traced r).

Lemma serve_step kek rq (rt : route (V := V) (S := S) (T := bytes)) (r : R) : serving kek rq r → rq_Method rq ≠ "OPTIONS" →
  rq_Path rq ≠ "/api/v1/sys/health" → find_route cfg (rq_Path rq) = Some rt →
  ∃ rl r2 x r' rep, r_core rl = r_core r ∧ guarded cfg rt rq (traced rl) = (r2, x) ∧ ServeHTTP cfg rq r = (r', Ok (cors_origin cfg rq, rep)) ∧
    (∀ a, x = Ok a → rep = a) ∧ (∀ m, x = Panic m → rep = JErr 500 "internal error") ∧ (∀ e, x ≠ Error e) ∧ c_world (r_core r') = c_world (r_core r2).
Proof.
  intros [He Hs Hk Hl Hr] Hm Hh Hrt. destruct (limited rq r) as [rl y] eqn:El. cbn in Hl. subst y.
  assert (r_core rl = r_core r) as Ec.
  { rw /limited in El. destruct (r_limiter r); [|by injection El as <-]. destruct (Allow _ _ _) as [? ok]. by injection El as <- _. }
  destruct (guarded_well_behaved cfg _ _ rq Hrt) as [Hrep _]. destruct (guarded cfg rt rq (traced rl)) as [r2 x] eqn:Eg.
  assert (∀ e, x ≠ Error e) as Hne by (intros e ->; by eapply Hrep).
  destruct (audit_step (rt_action rt) (guarded cfg rt rq) rq rl r2 x) as (rep & r' & Ha & H1 & H2 & H3 & _); [by rw Ec|by rw Ec|done|done|].
  exists rl, r2, x, r', rep. split_and!; try done; [|by rw H3]. rw /ServeHTTP (M_bind_step _ _ _ _ _ El). cbv iota. rw bool_decide_eq_false_2 //.
  assert (mux cfg rq rl = (r', Ok rep)) as Hx. { rw /mux bool_decide_eq_false_2 // Hrt. done. }
  by rw (M_bind_step _ _ _ _ _ Hx).
Qed.

(** The replies a handler can give. *)
Definition yields (P : reply → Prop) (m : M R reply) : Prop := ∀ r r' rep, m r = (r', Ok rep) → P rep.
Lemma yields_ret (P : reply → Prop) rep : P rep → yields P (mret rep).
Proof. by intros Hp r r' rep' [= _ <-]. Qed.
Lemma yields_need (P : reply → Prop) b s msg k : P (JErr s msg) → yields P k → yields P (need b s msg k).
Proof. rw /need. destruct b; [done|]. intros ? _. by apply yields_ret. Qed.
Lemma yields_body {A} (P : reply → Prop) (dec : bytes → option A) msg rq k : (∀ m, P (JErr 400 m)) → (∀ a, yields P (k a)) → yields P (with_body dec msg rq k).
Proof. intros H1 H2. rw /with_body /fail. destruct (rq_Body rq) as [t|]; [destruct (dec t)|]; [apply H2|by apply yields_ret..]. Qed.
Lemma yields_result {A} (P : reply → Prop) (m : M R A) onErr k : (∀ e, P (onErr e)) → (∀ a, yields P (k a)) → yields P (on_result m onErr k).
Proof.
  intros H1 H2 r r' rep H. apply M_bind_ok in H as (r1 & x & _ & H). destruct x as [a|e]; [by eapply H2|]. by injection H as _ <-.
Qed.
Definition encrypted_or_error (rep : reply) : Prop := (∃ ct v, rep = JOk (AEncrypted ct v)) ∨ (400 ≤ status_of rep)%Z.
Lemma encrypt_yields p rq : yields encrypted_or_error (handleV1Encrypt p rq).
Proof.
  assert (∀ s m, (400 ≤ s)%Z → encrypted_or_error (JErr s m)) as He by (intros; by right).
  rw /handleV1Encrypt. repeat first [apply yields_need; [by apply He|] | apply yields_body; [by intros; apply He|intros ?] | apply yields_result; [|intros ?]].
  - intros e. case_bool_decide; by apply He.
  - intros e. by apply He.
  - apply yields_ret. left. by eexists _, _.
Qed.
Lemma Got_status {A} check (data : update A) zero rep d : read_reply check data zero rep = Got d → (status_of rep < 400)%Z.
Proof. rw /read_reply. case_bool_decide; [done|]. intros _. lia. Qed.

(** Past the guards of a cryptographic route. *)
Lemma guarded_handler (rq : request bytes) p h path action (r : R) : us_IsEmergencySealed (c_seal (r_core r)) = false → us_IsSealed (c_seal (r_core r)) = false →
  (∃ f tok, cf_authenticator cfg = Some f ∧ ExtractBearerToken (rq_Authorization rq) = Ok tok ∧ f tok = Ok p) →
  extractKeyIDFromPath (rq_Path rq) = "" →
  guarded cfg (mkRoute path action (AuthAndSeal action) h) rq (traced r) =
    if IsActionAllowed p action then h (Some p) rq (entered p r) else (traced r, Ok (JErr 403 "access denied")).
Proof.
  intros He Hs (f & tok & Hf & Ht & Hp) Hk. rw /guarded /= /authAndSeal /requireUnsealedV1 Hf (ut_seal _ _ (untouched_traced r)) He Hs /RequireAuth Ht Hf Hp Hk.
  by destruct (IsActionAllowed p action).
Qed.
Lemma entered_core p (r rl : R) : r_core rl = r_core r → r_core (entered p rl) = r_core (entered p r).
Proof. rw /entered /traced /set_core /=. by intros ->. Qed.
Lemma entered_world p (r : R) : c_world (r_core (entered p r)) = mgr_apply (OpEntropy (drop 16 (m_rand (c_world (r_core r)).2))) (c_world (r_core r)).
Proof. done. Qed.
Lemma entered_open kek rq p action id (r : R) : serving kek rq r → open_for kek None action id (r_core (entered p r)).
Proof. intros [He Hs Hk _ _]. by split. Qed.
Lemma token_header c p method path body : token_of c p →
  ∃ f tok, cf_authenticator cfg = Some f ∧ ExtractBearerToken (default "" (hr_Authorization (new_request c method path body))) = Ok tok ∧ f tok = Ok p.
Proof.
  intros (f & tok & Hf & Ht & Hp). exists f, tok. split_and!; [done| |done]. cbn [new_request hr_Authorization].
  case_bool_decide as Hn; [|done]. by rw Hn in Ht.
Qed.

Lemma encrypted_in_range ct v d check : read_reply check (into_struct encrypted_fields) (mkEncrypted [] 0) (JOk (AEncrypted ct v)) = Got d →
  int64_range v ∧ d = mkEncrypted ct v.
Proof.
  intros H. destruct (decide (int64_range v)) as [Hv|Hv].
  - split; [done|]. destruct (answers_read "" v None [] ct true "" check Hv) as (_ & _ & _ & _ & E & _). rw E in H. by injection H as <-.
  - exfalso. assert (∀ a, into_int (WInt v) a = (a, false)) as Hi by (intros a; by rw /into_int bool_decide_eq_false_2).
    assert (∃ d', into_struct encrypted_fields (wclean (answer_json other_json (AEncrypted ct v))) (mkEncrypted [] 0) = (d', false)) as [d' Hd].
    { eexists. cbn [answer_json]. rewrite wclean_members. cbn [fmap list_fmap fst snd]. change (wclean (WInt v)) with (WInt v).
      lazy -[into_bytes into_int of_bytes wclean]. rewrite into_of_bytes Hi. reflexivity. }
    by rw (answer_read check _ _ _ _ _ _ Hd) in H.
Qed.
(** A successful encryption through a client is one of the service, on the tenant's key. *)
Abbreviation encrypt_path := "/api/v1/encrypt".
Abbreviation decrypt_path := "/api/v1/decrypt".
Definition encrypt_body (keyID : string) (pt : bytes) : wval := obj [("key_id", of_string keyID); ("plaintext", of_bytes pt)].
Definition decrypt_body (keyID : string) (ct : bytes) : wval := obj [("ciphertext", of_bytes ct); ("key_id", of_string keyID)].
Definition encrypt_rq (c : sdk) keyID pt : request bytes := received (new_request c "POST" encrypt_path (Some (encrypt_body keyID pt))) encrypt_path "" "".
Definition decrypt_rq (c : sdk) keyID ct : request bytes := received (new_request c "POST" decrypt_path (Some (decrypt_body keyID ct))) decrypt_path "" "".
Lemma SdkEncrypt_inv kek c ctx en keyID pt p (r r1 : R) c1 ct v : plain c → url (sk_baseURL c +:+ encrypt_path) = inl (encrypt_path, "", "") →
  token_of c p → serving kek (encrypt_rq c keyID pt) r → SdkEncrypt c ctx en keyID pt r = ((c1, r1), Got (mkEncrypted ct v)) →
  keyID ≠ "" ∧ int64_range v ∧ ∃ c', Encrypt (ScopedKeyID (p_TenantID p) (clean keyID)) pt None (r_core (entered p r)) = (c', Ok (ct, v)) ∧ c_world (r_core r1) = c_world c'.
Proof.
  intros Hc Hu Ht Hs H. set (rt := mkRoute (V := V) (S := S) (T := bytes) encrypt_path "Encrypt" (AuthAndSeal "Encrypt") handleV1Encrypt).
  destruct (serve_step kek (encrypt_rq c keyID pt) rt r Hs) as (rl & r2 & x & r' & rep & Ec & Hg & Hsv & H1 & H2 & H3 & Er); [done..|].
  rw /SdkEncrypt (plain_method _ _ _ _ _ _ _ _ _ _ _ _ _ _ _ _ Hc Hu Hsv) in H. injection H as <- <- H.
  pose proof (Got_status _ _ _ _ _ H) as Hst. rw (guarded_handler _ p) in Hg; [by rw Ec; apply Hs|by rw Ec; apply Hs|by apply token_header|done|].
  destruct (IsActionAllowed p "Encrypt"); [|injection Hg as _ <-; by rw (H1 _ eq_refl) in Hst].
  destruct x as [a|e|m]; [|by destruct (H3 e)|by rw (H2 m eq_refl) in Hst]. rw (H1 a eq_refl) in H Hst.
  destruct (encrypt_yields _ _ _ _ _ Hg) as [(ct' & v' & ->)|]; [|lia]. apply encrypted_in_range in H as [Hv [= <- <-]].
  pose proof Hg as Hg'. apply method_ok in Hg' as [_ Hg']. apply body_ok in Hg' as (t & b & Hb & Hd & Hg').
  assert (b = mkEncrypt (clean keyID) pt) as ->.
  { cbn [encrypt_rq received rq_Body new_request hr_Body default fmap option_fmap option_map] in Hb. destruct (bool_decide _) eqn:El in Hb; [|done]. injection Hb as <-.
    destruct (bodies_read keyID pt [] None v Hv) as [Hb _]. rw /encrypt_body Hb in Hd. by injection Hd as <-. }
  apply need_ok in Hg' as [Hk%negb_true_iff%bool_decide_eq_false Hg']. apply need_ok in Hg' as [Ha _]. cbn in Hk. split; [by rw -clean_empty|]. split; [done|].
  destruct (Encrypt (ScopedKeyID (p_TenantID p) (clean keyID)) pt None (r_core (entered p rl))) as [c' y] eqn:Ey.
  destruct (encrypt_agrees (Some p) (encrypt_rq c keyID pt) t (mkEncrypt (clean keyID) pt) (entered p rl) r2 (Ok (JOk (AEncrypted ct v))) c' y) as [Hw Hy]; try done.
  { cbn. rw Ec. apply Hs. } { cbn. rw Ec. apply Hs. }
  exists c'. rw Er Hw -(proj1 (Hy ct v) eq_refl) -Ey. split; [|done]. by rw (entered_core p r rl Ec).
Qed.
(** And a decryption the service can do is one that a client with the rights gets. *)
Lemma SdkDecrypt_intro kek c ctx en keyID ct p (r : R) c' pt v : plain c → url (sk_baseURL c +:+ decrypt_path) = inl (decrypt_path, "", "") →
  token_of c p → IsActionAllowed p "Decrypt" = true → IsKeyAllowed p (clean keyID) = true → keyID ≠ "" →
  serving kek (decrypt_rq c keyID ct) r → (Z.of_nat (length (render_w (decrypt_body keyID ct))) ≤ maxRequestBodyBytes)%Z →
  Decrypt (ScopedKeyID (p_TenantID p) (clean keyID)) ct None (r_core (entered p r)) = (c', Ok (mkSB pt false, v)) → int64_range v →
  ∃ r', SdkDecrypt c ctx en keyID ct r = ((c, r'), Got (mkDecrypted pt v)).
Proof.
  intros Hc Hu Ht Ha Hk Hne Hs Hl Hd Hv. rw -clean_empty in Hne. set (rt := mkRoute (V := V) (S := S) (T := bytes) decrypt_path "Decrypt" (AuthAndSeal "Decrypt") handleV1Decrypt).
  destruct (serve_step kek (decrypt_rq c keyID ct) rt r Hs) as (rl & r2 & x & r' & rep & Ec & Hg & Hsv & H1 & _ & _ & _); [done..|].
  exists r'. rw /SdkDecrypt (plain_method _ _ _ _ _ _ _ _ _ _ _ _ _ _ _ _ Hc Hu Hsv).
  rw (guarded_handler _ p) in Hg; [by rw Ec; apply Hs|by rw Ec; apply Hs|by apply token_header|done|]. rw Ha in Hg.
  rw -(entered_core p r rl Ec) in Hd. destruct (bodies_read keyID [] ct None v Hv) as (_ & Hb & _).
  destruct (decrypt_agrees (Some p) (decrypt_rq c keyID ct) (render_w (decrypt_body keyID ct)) (mkDecrypt (clean keyID) ct) (entered p rl) r2 x c' (Ok (mkSB pt false, v))) as [_ Hx]; try done.
  { cbn [decrypt_rq received rq_Body new_request hr_Body default fmap option_fmap option_map]. by rewrite (bool_decide_eq_true_2 _ Hl). }
  { cbn. rw Ec. apply Hs. } { cbn. rw Ec. apply Hs. }
  rw (H1 _ (proj2 (Hx pt v) eq_refl)). f_equal. by destruct (answers_read "" v None pt [] true "" true Hv) as (_ & _ & _ & _ & _ & -> & _).
Qed.

Lemma mgr_run_app ops ops' (w : S * Env) : mgr_run (ops ++ ops') w = mgr_run ops' (mgr_run ops w).
Proof. revert w. induction ops as [|op ops IH]; intros w; [done|]. apply IH. Qed.
Lemma spares_app id v ops ops' (w : S * Env) : spares id v ops w → spares id v ops' (mgr_run ops w) → spares id v (ops ++ ops') w.
Proof. revert w. induction ops as [|op ops IH]; intros w; [done|]. intros (? & ? & ?) ?. by split_and!; [..|apply IH]. Qed.

(** C26: what one client encrypts, another decrypts, over the wire. Take a client whose token is
    that of a role of some tenant, and a service that is open, lets the request pass, and has no
    destroyed version of the tenant's key, which is the one of the given id with invalid UTF-8
    replaced (of the very id, when it is valid UTF-8). When the client's [Encrypt] returns a ciphertext and a
    version, then after any history of the keys that spares this version, and for any client of
    a role of the same tenant that may decrypt with the key, [Decrypt] of that ciphertext
    succeeds (when its request fits into the server's limit of one megabyte) and returns the
    plaintext and the version: through the JSON texts of both requests and replies, the rate
    limit, the audit, authentication and seal middleware, and the handlers. *)
Theorem sdk_roundtrip kek c c' p p' ctx ctx' en en' keyID pt ops (r r1 r2 : R) c1 ct v :
  plain c → plain c' → url (sk_baseURL c +:+ encrypt_path) = inl (encrypt_path, "", "") → url (sk_baseURL c' +:+ decrypt_path) = inl (decrypt_path, "", "") →
  token_of c p → token_of c' p' → p_TenantID p' = p_TenantID p → IsActionAllowed p' "Decrypt" = true → IsKeyAllowed p' (clean keyID) = true →
  winv (c_world (r_core r)) → none_destroyed (ScopedKeyID (p_TenantID p) (clean keyID)) (c_world (r_core r)) → serving kek (encrypt_rq c keyID pt) r →
  SdkEncrypt c ctx en keyID pt r = ((c1, r1), Got (mkEncrypted ct v)) → (v < 2 ^ 32)%Z →
  spares (ScopedKeyID (p_TenantID p) (clean keyID)) v ops (c_world (r_core r1)) → c_world (r_core r2) = mgr_run ops (c_world (r_core r1)) →
  serving kek (decrypt_rq c' keyID ct) r2 → (Z.of_nat (length (render_w (decrypt_body keyID ct))) ≤ maxRequestBodyBytes)%Z →
  ∃ r3, SdkDecrypt c' ctx' en' keyID ct r2 = ((c', r3), Got (mkDecrypted pt v)).
Proof.
  intros Hc Hc' Hu Hu' Ht Ht' Etn Ha Hk Hw Hnd Hs He Hv Hsp Ew Hs2 Hl.
  destruct (SdkEncrypt_inv kek c ctx en keyID pt p r r1 c1 ct v Hc Hu Ht Hs He) as (Hne & Hr & c2 & HE & Ew1).
  rw Ew1 in Hsp Ew.
  destruct (encrypt_decrypt_later kek (ScopedKeyID (p_TenantID p) (clean keyID)) pt None None (ops ++ [OpEntropy (drop 16 (m_rand (c_world (r_core r2)).2))])
    (r_core (entered p r)) c2 (r_core (entered p' r2)) ct v) as (c3 & HD); try done.
  - by eapply entered_open.
  - apply spares_app; [done|]. by split_and!; [|intros []|].
  - rw entered_world mgr_run_app -Ew. done.
  - by eapply entered_open.
  - rw -Etn in HD. by eapply (SdkDecrypt_intro kek c' ctx' en' keyID ct p' r2 c3 pt v).
Qed.
End Exchange.

(** ** Witness *)
Import MemoryKV.
Definition demo_url (u : string) : (string * string * string) + string :=
  if has_prefix "http://kms" u then inl (str_drop 10 u, "", "") else inr "no such host".
Definition demo_sdk : sdk := New "http://kms" "to".
Definition demo_nobody : environment := mkEnvironment (λ _, TransportFails "EOF") (λ _, false) (λ _, 0%Z) (λ _, []) 0 "".
Abbreviation demo_encrypt_call := (SdkEncrypt demo_cfg (λ _, WNull) [] demo_url "EOF" (λ _, "") "10.0.0.1:99" (λ _, 0%Z) (λ _ r, r) demo_sdk "" demo_nobody).
Abbreviation demo_decrypt_call := (SdkDecrypt demo_cfg (λ _, WNull) [] demo_url "EOF" (λ _, "") "10.0.0.1:99" (λ _, 0%Z) (λ _ r, r) demo_sdk "" demo_nobody).
Definition demo_later (r : Router VaultState WMem) : Router VaultState WMem :=
  set_core (set_world (mgr_run demo_between (c_world (r_core r))) (r_core r)) r.
Definition demo_r1 : Router VaultState WMem := (demo_encrypt_call "k" [x68; x69] demo_router).1.2.
Definition demo_ct : bytes := match (demo_encrypt_call "k" [x68; x69] demo_router).2 with Got e => ep_Ciphertext e | _ => [] end.
Lemma sdk_roundtrip_witness : ∃ c1 r1 ct r3, demo_encrypt_call "k" [x68; x69] demo_router = ((c1, r1), Got (mkEncrypted ct 1)) ∧
  demo_decrypt_call "k" ct (demo_later r1) = ((demo_sdk, r3), Got (mkDecrypted [x68; x69] 1)).
Proof.
  destruct (demo_encrypt_call "k" [x68; x69] demo_router) as [[c1 r1] x] eqn:E.
  assert (r1 = demo_r1) as Er by (rw /demo_r1 E; reflexivity). assert (x = Got (mkEncrypted demo_ct 1)) as ->.
  { change x with ((c1, r1), x).2. rw -E. vm_compute. reflexivity. }
  exists c1, r1, demo_ct.
  destruct (sdk_roundtrip demo_cfg (λ _, WNull) [] demo_url "EOF" (λ _, "") "10.0.0.1:99" (λ _, 0%Z) (λ _ r, r) (NewSoftwareKEK demo_key) demo_sdk demo_sdk
    (mkPolicy "ops" ["*"] ["*"] false 0 [] "") (mkPolicy "ops" ["*"] ["*"] false 0 [] "") "" "" demo_nobody demo_nobody "k" [x68; x69] demo_between
    demo_router r1 (demo_later r1) c1 demo_ct 1) as [r3 H].
  1-4: vm_compute; try split; reflexivity.
  1-2: eexists _, "to"; split_and!; [reflexivity|vm_compute; reflexivity..].
  1-3: vm_compute; reflexivity.
  - apply demo_two_winv.
  - apply demo_two_fine.
  - split; [reflexivity..|vm_compute; reflexivity|vm_compute; lia].
  - exact E.
  - lia.
  - apply demo_between_spares.
  - reflexivity.
  - rw Er. split; [reflexivity|reflexivity|reflexivity|vm_compute; reflexivity|vm_compute; lia].
  - vm_compute. discriminate.
  - exists r3. split; [reflexivity|exact H].
Defined.
