(* ===== verification/Grpc.v ===== *)
(** The gRPC interface, [src/internal/grpc]: the interceptor with its authentication,
    seal check and recovery ([interceptor.go]), the methods over the service layer
    ([server.go]), and the codec that wipes secrets after serialisation
    ([wiping_codec.go]). The wire format of protocol buffers is an argument. *)

From S2P Require Import Prelude SecureBuffer Hash AesGcm Ciphertext Kek Vault Store Metadata Manager Transit Lifecycle Cache KeyManagement Auth Core CoreSpec Api.
Import MemoryKV.

(** ** Messages *)
Inductive grpc_request : Type :=
  | HealthRequest
  | EmergencySealRequest (adminToken : string) (confirm : bool)
  | UnsealRequest
  | CreateKeyRequest (keyId : string) (rotationPeriodDays : Z) (returnDek : bool)
  | RotateKeyRequest (keyId : string)
  | ShredKeyRequest (keyId : string) (version : Z)
  | SoftDeleteKeyRequest (keyId : string) (version : Z)
  | RestoreKeyRequest (keyId : string) (version : Z)
  | GenerateDataKeyRequest (keyId : string)
  | EncryptRequest (keyId : string) (plaintext : bytes)
  | DecryptRequest (keyId : string) (ciphertext : bytes)
  | TransitPubRequest
  | ImportKeyRequest
  | AuditQueryRequest.
Inductive grpc_response : Type :=
  | HealthResponse (state : string) (emergencySealed : bool)
  | EmergencySealResponse
  | CreateKeyResponse (keyId : string) (version : Z) (plaintextDek : bytes)
  | RotateKeyResponse (keyId : string) (newVersion : Z) (plaintextDek : bytes)
  | ShredKeyResponse
  | SoftDeleteKeyResponse
  | RestoreKeyResponse
  | GenerateDataKeyResponse (plaintextDek ciphertextDek : bytes)
  | EncryptResponse (ciphertext : bytes) (version : Z)
  | DecryptResponse (plaintext : bytes) (version : Z).

(** ** wiping_codec.go *)
Definition clearBytes (b : bytes) : bytes := replicate (length b) x00.
Definition wipeSensitiveBytes (m : grpc_response) : grpc_response :=
  match m with
  | DecryptResponse pt v => DecryptResponse (clearBytes pt) v
  | CreateKeyResponse id v dek => CreateKeyResponse id v (clearBytes dek)
  | RotateKeyResponse id v dek => RotateKeyResponse id v (clearBytes dek)
  | GenerateDataKeyResponse dek ct => GenerateDataKeyResponse (clearBytes dek) ct
  | m => m
  end.
(** The bytes for the wire, and the message that stays in memory. *)
Definition Marshal (base : grpc_response → result bytes) (m : grpc_response) : result bytes * grpc_response :=
  (base m, wipeSensitiveBytes m).

(** ** Status codes *)
Inductive code : Type := Unauthenticated | Unavailable | Internal | Unknown.
Definition safeInt32 (v : Z) : Z := if bool_decide (2147483647 < v ∨ v < -2147483648)%Z then 0%Z else v.

(** The authorization headers of the metadata; [None]: there is none. *)
Abbreviation metadata := (option (list string)).
Definition bearer (md : metadata) : option string :=
  match md with
  | Some (header :: _) =>
      if (bool_decide (String.length header ≤ String.length "Bearer ")) || negb (has_prefix "Bearer " header) then None
      else Some (str_drop (String.length "Bearer ") header)
  | _ => None
  end.
(** [authenticate]: the policy, none in development mode; [None] for the errors. *)
Definition authenticate (authenticator : option (string → result Policy)) (md : metadata) : option (result (option Policy)) :=
  match authenticator with
  | None => Some (Ok None)
  | Some f => match bearer md with None => None | Some token => Some (p ← f token; Ok (Some p)) end
  end.

Section Grpc.
Context {V S : Type} `{!Unsealer V, !KVStore S}.
Abbreviation CoreT := (Core V S).
Abbreviation MC := (M CoreT).

(** ** server.go *)
(** The copy of a buffer for the response; an error of [WithKey] is dropped. *)
Definition dek_bytes (sb : SecureBuffer) : MC bytes := lift (match WithKeyR sb Ok with Error _ => Ok [] | r => r end).
Definition errConfirm : error := Err_new "grpc: confirm must be true".
Definition errNotSupported : error := Err_new "grpc: not supported via gRPC".
Definition serve (rq : grpc_request) (policy : option Policy) : MC grpc_response :=
  match rq with
  | HealthRequest => c ← get_st; mret (HealthResponse (Health c) (us_IsEmergencySealed (c_seal c)))
  | EmergencySealRequest token confirm => guardM confirm errConfirm;; CoreEmergencySeal token;; mret EmergencySealResponse
  | UnsealRequest | TransitPubRequest | ImportKeyRequest | AuditQueryRequest => throw errNotSupported
  | CreateKeyRequest id days returnDek =>
      '(id, v, dek) ← CoreCreateKey id days returnDek policy;
      dek ← match dek with Some sb => dek_bytes sb | None => mret [] end;
      mret (CreateKeyResponse id (safeInt32 v) dek)
  | RotateKeyRequest id =>
      '(id, v, sb) ← CoreRotateKey id policy; dek ← dek_bytes sb; mret (RotateKeyResponse id (safeInt32 v) dek)
  | ShredKeyRequest id v => CoreShredKey id v policy;; mret ShredKeyResponse
  | SoftDeleteKeyRequest id v => CoreSoftDeleteKey id v policy;; mret SoftDeleteKeyResponse
  | RestoreKeyRequest id v => CoreRestoreKey id v policy;; mret RestoreKeyResponse
  | GenerateDataKeyRequest id =>
      '(sb, ct) ← CoreGenerateDataKey id policy; dek ← lift (WithKeyR sb Ok); mret (GenerateDataKeyResponse dek ct)
  | EncryptRequest id pt => '(ct, v) ← Encrypt id pt policy; mret (EncryptResponse ct (safeInt32 v))
  | DecryptRequest id ct => '(sb, v) ← Decrypt id ct policy; pt ← dek_bytes sb; mret (DecryptResponse pt (safeInt32 v))
  end.

(** ** interceptor.go *)
Definition isSealExempt (rq : grpc_request) : bool := match rq with HealthRequest | EmergencySealRequest _ _ => true | _ => false end.
Definition is_health (rq : grpc_request) : bool := match rq with HealthRequest => true | _ => false end.
(** Outcomes: a response, or a status with its message. *)
Abbreviation reply := (grpc_response + code * error)%type.
Definition errInternal : error := Err_new "internal error".
Definition errAuthFailed : error := Err_new "authentication failed".

Definition InterceptorChain (authenticator : option (string → result Policy)) (md : metadata) (rq : grpc_request) (c : CoreT) : CoreT * reply :=
  let sealed_then (policy : option Policy) (c : CoreT) : CoreT * reply :=
    if negb (isSealExempt rq) && us_IsEmergencySealed (c_seal c) then (c, inr (Unavailable, errEmergencySealed))
    else if negb (isSealExempt rq) && us_IsSealed (c_seal c) then (c, inr (Unavailable, errVaultSealed))
    else match serve rq policy c with
         | (c, Ok resp) => (c, inl resp)
         | (c, Error e) => (c, inr (Unknown, e))
         | (c, Panic _) => (c, inr (Internal, errInternal))
         end in
  let c := set_ctx None c in
  if is_health rq then sealed_then None c
  else match authenticate authenticator md with
       | Some (Ok policy) => sealed_then policy (set_ctx (p_RoleID <$> policy) c)
       | Some (Panic _) => (c, inr (Internal, errInternal))
       | _ => (c, inr (Unauthenticated, errAuthFailed))
       end.

(** ** Guards *)
(** The operation of the service that a method runs. *)
Definition grpc_op (rq : grpc_request) : option core_op :=
  match rq with
  | CreateKeyRequest id days rd => Some (RqCreateKey id days rd)
  | RotateKeyRequest id => Some (RqRotateKey id)
  | ShredKeyRequest id v => Some (RqShredKey id v)
  | SoftDeleteKeyRequest id v => Some (RqSoftDeleteKey id v)
  | RestoreKeyRequest id v => Some (RqRestoreKey id v)
  | GenerateDataKeyRequest id => Some (RqGenerateDataKey id)
  | EncryptRequest id pt => Some (RqEncrypt id pt)
  | DecryptRequest id ct => Some (RqDecrypt id ct)
  | _ => None
  end.
(** A caller may run an operation: the service is unsealed and, with an authenticator,
    the token belongs to a role with all the permissions. *)
Definition permitted (authenticator : option (string → result Policy)) (md : metadata) (op : core_op) (c : CoreT) : Prop :=
  us_IsEmergencySealed (c_seal c) = false ∧ us_IsSealed (c_seal c) = false ∧
  ∀ f, authenticator = Some f → ∃ token p, bearer md = Some token ∧ f token = Ok p ∧ ∀ need, need ∈ op_needs op → denied p need = false.

Lemma serve_refuses rq op p need c : grpc_op rq = Some op → need ∈ op_needs op → denied p need = true → refuses (serve rq (Some p)) c.
Proof.
  intros Hop Hin Hd. destruct need as [a k]. pose proof (denied_refuses p a k c Hd) as Hr.
  assert (∀ B (f : () → MC B), refuses (authorize (Some p) a k ≫= f) c) as Hgo by (intros; by apply refuses_bind).
  destruct rq; try discriminate Hop; injection Hop as <-; apply list_elem_of_singleton in Hin; injection Hin as -> ->; apply refuses_bind; solve_gates.
Qed.

Lemma authenticate_ok authenticator md policy f : authenticate authenticator md = Some (Ok policy) → authenticator = Some f →
  ∃ token p, bearer md = Some token ∧ f token = Ok p ∧ policy = Some p.
Proof.
  intros Ea ->. rw /authenticate in Ea. destruct (bearer md) as [token|]; [|done]. destruct (f token) as [p| |] eqn:Ef; [|done..].
  injection Ea as <-. by exists token, p.
Qed.
(** Past the interceptor, a call that is not permitted fails at the permissions. *)
Lemma serve_not_permitted authenticator md rq op policy c c1 c2 r : grpc_op rq = Some op → ¬ permitted authenticator md op c →
  authenticate authenticator md = Some (Ok policy) → serve rq policy c1 = (c2, r) →
  us_IsEmergencySealed (c_seal c) = false → us_IsSealed (c_seal c) = false → c2 = c1 ∧ ∃ e, r = Error e.
Proof.
  intros Hop Hnot Ea Hs H1 H2. destruct (existsb (λ need, from_option (λ p, denied p need) false policy) (op_needs op)) eqn:Ed.
  - apply existsb_exists in Ed as (need & Hin%list_elem_of_In & Hd). destruct policy as [p|]; [|done].
    destruct (serve_refuses rq op p need c1 Hop Hin Hd) as [e He]. rw He in Hs. injection Hs as <- <-. by split; [|exists e].
  - destruct Hnot. split_and!; [done..|]. intros f Hf. destruct (authenticate_ok _ _ _ f Ea Hf) as (token & p & Ht & Hfp & ->). exists token, p.
    split_and!; [done..|]. intros need Hin. destruct (denied p need) eqn:Hd; [|done].
    rw -not_true_iff_false existsb_exists in Ed. destruct Ed. exists need. by rw -list_elem_of_In.
Qed.

(** C29: the gRPC interface guards the service: a call that runs an operation on keys is
    answered with a status and leaves the service as it was, but for the actor of the
    context, unless the service is unsealed and, on a server with an authenticator, the
    bearer token belongs to a role that has every permission of the operation. The
    health check changes nothing; and an emergency seal succeeds only with a
    confirmation and the configured administrator token. *)
Theorem grpc_guarded authenticator md rq (c c' : CoreT) rep : InterceptorChain authenticator md rq c = (c', rep) →
  (∀ op, grpc_op rq = Some op → ¬ permitted authenticator md op c → (∃ s, rep = inr s) ∧ ∃ actor, c' = set_ctx actor c) ∧
  (rq = HealthRequest → c' = set_ctx None c) ∧
  (∀ token confirm, rq = EmergencySealRequest token confirm → rep = inl EmergencySealResponse →
     confirm = true ∧ token = c_adminToken c ∧ c_adminToken c ≠ "").
Proof.
  rw /InterceptorChain. intros H. split_and!.
  - intros op Hop Hnot. assert (is_health rq = false ∧ isSealExempt rq = false) as [Hh Hx] by by destruct rq.
    rw Hh Hx in H. cbn [negb andb] in H.
    destruct (authenticate authenticator md) as [[policy|e|m]|] eqn:Ea; [|injection H as <- <-; split; [by eexists|by exists None]..].
    set (c1 := set_ctx (p_RoleID <$> policy) (set_ctx None c)) in H. change (c_seal c1) with (c_seal c) in H.
    assert (c1 = set_ctx (p_RoleID <$> policy) c) as Hc1 by done.
    destruct (us_IsEmergencySealed (c_seal c)) eqn:E1; [injection H as <- <-; split; by eexists|].
    destruct (us_IsSealed (c_seal c)) eqn:E2; [injection H as <- <-; split; by eexists|].
    destruct (serve rq policy c1) as [c2 r] eqn:Es. destruct (serve_not_permitted authenticator md rq op policy c c1 c2 r Hop Hnot Ea Es E1 E2) as [-> [e ->]].
    injection H as <- <-. split; by eexists.
  - intros ->. cbn in H. by injection H as <- _.
  - intros token confirm -> ->. cbn [is_health isSealExempt negb andb] in H.
    destruct (authenticate authenticator md) as [[policy|e|m]|]; [|done..].
    destruct (serve _ _ _) as [c2 [r| |]] eqn:Es; [|done..]. injection H as _ ->. rw /serve in Es.
    apply M_bind_ok in Es as (c3 & u & [Hc ->]%guardM_ok & Es). apply M_bind_ok in Es as (c4 & u1 & Es & _).
    apply M_bind_ok in Es as (c5 & tok & [= <- <-] & Es). apply M_bind_ok in Es as (c6 & u2 & [Hn ->]%guardM_ok & Es).
    apply negb_true_iff, bool_decide_eq_false in Hn. case_bool_decide as Ht; [by split_and!|]. simpl in Es.
    by apply M_bind_ok in Es as (c7 & u3 & _ & Es).
Qed.
End Grpc.

(** ** Witness and examples *)
Definition grpc_roles : AppRoleAuthenticator :=
  RegisterPolicy "blue" "tb" (mkPolicy "blue" ["*"] ["*"] false 0 [] "b") (RegisterPolicy "app" "ta" demo_policy NewAppRoleAuthenticator).
Lemma grpc_guarded_witness :
  let '(c', rep) := InterceptorChain (Some (Authenticate grpc_roles)) (Some ["Bearer ta"]) (EncryptRequest "k" []) (demo_core demo_two) in
  (∃ s, rep = inr s) ∧ ∃ actor, c' = set_ctx actor (demo_core demo_two).
Proof.
  destruct (InterceptorChain _ _ _ _) as [c' rep] eqn:E.
  destruct (grpc_guarded (Some (Authenticate grpc_roles)) (Some ["Bearer ta"]) (EncryptRequest "k" []) (demo_core demo_two) c' rep E) as [H _].
  apply (H (RqEncrypt "k" [])); clear H.
  - reflexivity.
  - intros (_ & _ & H). destruct (H _ eq_refl) as (tok & p & Ht & Hp & Hn). injection Ht as <-. vm_compute in Hp. injection Hp as <-.
    specialize (Hn ("Encrypt", "k") (list_elem_of_here _ _)). vm_compute in Hn. discriminate Hn.
Defined.

(** The key id of a call is not put into the caller's tenant: a role of tenant "b" reads
    the keys without a tenant. *)
Example grpc_ignores_tenants : ∃ ct v,
  (InterceptorChain (Some (Authenticate grpc_roles)) (Some ["Bearer tb"]) (EncryptRequest "k" [x68]) (demo_core demo_two)).2 = inl (EncryptResponse ct v).
Proof. eexists _, _. vm_compute. reflexivity. Qed.
(** After the emergency seal a call is unavailable, and the health check answers. *)
Example grpc_emergency :
  let c := (InterceptorChain None None (EmergencySealRequest "root-token" true) (demo_core demo_two)).1 in
  (InterceptorChain None None (RotateKeyRequest "k") c).2 = inr (Unavailable, errEmergencySealed) ∧
  (InterceptorChain None None HealthRequest c).2 = inl (HealthResponse "emergency_sealed" true).
Proof. vm_compute. split; reflexivity. Qed.
