(* ===== verification/DataKey.v ===== *)
(** The data key on its way out: [GenerateDataKeyResult.WriteBase64To] of
    [src/internal/service/core.go], which hands the plaintext key to a writer once and wipes it,
    and its use by the gRPC handler ([src/internal/grpc/server.go]). *)

From S2P Require Import Prelude SecureBuffer Base64 Core Grpc.

(** ** Definitions *)
(** A nil result has no record; [gd_plaintextDEK] may be nil. *)
Record GenerateDataKeyResult : Type := mkGDK { gd_plaintextDEK : option SecureBuffer; gd_Ciphertext : bytes }.
(** A writer takes the bytes into its state and may fail. *)
Definition writer (W : Type) : Type := bytes → W → W * result ().

Definition WriteBase64To {W} (write : writer W) (r : option GenerateDataKeyResult) (w : W) : option GenerateDataKeyResult * W * result () :=
  match r with
  | Some (mkGDK (Some sb) ct) =>
      if IsDestroyed sb then (r, w, Error (Err_new "service: plaintext DEK already wiped"))
      else let '(w, res) := WithKey sb (λ dek, write (b64_encode dek)) w in
           (Some (mkGDK (Some (Wipe sb)) ct), w, res)
  | _ => (r, w, Error (Err_new "service: plaintext DEK already wiped or nil"))
  end.

(** [bytes.Buffer]: what it holds, and what its array still holds. [Reset] drops the contents
    and keeps the array. *)
Record Buffer : Type := mkBuffer { bf_contents : bytes; bf_array : bytes }.
Definition empty_buffer : Buffer := mkBuffer [] [].
Definition buffer_Write : writer Buffer := λ b w, (mkBuffer (bf_contents w ++ b) (bf_contents w ++ b), Ok tt).
Definition buffer_Reset (w : Buffer) : Buffer := mkBuffer [] (bf_array w).
(** The handler after [core.GenerateDataKey]: the key bytes of the response, and the buffer. *)
Definition grpc_dek (r : option GenerateDataKeyResult) : option GenerateDataKeyResult * Buffer * result bytes :=
  match WriteBase64To buffer_Write r empty_buffer with
  | (r, w, Ok _) => (r, buffer_Reset w, Ok (default [] (b64_DecodeString (bf_contents w))))
  | (r, w, Error e) => (r, w, Error e)
  | (r, w, Panic m) => (r, w, Panic m)
  end.

(** ** What leaves, and what stays *)
(** The key is written at most once, whatever the writer does: after any call that reached the
    writer the buffer is zeroed, and a second call fails without writing. *)
Theorem written_once {W} (write : writer W) r w r' w' res : WriteBase64To write r w = (r', w', res) →
  (∀ sb, gd_plaintextDEK <$> r' = Some (Some sb) → sb_destroyed sb = true) ∧
  (∀ (write2 : writer W), ∃ e, WriteBase64To write2 r' w' = (r', w', Error e)).
Proof.
  rw /WriteBase64To /IsDestroyed /WithKey. destruct r as [[[sb|] ct]|]; [|by intros [= <- <- <-]; split; [|eauto]..].
  destruct (sb_destroyed sb) eqn:Hd.
  { intros [= <- <- <-]. split; [by intros ? [= <-]|]. intros write2. rewrite Hd. eauto. }
  destruct (write _ _) as [w2 res2]. intros [= <- <- <-]. rw /Wipe Hd. split; [by intros ? [= <-]|]. intros write2. cbn. eauto.
Qed.
(** The response carries the key itself. *)
Lemma grpc_dek_exact sb ct : live sb → ∃ w, grpc_dek (Some (mkGDK (Some sb) ct)) = (Some (mkGDK (Some (Wipe sb)) ct), w, WithKeyR sb Ok).
Proof. intros Hl. rw /grpc_dek /WriteBase64To /IsDestroyed /WithKey /WithKeyR Hl /buffer_Write. cbn [bf_contents empty_buffer app]. rewrite b64_roundtrip. eauto. Qed.
(** The key remains readable in the array of the buffer that was reset. *)
Lemma reset_keeps_key sb ct r w res : live sb → grpc_dek (Some (mkGDK (Some sb) ct)) = (r, w, res) → b64_DecodeString (bf_array w) = Some (sb_data sb).
Proof. intros Hl. rw /grpc_dek /WriteBase64To /IsDestroyed /WithKey Hl. cbn. intros [= <- <- <-]. cbn. apply b64_roundtrip. Qed.
