(* ===== verification/Mcp.v ===== *)
(** The MCP interface for agents, [src/internal/mcp/server.go]: two tools over the service
    layer, encryption and decryption, behind a token of their own, a list of keys and a
    size limit. The protocol around a tool call is library code: a call is its metadata
    and its arguments. *)

From S2P Require Import Prelude SecureBuffer Hash Base64 AesGcm Ciphertext Kek Vault Store Metadata Manager Transit Lifecycle Cache KeyManagement Auth Jwt Core CoreSpec Api.
Import MemoryKV.

(** ** The server *)
Record McpConfig : Type := mkMcpConfig { mp_Token : string; mp_AllowedKeys : list string }.
(** The arguments of the two tools; the texts are base64. *)
Inductive tool_call : Type :=
  | yvonne_encrypt (keyID : string) (plaintext : bytes)
  | yvonne_decrypt (keyID : string) (ciphertext : bytes).
(** A text, or an error text with the error behind it. *)
Inductive tool_result : Type := Text (t : bytes) | ToolError (msg : string) (err : option error).

(** The metadata of a call is a JSON object, or absent. *)
Definition mcp_authenticate (cfg : McpConfig) (meta : option claims) : bool :=
  if bool_decide (mp_Token cfg = "") then false
  else match meta with
       | Some o => match field "mcp_token" o with Some (VStr token) => bool_decide (token = mp_Token cfg) | _ => false end
       | None => false
       end.
Definition mcp_isKeyAllowed (cfg : McpConfig) (keyID : string) : bool :=
  existsb (λ k, bool_decide (k = keyID) || bool_decide (k = "*")) (mp_AllowedKeys cfg).
Definition maxMCPDecryptSize : Z := 64 * 1024.
Definition mcp_policy (cfg : McpConfig) (action : string) : Policy := mkPolicy "mcp-agent" (mp_AllowedKeys cfg) [action] false 0 [] "".

Section Mcp.
Context {V S : Type} `{!Unsealer V, !KVStore S}.
Abbreviation CoreT := (Core V S).
Abbreviation MC := (M CoreT).

(** The handlers; the context of a call carries no policy, so its actor is the system. *)
Definition mcp_tool (cfg : McpConfig) (call : tool_call) : MC tool_result :=
  match call with
  | yvonne_encrypt keyID text =>
      match b64_DecodeString text with
      | None => mret (ToolError "invalid base64 plaintext" None)
      | Some plaintext =>
          r ← try_ (Encrypt keyID plaintext (Some (mcp_policy cfg "Encrypt")));
          mret (match r with inl (ct, _) => Text (b64_encode ct) | inr e => ToolError "encrypt failed" (Some e) end)
      end
  | yvonne_decrypt keyID text =>
      if negb (mcp_isKeyAllowed cfg keyID) then mret (ToolError "key not in MCP whitelist" None)
      else match b64_DecodeString text with
      | None => mret (ToolError "invalid base64 ciphertext" None)
      | Some ciphertext =>
          if bool_decide (maxMCPDecryptSize < Z.of_nat (length ciphertext))%Z then mret (ToolError "ciphertext too large for MCP (max 64KB)" None)
          else
            r ← try_ (Decrypt keyID ciphertext (Some (mcp_policy cfg "Decrypt")));
            match r with
            | inl (plaintext, _) => d ← lift (WithKeyR plaintext Ok); mret (Text (b64_encode d))
            | inr e => mret (ToolError "decrypt failed" (Some e))
            end
      end
  end.
Definition mcp_call (cfg : McpConfig) (meta : option claims) (call : tool_call) : MC tool_result :=
  modify (set_ctx None);;
  if mcp_authenticate cfg meta then mcp_tool cfg call
  else mret (ToolError "unauthorized: invalid or missing mcp token" None).

(** ** Guards *)
Definition call_action (call : tool_call) : string := match call with yvonne_encrypt _ _ => "Encrypt" | yvonne_decrypt _ _ => "Decrypt" end.
Definition call_key (call : tool_call) : string := match call with yvonne_encrypt k _ | yvonne_decrypt k _ => k end.
(** What a call needs: the token, an open vault, a key of the list and, to decrypt, the
    key itself in the list (or a lone star) and a bounded text. *)
Definition call_permitted (cfg : McpConfig) (meta : option claims) (call : tool_call) (c : CoreT) : Prop :=
  mcp_authenticate cfg meta = true ∧ us_IsEmergencySealed (c_seal c) = false ∧ us_IsSealed (c_seal c) = false ∧
  IsKeyAllowed (mcp_policy cfg (call_action call)) (call_key call) = true ∧
  match call with
  | yvonne_encrypt _ _ => True
  | yvonne_decrypt keyID text => mcp_isKeyAllowed cfg keyID = true ∧ ∃ ct, b64_DecodeString text = Some ct ∧ (Z.of_nat (length ct) ≤ maxMCPDecryptSize)%Z
  end.

(** The service refuses what the vault or the list do not permit. *)
Definition core_permits (p : Policy) (action id : string) (c : CoreT) : bool :=
  negb (us_IsEmergencySealed (c_seal c)) && negb (us_IsSealed (c_seal c)) && IsActionAllowed p action && IsKeyAllowed p id.
Lemma refused_by p action id c {A} (k : () → MC A) : core_permits p action id c = false →
  refuses (requireUnsealed;; authorize (Some p) action id ≫= k) c.
Proof.
  intros H. destruct (us_IsEmergencySealed (c_seal c) || us_IsSealed (c_seal c)) eqn:Es.
  - apply orb_prop in Es. by apply refuses_bind, sealed_refuses.
  - apply orb_false_iff in Es as [E1 E2]. rw /core_permits E1 E2 /= in H.
    apply gate_then; [apply gate_unsealed|]. apply refuses_bind, denied_refuses. by rw /denied H.
Qed.
Lemma Encrypt_refused p id pt c : core_permits p "Encrypt" id c = false → refuses (Encrypt id pt (Some p)) c.
Proof. apply refused_by. Qed.
Lemma Decrypt_refused p id ct c : core_permits p "Decrypt" id c = false → refuses (Decrypt id ct (Some p)) c.
Proof. apply refused_by. Qed.

(** The agents' interface guards the service: a tool call is answered with an error text
    and leaves the service as it was, but for the actor of the context, unless a token is
    configured and presented, the vault is open, the list of keys admits the key and, for a
    decryption, names it (or is open to all) and the ciphertext has at most 64 KiB. *)
Theorem mcp_guarded cfg meta call (c c' : CoreT) r : mcp_call cfg meta call c = (c', r) → ¬ call_permitted cfg meta call c →
  c' = set_ctx None c ∧ ∃ msg e, r = Ok (ToolError msg e).
Proof.
  rw /mcp_call /mbind /M_bind. set (c0 := set_ctx None c). intros H Hnot. simpl in H.
  destruct (mcp_authenticate cfg meta) eqn:Ea; [|injection H as <- <-; by split; [|eexists _, _]].
  assert (core_permits (mcp_policy cfg (call_action call)) (call_action call) (call_key call) c0 = true →
    ¬ match call with yvonne_encrypt _ _ => True | yvonne_decrypt keyID text =>
        mcp_isKeyAllowed cfg keyID = true ∧ ∃ ct, b64_DecodeString text = Some ct ∧ (Z.of_nat (length ct) ≤ maxMCPDecryptSize)%Z end) as Hc.
  { rw /core_permits. intros [[[?%negb_true_iff ?%negb_true_iff]%andb_prop _]%andb_prop ?]%andb_prop Hm. by apply Hnot. }
  destruct call as [id text|id text]; cbn [mcp_tool call_action call_key] in *.
  - destruct (b64_DecodeString text) as [pt|]; [|injection H as <- <-; by split; [|eexists _, _]].
    destruct (core_permits (mcp_policy cfg "Encrypt") "Encrypt" id c0) eqn:Ep; [by destruct Hc|].
    destruct (Encrypt_refused _ _ pt _ Ep) as [e He]. rw /mbind /M_bind /try_ He in H. injection H as <- <-. by split; [|eexists _, _].
  - destruct (mcp_isKeyAllowed cfg id) eqn:Ek; [|injection H as <- <-; by split; [|eexists _, _]].
    simpl in H. destruct (b64_DecodeString text) as [ct|] eqn:Ed; [|injection H as <- <-; by split; [|eexists _, _]].
    case_bool_decide; [injection H as <- <-; by split; [|eexists _, _]|].
    destruct (core_permits (mcp_policy cfg "Decrypt") "Decrypt" id c0) eqn:Ep; [destruct Hc; [done|]; split; [done|]; exists ct; split; [done|lia]|].
    destruct (Decrypt_refused _ _ ct _ Ep) as [e He]. rw /mbind /M_bind /try_ He in H. injection H as <- <-. by split; [|eexists _, _].
Qed.
End Mcp.

(** ** A round trip of the tools *)
Section McpRoundTrip.
Context {V S : Type} `{!Unsealer V, !UnsealerLaws V, !KVStore S, !KVStoreLaws S, !ReliableStore S}.
Abbreviation CoreT := (Core V S).

Lemma open_for_ctx kek pol action id actor (c : CoreT) : open_for kek pol action id c → open_for kek pol action id (set_ctx actor c).
Proof. by intros []. Qed.

(** What an agent encrypts it can decrypt: with the token, on an open vault and a key
    of the list, the text that the encryption tool returned for a plaintext of at most
    64 KiB less 32 bytes is decrypted to that plaintext, after any history of the keys
    that spares the version. *)
Theorem mcp_roundtrip cfg meta kek id pt text ops (c c1 c2 : CoreT) :
  winv (c_world c) → none_destroyed id (c_world c) → (∀ v m, stored (wmap (c_world c)) id v m → (v < 2 ^ 32)%Z) →
  mcp_authenticate cfg meta = true → mcp_isKeyAllowed cfg id = true → (Z.of_nat (length pt) + 32 ≤ maxMCPDecryptSize)%Z →
  open_for kek (Some (mcp_policy cfg "Encrypt")) "Encrypt" id c → open_for kek (Some (mcp_policy cfg "Decrypt")) "Decrypt" id c2 →
  mcp_call cfg meta (yvonne_encrypt id (b64_encode pt)) c = (c1, Ok (Text text)) →
  (∀ ct v, b64_DecodeString text = Some ct → ExtractVersion ct = Ok v → spares id v ops (c_world c1)) → c_world c2 = mgr_run ops (c_world c1) →
  ∃ c3, mcp_call cfg meta (yvonne_decrypt id text) c2 = (c3, Ok (Text (b64_encode pt))).
Proof.
  intros Hw Hnd Hv Ha Hk Hlen Ho Ho2 He Hs Ew. rw /mcp_call /mbind /M_bind Ha /= b64_roundtrip in He.
  apply (open_for_ctx _ _ _ _ None) in Ho, Ho2. set (c0 := set_ctx None c) in *.
  rw /mbind /M_bind /try_ in He. destruct (Encrypt id pt _ c0) as [c1' [[ct v]|e|m]] eqn:Ee; [|done..]. injection He as -> <-.
  destruct (Encrypt_inv _ _ _ _ _ _ _ _ Ho Ee) as (w1 & meta' & dek & rnd & Hg & Ev & _ & Henc & _).
  pose proof (active_version_fits _ _ _ _ Hw Hnd Hv Hg) as Hfit. rw -Ev in Hfit. rw SafeUint32_id in Henc; [lia|].
  apply EncryptVersioned_ok in Henc as (_ & _ & nonce & Hn & _ & Hct).
  assert (length ct = length pt + 32) as Hl.
  { rw Hct length_app length_app length_be_split Hn length_gcm_Seal /VersionPrefixSize /gcmNonceSize /gcmTagSize. lia. }
  destruct (encrypt_decrypt_later kek id pt (Some (mcp_policy cfg "Encrypt")) (Some (mcp_policy cfg "Decrypt")) ops c0 c1 (set_ctx None c2) ct v) as [c3 Hd]; try done; [lia|..].
  - apply (Hs ct v); [apply b64_roundtrip|]. rw Hct. apply ExtractVersion_app. lia.
  - exists c3. rw /mcp_call /mbind /M_bind Ha /= Hk b64_roundtrip /=. rw bool_decide_eq_false_2; [lia|].
    by rw /mbind /M_bind /try_ Hd.
Qed.
End McpRoundTrip.

(** ** Witnesses and examples *)
Definition agent_config : McpConfig := mkMcpConfig "agent-token" ["k"; "order-*"].
Definition agent_meta : option claims := Some [("mcp_token", VStr "agent-token")].
Lemma mcp_guarded_witness : let '(c', r) := mcp_call agent_config None (yvonne_encrypt "k" []) (demo_core demo_two) in
  c' = set_ctx None (demo_core demo_two) ∧ ∃ msg e, r = Ok (ToolError msg e).
Proof.
  destruct (mcp_call agent_config None (yvonne_encrypt "k" []) (demo_core demo_two)) as [c' r] eqn:E.
  apply (mcp_guarded agent_config None (yvonne_encrypt "k" []) (demo_core demo_two) c' r E). intros [H _]. discriminate H.
Defined.

Lemma agent_open action id w : action ∈ ["Encrypt"; "Decrypt"] → id = "k" →
  open_for (NewSoftwareKEK demo_key) (Some (mcp_policy agent_config action)) action id (demo_core w).
Proof. intros [->| ->%list_elem_of_singleton]%elem_of_cons ->; split; done. Qed.
Lemma mcp_roundtrip_witness : ∃ text c1 c3,
  mcp_call agent_config agent_meta (yvonne_encrypt "k" (b64_encode [x68; x69])) (demo_core demo_two) = (c1, Ok (Text text)) ∧
  mcp_call agent_config agent_meta (yvonne_decrypt "k" text) (demo_core (mgr_run demo_between (c_world c1))) = (c3, Ok (Text (b64_encode [x68; x69]))).
Proof.
  destruct (mcp_call agent_config agent_meta (yvonne_encrypt "k" (b64_encode [x68; x69])) (demo_core demo_two)) as [c1 r] eqn:E.
  assert (∃ text, r = Ok (Text text) ∧ (ct ← b64_DecodeString text; Some (ExtractVersion ct)) = Some (Ok 1%Z)) as (text & -> & Hx).
  { change r with (c1, r).2. rewrite -E. eexists. split; vm_compute; reflexivity. }
  destruct (mcp_roundtrip agent_config agent_meta (NewSoftwareKEK demo_key) "k" [x68; x69] text demo_between (demo_core demo_two) c1
    (demo_core (mgr_run demo_between (c_world c1)))) as [c3 H].
  - apply demo_two_winv.
  - apply demo_two_fine.
  - apply demo_two_versions.
  - reflexivity.
  - reflexivity.
  - vm_compute. discriminate.
  - apply agent_open; [apply list_elem_of_here|reflexivity].
  - apply agent_open; [apply list_elem_of_further, list_elem_of_here|reflexivity].
  - exact E.
  - intros ct v Hd Hv. rewrite Hd /= Hv in Hx. injection Hx as ->. apply demo_between_spares.
  - reflexivity.
  - exists text, c1, c3. split; [reflexivity|exact H].
Defined.

(** The list admits keys by pattern to encrypt and by name to decrypt: what an agent
    encrypts under a pattern it cannot decrypt. *)
Example patterns_only_encrypt :
  IsKeyAllowed (mcp_policy agent_config "Encrypt") "order-7" = true ∧ IsKeyAllowed (mcp_policy agent_config "Decrypt") "order-7" = true ∧
  mcp_isKeyAllowed agent_config "order-7" = false.
Proof. vm_compute. split_and!; reflexivity. Qed.
