(* ===== verification/Daemon.v ===== *)
(** The rotation daemon, [src/internal/lifecycle/daemon.go]: one scan for keys whose
    rotation is due, under the cluster lock, with a rotation and an audit entry per
    key. It is stated over any [Unsealer] and any [KVStore]. *)

From stdpp Require Import fin_maps.
From S2P Require Import Prelude SecureBuffer AesGcm Ciphertext Kek Vault Store Postgres Metadata Manager Transit Lifecycle Cache KeyManagement Scans Auth Core CoreSpec.
Import MemoryKV.

Definition SystemDaemonActor : string := "SYSTEM_DAEMON".
(** A result of [None] is the text ["success"], [Some err] the text ["failure: err"]. *)
Record AuditEntry : Type := mkAuditEntry {
  ae_Timestamp : Z; ae_Actor : string; ae_Action : string; ae_Resource : string; ae_Result : option error
}.

(** The daemon with the manager and the unsealer it works on; [rd_trail] is what
    [auditFn] has been given. *)
Record RotationDaemon (V S : Type) : Type := mkDaemon {
  rd_seal : V;
  rd_manager : S * Env;
  rd_auditFn : bool;            (* [auditFn != nil] *)
  rd_trail : list AuditEntry;
}.
Arguments mkDaemon {V S}. Arguments rd_seal {V S}. Arguments rd_manager {V S}.
Arguments rd_auditFn {V S}. Arguments rd_trail {V S}.

(** The due test of the scan. *)
Definition rotation_due (now : Z) (meta : KeyMetadata) : bool :=
  bool_decide (km_State meta = StateActive) && bool_decide (0 < km_RotationDays meta)%Z
  && negb (time_IsZero (km_NextRotationAt meta)) && negb (bool_decide (now < km_NextRotationAt meta)%Z).

Section Daemon.
Context {V S : Type} `{!Unsealer V, !KVStore S}.
Abbreviation D := (RotationDaemon V S).
Abbreviation MD := (M D).
(** The order in which [for range] visits a Go map. *)
Variable range : gmap string data → list (string * data).

Definition onMgr {A} (m : M (S * Env) A) : MD A := fun d =>
  let '(w, r) := m (rd_manager d) in (mkDaemon (rd_seal d) w (rd_auditFn d) (rd_trail d), r).
Definition audit (entry : AuditEntry) : MD () :=
  modify (λ d, if rd_auditFn d then mkDaemon (rd_seal d) (rd_manager d) (rd_auditFn d) (rd_trail d ++ [entry]) else d).

Definition expired_meta (now : Z) (item : string * data) : option KeyMetadata :=
  match unmarshal_meta item.2 with
  | Ok meta => if rotation_due now meta then Some meta else None
  | _ => None
  end.
Definition scanExpiredKeys : M (S * Env) (list KeyMetadata) :=
  items ← onS (kv_ScanPrefix "key:");
  e ← getE;
  mret (omap (expired_meta (m_now e)) (range items)).

(** [rotateErr] and [newMeta] are set by the closure only; when [KEKRef] refuses, both
    are nil and the success branch dereferences [newMeta]. *)
Definition rotateAndAudit (meta : KeyMetadata) : MD () := fun d =>
  let closure kek := (r ← try_ (onMgr (RotateKey (km_KeyID meta) (Some kek))); mret r : MD _) in
  match us_KEKRef (rd_seal d) closure d with
  | (d, Ok (inl _)) =>
      audit (mkAuditEntry (m_now (rd_manager d).2) SystemDaemonActor "AutoRotate" (km_KeyID meta) None) d
  | (d, Ok (inr err)) =>
      audit (mkAuditEntry (m_now (rd_manager d).2) SystemDaemonActor "AutoRotate" (km_KeyID meta) (Some err)) d
  | (d, Error _) => (d, Panic "nil pointer dereference: newMeta.Version")
  | (d, Panic m) => (d, Panic m)
  end.

(** What happens between two rotations: the clock moves, and the context may have been
    cancelled by then. *)
Definition tick : Type := Z * bool.
Definition next_tick (ticks : list tick) : tick := default (0%Z, false) (head ticks).
Definition elapse (t : Z) (d : D) : D :=
  mkDaemon (rd_seal d) ((rd_manager d).1, set_now (m_now (rd_manager d).2 + t) (rd_manager d).2) (rd_auditFn d) (rd_trail d).
Fixpoint rotate_all (ticks : list tick) (expired : list KeyMetadata) : MD () :=
  match expired with
  | [] => mret tt
  | meta :: expired =>
      let '(t, cancelled) := next_tick ticks in
      modify (elapse t);;
      if (cancelled : bool) then mret tt
      else rotateAndAudit meta;; rotate_all (tail ticks) expired
  end.

(** [lock] is the answer of [locker.TryAcquire]. *)
Definition scanOnce (lock : result bool) (ticks : list tick) : MD () :=
  match lock with
  | Ok true =>
      r ← try_ (onMgr scanExpiredKeys);
      match r with inl expired => rotate_all ticks expired | inr _ => mret tt end
  | Ok false | Error _ => mret tt
  | Panic m => lift (Panic m)
  end.

(** The goroutine: one scan per tick of the timer, until the context is done. *)
Inductive daemon_event : Type := TimerTick (wait : Z) (lock : result bool) (ticks : list tick) | ContextDone.
Fixpoint loop (events : list daemon_event) : MD () :=
  match events with
  | [] | ContextDone :: _ => mret tt
  | TimerTick wait lock ticks :: events => modify (elapse wait);; scanOnce lock ticks;; loop events
  end.
End Daemon.

(** ** Frames and panics *)
(** The keys of the store that belong to a key id. *)
Definition owns (id k : string) : Prop := (∃ v, k = metadataKey id v) ∨ k = latestVersionMetadataKey id.
Lemma owns_disjoint id id' k : owns id k → owns id' k → id = id'.
Proof.
  intros [[v ->]| ->] [[v' E]|E].
  - by apply metadataKey_inj in E as [-> _].
  - by apply metadataKey_latest in E.
  - by symmetry in E; apply metadataKey_latest in E.
  - by apply latest_inj in E.
Qed.
(** A write that answers. *)
Ltac put_step :=
  match goal with |- context [kv_Put ?k ?v ?s] =>
    let s1 := fresh "s" in let E := fresh in destruct (rel_put k v s) as [s1 E]; [done|]; rw E; clear E; cbn end.

Section Rotation.
Context {S : Type} `{!KVStore S, !KVStoreLaws S}.
Abbreviation World := (S * Env)%type.
Abbreviation MW := (M World).

Definition frames {A} (K : string → Prop) (m : MW A) : Prop :=
  ∀ w w' r, m w = (w', r) → ∀ k, ¬ K k → wmap w' !! k = wmap w !! k.
Lemma frames_keeps {A} K (m : MW A) : keeps wmap m → frames K m.
Proof. intros Hm w w' r H k _. by rw (Hm _ _ _ H). Qed.
Lemma frames_bind {A B} K (m : MW A) (f : A → MW B) : frames K m → (∀ a, frames K (f a)) → frames K (m ≫= f).
Proof.
  intros Hm Hf w w' r (w1 & r1 & H1 & H)%M_bind_inv k Hk. apply Hm in H1.
  destruct r1; [apply Hf in H; by rw H // H1|destruct H as [-> _]; auto..].
Qed.
Lemma frames_tx {A} K (fn : MW A) : frames K fn → frames K (kv_WithTx fn).
Proof.
  intros Hf [s e] [s' e'] r H k Hk. rw /wmap /=. destruct (is_ok r) eqn:Hr.
  - destruct r as [a| |]; [|done..].
    apply kv_tx_ok in H as (s0 & s1 & E0 & H & E1). rw E1 -E0. by apply (Hf _ _ _ H).
  - apply kv_tx_err in H as [[-> _] | [(_ & s0 & s1 & E0 & H & E1)|(s0 & s1 & a & E0 & H & E1)]]; [done| | |done];
      rw E1 -E0; by apply (Hf _ _ _ H).
Qed.

(** A rotation touches the records and the index of its key only, however it ends. *)
Lemma RotateKey_frames id kek : frames (owns id) (RotateKey id kek).
Proof.
  assert (∀ k, frames (owns id) (rotate_tx id k)) as Htx.
  { intros kk w w' r H k Hk. apply rotate_tx_inv in H as [[_ ->]|(w1 & v & m & _ & _ & _ & _ & H)]; [done|].
    assert (∀ u, k ≠ metadataKey id u) as H1 by (intros u ->; apply Hk; left; by exists u).
    assert (k ≠ latestVersionMetadataKey id) as H2 by (intros ->; apply Hk; by right).
    destruct H as [[_ ->]|(mnew & sb & (Hid & _) & _ & _ & [-> | ->])]; rw /put_meta /rotated_old ?Hid ?lookup_insert_ne //. }
  rw /RotateKey. repeat (apply frames_bind; [|intros ?]); try by apply frames_keeps; solve_keeps.
  by apply frames_tx.
Qed.

(** A key-encryption key that wraps every live data key of its size, at the price of at most
    [cost] bytes of randomness. *)
Record working_kek (kek : KEK) (cost : nat) : Prop := {
  wk_size : (0 ≤ dekSizeFromKEK kek)%Z;
  wk_wrap sb e : live sb → Z.of_nat (length (sb_data sb)) = dekSizeFromKEK kek → cost ≤ length e →
    ∃ e' ct, kek_WrapDEK kek sb e = (e', Ok ct) ∧ length e ≤ length e' + cost;
}.
(** The randomness one rotation takes. *)
Definition rotation_cost (kek : KEK) (cost : nat) : nat := Z.to_nat (dekSizeFromKEK kek) + cost.

(** Version [v] is what the version lookup of the key answers: the version index says so or,
    without a usable index, [v] is the last version before the first gap. *)
Definition current (f : gmap string data) (id : string) (v : Z) : Prop :=
  match index_of f id with
  | Some u => u = v
  | None => (1 ≤ v)%Z ∧ (∀ u, (1 ≤ u ≤ v)%Z → is_Some (f !! metadataKey id u)) ∧ f !! metadataKey id (v + 1) = None
  end.
Lemma current_frame f g id v : (∀ k, owns id k → g !! k = f !! k) → current g id v ↔ current f id v.
Proof.
  intros Hfr. rw /current /index_of. rw (Hfr (latestVersionMetadataKey id)); [by right|].
  assert (∀ u, g !! metadataKey id u = f !! metadataKey id u) as Hu by (intros u; apply Hfr; left; by exists u).
  case_match; [done|]. rw Hu. by setoid_rewrite Hu.
Qed.

Context `{!ReliableStore S}.
Lemma lookup_current id (s : S) :
  (∃ v, current (kv_map s) id v ∧ getLatestVersion id s = (s, Ok v)) ∨
  (∀ v, ¬ current (kv_map s) id v) ∧ ∃ err, getLatestVersion id s = (s, Error err).
Proof.
  pose proof (findLatestVersion_spec id s) as H. rw /current. destruct (index_of (kv_map s) id) as [v|]; [left; by exists v|].
  destruct H as (n & Hn & Hall & Hgap & E). case_bool_decide as Hz; [right|left; exists n; split_and!; [lia|done..]].
  split; [|by eexists]. intros v (Hv & Hlow & _). subst n. destruct (Hlow 1%Z) as [d Hd]; [lia|]. by rw Hd in Hgap.
Qed.
Lemma current_fun f id v v' : current f id v → current f id v' → v = v'.
Proof.
  rw /current. case_match; [congruence|]. intros (H1 & H2 & H3) (H1' & H2' & H3').
  destruct (Ztrichotomy v v') as [Hlt|[?|Hlt]]; [|done|].
  - destruct (H2' (v + 1)%Z) as [d Hd]; [lia|]. by rw Hd in H3.
  - destruct (H2 (v' + 1)%Z) as [d Hd]; [lia|]. by rw Hd in H3'.
Qed.

(** The rotation of the active version that the lookup finds succeeds. *)
Lemma rotate_new_succeeds id kek cost v m (w : World) : working_kek kek cost → rotation_cost kek cost ≤ length (m_rand w.2) →
  ∃ w' mnew sb, rotate_new id kek v m w = (w', Ok (mnew, sb)) ∧
    length (m_rand w.2) ≤ length (m_rand w'.2) + rotation_cost kek cost ∧ m_now w'.2 = m_now w.2.
Proof.
  intros [Hsz Hwr] Hlen. rw /rotation_cost in Hlen |- *. destruct w as [s e]. cbn [snd] in *. set (n := Z.to_nat (dekSizeFromKEK kek)) in *.
  set (sb := mkSB (take n (m_rand e)) false). destruct (Hwr sb (drop n (m_rand e))) as (rnd & ct & Ew & Hrnd).
  { done. } { rw /= length_take /n. lia. } { rw length_drop. lia. }
  rw length_drop in Hrnd. rw /rotate_new /mbind /M_bind /wrapM /onRand /NewSecureBufferFromRandom /mbind /M_bind.
  rw GenerateSecureRandom_total; [lia|]. cbn. rw Ew. cbn.
  rw /onS. put_step. rw /try_. put_step.
  rw /notifyInTx. destruct (kv_txNotifies (S := S)); eexists _, _, _; (split_and!; [done| |done]); cbn; lia.
Qed.
Lemma RotateKey_succeeds id kek cost v m (w : World) : working_kek kek cost → rotation_cost kek cost ≤ length (m_rand w.2) →
  id ≠ "" → stored (wmap w) id v m → km_State m = StateActive → current (wmap w) id v →
  ∃ w' mnew sb, RotateKey id (Some kek) w = (w', Ok (mnew, sb)) ∧
    length (m_rand w.2) ≤ length (m_rand w'.2) + rotation_cost kek cost ∧ m_now w'.2 = m_now w.2.
Proof.
  intros Hk Hlen Hid (d & Hd & Hm) Ha Hcur. destruct w as [s e]. rw /wmap /= in Hd Hcur.
  destruct (lookup_current id s) as [(v' & Hc & El)|[Hc _]]; [|by destruct (Hc v)].
  pose proof (current_fun _ _ _ _ Hcur Hc) as <-.
  rw /RotateKey /mbind /M_bind /guardM (bool_decide_eq_false_2 _ Hid) /=. rw rel_tx.
  rw /rotate_tx /findLatestVersionInTx /mbind /M_bind /onS El /wrapM /=. rw rel_get Hd /= Hm /=. rw /guardM bool_decide_eq_true_2 //=.
  put_step.
  match goal with |- context [rotate_new id kek v ?x ?y] =>
    destruct (rotate_new_succeeds id kek cost v x y) as (w' & mnew & sb & E & Hl & Hn) end; [done|done|]. rw E. cbn in Hl, Hn |- *.
  destruct w' as [s' e']. rw /notifyClusterIfNoTxNotifier /InvalidateCache /mbind /M_bind /modE /modify /getE /gets /=.
  destruct (m_notifier e'); eexists _, _, _; (split_and!; [done|exact Hl|exact Hn]).
Qed.
(** Every other rotation of an active version fails and touches nothing. *)
Lemma RotateKey_refuses id kek v m (w : World) : lc_inv (wmap w) → stored (wmap w) id v m → km_State m = StateActive →
  ¬ (id ≠ "" ∧ current (wmap w) id v) → ∃ err, RotateKey id (Some kek) w = (w, Error err).
Proof.
  intros Hi Hst Ha Hno. destruct w as [s e]. rw /wmap /= in Hi Hst Hno.
  rw /RotateKey /mbind /M_bind /guardM. case_bool_decide as Hid; [by eexists|]. cbn. rw rel_tx /rotate_tx /findLatestVersionInTx /mbind /M_bind /onS.
  destruct (lookup_current id s) as [(u & Hc & ->)|[_ [err ->]]]; [|by eexists]. rw /wrapM rel_get.
  destruct (kv_map s !! metadataKey id u) as [d|] eqn:Hd; [|by eexists]. cbn.
  destruct (unmarshal_meta d) as [m0|err|p] eqn:Em; cbn; [| by eexists|].
  - rw /guardM. case_bool_decide as Ha0; [|by eexists]. exfalso. apply Hno. split; [done|].
    assert (stored (kv_map s) id u m0) as Hst0 by (by exists d). assert (u = v) as ->; [|done].
    pose proof (inv_newest _ Hi _ _ _ _ _ Hst Ha Hst0). pose proof (inv_newest _ Hi _ _ _ _ _ Hst0 Ha0 Hst). lia.
  - exfalso. destruct (inv_doc _ Hi _ _ Hd) as (m0 & -> & _); [apply metadataKey_key|]. by rw unmarshal_marshal_meta in Em.
Qed.
End Rotation.

(** ** The scan *)
Section Scan.
Context {V S : Type} `{!Unsealer V, !KVStore S, !KVStoreLaws S, !ReliableStore S}.
Abbreviation D := (RotationDaemon V S).
Variable range : gmap string data → list (string * data).
Hypothesis range_perm : ∀ m, range m ≡ₚ map_to_list m.
Abbreviation dmap d := (wmap (rd_manager d)).
Abbreviation rnd d := (m_rand (rd_manager d).2).

(** The unsealer hands out [kek]. *)
Definition opens (v : V) (kek : KEK) : Prop := ∀ S A (f : KEK → M S A), us_KEKRef v f = f kek.

(** What becomes of a due record between the stores [f0] and [f], and its audit entry: the
    entry reports success exactly when the version lookup of the key finds that record; the
    record is then Deactivated and its successor is Active with the same period, its next
    rotation reckoned from its creation; otherwise nothing of the key has changed. *)
Record entry_ok (f0 f : gmap string data) (m : KeyMetadata) (e : AuditEntry) : Prop := {
  eo_who : ae_Actor e = SystemDaemonActor ∧ ae_Action e = "AutoRotate" ∧ ae_Resource e = km_KeyID m;
  eo_when : ae_Result e = None ↔ km_KeyID m ≠ "" ∧ current f0 (km_KeyID m) (km_Version m);
  eo_done : ae_Result e = None → ∃ mnew, rotated_new (km_KeyID m) (km_Version m) m mnew ∧
    stored f (km_KeyID m) (km_Version m) (meta_set_state StateDeactivated (km_DeletedAt m) m) ∧
    stored f (km_KeyID m) (km_Version m + 1) mnew;
  eo_failed : ae_Result e ≠ None → ∀ k, owns (km_KeyID m) k → f !! k = f0 !! k;
}.
Lemma stored_frame f g id v m : (∀ k, owns id k → g !! k = f !! k) → stored f id v m → stored g id v m.
Proof. intros Hfr (d & Hd & Hm). exists d. rw Hfr //. left. by exists v. Qed.
Lemma entry_ok_frame f0 g0 f g m e : (∀ k, owns (km_KeyID m) k → g0 !! k = f0 !! k) →
  (∀ k, owns (km_KeyID m) k → g !! k = f !! k) → entry_ok f0 f m e → entry_ok g0 g m e.
Proof.
  intros Hfr0 Hfr [? Hw Hd Hf]. split; [done|by rw (current_frame _ _ _ _ Hfr0)|..].
  - intros Hr. destruct (Hd Hr) as (mnew & ? & ? & ?). exists mnew. split_and!; [done|by eapply stored_frame..].
  - intros Hr k Hk. by rw Hfr // Hfr0 // Hf.
Qed.

(** One rotation of a due record. *)
Lemma rotateAndAudit_spec kek cost m (d : D) : opens (rd_seal d) kek → working_kek kek cost → rd_auditFn d = true →
  rotation_cost kek cost ≤ length (rnd d) → lc_inv (dmap d) → stored (dmap d) (km_KeyID m) (km_Version m) m → km_State m = StateActive →
  ∃ d' e, rotateAndAudit m d = (d', Ok tt) ∧ rd_seal d' = rd_seal d ∧ rd_auditFn d' = true ∧
    rd_trail d' = rd_trail d ++ [e] ∧ lc_inv (dmap d') ∧ entry_ok (dmap d) (dmap d') m e ∧
    (∀ k, ¬ owns (km_KeyID m) k → dmap d' !! k = dmap d !! k) ∧ length (rnd d) ≤ length (rnd d') + rotation_cost kek cost.
Proof.
  intros Ho Hq Hau Hlen Hi Hst Ha. rw /rotateAndAudit Ho. destruct d as [v w au tr]. cbn [rd_seal rd_manager rd_auditFn rd_trail] in *.
  assert ((km_KeyID m ≠ "" ∧ current (wmap w) (km_KeyID m) (km_Version m)) ∨ ¬ (km_KeyID m ≠ "" ∧ current (wmap w) (km_KeyID m) (km_Version m))) as [Hc|Hc].
  { destruct (lookup_current (km_KeyID m) w.1) as [(u & Hu & _)|[Hu _]]; [|right; naive_solver].
    destruct (decide (km_KeyID m ≠ "" ∧ u = km_Version m)) as [[? ->]|Hne]; [by left|right].
    intros [? Hc]. apply Hne. split; [done|]. by eapply current_fun. }
  - destruct (RotateKey_succeeds (km_KeyID m) kek cost (km_Version m) m w) as (w' & mnew & sb & E & Hl & _); [done..|by apply Hc|done|done|by apply Hc|].
    assert (lc_inv (wmap w')) as Hi' by (eapply lc_steps_inv; [done|by eapply (RotateKey_effect (λ _ _, False))]).
    pose proof (RotateKey_frames _ _ _ _ _ E) as Hfr. rw /mbind /M_bind /try_ /onMgr E /=.
    eexists _, _. rw /audit /modify /= Hau. split_and!; [done..| |done|done]. split; [done|done| |done]. intros _. exists mnew.
    apply RotateKey_ok in E as (u & m0 & Hst0 & Ha0 & Hn & _ & _ & Hmap & _).
    assert (u = km_Version m) as ->.
    { pose proof (inv_newest _ Hi _ _ _ _ _ Hst Ha Hst0). pose proof (inv_newest _ Hi _ _ _ _ _ Hst0 Ha0 Hst). lia. }
    pose proof (stored_fun _ _ _ _ _ Hst Hst0) as <-. pose proof Hn as (Hid & Hver & _).
    assert (∀ v' m', stored (wmap w') (km_KeyID m) v' m' ↔
      stored (put_meta mnew (rotated_old (km_KeyID m) (km_Version m) m (wmap w))) (km_KeyID m) v' m') as Hst'.
    { intros v' m'. destruct Hmap as [-> | ->]; [done|apply stored_index]. }
    split_and!; [done|..]; apply Hst', stored_put.
    + right. rw Hver. split; [intros [= ?]; lia|]. apply stored_old. by left.
    + left. by rw Hid Hver.
  - destruct (RotateKey_refuses (km_KeyID m) kek (km_Version m) m w) as [err E]; [done..|].
    rw /mbind /M_bind /try_ /onMgr E /=. eexists _, _. rw /audit /modify /= Hau. split_and!; [done..| |done|cbn; lia]. by split.
Qed.

Lemma rotate_all_spec kek cost expired : ∀ ticks (d : D), opens (rd_seal d) kek → working_kek kek cost → rd_auditFn d = true →
  length expired * rotation_cost kek cost ≤ length (rnd d) →
  lc_inv (dmap d) → Forall (λ t, t.2 = false) ticks → NoDup (km_KeyID <$> expired) →
  (∀ m, m ∈ expired → stored (dmap d) (km_KeyID m) (km_Version m) m ∧ km_State m = StateActive) →
  ∃ d' entries, rotate_all ticks expired d = (d', Ok tt) ∧ rd_trail d' = rd_trail d ++ entries ∧ lc_inv (dmap d') ∧
    Forall2 (entry_ok (dmap d) (dmap d')) expired entries ∧
    ∀ k, (∀ m, m ∈ expired → ¬ owns (km_KeyID m) k) → dmap d' !! k = dmap d !! k.
Proof.
  induction expired as [|m expired IH]; intros ticks d Ho Hq Hau Hlen Hi Ht Hnd Hall.
  { exists d, []. rw app_nil_r. split_and!; [done..|by intros]. }
  apply list.NoDup_cons in Hnd as [Hnew Hnd]. destruct (Hall m) as [Hst Ha]; [by left|]. cbn [rotate_all length] in Hlen |- *.
  assert ((next_tick ticks).2 = false) as Hc by (destruct Ht; done).
  destruct (next_tick ticks) as [t c]. cbn [snd] in Hc. subst c.
  destruct (rotateAndAudit_spec kek cost m (elapse t d)) as (d1 & e & E & Es & Ea & Et & Hi1 & Hok & Hfr & Hl); [done|done|done|cbn; lia|done..|].
  assert (∀ m' k, m' ∈ expired → owns (km_KeyID m') k → ¬ owns (km_KeyID m) k) as Hdis.
  { intros m' k Hm' Hk Hk'. pose proof (owns_disjoint _ _ _ Hk Hk') as Eid. apply Hnew. rw -Eid. by apply list_elem_of_fmap_2. }
  destruct (IH (tail ticks) d1) as (d2 & es & E2 & Et2 & Hi2 & Hoks & Hfr2); [by rw Es|done|done|cbn in Hl; lia|done|by destruct Ht|done|..].
  { intros m' Hm'. destruct (Hall m') as [Hst' ?]; [by right|]. split; [|done].
    eapply stored_frame; [|exact Hst']. intros k Hk. apply Hfr. by apply (Hdis m'). }
  exists d2, (e :: es). split_and!.
  - cbv beta iota. rw (M_bind_step _ _ d (elapse t d) tt); [done|]. by rw (M_bind_step _ _ _ _ _ E).
  - by rw Et2 Et /= -app_assoc.
  - done.
  - constructor.
    + eapply entry_ok_frame; [|  |exact Hok]; [done|]. intros k Hk. apply Hfr2. intros m' Hm' Hk'. by eapply (Hdis m').
    + apply Forall2_same_length_lookup_2; [by eapply Forall2_length|]. intros i m' e' Hm' He'.
      pose proof (Forall2_lookup_lr _ _ _ _ _ _ Hoks Hm' He') as Hok'. eapply entry_ok_frame; [|  |exact Hok']; [|done].
      intros k Hk. symmetry. apply Hfr. apply (Hdis m'); [by eapply list_elem_of_lookup_2|done].
  - intros k Hk. rw Hfr2; [intros m' Hm'; apply Hk; by right|]. apply Hfr, Hk. by left.
Qed.

(** The records a scan selects. *)
Lemma omap_length_le {A B} (f : A → option B) l : length (omap f l) ≤ length l.
Proof. induction l as [|x l IH]; [done|]. cbn. destruct (f x); cbn; lia. Qed.
Lemma scanExpiredKeys_spec (w : S * Env) : lc_inv (wmap w) → ∃ expired,
  scanExpiredKeys range w = (w, Ok expired) ∧ NoDup (km_KeyID <$> expired) ∧ length expired ≤ size (wmap w) ∧
  (∀ m, m ∈ expired ↔ stored (wmap w) (km_KeyID m) (km_Version m) m ∧ rotation_due (m_now w.2) m = true).
Proof.
  intros Hi. destruct w as [s e]. destruct (rel_scan "key:" s) as [items Hs]. pose proof (kv_scan_ok "key:" _ _ _ eq_refl Hs) as Eit.
  exists (omap (expired_meta (m_now e)) (range items)). rw /wmap /= in Hi |- *.
  assert (∀ k d m, (k, d) ∈ range items → expired_meta (m_now e) (k, d) = Some m →
    k = metadataKey (km_KeyID m) (km_Version m) ∧ stored (kv_map s) (km_KeyID m) (km_Version m) m ∧
    rotation_due (m_now e) m = true) as Hsel.
  { intros k d m Hin. rw range_perm elem_of_map_to_list Eit map_lookup_filter_Some in Hin. destruct Hin as [Hd Hp].
    rw /expired_meta /=. destruct (inv_doc _ Hi _ _ Hd Hp) as (m0 & -> & -> & _). rw unmarshal_marshal_meta.
    destruct (rotation_due _ m0) eqn:Hdue; [|done]. intros [= ->]. split_and!; [done| |done].
    exists (marshal_meta m). by rw unmarshal_marshal_meta. }
  split_and!.
  - by rw /scanExpiredKeys /mbind /M_bind /onS Hs /=.
  - assert (NoDup (range items).*1) as Hnd by (rw range_perm; apply NoDup_fst_map_to_list).
    assert (∀ k d, (k, d) ∈ range items → (k, d) ∈ range items) as Hin by done. revert Hnd Hin.
    generalize (range items) at 1 2 4. intros l. induction l as [|[k d] l IH]; intros Hnd Hin; [constructor|].
    cbn [fmap list_fmap fst] in Hnd. apply list.NoDup_cons in Hnd as [Hk Hnd].
    specialize (IH Hnd (λ k d H, Hin k d (list_elem_of_further _ _ _ H))). cbn [omap list_omap].
    destruct (expired_meta (m_now e) (k, d)) as [m|] eqn:Em; [|done]. rw fmap_cons. apply list.NoDup_cons. split; [|done].
    intros (m' & Eid & Hm')%list_elem_of_fmap. apply list_elem_of_omap in Hm' as ([k' d'] & Hin' & Em').
    destruct (Hsel k d m) as (-> & Hst & Hdue); [apply Hin; by left|done|].
    destruct (Hsel k' d' m') as (-> & Hst' & Hdue'); [apply Hin; by right|done|].
    assert (km_State m = StateActive ∧ km_State m' = StateActive) as [Ha Ha'].
    { rw /rotation_due in Hdue Hdue'. repeat case_bool_decide; try done. }
    rw -Eid in Hst'. assert (km_Version m = km_Version m') as Ev.
    { pose proof (inv_newest _ Hi _ _ _ _ _ Hst Ha Hst'). pose proof (inv_newest _ Hi _ _ _ _ _ Hst' Ha' Hst). lia. }
    apply Hk. rw Eid Ev. by apply (list_elem_of_fmap_2 fst _ (_, d')).
  - etrans; [apply omap_length_le|]. rw range_perm length_map_to_list Eit. apply map_size_filter.
  - intros m. rw list_elem_of_omap. split.
    + intros ([k d] & Hin & Em). by destruct (Hsel k d m Hin Em) as (_ & ? & ?).
    + intros [Hst Hdue]. destruct (stored_inv _ _ _ _ Hi Hst) as (Hd & _). eexists (_, marshal_meta m). split.
      * rw range_perm elem_of_map_to_list Eit. apply map_lookup_filter_Some. split; [exact Hd|apply metadataKey_key].
      * by rw /expired_meta /= unmarshal_marshal_meta Hdue.
Qed.

(** C24: a scan under the lock rotates what is due and nothing else. On an unsealed service
    with a store that answers, a key-encryption key that wraps and randomness for one
    rotation per stored record, one uncancelled scan returns; it appends one audit entry per
    due record, in the order it handled them, and no key has two. The entry reports success
    exactly when the version lookup of the key finds the due record, and that version is then
    Deactivated and the next one Active with the same period, its next rotation reckoned from
    its creation; so every due key whose version index is right is rotated. A due record the
    lookup misses gets a failure entry and its key keeps all it has, as does every key that
    has no due version. *)
Theorem scanOnce_rotates_due kek cost ticks (d : D) : opens (rd_seal d) kek → working_kek kek cost → rd_auditFn d = true →
  size (dmap d) * rotation_cost kek cost ≤ length (rnd d) → lc_inv (dmap d) → Forall (λ t, t.2 = false) ticks →
  ∃ d' due entries, scanOnce range (Ok true) ticks d = (d', Ok tt) ∧
    (∀ m, m ∈ due ↔ stored (dmap d) (km_KeyID m) (km_Version m) m ∧ rotation_due (m_now (rd_manager d).2) m = true) ∧
    NoDup (km_KeyID <$> due) ∧ rd_trail d' = rd_trail d ++ entries ∧ Forall2 (entry_ok (dmap d) (dmap d')) due entries ∧
    (∀ id k, (∀ m, m ∈ due → km_KeyID m ≠ id) → owns id k → dmap d' !! k = dmap d !! k) ∧ lc_inv (dmap d').
Proof.
  intros Ho Hq Hau Hlen Hi Ht. destruct (scanExpiredKeys_spec (rd_manager d) Hi) as (due & Hs & Hnd & Hsz & Hdue).
  destruct (rotate_all_spec kek cost due ticks d) as (d' & es & E & Et & Hi' & Hok & Hfr); [done|done|done|nia|done|done|done| |].
  { intros m [Hst Hd]%Hdue. split; [done|]. rw /rotation_due in Hd. by repeat case_bool_decide. }
  exists d', due, es. split_and!; [|done..| |done].
  - rw /scanOnce. rw (M_bind_step _ _ d d (inl due)); [|exact E].
    destruct d as [v w au tr]. by rw /try_ /onMgr /= Hs.
  - intros id k Hid Hk. apply Hfr. intros m Hm Hk'. apply (Hid m Hm). by eapply owns_disjoint.
Qed.
End Scan.

(** ** Rotation periods *)
(** C25: rotation periods and 64-bit durations: for every positive period of the [int]
    type, the next rotation is exactly that many days away if and only if the period
    is at most 106751 days; beyond, the duration wraps around, and the next rotation falls
    in the past for some periods and in the future for others. Up to that bound no
    scan sees a record as due before its period is over. *)
Theorem next_rotation_bounds now days t m : (0 < days < 2 ^ 63)%Z →
  (next_rotation now days = now + days * 86400000000000 ↔ days ≤ 106751)%Z ∧
  (km_RotationDays m = days → (days ≤ 106751)%Z → km_NextRotationAt m = next_rotation (km_CreatedAt m) days →
   rotation_due t m = true → (km_CreatedAt m + days * 86400000000000 ≤ t)%Z).
Proof.
  intros Hd. assert (∀ n, (next_rotation n days = n + days * 86400000000000 ↔ days ≤ 106751)%Z) as Hex.
  { intros n. rw /next_rotation bool_decide_eq_true_2; [lia|]. rw /days_duration /int64. split.
    - intros E. assert (-2 ^ 63 ≤ days * 86400000000000 < 2 ^ 63)%Z; [|lia].
      pose proof (Z.mod_pos_bound (((days * 24 + 2 ^ 63) `mod` 2 ^ 64 - 2 ^ 63) * 3600000000000 + 2 ^ 63) (2 ^ 64) ltac:(done)).
      lia.
    - intros Hle. rw (Z.mod_small (days * 24 + 2 ^ 63)); [lia|]. rw Z.mod_small; lia. }
  split; [apply Hex|]. intros Hr Hle Hn Hdue. apply (Hex (km_CreatedAt m)) in Hle. rw -Hle -Hn.
  rw /rotation_due in Hdue. repeat case_bool_decide; try done; lia.
Qed.
Lemma next_rotation_bounds_witness :
  (next_rotation 1000000 30 = 1000000 + 30 * 86400000000000)%Z ∧ (next_rotation 0 106752 ≠ 0 + 106752 * 86400000000000)%Z.
Proof.
  split.
  - apply (next_rotation_bounds 1000000 30 0 (mkMeta "" 0 "" "" "" [] [] "" [] 0 0 0 0)); lia.
  - intros E. apply (next_rotation_bounds 0 106752 0 (mkMeta "" 0 "" "" "" [] [] "" [] 0 0 0 0)) in E; lia.
Defined.

(** ** A concrete daemon *)
Definition demo_rotating : WMem * Env :=
  mgr_run [OpCreate "k" demo_kek 30; OpCreate "j" demo_kek 0; OpCreate "i" demo_kek 60; OpClock (40 * 86400000000000)]
    (demo_world (demo_entropy 600)).
Definition demo_daemon (v : VaultState) (w : WMem * Env) : RotationDaemon VaultState WMem := mkDaemon v w true [].
Definition demo_range (m : gmap string data) : list (string * data) := map_to_list m.

Lemma demo_working : working_kek (NewSoftwareKEK demo_key) gcmNonceSize.
Proof.
  split; [done|]. intros sb e Hl _ He. cbn [kek_WrapDEK NewSoftwareKEK softwareKEK]. rw WithKey_live //. cbn [cipher_Encrypt StandardCipher].
  eexists (drop gcmNonceSize e), _. split; [|rw length_drop; lia]. apply EncryptGCM_ok. split_and!; [done|done|].
  exists (take gcmNonceSize e). rw take_drop length_take. split_and!; [lia|done|done].
Qed.

(** In the demonstration the key "k" is due, and it is rotated. *)
Lemma scanOnce_rotates_due_witness : ∃ d' e,
  scanOnce demo_range (Ok true) [] (demo_daemon demo_vault demo_rotating) = (d', Ok tt) ∧
  e ∈ rd_trail d' ∧ ae_Resource e = "k" ∧ ae_Result e = None.
Proof.
  destruct (scanOnce_rotates_due demo_range (λ _, reflexivity _) (NewSoftwareKEK demo_key) gcmNonceSize [] (demo_daemon demo_vault demo_rotating))
    as (d' & due & entries & H1 & Hdue & _ & Ht & Hes & _).
  - intros S A f. reflexivity.
  - apply demo_working.
  - reflexivity.
  - vm_compute. lia.
  - apply (mgr_run_reach [OpCreate "k" demo_kek 30; OpCreate "j" demo_kek 0; OpCreate "i" demo_kek 60; OpClock (40 * 86400000000000)]);
      [apply demo_inv|vm_compute; reflexivity].
  - constructor.
  - set (m := match (GetKey "k" 1 demo_rotating).2 with Ok m => m | _ => mkMeta "" 0 "" "" "" [] [] "" [] 0 0 0 0 end).
    assert (m ∈ due) as Hm.
    { apply Hdue. split; [|vm_compute; reflexivity]. exists (marshal_meta m). split; [vm_compute; reflexivity|apply unmarshal_marshal_meta]. }
    apply list_elem_of_lookup in Hm as [i Hm]. destruct (Forall2_lookup_l _ _ _ _ _ Hes Hm) as (e & He & Hok).
    exists d', e. split; [exact H1|]. split; [rewrite Ht; by eapply list_elem_of_lookup_2|]. split; [apply Hok|].
    apply (eo_when _ _ _ _ Hok). split; [vm_compute; discriminate|vm_compute; reflexivity].
Defined.

(** Forty days on, only the key with the 30-day period is rotated. *)
Example only_due_rotated :
  let d := (scanOnce demo_range (Ok true) [] (demo_daemon demo_vault demo_rotating)).1 in
  (ae_Resource <$> rd_trail d) = ["k"] ∧
  (λ i, is_ok (GetKey i 2 (rd_manager d)).2) <$> ["i"; "j"; "k"] = [false; false; true].
Proof. vm_compute. split; reflexivity. Qed.

(** With a due key and a sealed vault the daemon dereferences a nil pointer, which ends
    the process. *)
Example sealed_scan_panics :
  ∃ m, (scanOnce demo_range (Ok true) [] (demo_daemon (NewVaultState 5 3 0) demo_rotating)).2 = Panic m.
Proof. eexists. vm_compute. reflexivity. Qed.

(** Past the bound a period may wrap into the past or into the future. *)
Example next_rotation_wraps : (next_rotation 0 106752 < 0 ∧ 0 < next_rotation 0 213504 < 213504 * 86400000000000)%Z.
Proof. vm_compute. repeat split; reflexivity. Qed.

(** A period that wraps into the past is due at once: three scans, three rotations. *)
Example overflow_rotates_every_scan :
  let w := mgr_run [OpCreate "k" demo_kek 106752; OpClock (10 ^ 19)] (demo_world (demo_entropy 600)) in
  let d := (loop demo_range (replicate 3 (TimerTick 3600000000000 (Ok true) [])) (demo_daemon demo_vault w)).1 in
  (ae_Result <$> rd_trail d) = [None; None; None] ∧ is_ok (GetKey "k" 4 (rd_manager d)).2 = true.
Proof. vm_compute. split; reflexivity. Qed.
