(* ===== verification/Cluster.v ===== *)
(** Several nodes over one database: the listener that keeps their caches coherent
    ([src/internal/storage/pg_listener.go]), the advisory lock that elects the node that
    rotates keys ([src/internal/storage/pg_locker.go]), and the health state of the
    connection ([src/internal/storage/health.go]). The goroutines are transition
    systems; of PostgreSQL the documented behaviour of LISTEN/NOTIFY and of session-level
    advisory locks is used. *)

From S2P Require Import Prelude SecureBuffer Store Metadata.

(** ** Cache invalidation *)
Module Listener.
(** Where the goroutine of [listenLoop] is: about to run [listenOnce], inside it after LISTEN,
    in the pause of two seconds, or gone. *)
Inductive phase : Type := Connecting | Listening | Waiting | Stopped.
#[export] Instance phase_eq_dec : EqDecision phase.
Proof. solve_decision. Defined.
(** A node: its cache, its listener with the notifications the session has received, and the
    records that calls of [loadMetadata] have read from the table but not yet cached. *)
Record Node : Type := mkNode {
  nd_cache : dekCache;
  nd_phase : phase;
  nd_inbox : list string;
  nd_loading : list (string * Z * KeyMetadata);
}.
Record System : Type := mkSystem { sy_table : gmap string data; sy_node : Node }.
Definition NewCacheInvalidationListener : Node := mkNode newDekCache Connecting [] [].

(** [onNotify] is [Manager.InvalidateCache], [onReconnect] is [Manager.ClearCache]. *)
Definition on_notification (keyID : string) (n : Node) : Node :=
  mkNode (if bool_decide (keyID = "") then nd_cache n else cache_invalidate keyID (nd_cache n)) (nd_phase n) (nd_inbox n) (nd_loading n).
Definition set_phase (p : phase) (inbox : list string) (n : Node) : Node := mkNode (nd_cache n) p inbox (nd_loading n).
Inductive listen_event : Type :=
  | Acquired (ok : bool)        (* a connection and LISTEN, or an error of either *)
  | Notified                    (* [WaitForNotification] returns the first message *)
  | Disconnected                (* [WaitForNotification] fails *)
  | PauseOver                   (* [time.After(2 * time.Second)] *)
  | Cancelled.                  (* [ctx.Done()] *)
Definition listenLoop (ev : listen_event) (n : Node) : Node :=
  match ev, nd_phase n, nd_inbox n with
  | Cancelled, _, _ => set_phase Stopped [] n
  | Acquired true, Connecting, _ => set_phase Listening [] n
  | Acquired false, Connecting, _ => set_phase Waiting [] n
  | Notified, Listening, keyID :: rest => on_notification keyID (set_phase Listening rest n)
  | Disconnected, Listening, _ => set_phase Waiting [] n
  | PauseOver, Waiting, _ => mkNode (cache_clear (nd_cache n)) Connecting [] (nd_loading n)
  | _, _, _ => n
  end.

(** [pg_notify]: a session that listens receives the message. *)
Definition deliver (keyID : string) (n : Node) : Node :=
  if bool_decide (nd_phase n = Listening) then set_phase Listening (nd_inbox n ++ [keyID]) n else n.
(** [NotifyInvalidation], a statement of its own that a node may send after a commit; [ok] tells
    whether it reaches the server. *)
Definition NotifyInvalidation (keyID : string) (ok : bool) (n : Node) : Node := if ok then deliver keyID n else n.
(** [NotifyInvalidationInTx], a statement of the transaction that changes the records: its
    message goes out when and only when the transaction commits. *)
Definition NotifyInvalidationInTx (keyID : string) (inTx : bool) (n : Node) : Node := if inTx then deliver keyID n else n.
(** New contents of some versions of a key. *)
Definition write_versions (keyID : string) (ups : list (Z * option data)) (f : gmap string data) : gmap string data :=
  foldl (λ f up, match up.2 with Some d => <[metadataKey keyID up.1 := d]> f | None => delete (metadataKey keyID up.1) f end) f ups.

(** The two halves of [loadMetadata] on a miss. *)
Definition load_read (keyID : string) (version : Z) (s : System) : System :=
  let key := metadataKey keyID version in let n := sy_node s in
  match cache_get key (nd_cache n), sy_table s !! key with
  | None, Some d => match unmarshal_meta d with
                    | Ok meta => mkSystem (sy_table s) (mkNode (nd_cache n) (nd_phase n) (nd_inbox n) (nd_loading n ++ [(keyID, version, meta)]))
                    | _ => s
                    end
  | _, _ => s
  end.
Definition load_put (i : nat) (s : System) : System :=
  let n := sy_node s in
  match nd_loading n !! i with
  | Some (keyID, version, meta) =>
      mkSystem (sy_table s) (mkNode (cache_put (metadataKey keyID version) meta (nd_cache n)) (nd_phase n) (nd_inbox n) (delete i (nd_loading n)))
  | None => s
  end.
Inductive event : Type :=
  | Listen (ev : listen_event)
  | Commit (keyID : string) (ups : list (Z * option data)) (inTx : bool)   (* by any node, with or without a notice in the transaction *)
  | Notify (keyID : string) (ok : bool)                                    (* a notice of its own, by any node *)
  | Invalidate (keyID : string)                                            (* [InvalidateCache] after an operation of this node *)
  | LoadRead (keyID : string) (version : Z)
  | LoadPut (i : nat).
Definition onNode (f : Node → Node) (s : System) : System := mkSystem (sy_table s) (f (sy_node s)).
Definition set_node_cache (c : dekCache) (n : Node) : Node := mkNode c (nd_phase n) (nd_inbox n) (nd_loading n).
Definition step (s : System) (ev : event) : System :=
  match ev with
  | Listen ev => onNode (listenLoop ev) s
  | Commit keyID ups inTx => onNode (NotifyInvalidationInTx keyID inTx) (mkSystem (write_versions keyID ups (sy_table s)) (sy_node s))
  | Notify keyID ok => onNode (NotifyInvalidation keyID ok) s
  | Invalidate keyID => onNode (λ n, set_node_cache (cache_invalidate keyID (nd_cache n)) n) s
  | LoadRead keyID version => load_read keyID version s
  | LoadPut i => load_put i s
  end.
Definition run (evs : list event) (s : System) : System := foldl step s evs.

(** ** When the cache may be trusted *)
Definition current (f : gmap string data) (keyID : string) (version : Z) (m : KeyMetadata) : Prop :=
  ∃ d, f !! metadataKey keyID version = Some d ∧ unmarshal_meta d = Ok m.
Definition is_current (f : gmap string data) (keyID : string) (version : Z) (m : KeyMetadata) : bool :=
  match f !! metadataKey keyID version with Some d => bool_decide (unmarshal_meta d = Ok m) | None => false end.
(** The keys of which this node has not heard: a key joins them when it is changed by a commit
    whose message does not reach the session (the transaction sends none, or the session does not
    listen yet), or when a load puts a record into the cache that the table no longer has; it leaves
    them when the node invalidates it, and all leave when the cache is cleared. *)
Definition unheard_step (s : System) (U : gset string) (ev : event) : gset string :=
  match ev with
  | Commit keyID _ inTx =>
      if inTx && bool_decide (nd_phase (sy_node s) = Listening) && negb (bool_decide (keyID = "")) then U else {[keyID]} ∪ U
  | LoadPut i =>
      match nd_loading (sy_node s) !! i with
      | Some (keyID, version, meta) => if is_current (sy_table s) keyID version meta then U else {[keyID]} ∪ U
      | None => U
      end
  | Invalidate keyID => U ∖ {[keyID]}
  | Listen Notified =>
      match nd_phase (sy_node s), nd_inbox (sy_node s) with
      | Listening, keyID :: _ => if bool_decide (keyID = "") then U else U ∖ {[keyID]}
      | _, _ => U
      end
  | Listen PauseOver => if bool_decide (nd_phase (sy_node s) = Waiting) then ∅ else U
  | _ => U
  end.
Fixpoint unheard (evs : list event) (s : System) (U : gset string) : gset string :=
  match evs with [] => U | ev :: evs => unheard evs (step s ev) (unheard_step s U ev) end.

(** A stale record is accounted for. *)
Record coherent (s : System) (U : gset string) : Prop := {
  co_listening keyID version m : nd_phase (sy_node s) = Listening → cache_get (metadataKey keyID version) (nd_cache (sy_node s)) = Some m →
    current (sy_table s) keyID version m ∨ (keyID ∈ nd_inbox (sy_node s) ∧ keyID ≠ "") ∨ keyID ∈ U;
  co_connecting keyID version m : nd_phase (sy_node s) = Connecting → cache_get (metadataKey keyID version) (nd_cache (sy_node s)) = Some m →
    current (sy_table s) keyID version m ∨ keyID ∈ U;
}.
Lemma is_current_spec f keyID version m : is_current f keyID version m = true → current f keyID version m.
Proof. rw /is_current. destruct (f !! _) as [d|] eqn:E; [|done]. intros Hd%bool_decide_eq_true. by exists d. Qed.
Lemma write_versions_other keyID ups f k v : k ≠ keyID → write_versions keyID ups f !! metadataKey k v = f !! metadataKey k v.
Proof.
  intros Hk. rw /write_versions. revert f. induction ups as [|[u [d|]] ups IH]; intros f; simpl; [done| |].
  - rw IH lookup_insert_ne //. by intros [-> _]%metadataKey_inj.
  - rw IH lookup_delete_ne //. by intros [-> _]%metadataKey_inj.
Qed.
Lemma current_other keyID ups f k v m : k ≠ keyID → current f k v m → current (write_versions keyID ups f) k v m.
Proof. intros Hk (d & Hd & Hm). exists d. by rw write_versions_other. Qed.
Lemma invalidated keyID c k v m : cache_get (metadataKey k v) (cache_invalidate keyID c) = Some m →
  k ≠ keyID ∧ cache_get (metadataKey k v) c = Some m.
Proof.
  rw /cache_get /cache_invalidate /=. intros [Hm Hp]%map_lookup_filter_Some. split; [|done]. intros ->. simpl in Hp.
  by rw metadataKey_prefix in Hp.
Qed.

Lemma coherent_listen s U ev : coherent s U → coherent (step s (Listen ev)) (unheard_step s U (Listen ev)).
Proof.
  intros [Hl Hc]. destruct s as [f [c p inbox loading]]. simpl in *.
  destruct ev as [[|]| | | |], p; try (by split); rw /onNode /listenLoop /=; try (split; simpl; done).
  - split; simpl; [|done]. intros k v m _ Hm. destruct (Hc k v m eq_refl Hm); auto.
  - destruct inbox as [|k0 inbox]; [by split|]. rw /on_notification. case_bool_decide as Hk; (split; simpl; [|done]).
    + intros k v m _ Hm. destruct (Hl k v m eq_refl Hm) as [?|[[Hin Hne]|?]]; [auto| |auto]. right. left. split; [|done].
      apply elem_of_cons in Hin as [->|?]; [by destruct Hne|done].
    + intros k v m _ [Hne Hm]%invalidated. destruct (Hl k v m eq_refl Hm) as [?|[[Hin ?]|?]]; [auto|..]; right; [left|right; set_solver].
      split; [|done]. by apply elem_of_cons in Hin as [->|?].
Qed.
Lemma coherent_commit s U keyID ups inTx : coherent s U → coherent (step s (Commit keyID ups inTx)) (unheard_step s U (Commit keyID ups inTx)).
Proof.
  intros [Hl Hc]. destruct s as [f [c p inbox loading]]. cbn [unheard_step sy_node sy_table nd_phase nd_cache nd_inbox] in *.
  assert (∀ k v m, k ≠ keyID → current f k v m → current (write_versions keyID ups f) k v m) as Hother by (intros; by apply current_other).
  rw /step /onNode /NotifyInvalidationInTx /deliver /set_phase /=.
  destruct inTx, p; case_bool_decide as Hp; try done; rw ?andb_false_r /=; repeat case_bool_decide; try done; cbn [andb negb];
    split; cbn; try done; intros k v m _ Hm; destruct (decide (k = keyID)) as [->|Hk]; try set_solver;
    try (destruct (Hc k v m eq_refl Hm) as [?|?]; [left; by apply Hother|set_solver]);
    destruct (Hl k v m eq_refl Hm) as [?|[[? ?]|?]]; try (left; by apply Hother); set_solver.
Qed.
Lemma coherent_step s U ev : coherent s U → coherent (step s ev) (unheard_step s U ev).
Proof.
  intros Hs. destruct ev as [ev|keyID ups inTx|k ok|k|k v|i]; [by apply coherent_listen|by apply coherent_commit|..]; destruct Hs as [Hl Hc];
    destruct s as [f [c p inbox loading]]; simpl in *.
  - rw /onNode /NotifyInvalidation /deliver /=. destruct ok, p; try (by split). split; simpl; [|done].
    intros k' v' m' Hp Hm. destruct (Hl k' v' m' Hp Hm) as [?|[[? ?]|?]]; set_solver.
  - split; simpl; intros k' v' m' Hp [Hne Hm]%invalidated.
    + destruct (Hl k' v' m' Hp Hm) as [?|[?|?]]; set_solver.
    + destruct (Hc k' v' m' Hp Hm) as [?|?]; set_solver.
  - rw /load_read /=. destruct (cache_get _ c); [by split|]. destruct (f !! _) as [d|]; [|by split]. by destruct (unmarshal_meta d).
  - rw /load_put /=. destruct (loading !! i) as [[[k v] m]|]; [|by split].
    assert (∀ k' v' m', cache_get (metadataKey k' v') (cache_put (metadataKey k v) m c) = Some m' →
      k' = k ∧ v' = v ∧ m' = m ∨ cache_get (metadataKey k' v') c = Some m') as Hput.
    { rw /cache_get /=. intros k' v' m' [[[-> ->]%metadataKey_inj <-]|[_ ?]]%lookup_insert_Some; [by left|by right]. }
    destruct (is_current f k v m) eqn:Hcur; [apply is_current_spec in Hcur|clear Hcur]; split; simpl;
      intros k' v' m' Hp [(-> & -> & ->)|Hm]%Hput; try set_solver; try (by left);
      try (destruct (Hl k' v' m' Hp Hm) as [?|[?|?]]; set_solver); destruct (Hc k' v' m' Hp Hm) as [?|?]; set_solver.
Qed.
Lemma unheard_app evs1 evs2 s U : unheard (evs1 ++ evs2) s U = unheard evs2 (run evs1 s) (unheard evs1 s U).
Proof. revert s U. induction evs1 as [|ev evs1 IH]; intros s U; [done|]. simpl. apply IH. Qed.
Lemma coherent_run evs s U : coherent s U → coherent (run evs s) (unheard evs s U).
Proof. revert s U. induction evs as [|ev evs IH]; intros s U Hs; [done|]. simpl. by apply IH, coherent_step. Qed.

(** Reading the waiting notifications empties the inbox and adds no key to the unheard ones. *)
Lemma drained n : ∀ s U, nd_phase (sy_node s) = Listening → length (nd_inbox (sy_node s)) = n →
  let evs := replicate n (Listen Notified) in let s' := run evs s in
  nd_phase (sy_node s') = Listening ∧ nd_inbox (sy_node s') = [] ∧ sy_table s' = sy_table s ∧ unheard evs s U ⊆ U.
Proof.
  induction n as [|n IH]; intros s U Hp Hl; [by apply nil_length_inv in Hl|].
  destruct s as [f [c p inbox loading]]. simpl in *. subst p. destruct inbox as [|k inbox]; [done|]. injection Hl as Hl.
  set (s1 := step (mkSystem f (mkNode c Listening (k :: inbox) loading)) (Listen Notified)).
  set (U1 := if bool_decide (k = "") then U else U ∖ {[k]}).
  assert (U1 ⊆ U) as HU by (unfold U1; case_bool_decide; set_solver). clearbody U1.
  destruct (IH s1 U1) as (H1 & H2 & H3 & H4); [done|done|]. split_and!; [done..|]. etrans; [exact H4|done].
Qed.

(** C35: coherence of the caches of a cluster. From a node with an empty cache and any table,
    after any interleaving of the listener's steps, of commits by any node with or without a
    notice in the transaction, of notices sent on their own, delivered or lost, of
    invalidations by the node itself and of loads in their two halves: every record in the
    cache of a node that listens is the one in the table, unless a notification for its key
    is waiting or the node has not heard of the key; and once the waiting notifications
    are read only the unheard keys are left. A key is unheard only since a commit that sent no
    notice in its transaction (as [SoftDeleteKey] does not) or fell between the
    clearing of the cache and LISTEN, or since a load put a record that had changed after it was
    read; and until the node next invalidates the key or clears its cache. *)
Theorem caches_coherent f evs s U :
  let s0 := mkSystem f NewCacheInvalidationListener in
  run evs s0 = s → unheard evs s0 ∅ = U → nd_phase (sy_node s) = Listening →
  (∀ keyID version m, cache_get (metadataKey keyID version) (nd_cache (sy_node s)) = Some m → keyID ∉ nd_inbox (sy_node s) → keyID ∉ U →
     current (sy_table s) keyID version m) ∧
  ∀ keyID version m,
    let s' := run (replicate (length (nd_inbox (sy_node s))) (Listen Notified)) s in
    cache_get (metadataKey keyID version) (nd_cache (sy_node s')) = Some m → keyID ∉ U → current (sy_table s) keyID version m.
Proof.
  intros s0 <- <- Hp. assert (coherent s0 ∅) as H0 by (split; simpl; done). apply (coherent_run evs) in H0 as Hs.
  generalize dependent (run evs s0). generalize (unheard evs s0 ∅). clear. intros U s Hp Hs. split.
  - intros k v m Hm Hin HU. destruct (co_listening s U Hs k v m Hp Hm) as [?|[[? _]|?]]; done.
  - intros k v m s' Hm HU. destruct (drained _ s U Hp eq_refl) as (Hp' & Hi & Ht & Hsub). rw -Ht.
    pose proof (coherent_run (replicate (length (nd_inbox (sy_node s))) (Listen Notified)) s U Hs) as Hs'.
    destruct (co_listening _ _ Hs' k v m Hp' Hm) as [?|[[Hin _]|Hin]]; [done|by rw Hi in Hin; apply elem_of_nil in Hin|set_solver].
Qed.

Definition record (state : string) : KeyMetadata := mkMeta "k" 1 state "aes-256-gcm" "" [] [] "" [] 0 0 0 0.
Definition demo_table (state : string) : gmap string data := {[metadataKey "k" 1 := marshal_meta (record state)]}.
Definition fresh (state : string) : System := mkSystem (demo_table state) NewCacheInvalidationListener.
Definition cached_state (s : System) : option string := km_State <$> cache_get (metadataKey "k" 1) (nd_cache (sy_node s)).
Definition shred_k : event := Commit "k" [(1%Z, Some (marshal_meta (record "Destroyed")))] true.
Definition load_k : list event := [LoadRead "k" 1; LoadPut 0].

Definition demo_events : list event := [Listen (Acquired true)] ++ load_k ++ [shred_k].
Lemma caches_coherent_witness : let s := run demo_events (fresh "Active") in
  cached_state s = Some "Active" ∧ nd_inbox (sy_node s) = ["k"] ∧
  ∀ version m, cache_get (metadataKey "k" version) (nd_cache (sy_node (run [Listen Notified] s))) = Some m → current (sy_table s) "k" version m.
Proof.
  destruct (caches_coherent (demo_table "Active") demo_events (run demo_events (fresh "Active")) ∅ eq_refl) as [_ H]; [vm_compute; reflexivity|vm_compute; reflexivity|].
  split; [vm_compute; reflexivity|]. split; [vm_compute; reflexivity|]. intros version m Hm. apply (H "k" version m Hm). apply not_elem_of_empty.
Defined.

(** ** The unheard keys *)
(** The cache is cleared before the session listens again: a key loaded and then destroyed by
    another node in between stays in the cache of a node that listens, with nothing waiting. *)
Example change_between_clear_and_listen :
  let s := run ([Listen (Acquired true); Listen Disconnected; Listen PauseOver] ++ load_k ++ [shred_k; Listen (Acquired true)]) (fresh "Active") in
  nd_phase (sy_node s) = Listening ∧ nd_inbox (sy_node s) = [] ∧ cached_state s = Some "Active" ∧ sy_table s !! metadataKey "k" 1 = Some (marshal_meta (record "Destroyed")).
Proof. vm_compute. split_and!; reflexivity. Qed.
(** A load that read the record before the change puts it into the cache after the
    notification has been handled. *)
Example load_across_change :
  let s := run [Listen (Acquired true); LoadRead "k" 1; shred_k; Listen Notified; LoadPut 0] (fresh "Active") in
  nd_phase (sy_node s) = Listening ∧ nd_inbox (sy_node s) = [] ∧ cached_state s = Some "Active" ∧ sy_table s !! metadataKey "k" 1 = Some (marshal_meta (record "Destroyed")).
Proof. vm_compute. split_and!; reflexivity. Qed.
(** A soft deletion sends no notice: the other nodes go on with the key until their cache is
    cleared. *)
Example soft_deletion_unheard :
  let evs := [Listen (Acquired true)] ++ load_k ++ [Commit "k" [(1%Z, Some (marshal_meta (record "SoftDeleted")))] false] in
  let s := run evs (fresh "Active") in
  nd_inbox (sy_node s) = [] ∧ cached_state s = Some "Active" ∧ elements (unheard evs (fresh "Active") ∅) = ["k"] ∧
  cached_state (run [Listen Disconnected; Listen PauseOver] s) = None.
Proof. vm_compute. split_and!; reflexivity. Qed.
End Listener.

(** ** Electing the node that rotates keys *)
Module Locker.
(** PostgreSQL's session-level advisory lock for one key: how often each session holds it. At
    most one session does; the same session may take it again. The pool of each node has
    idle sessions; [lk_leases] are the releases that [TryAcquire] has handed out, by node and
    session. A session that is not in [lk_sessions] has ended. *)
Record Locks : Type := mkLocks {
  lk_held : gmap nat nat;
  lk_sessions : gset nat;
  lk_idle : list (string * nat);
  lk_leases : list (string * nat);
  lk_next : nat;
}.
Definition NewAdvisoryLocker : Locks := mkLocks ∅ ∅ [] [] 0.

(** [pg_try_advisory_lock] and [pg_advisory_unlock] *)
Definition pg_try_advisory_lock (s : nat) (held : gmap nat nat) : gmap nat nat * bool :=
  if bool_decide (map_Forall (λ s' _, s' = s) held) then (<[s := S (default 0 (held !! s))]> held, true) else (held, false).
Definition pg_advisory_unlock (s : nat) (held : gmap nat nat) : gmap nat nat :=
  match held !! s with Some (S (S n)) => <[s := S n]> held | Some _ => delete s held | None => held end.

(** [pool.Acquire]: an error, an idle session of the node, or a new one. *)
Inductive acquire : Type := AcquireError | Idle (i : nat) | Fresh.
Definition pool_Acquire (node : string) (how : acquire) (l : Locks) : option (nat * Locks) :=
  match how with
  | AcquireError => None
  | Idle i =>
      match lk_idle l !! i with
      | Some (node', s) => if bool_decide (node' = node) then Some (s, mkLocks (lk_held l) (lk_sessions l) (delete i (lk_idle l)) (lk_leases l) (lk_next l)) else None
      | None => None
      end
  | Fresh => Some (lk_next l, mkLocks (lk_held l) ({[lk_next l]} ∪ lk_sessions l) (lk_idle l) (lk_leases l) (S (lk_next l)))
  end.
(** [conn.Release]: a live session goes back to the pool, a dead one is dropped. *)
Definition conn_Release (node : string) (s : nat) (l : Locks) : Locks :=
  if bool_decide (s ∈ lk_sessions l) then mkLocks (lk_held l) (lk_sessions l) (lk_idle l ++ [(node, s)]) (lk_leases l) (lk_next l) else l.
Definition set_held (held : gmap nat nat) (l : Locks) : Locks := mkLocks held (lk_sessions l) (lk_idle l) (lk_leases l) (lk_next l).
Definition set_leases (leases : list (string * nat)) (l : Locks) : Locks := mkLocks (lk_held l) (lk_sessions l) (lk_idle l) leases (lk_next l).
(** The end of a session, which also ends its locks. *)
Definition end_session (s : nat) (l : Locks) : Locks :=
  mkLocks (delete s (lk_held l)) (lk_sessions l ∖ {[s]}) (filter (λ p, p.2 ≠ s) (lk_idle l)) (lk_leases l) (lk_next l).

(** [TryAcquire]; [query] tells whether the statement is executed. A statement on a session
    that has ended fails. *)
Definition TryAcquire (node : string) (how : acquire) (query : bool) (l : Locks) : Locks * result bool :=
  match pool_Acquire node how l with
  | None => (l, Error (Err_new "advisory lock: acquire connection"))
  | Some (s, l) =>
      if negb query || negb (bool_decide (s ∈ lk_sessions l)) then (conn_Release node s l, Error (Err_new "advisory lock: pg_try_advisory_lock"))
      else
        let '(held, ok) := pg_try_advisory_lock s (lk_held l) in
        let l := set_held held l in
        if (ok : bool) then (set_leases (lk_leases l ++ [(node, s)]) l, Ok true) else (conn_Release node s l, Ok false)
  end.
(** The release function of the lease [i]; [exec] tells whether the unlocking is executed, its
    error is dropped. *)
Definition release (i : nat) (exec : bool) (l : Locks) : Locks :=
  match lk_leases l !! i with
  | Some (node, s) =>
      let l := set_leases (delete i (lk_leases l)) l in
      let l := if exec && bool_decide (s ∈ lk_sessions l) then set_held (pg_advisory_unlock s (lk_held l)) l else l in
      conn_Release node s l
  | None => l
  end.

Inductive lock_event : Type :=
  | LTry (node : string) (how : acquire) (query : bool)
  | LRelease (i : nat) (exec : bool)
  | LEnd (s : nat).
Definition lock_step (l : Locks) (ev : lock_event) : Locks :=
  match ev with
  | LTry node how query => (TryAcquire node how query l).1
  | LRelease i exec => release i exec l
  | LEnd s => end_session s l
  end.
Definition lock_run (evs : list lock_event) : Locks := foldl lock_step NewAdvisoryLocker evs.

(** A lease whose session lives. *)
Definition leads (l : Locks) (node : string) (s : nat) : Prop := (node, s) ∈ lk_leases l ∧ s ∈ lk_sessions l.

(** ** One leader *)
Definition ids (l : Locks) : list nat := (lk_idle l).*2 ++ (lk_leases l).*2.
Record lock_inv (l : Locks) : Prop := {
  li_one s s' : is_Some (lk_held l !! s) → is_Some (lk_held l !! s') → s = s';
  li_live s : is_Some (lk_held l !! s) → s ∈ lk_sessions l;
  li_lease node s : (node, s) ∈ lk_leases l → s ∈ lk_sessions l → is_Some (lk_held l !! s);
  li_nodup : NoDup (ids l);
  li_next s : s ∈ ids l ∨ s ∈ lk_sessions l → s < lk_next l;
}.
(** A session taken from the pool belongs to nobody else. *)
Lemma acquire_inv node how l s l1 : lock_inv l → pool_Acquire node how l = Some (s, l1) →
  lock_inv l1 ∧ (s ∉ ids l1) ∧ lk_held l1 = lk_held l ∧ lk_leases l1 = lk_leases l ∧ s < lk_next l1.
Proof.
  intros [H1 H2 H3 H4 H5] H. destruct how as [|i|]; [done| |].
  - rw /pool_Acquire in H. destruct (lk_idle l !! i) as [[node' s']|] eqn:Ei; [|done]. case_bool_decide; [|done]. injection H as <- <-.
    assert (ids l ≡ₚ (s' :: (delete i (lk_idle l)).*2 ++ (lk_leases l).*2)) as Hp.
    { rw /ids {1}(delete_Permutation (lk_idle l) i (node', s') Ei). done. }
    rw Hp in H4. apply list.NoDup_cons in H4 as [Hs Hn].
    split; [|split_and!; [done..|apply H5; left; rw Hp; set_solver]]. split; simpl; [done..|].
    intros s [Hin|Hin]; apply H5; [left; rw Hp; set_solver|by right].
  - injection H as <- <-. split; [|split_and!; [intros Hin; assert (lk_next l < lk_next l) by (apply H5; by left); lia|done|done|simpl; lia]].
    split; simpl; [done|set_solver|..|].
    + intros node' s Hin [->%elem_of_singleton|Hs]%elem_of_union; [|by eapply H3].
      exfalso. assert (lk_next l < lk_next l); [|lia]. apply H5. left. apply elem_of_app. right. apply list_elem_of_fmap. by exists (node', lk_next l).
    + done.
    + intros s [Hin|[->%elem_of_singleton|Hs]%elem_of_union]; [|lia|]; [assert (s < lk_next l) by (apply H5; by left)|assert (s < lk_next l) by (apply H5; by right)]; lia.
Qed.
Lemma release_inv node s l : lock_inv l → s ∉ ids l → s < lk_next l → lock_inv (conn_Release node s l).
Proof.
  intros [H1 H2 H3 H4 H5] Hs Hlt. rw /conn_Release. case_bool_decide; [|by split].
  assert (ids (mkLocks (lk_held l) (lk_sessions l) (lk_idle l ++ [(node, s)]) (lk_leases l) (lk_next l)) ≡ₚ (s :: ids l)) as Hp.
  { rw /ids /= fmap_app -app_assoc /=. symmetry. apply Permutation_middle. }
  split; [done..|rw Hp; by apply list.NoDup_cons|]. intros s'. rw Hp. simpl. intros [[->|Hin]%elem_of_cons|Hin]; [done|apply H5; by left|apply H5; by right].
Qed.
(** An attempt that succeeds finds the lock free, or held by the session itself. *)
Lemma TryAcquire_inv node how query l l' r : lock_inv l → TryAcquire node how query l = (l', r) →
  lock_inv l' ∧ (r = Ok true → (∀ s, is_Some (lk_held l !! s) → s ∉ (lk_leases l).*2) ∧
    ∃ s, s ∈ lk_sessions l' ∧ lk_leases l' = lk_leases l ++ [(node, s)]).
Proof.
  intros Hl. rw /TryAcquire. destruct (pool_Acquire node how l) as [[s l1]|] eqn:Ea; [|by intros [= <- <-]].
  destruct (acquire_inv node how l s l1 Hl Ea) as (Hl1 & Hs & Eh & El & Hlt).
  destruct (negb query || _) eqn:Eq; [intros [= <- <-]; split; [by apply release_inv|done]|].
  apply orb_false_elim in Eq as [_ Hlive%negb_false_iff%bool_decide_eq_true].
  rw /pg_try_advisory_lock. case_bool_decide as Hfree; [|intros [= <- <-]; split; [|done]; destruct l1; by apply release_inv].
  intros [= <- <-]. destruct Hl1 as [H1 H2 H3 H4 H5].
  assert (∀ a x, is_Some (<[s := x]> (lk_held l1) !! a) → a = s) as Hheld.
  { intros a x [y [[-> _]|[_ Hy]]%lookup_insert_Some]; [done|]. by apply (Hfree _ _ Hy). }
  split.
  - split; simpl.
    + intros a b ->%Hheld ->%Hheld. done.
    + intros a Ha. destruct (decide (a = s)) as [->|Hne]; [done|]. rw lookup_insert_ne // in Ha. by apply H2.
    + intros n a [Hin|[= -> ->]%list_elem_of_singleton]%elem_of_app Hv; [|rw lookup_insert_eq; eauto].
      destruct (decide (a = s)) as [->|Hne]; [rw lookup_insert_eq; eauto|]. rw lookup_insert_ne //. by eapply H3.
    + rw /ids /= fmap_app app_assoc. apply list.NoDup_app. split_and!; [done| |apply list.NoDup_singleton].
      intros a Ha ->%list_elem_of_singleton. by apply Hs.
    + rw /ids /= fmap_app app_assoc. intros a [[Ha| ->%list_elem_of_singleton]%elem_of_app|Ha]; [apply H5; by left|done|apply H5; by right].
  - intros _. split; [|exists s; split; [done|simpl; by rw El]]. intros a [x Hx]. rw -Eh in Hx. assert (a = s) as -> by by apply (Hfree _ _ Hx).
    rw -El. rw /ids in Hs. set_solver.
Qed.
Lemma end_session_inv s l : lock_inv l → lock_inv (end_session s l).
Proof.
  intros [H1 H2 H3 H4 H5]. assert (((filter (λ p, p.2 ≠ s) (lk_idle l)).*2 ++ (lk_leases l).*2) `sublist_of` ids l) as Hsub.
  { apply sublist_app; [apply fmap_sublist, sublist_filter|done]. }
  split; simpl.
  - intros a b [x [_ Hx]%lookup_delete_Some] [y [_ Hy]%lookup_delete_Some]. apply H1; eauto.
  - intros a [x [Hne Hx]%lookup_delete_Some]. assert (a ∈ lk_sessions l) by (apply H2; eauto). set_solver.
  - intros n a Hin [Ha Hne]%elem_of_difference. rw lookup_delete_ne; [set_solver|]. by eapply H3.
  - rw /ids /=. by eapply sublist_NoDup.
  - intros a [Ha|Ha]; [apply H5; left|apply H5; right; set_solver]. rw /ids /= in Ha. by eapply elem_of_sublist.
Qed.
Lemma unlock_other s held a : a ≠ s → pg_advisory_unlock s held !! a = held !! a.
Proof.
  intros Hne. rw /pg_advisory_unlock. destruct (held !! s) as [[|[|n]]|]; [rw lookup_delete_ne //|rw lookup_delete_ne //|rw lookup_insert_ne //|done].
Qed.
Lemma unlock_held s held a : is_Some (pg_advisory_unlock s held !! a) → is_Some (held !! a).
Proof.
  destruct (decide (a = s)) as [->|Hne]; [|by rw unlock_other]. rw /pg_advisory_unlock. destruct (held !! s) as [n|] eqn:E; [eauto|by rw E].
Qed.
Lemma lease_release_inv i exec l : lock_inv l → lock_inv (release i exec l).
Proof.
  intros [H1 H2 H3 H4 H5]. rw /release. destruct (lk_leases l !! i) as [[node s]|] eqn:Ei; [|by split].
  assert (ids l ≡ₚ (s :: (lk_idle l).*2 ++ (delete i (lk_leases l)).*2)) as Hp.
  { rw /ids {1}(delete_Permutation (lk_leases l) i (node, s) Ei) fmap_cons /=. symmetry. apply Permutation_middle. }
  assert (s < lk_next l) as Hlt by (apply H5; left; rw Hp; set_solver).
  rw Hp in H4. apply list.NoDup_cons in H4 as [Hs Hn].
  set (held := if exec && bool_decide (s ∈ lk_sessions l) then pg_advisory_unlock s (lk_held l) else lk_held l).
  assert (∀ a, is_Some (held !! a) → is_Some (lk_held l !! a)) as Hh by (intros a; rw /held; destruct (exec && _); [apply unlock_held|done]).
  assert (lock_inv (mkLocks held (lk_sessions l) (lk_idle l) (delete i (lk_leases l)) (lk_next l))) as Hl'.
  { split; simpl; [auto|auto| |done|].
    - intros n a Hin Ha. assert (a ≠ s) as Hne.
      { intros ->. apply Hs, elem_of_app. right. apply list_elem_of_fmap. by exists (n, s). }
      rw /held. destruct (exec && _); [rw unlock_other //|]; eapply H3; [by apply (list_subseteq_delete i _), Hin|done|by apply (list_subseteq_delete i _), Hin|done].
    - intros a [Ha|Ha]; apply H5; [left; rw Hp; rw /ids /= in Ha; set_solver|by right]. }
  replace (if exec && _ then _ else _) with (mkLocks held (lk_sessions l) (lk_idle l) (delete i (lk_leases l)) (lk_next l)).
  - by apply release_inv.
  - rw /held /set_held /set_leases /=. by destruct (exec && _).
Qed.
Lemma lock_run_inv evs : lock_inv (lock_run evs).
Proof.
  rw /lock_run. induction evs as [|ev evs IH] using rev_ind.
  - split; simpl; [by intros ?? []|by intros ? []|set_solver|apply base.NoDup_nil_2|set_solver].
  - rw foldl_app /=. destruct ev as [node how q|i exec|s]; simpl; [|by apply lease_release_inv|by apply end_session_inv].
    destruct (TryAcquire _ _ _ _) as [l' r] eqn:E. by apply TryAcquire_inv in E as [? _].
Qed.

(** Runs in which every release reaches the server. *)
Definition clean (ev : lock_event) : bool := match ev with LRelease _ exec => exec | _ => true end.
Definition no_leak (l : Locks) : Prop := ∀ s n, lk_held l !! s = Some n → n = 1 ∧ s ∈ (lk_leases l).*2.
Lemma conn_Release_same node s l : lk_held (conn_Release node s l) = lk_held l ∧ lk_leases (conn_Release node s l) = lk_leases l.
Proof. rw /conn_Release. by case_bool_decide. Qed.
Lemma no_leak_step l ev : lock_inv l → clean ev = true → no_leak l → no_leak (lock_step l ev).
Proof.
  intros Hl Hc Hn. destruct ev as [node how q|i exec|s]; simpl in *.
  - rw /TryAcquire. destruct (pool_Acquire node how l) as [[s l1]|] eqn:Ea; [|done].
    destruct (acquire_inv node how l s l1 Hl Ea) as (Hl1 & Hs & Eh & El & Hlt). rw /no_leak -Eh -El in Hn.
    destruct (negb q || _); [by rw /no_leak /= (proj1 (conn_Release_same _ _ _)) (proj2 (conn_Release_same _ _ _))|].
    rw /pg_try_advisory_lock. case_bool_decide; [|rw /no_leak /= (proj1 (conn_Release_same _ _ _)) (proj2 (conn_Release_same _ _ _)); done].
    rw /no_leak /=. intros a n [[<- <-]|[Hne Hx]]%lookup_insert_Some; rw /= fmap_app elem_of_app.
    + split; [|right; set_solver]. destruct (lk_held l1 !! s) as [x|] eqn:Ex; [|done]. exfalso. apply Hs, elem_of_app. right. by destruct (Hn s x Ex).
    + destruct (Hn a n Hx). auto.
  - subst exec. rw /release. destruct (lk_leases l !! i) as [[node s]|] eqn:Ei; [|done].
    rw /no_leak (proj1 (conn_Release_same _ _ _)) (proj2 (conn_Release_same _ _ _)). intros a n Ha.
    assert (lk_held l !! a = Some n ∧ a ≠ s) as [Hx Hne].
    { revert Ha. simpl. case_bool_decide as Hlive; simpl.
      - destruct (decide (a = s)) as [->|Hne]; [|by rw unlock_other]. rw /pg_advisory_unlock. destruct (lk_held l !! s) as [x|] eqn:Ex; [|by rw Ex].
        destruct (Hn s x Ex) as [-> _]. by rw lookup_delete_eq.
      - intros Ha. split; [done|]. intros ->. apply Hlive, (li_live l Hl). eauto. }
    destruct (Hn a n Hx) as [-> Hin]. split; [done|].
    assert (a ∈ s :: (delete i (lk_leases l)).*2) as Hin'.
    { change (a ∈ ((node, s) :: delete i (lk_leases l)).*2). by rw -(delete_Permutation (lk_leases l) i (node, s) Ei). }
    apply elem_of_cons in Hin' as [?|Hin']; [done|]. by destruct (true && bool_decide _).
  - rw /no_leak /=. intros a n [_ Hx]%lookup_delete_Some. by apply Hn.
Qed.
Lemma no_leak_run evs : forallb clean evs = true → no_leak (lock_run evs).
Proof.
  induction evs as [|ev evs IH] using rev_ind; [by intros _ s n; rw lookup_empty|]. rewrite forallb_app. intros [He [Hev _]%andb_prop]%andb_prop.
  rw /lock_run foldl_app. apply no_leak_step; [apply lock_run_inv|done|by apply IH].
Qed.

(** One node leads. After any interleaving of attempts, releases and ends of sessions on any
    nodes, with failures of the pool and of every statement: at most one outstanding lease has a
    session that lives, and while there is one no attempt of any node succeeds. When every
    release reached the server, the lock is not lost: once no lease has a live session, an attempt
    over a new connection succeeds. *)
Theorem one_leader evs : let l := lock_run evs in
  (∀ node s node' s', leads l node s → leads l node' s' → node = node' ∧ s = s') ∧
  (∀ node s node' how query, leads l node s → (TryAcquire node' how query l).2 ≠ Ok true) ∧
  (forallb clean evs = true → (∀ node s, ¬ leads l node s) →
   ∀ node, ∃ l', TryAcquire node Fresh true l = (l', Ok true) ∧ ∃ s, leads l' node s).
Proof.
  intros l. pose proof (lock_run_inv evs) as Hl. fold l in Hl. split_and!.
  - intros n s n' s' [Hi Hs] [Hi' Hs']. assert (s = s') as <- by (apply (li_one l Hl); by eapply (li_lease l Hl)). split; [|done].
    pose proof (li_nodup l Hl) as Hn. rw /ids in Hn. apply list.NoDup_app in Hn as (_ & _ & Hn).
    apply list_elem_of_lookup in Hi as [i Hi], Hi' as [j Hj].
    assert (i = j) as <- by (eapply NoDup_lookup; [done|by rw list_lookup_fmap Hi|by rw list_lookup_fmap Hj]). rw Hi in Hj. by injection Hj.
  - intros n s n' how q [Hi Hs]. destruct (TryAcquire n' how q l) as [l' r] eqn:E. simpl. intros ->.
    apply TryAcquire_inv in E as [_ H]; [|done]. destruct (H eq_refl) as [H' _]. apply (H' s); [by eapply (li_lease l Hl)|].
    apply list_elem_of_fmap. by exists (n, s).
  - intros Hc Hno n. pose proof (no_leak_run evs Hc) as Hk. fold l in Hk.
    assert (lk_held l = ∅) as He.
    { apply map_empty. intros s. destruct (lk_held l !! s) as [x|] eqn:Ex; [|done]. destruct (Hk s x Ex) as [_ Hin].
      apply list_elem_of_fmap in Hin as ([n' s'] & -> & Hin). destruct (Hno n' s'). split; [done|]. apply (li_live l Hl). eauto. }
    rw /TryAcquire /= bool_decide_eq_true_2; [set_solver|]. rw /pg_try_advisory_lock He bool_decide_eq_true_2 /=; [apply map_Forall_empty|].
    eexists. split; [done|]. exists (lk_next l). split; simpl; set_solver.
Qed.
(** Two nodes: one leads and the other is refused. *)
Lemma one_leader_witness : let l := lock_run [LTry "a" Fresh true; LTry "b" Fresh true] in
  leads l "a" 0 ∧ (TryAcquire "b" Fresh true l).2 ≠ Ok true ∧
  ∃ l', TryAcquire "b" Fresh true (lock_run [LTry "a" Fresh true; LTry "b" Fresh true; LRelease 0 true]) = (l', Ok true).
Proof.
  intros l. assert (leads l "a" 0) as Hl by (split; [apply list_elem_of_In; vm_compute; left; reflexivity|apply (bool_decide_unpack _); vm_compute; exact I]).
  split; [exact Hl|]. split; [exact (proj1 (proj2 (one_leader [LTry "a" Fresh true; LTry "b" Fresh true])) "a" 0 "b" Fresh true Hl)|].
  destruct (one_leader [LTry "a" Fresh true; LTry "b" Fresh true; LRelease 0 true]) as (_ & _ & H).
  destruct (H eq_refl) with (node := "b") as (l' & E & _).
  - intros n s [Hin _]. apply list_elem_of_In in Hin. vm_compute in Hin. exact Hin.
  - exists l'. exact E.
Defined.
(** The error of the unlocking is dropped: the session goes back to the pool and keeps the lock, so
    no other node leads until it ends; taken again by its own node it is never given back. *)
Example failed_unlock_blocks :
  let l := lock_run [LTry "a" Fresh true; LRelease 0 false] in
  lk_leases l = [] ∧ (TryAcquire "b" Fresh true l).2 = Ok false ∧
  lk_held (lock_run [LTry "a" Fresh true; LRelease 0 false; LTry "a" (Idle 0) true; LRelease 0 true]) !! 0 = Some 1.
Proof. vm_compute. split_and!; reflexivity. Qed.
(** Nothing tells a leader that its session has ended: another node leads while the first still
    works on its scan. *)
Example leader_after_session : lk_leases (lock_run [LTry "a" Fresh true; LEnd 0; LTry "b" Fresh true]) = [("a", 0); ("b", 1)].
Proof. vm_compute. reflexivity. Qed.
End Locker.

(** ** The health of the connection *)
Module Health.
(** The flag, the cancel function of the running check (named by its goroutine), the goroutines that
    have not returned, and those of them whose ping is under way. *)
Record healthState : Type := mkHealth {
  hs_healthy : bool;
  hs_cancel : option nat;
  hs_loops : gset nat;
  hs_pinging : gset nat;
  hs_next : nat;
}.
Definition newHealthState : healthState := mkHealth true None ∅ ∅ 0.
Definition StartHealthCheck (h : healthState) : healthState :=
  match hs_cancel h with
  | Some _ => h
  | None => mkHealth (hs_healthy h) (Some (hs_next h)) ({[hs_next h]} ∪ hs_loops h) (hs_pinging h) (S (hs_next h))
  end.
Definition StopHealthCheck (h : healthState) : healthState := mkHealth (hs_healthy h) None (hs_loops h) (hs_pinging h) (hs_next h).
Definition SetUnhealthy (h : healthState) : healthState := mkHealth false (hs_cancel h) (hs_loops h) (hs_pinging h) (hs_next h).
Definition SetHealthy (h : healthState) : healthState := mkHealth true (hs_cancel h) (hs_loops h) (hs_pinging h) (hs_next h).
(** The goroutine [g]: its ticker fires, its ping returns, or it sees that its context is done,
    which is so when its cancel function has been called. When both cases of the [select] are
    ready, either may be taken. *)
Inductive health_event : Type := Start | Stop | Report (ok : bool) | Tick (g : nat) | PingDone (g : nat) (ok : bool) | Exit (g : nat).
Definition health_step (h : healthState) (ev : health_event) : healthState :=
  match ev with
  | Start => StartHealthCheck h
  | Stop => StopHealthCheck h
  | Report ok => if ok then SetHealthy h else SetUnhealthy h
  | Tick g => if bool_decide (g ∈ hs_loops h ∧ (g ∉ hs_pinging h))
              then mkHealth (hs_healthy h) (hs_cancel h) (hs_loops h) ({[g]} ∪ hs_pinging h) (hs_next h) else h
  | PingDone g ok => if bool_decide (g ∈ hs_pinging h)
                     then mkHealth ok (hs_cancel h) (hs_loops h) (hs_pinging h ∖ {[g]}) (hs_next h) else h
  | Exit g => if bool_decide (g ∈ hs_loops h ∧ (g ∉ hs_pinging h) ∧ hs_cancel h ≠ Some g)
              then mkHealth (hs_healthy h) (hs_cancel h) (hs_loops h ∖ {[g]}) (hs_pinging h) (hs_next h) else h
  end.
Definition health_run (evs : list health_event) : healthState := foldl health_step newHealthState evs.

Record health_inv (h : healthState) : Prop := {
  he_running g : hs_cancel h = Some g → g ∈ hs_loops h;
  he_pinging g : g ∈ hs_pinging h → g ∈ hs_loops h;
  he_next g : g ∈ hs_loops h → g < hs_next h;
}.
(** The check that has been started and not stopped runs, and no ping is made but by a goroutine
    that has not returned. *)
Lemma health_run_inv evs : health_inv (health_run evs).
Proof.
  rw /health_run. induction evs as [|ev evs IH] using rev_ind; [by split|]. rw foldl_app /=.
  destruct IH as [H1 H2 H3]. generalize dependent (foldl health_step newHealthState evs). intros h H1 H2 H3.
  destruct ev as [| |[|]|g|g ok|g]; simpl; [| |done|done|..].
  - rw /StartHealthCheck. destruct (hs_cancel h) eqn:E; [by split; [rw E|..]|]. split; simpl; [set_solver|set_solver|].
    intros g [->%elem_of_singleton|Hg%H3]%elem_of_union; lia.
  - by split.
  - case_bool_decide as Hg; [|done]. split; simpl; [done|set_solver|done].
  - case_bool_decide as Hg; [|done]. split; simpl; [done|set_solver|done].
  - case_bool_decide as Hg; [|done]. destruct Hg as (? & ? & ?). split; simpl; [set_solver|set_solver|set_solver].
Qed.
(** Starting again does not start a second check; and after a stop a ping that was under way still
    changes the flag. *)
Example health_runs : hs_loops (health_run [Start; Start]) = {[0]} ∧
  hs_healthy (health_run [Start; Tick 0; Stop; Report true; PingDone 0 false]) = false.
Proof. vm_compute. split; reflexivity. Qed.
End Health.
