(* ===== verification/Admin.v ===== *)
(** The web console, [src/internal/admin]: seal status, sealing and unsealing, the list of
    keys, and the forwarding of encryption and decryption to the HTTP interface
    ([server.go], [handlers.go], [handlers_api.go]). The pages themselves are embedded
    files; only which one is served is modelled.

    The console works on an unsealer that may be the one of the service or another object:
    the state of the program is any type with a view on both. *)

From S2P Require Import Prelude SecureBuffer Hash Base64 AesGcm Ciphertext Kek Vault Store Metadata AuditLog Manager Transit TransitSpec Lifecycle KeyManagement Auth RateLimit Core Api CoreSpec ApiSpec.
Import MemoryKV.

(** ** The unsealer of the console *)
Class UnsealerConsole (U : Type) : Type := {
  uc_Seal : U → U;
  uc_TotalShares : U → Z;
  uc_Threshold : U → Z;
}.
#[export] Instance VaultState_Console : UnsealerConsole VaultState :=
  {| uc_Seal v := (Seal v).1; uc_TotalShares := vs_total; uc_Threshold := vs_threshold |}.

(** ** Requests and replies *)
Inductive admin_reply : Type :=
  | RSealStatus (sealed : bool) (state : string) (total threshold : Z)
  | RKeys (ids : list string)
  | RSealed
  | RUnseal (unsealed : bool) (err : option error)     (* with status 400 when there is an error *)
  | RAuditEmpty
  | RDashboard (keyCount : Z) (sealed : bool) (state : string)
  | RIndex
  | RStatic (path : string)
  | RProxied (rep : option string * reply)
  | RNotConfigured
  | RError (status : Z) (msg : string).

(** [AdminServer]; the manager and the API handler, when they are set, are those of the
    view. *)
Record AdminServer : Type := mkAdminServer { as_adminToken : string; as_manager : bool; as_apiHandler : bool }.
Definition NewAdminServer : AdminServer := mkAdminServer "" false false.
Definition AdminSetToken (token : string) (s : AdminServer) : AdminServer := mkAdminServer token (as_manager s) (as_apiHandler s).
Definition SetManager (s : AdminServer) : AdminServer := mkAdminServer (as_adminToken s) true (as_apiHandler s).
Definition SetAPIHandler (s : AdminServer) : AdminServer := mkAdminServer (as_adminToken s) (as_manager s) true.

(** [auth[len("Bearer "):]] of a header that is longer than the prefix. *)
Definition bearer_token (header : string) : option string :=
  if bool_decide (String.length header ≤ String.length "Bearer ") || negb (has_prefix "Bearer " header) then None
  else Some (str_drop (String.length "Bearer ") header).
(** [req.BasicAuth()]: the password behind the first colon. *)
Definition BasicAuth (header : string) : option (string * string) :=
  if (String.length header <? 6)%nat || negb (EqualFold (String.substring 0 6 header) "Basic ") then None
  else
    b ← b64_DecodeString (str_bytes (str_drop 6 header));
    let l := chars (String.string_of_list_byte b) in
    i ← index_of_char (char_of ":") l;
    Some (unchars (take i l), unchars (drop (i + 1) l)).
Definition admin_authenticate (adminToken header : string) : bool :=
  match BasicAuth header with
  | Some (_, pass) => bool_decide (pass = adminToken)
  | None => bool_decide (bearer_token header = Some adminToken)
  end.

(** What of the program's state the console sees: its unsealer, and the router with the
    service and the manager. *)
Record view (W U R : Type) : Type := mkView {
  vw_seal : W → U; vw_set_seal : U → W → W;
  vw_router : W → R; vw_set_router : R → W → W;
}.
Arguments mkView {W U R}. Arguments vw_seal {W U R}. Arguments vw_set_seal {W U R}. Arguments vw_router {W U R}. Arguments vw_set_router {W U R}.

Section Admin.
Context {V S T U W : Type} `{!Unsealer V, !UnsealerAdmin V, !KVStore S, !Decoder T, !Unsealer U, !UnsealerAdmin U, !UnsealerConsole U} {rlib : RSALib}.
Variable cfg : Config.
Variable vw : view W U (Router V S).
Variable srv : AdminServer.
Abbreviation MA := (M W).
Abbreviation Req := (request T).

Definition onRouter {A} (m : M (Router V S) A) : MA A := fun w => let '(r, x) := m (vw_router vw w) in (vw_set_router vw r w, x).
Definition answer_of (a : admin_reply) : MA admin_reply := mret a.
Definition with_method (m : string) (rq : Req) (k : MA admin_reply) : MA admin_reply :=
  if bool_decide (rq_Method rq = m) then k else answer_of (RError 405 "method not allowed").

(** ** handlers.go *)
Definition handleSealStatus (rq : Req) : MA admin_reply :=
  with_method "GET" rq (u ← gets (vw_seal vw); mret (RSealStatus (us_IsSealed u) (us_State u) (uc_TotalShares u) (uc_Threshold u))).
Definition handleListKeys (rq : Req) : MA admin_reply :=
  with_method "GET" rq (
    if negb (as_manager srv) then answer_of (RKeys [])
    else
      u ← gets (vw_seal vw);
      if us_IsSealed u then answer_of (RError 503 "vault is sealed")
      else
        ids ← try_ (onRouter (onManager ListKeyIDs));
        mret (match ids with inl ids => RKeys ids | inr _ => RError 500 "failed to list keys" end)).
Definition handleSeal (rq : Req) : MA admin_reply :=
  with_method "POST" rq (modify (λ w, vw_set_seal vw (uc_Seal (vw_seal vw w)) w);; mret RSealed).
Definition handleUnseal (rq : Req) : MA admin_reply :=
  with_method "POST" rq (
    match rq_Body rq with
    | None => answer_of (RError 400 "read body failed")
    | Some t =>
        match dec_unseal t with
        | None => answer_of (RError 400 "invalid JSON")
        | Some share => fun w =>
            let '(u, (unsealed, err)) := us_ProvideShare share (vw_seal vw w) in
            (vw_set_seal vw u w, Ok (RUnseal unsealed err))
        end
    end).
Definition handleIndex (rq : Req) : MA admin_reply := with_method "GET" rq (mret RIndex).

(** ** handlers_api.go *)
Definition handleAPIKeys (rq : Req) : MA admin_reply := with_method "GET" rq (handleListKeys rq).
(** The same request, headers included, with another path and the method POST. *)
Definition forwarded (targetPath : string) (rq : Req) : Req :=
  mkRequest "POST" targetPath (rq_QueryKeyID rq) (rq_QueryID rq) (rq_Authorization rq) (rq_Origin rq) (rq_XForwardedFor rq)
    (rq_XRealIP rq) (rq_RemoteAddr rq) (rq_Body rq).
Definition proxyAPI (targetPath : string) (rq : Req) : MA admin_reply :=
  if negb (as_apiHandler srv) then answer_of RNotConfigured
  else rep ← onRouter (ServeHTTP cfg (forwarded targetPath rq)); mret (RProxied rep).
Definition handleAPIEncrypt (rq : Req) : MA admin_reply := proxyAPI "/api/v1/encrypt" rq.
Definition handleAPIDecrypt (rq : Req) : MA admin_reply := proxyAPI "/api/v1/decrypt" rq.
Definition handleAPIAudit (rq : Req) : MA admin_reply := answer_of RAuditEmpty.
Definition handleAPIDashboard (rq : Req) : MA admin_reply :=
  with_method "GET" rq (
    u ← gets (vw_seal vw);
    count ← (if as_manager srv && negb (us_IsSealed u) then
               ids ← try_ (onRouter (onManager ListKeyIDs));
               mret (match ids with inl ids => Z.of_nat (length ids) | inr _ => 0%Z end)
             else mret 0%Z);
    u ← gets (vw_seal vw);
    mret (RDashboard count (us_IsSealed u) (us_State u))).

(** ** server.go *)
Definition requireAdminToken (next : Req → MA admin_reply) (rq : Req) : MA admin_reply :=
  if bool_decide (as_adminToken srv = "") then next rq
  else if bool_decide (bearer_token (rq_Authorization rq) = Some (as_adminToken srv)) then next rq
  else answer_of (RError 401 "unauthorized").
(** [register], as [http.ServeMux] resolves it. *)
Definition admin_mux (rq : Req) : MA admin_reply :=
  let path := rq_Path rq in
  if bool_decide (path = "/admin/api/seal-status") then handleSealStatus rq
  else if bool_decide (path = "/admin/api/keys") then requireAdminToken handleAPIKeys rq
  else if bool_decide (path = "/admin/api/crypto/encrypt") then requireAdminToken handleAPIEncrypt rq
  else if bool_decide (path = "/admin/api/crypto/decrypt") then requireAdminToken handleAPIDecrypt rq
  else if bool_decide (path = "/admin/api/audit") then requireAdminToken handleAPIAudit rq
  else if bool_decide (path = "/admin/api/dashboard") then requireAdminToken handleAPIDashboard rq
  else if bool_decide (path = "/admin/api/seal") then requireAdminToken handleSeal rq
  else if bool_decide (path = "/admin/api/unseal") then requireAdminToken handleUnseal rq
  else if has_prefix "/static/" path then answer_of (RStatic (str_drop (String.length "/static/") path))
  else handleIndex rq.
Definition AdminServeHTTP (rq : Req) : MA admin_reply :=
  if negb (bool_decide (as_adminToken srv = "")) && negb (admin_authenticate (as_adminToken srv) (rq_Authorization rq))
  then answer_of (RError 401 "unauthorized")
  else admin_mux rq.

(** ** Guards *)
(** Replies that tell nothing about keys. *)
Definition harmless (rep : admin_reply) : Prop :=
  match rep with RSealStatus _ _ _ _ | RIndex | RStatic _ | RError _ _ => True | _ => False end.
Lemma with_method_cases m rq k w w' r : with_method m rq k w = (w', r) →
  (rq_Method rq ≠ m ∧ w' = w ∧ r = Ok (RError 405 "method not allowed")) ∨ (rq_Method rq = m ∧ k w = (w', r)).
Proof. rw /with_method. case_bool_decide; [by right|]. intros [= <- <-]. by left. Qed.
Lemma requireAdminToken_refuses next rq : as_adminToken srv ≠ "" → bearer_token (rq_Authorization rq) ≠ Some (as_adminToken srv) →
  requireAdminToken next rq = answer_of (RError 401 "unauthorized").
Proof. intros Ht Hb. by rw /requireAdminToken !bool_decide_eq_false_2. Qed.
Lemma requireAdminToken_passes next rq : bearer_token (rq_Authorization rq) = Some (as_adminToken srv) → requireAdminToken next rq = next rq.
Proof. intros Hb. rw /requireAdminToken. case_bool_decide; [done|]. by rw bool_decide_eq_true_2. Qed.
Lemma bearer_not_basic header t : bearer_token header = Some t → BasicAuth header = None.
Proof.
  rw /bearer_token /BasicAuth. case_bool_decide; [done|]. destruct (has_prefix "Bearer " header) eqn:Hp; [|done]. intros _.
  destruct header as [|c [|d header]]; [done..|]. rw /has_prefix in Hp. cbn [String.prefix] in Hp.
  destruct (Ascii.ascii_dec _ c) as [<-|]; [|done]. destruct (Ascii.ascii_dec _ d) as [<-|]; [|done].
  destruct (_ <? _)%nat; reflexivity.
Qed.

Lemma harmless_answer rep w w' r : answer_of rep w = (w', r) → harmless rep → w' = w ∧ ∃ rep, r = Ok rep ∧ harmless rep.
Proof. rw /answer_of /mret /M_ret. intros [= <- <-]. by split; [|exists rep]. Qed.
Lemma harmless_pages rq w w' r : handleSealStatus rq w = (w', r) ∨ handleIndex rq w = (w', r) → w' = w ∧ ∃ rep, r = Ok rep ∧ harmless rep.
Proof.
  by intros [H|H]; apply with_method_cases in H as [(_ & -> & ->)|[_ H]]; [|injection H as <- <-| |injection H as <- <-]; (split; [done|]; eexists).
Qed.

(** The console obeys its token. With a token configured, a request whose header carries
    it neither as a bearer token nor as the password of basic authentication is refused;
    and without it as a bearer token nothing changes and nothing about keys is told.
    With it, sealing seals the vault, and a share is handed to the vault. *)
Theorem admin_guarded w w' rq r : as_adminToken srv ≠ "" → AdminServeHTTP rq w = (w', r) →
  (admin_authenticate (as_adminToken srv) (rq_Authorization rq) = false → w' = w ∧ r = Ok (RError 401 "unauthorized")) ∧
  (bearer_token (rq_Authorization rq) ≠ Some (as_adminToken srv) → w' = w ∧ ∃ rep, r = Ok rep ∧ harmless rep) ∧
  (bearer_token (rq_Authorization rq) = Some (as_adminToken srv) → rq_Method rq = "POST" → rq_Path rq = "/admin/api/seal" →
     w' = vw_set_seal vw (uc_Seal (vw_seal vw w)) w ∧ r = Ok RSealed) ∧
  (∀ t share, bearer_token (rq_Authorization rq) = Some (as_adminToken srv) → rq_Method rq = "POST" → rq_Path rq = "/admin/api/unseal" →
     rq_Body rq = Some t → dec_unseal t = Some share →
     let '(u, (unsealed, err)) := us_ProvideShare share (vw_seal vw w) in w' = vw_set_seal vw u w ∧ r = Ok (RUnseal unsealed err)).
Proof.
  intros Ht H. rw /AdminServeHTTP (bool_decide_eq_false_2 _ Ht) /= in H.
  assert (bearer_token (rq_Authorization rq) = Some (as_adminToken srv) → admin_authenticate (as_adminToken srv) (rq_Authorization rq) = true) as Hpass.
  { intros Hb. rw /admin_authenticate (bearer_not_basic _ _ Hb). by apply bool_decide_eq_true_2. }
  split_and!.
  - intros Ha. rw Ha in H. by injection H as <- <-.
  - intros Hb. destruct (admin_authenticate _ _); cbn [negb] in H; [|by eapply harmless_answer]. revert H. rw /admin_mux.
    repeat (case_bool_decide as Hpath; [rw ?requireAdminToken_refuses // => H; (eapply harmless_answer; [exact H|exact I]) || (eapply harmless_pages; left; exact H)|clear Hpath]).
    destruct (has_prefix _ _) => H; [eapply harmless_answer; [exact H|exact I]|]. eapply harmless_pages; right; exact H.
  - intros Hb Hm Hp. rw (Hpass Hb) /= /admin_mux Hp /= requireAdminToken_passes // /handleSeal /with_method bool_decide_eq_true_2 // in H.
    by injection H as <- <-.
  - intros t share Hb Hm Hp Hbody Hd.
    rw (Hpass Hb) /= /admin_mux Hp /= requireAdminToken_passes // /handleUnseal /with_method bool_decide_eq_true_2 // Hbody Hd in H.
    destruct (us_ProvideShare share (vw_seal vw w)) as [u [unsealed err]]. by injection H as <- <-.
Qed.
End Admin.

(** ** Witness and examples *)
(** A console on the vault of the service, as in development and Shamir mode. *)
Definition shared_view {S} : view (Router VaultState S) VaultState (Router VaultState S) :=
  mkView (λ r, c_seal (r_core r)) (λ v r, set_core (set_seal v (r_core r)) r) (λ r, r) (λ r _, r).
Definition demo_console : AdminServer := SetAPIHandler (SetManager (AdminSetToken "root-token" NewAdminServer)).
Definition console (srv : AdminServer) (rq : request demo_text) : Router VaultState WMem * result admin_reply :=
  AdminServeHTTP demo_cfg shared_view srv rq demo_router.
Lemma admin_guarded_witness : IsSealed (c_seal (r_core (console demo_console (demo_rq "POST" "/admin/api/seal" "root-token" (TVersion 0))).1)) = true ∧
  (console demo_console (demo_rq "POST" "/admin/api/seal" "guess" (TVersion 0))).1 = demo_router.
Proof.
  split.
  - destruct (admin_guarded demo_cfg shared_view demo_console demo_router _ (demo_rq "POST" "/admin/api/seal" "root-token" (TVersion 0)) _
      ltac:(discriminate) (surjective_pairing _)) as (_ & _ & H & _).
    destruct (H eq_refl eq_refl eq_refl) as [Hw _]. rewrite /console Hw. vm_compute. reflexivity.
  - destruct (admin_guarded demo_cfg shared_view demo_console demo_router _ (demo_rq "POST" "/admin/api/seal" "guess" (TVersion 0)) _
      ltac:(discriminate) (surjective_pairing _)) as (H & _).
    destruct (H eq_refl) as [Hw _]. exact Hw.
Defined.

(** Basic authentication opens the pages, and the status, but none of the functions: these
    ask for a bearer token. *)
Definition basic_rq (path : string) : request demo_text :=
  mkRequest "GET" path "" "" ("Basic " +:+ String.string_of_list_byte (b64_encode (str_bytes "admin:root-token"))) "" "" "" "127.0.0.1:99" None.
Example basic_auth_opens_pages_only :
  (console demo_console (basic_rq "/")).2 = Ok RIndex ∧ (console demo_console (basic_rq "/admin/api/keys")).2 = Ok (RError 401 "unauthorized").
Proof. vm_compute. split; reflexivity. Qed.
(** A forwarded request carries the token of the console, which is no token of a role: the
    encryption test of the console is refused by the service. *)
Example forwarded_token_refused :
  (console demo_console (demo_rq "POST" "/admin/api/crypto/encrypt" "root-token" (TEncrypt (mkEncrypt "k" [x68])))).2 =
  Ok (RProxied (None, JErr 401 "authentication failed")).
Proof. vm_compute. reflexivity. Qed.
(** Without a token the console is open to everyone who reaches it. *)
Example open_console :
  (console (SetManager NewAdminServer) (demo_rq "GET" "/admin/api/keys" "" (TVersion 0))).2 = Ok (RKeys ["j"; "k"]) ∧
  IsSealed (c_seal (r_core (console NewAdminServer (demo_rq "POST" "/admin/api/seal" "" (TVersion 0))).1)) = true.
Proof. vm_compute. split; reflexivity. Qed.
