(* ===== verification/Bootstrap.v ===== *)
(** Start-up: [src/internal/bootstrap/bootstrap.go] puts the parts together, for the
    development mode over the memory store and for the cluster mode over PostgreSQL; with
    the TLS settings of [src/internal/config/tlsconfig.go]. What start-up finds in its environment
    (random bytes, files, the database, the HSM, key sets) is a record of outcomes. *)

From S2P Require Import Prelude SecureBuffer Hash AesGcm Ciphertext Kek Vault Backup Store Postgres Metadata Oaep AuditLog Manager Transit TransitSpec Lifecycle KeyManagement Auth Jwt Approval RateLimit Settings Observability Pki Core Api CoreSpec ApiSpec Grpc Mcp Admin.
Import MemoryKV.

(** ** The interface value [seal.Unsealer] *)
Inductive AnyUnsealer : Type := UVault (v : VaultState) | UHSM (h : HSMUnsealer).
#[export] Instance AnyUnsealer_Unsealer : Unsealer AnyUnsealer := {|
  us_IsSealed u := match u with UVault v => us_IsSealed v | UHSM h => us_IsSealed h end;
  us_IsEmergencySealed u := match u with UVault v => us_IsEmergencySealed v | UHSM h => us_IsEmergencySealed h end;
  us_KEKRef S A u := match u with UVault v => us_KEKRef v | UHSM h => us_KEKRef h end;
  us_EmergencySeal u := match u with UVault v => UVault (us_EmergencySeal v) | UHSM h => UHSM (us_EmergencySeal h) end;
|}.
#[export] Instance AnyUnsealer_laws : UnsealerLaws AnyUnsealer.
Proof. split. intros [v|h]; [apply (us_kek_or_error v)|apply (us_kek_or_error h)]. Qed.
#[export] Instance AnyUnsealer_Admin : UnsealerAdmin AnyUnsealer := {|
  us_ProvideShare share u := match u with
    | UVault v => let '(v, x) := us_ProvideShare share v in (UVault v, x)
    | UHSM h => let '(h, x) := us_ProvideShare share h in (UHSM h, x)
    end;
  us_State u := match u with UVault v => us_State v | UHSM h => us_State h end;
|}.

(** ** tlsconfig.go *)
Inductive client_auth : Type := NoClientCert | VerifyClientCertIfGiven | RequireAndVerifyClientCert.
Record tls_Config : Type := mkTLSOut { to_MinVersion : Z; to_ClientAuth : client_auth; to_ClientCAs : option bytes }.
(** [parse] tells whether [AppendCertsFromPEM] finds a certificate. *)
Definition BuildTLSConfig (read : string → option bytes) (parse : bytes → bool) (cfg : TLSConfig) : result (option tls_Config) :=
  if negb (tls_Enabled cfg) then Ok None
  else
    minVersion ← (if bool_decide (tls_MinVersion cfg = "TLS1.3") then Ok 0x0304%Z
                  else if bool_decide (tls_MinVersion cfg ∈ ["TLS1.2"; ""]) then Ok 0x0303%Z
                  else Error (Err_new "config: unsupported tls.min_version"));
    clientAuth ← (if bool_decide (tls_ClientAuth cfg = "require") then Ok RequireAndVerifyClientCert
                  else if bool_decide (tls_ClientAuth cfg = "optional") then Ok VerifyClientCertIfGiven
                  else if bool_decide (tls_ClientAuth cfg ∈ [""; "none"]) then Ok NoClientCert
                  else Error (Err_new "config: unsupported tls.client_auth"));
    match clientAuth with
    | NoClientCert => Ok (Some (mkTLSOut minVersion NoClientCert None))
    | _ =>
        if bool_decide (tls_ClientCAFile cfg = "") then Error (Err_new "config: tls.client_auth require/optional needs client_ca_file")
        else match read (tls_ClientCAFile cfg) with
             | None => Error (Err_new "config: read client_ca_file")
             | Some caPEM =>
                 if parse caPEM then Ok (Some (mkTLSOut minVersion clientAuth (Some caPEM)))
                 else Error (Err_new "config: failed to parse client_ca_file (invalid PEM)")
             end
    end.

(** ** The assembled server *)
(** The parts share the unsealer, the manager and the audit log: this is the core of the
    router. The second [service.Core], that of gRPC and MCP, differs in its token and
    its alerter. [bs_adminVault]: the console has a vault of its own. *)
Record Server (S : Type) : Type := mkBuilt {
  bs_config : Z → Config;        (* at the time of a request: tokens expire *)
  bs_router : Router AnyUnsealer S;
  bs_audit : AuditLogger;
  bs_coreToken : string;
  bs_alerter : Alerter;
  bs_admin : option AdminServer;
  bs_adminVault : option VaultState;
  bs_grpc : option (option tls_Config);
  bs_mcp : option McpConfig;
  bs_masterKey : bool;           (* [MasterKey] is set: the buffer that the vault holds *)
  bs_daemon : bool;
}.
Arguments mkBuilt {S}. Arguments bs_config {S}. Arguments bs_router {S}. Arguments bs_audit {S}. Arguments bs_coreToken {S}.
Arguments bs_alerter {S}. Arguments bs_admin {S}. Arguments bs_adminVault {S}. Arguments bs_grpc {S}. Arguments bs_mcp {S}.
Arguments bs_masterKey {S}. Arguments bs_daemon {S}.

(** What start-up meets. *)
Record platform : Type := mkPlatform {
  pf_rand : entropy;
  pf_now : Z;
  pf_syslog : option error;             (* connecting to syslog fails *)
  pf_rotator : option error;            (* opening the audit file fails *)
  pf_logDir : gmap string bytes;        (* the audit directory, and its anchor *)
  pf_anchor : option bytes;
  pf_postgres : result Pg;              (* the database as it is found *)
  pf_slice : data → bytes;
  pf_host : Host;
  pf_hsm : string → string → result CryptoBackend;   (* [BuildHSMBackend] *)
  pf_gmsm : option Cipher;              (* [NewGMSMSuite], when compiled in *)
  pf_keys : key_files;
  pf_jwks : string → result (string → option verify_key);
  pf_read : string → option bytes;
  pf_parseCAs : bytes → bool;
  pf_signer : signer;
  pf_keygen : keygen;
  pf_sm2 : option keygen;
  pf_errText : error → string;
}.

Section Bootstrap.
Context {rlib : RSALib} {plib : PEMLib} {jlib : JWTLib}.
Variable pf : platform.

(** [log.Fatalf] ends the process with an error. *)
Definition setVaultCryptoSuite (cfg : YvonneConfig) (v : VaultState) : result VaultState :=
  if bool_decide (cr_Suite (yc_Crypto cfg) = "gmsm") then
    match pf_gmsm pf with
    | Some suite => Ok (SetCryptoSuite (Some suite) v)
    | None => Error (Err_new "crypto.suite=gmsm but GMSM not compiled in")
    end
  else if bool_decide (cr_Suite (yc_Crypto cfg) ∈ ["standard"; ""]) then Ok (SetCryptoSuite (Some StandardCipher) v)
  else Ok v.

(** An authenticator, which may look at the clock. *)
Abbreviation authn := (option (Z → string → result Policy)).
(** [NewV1Router]: no console token, no audit directory, the default origins and limits. *)
Definition NewV1Router (authenticator : authn) (mfa approvals : bool) (now : Z) : Config :=
  mkCfg ((λ f, f now) <$> authenticator) "" None (mkConfig approvals mfa) ["*"] (pf_signer pf) (pf_keygen pf) (pf_sm2 pf) (pf_errText pf) true.
Definition NewManager (rnd : entropy) : Env := mkEnv newDekCache false 0 (pf_now pf) rnd [].
Definition new_router {S} (u : AnyUnsealer) (store : S) (healthy : bool) (rnd : entropy) : Router AnyUnsealer S :=
  mkRouter (mkCore u (store, NewManager rnd) [] [] true "" [] None healthy) NewTransitKeyManager (started (pf_now pf) rnd)
    (Some (NewRateLimiter (pf_now pf) (f64 100) 1000)).

Definition buildAdminServer (cfg : YvonneConfig) : option AdminServer :=
  let token := ad_AdminToken (sv_Admin (yc_Server cfg)) in
  if bool_decide (yc_Mode cfg = ModeDev) || ad_Enabled (sv_Admin (yc_Server cfg))
  then Some (if bool_decide (token = "") then NewAdminServer else AdminSetToken token NewAdminServer)
  else None.
(** [adminSrv.SetManager; adminSrv.SetAPIHandler] on a pointer that may be nil. *)
Definition wire_admin (admin : option AdminServer) : result (option AdminServer) :=
  match admin with
  | Some srv => Ok (Some (SetAPIHandler (SetManager srv)))
  | None => Panic "nil pointer dereference: adminSrv"
  end.

Definition buildDevMode (cfg : YvonneConfig) (auditLog : AuditLogger) : M entropy (Server WMem) :=
  masterKey ← wrapM "bootstrap: dev generate master key" (NewSecureBufferFromRandom 32);
  vault ← lift (setVaultCryptoSuite cfg (NewVaultState 1 1 0));
  vault ← lift (let '(v, r) := DirectUnseal (Some masterKey) vault in _ ← wrap_err "bootstrap: dev direct unseal failed" r; Ok v);
  admin ← lift (wire_admin (buildAdminServer cfg));
  rnd ← get_st;
  mret (mkBuilt (NewV1Router None false false) (new_router (UVault vault) empty true rnd) auditLog
    (ad_AdminToken (sv_Admin (yc_Server cfg))) NoopAlerter admin None
    (if gr_Enabled (sv_GRPC (yc_Server cfg)) then Some None else None)
    (if mc_Enabled (sv_MCP (yc_Server cfg)) then Some (mkMcpConfig (mc_Token (sv_MCP (yc_Server cfg))) (mc_AllowedKeys (sv_MCP (yc_Server cfg)))) else None)
    true false).

(** Failures here are panics: a cluster does not start without its audit log. The loop that
    removes old files goes on beside the logger. *)
Definition or_panic {S A} (msg : string) (m : M S A) : M S A := fun s =>
  match m s with (s, Error _) => (s, Panic msg) | x => x end.
Definition buildClusterAuditLogger (cfg : YvonneConfig) : M entropy AuditLogger :=
  let filename := if bool_decide (dm_Filename (yc_Audit cfg) = "") then "audit.log" else dm_Filename (yc_Audit cfg) in
  let retention := if bool_decide (dm_RetentionDays (yc_Audit cfg) = 0)%Z then 180%Z else dm_RetentionDays (yc_Audit cfg) in
  or_panic "FATAL: Failed to initialize compliant audit logger (syslog connection failed)"
    (lift (match pf_syslog pf with Some e => if dm_SyslogEnabled (yc_Audit cfg) then Error e else Ok tt | None => Ok tt end));;
  or_panic "FATAL: Failed to initialize compliant audit logger (file rotation failed)"
    (lift (match pf_rotator pf with Some e => Error e | None => Ok tt end);;
     rt ← NewDualWriteLogger (pf_now pf) filename retention (pf_logDir pf) (pf_anchor pf);
     mret (rt_log rt)).

(** ** Authenticators of a cluster *)
Definition entry_policy (r : AppRoleEntry) : Policy :=
  mkPolicy (re_RoleID r) (re_AllowedKeys r) (re_AllowedActions r) false 0 [] (re_TenantID r).
Definition load_roles (roles : list AppRoleEntry) : AppRoleAuthenticator * MemoryPolicyStore :=
  foldl (λ '(a, store) r, (RegisterPolicy (re_RoleID r) (re_Token r) (entry_policy r) a, AddPolicy (Some (entry_policy r)) store))
    (NewAppRoleAuthenticator, NewMemoryPolicyStore) roles.
Definition cluster_authenticator (auth : AuthModeConf) : result authn :=
  let '(appAuth, policyStore) := load_roles (am_AppRoles auth) in
  let authenticator : authn := if bool_decide (am_AppRoles auth = []) then None else Some (λ _, Authenticate appAuth) in
  authenticator ←
    (if bool_decide (jc_SigningMethod (js_config (am_JWT auth)) = "") then Ok authenticator
     else match NewJWTAuthenticator (pf_keys pf) (js_config (am_JWT auth)) (Some policyStore) with
          | Ok jwtAuth => Ok (Some (JWTAuthenticate jwtAuth))
          | _ => Panic "FATAL: JWT authenticator init failed"
          end);
  authenticator ←
    (if ks_Enabled (am_K8s auth) then
       match NewK8sAuthenticator (pf_jwks pf) (ks_config (am_K8s auth)) with
       | Ok k8sAuth => Ok (Some (λ now, MultiAuthenticate [(λ f, f now) <$> authenticator; Some (K8sAuthenticate k8sAuth now)]))
       | _ => Panic "FATAL: K8s authenticator init failed"
       end
     else Ok authenticator);
  match authenticator with
  | None => Panic "FATAL: Cluster mode requires a valid authenticator"
  | Some _ => Ok authenticator
  end.

(** ** Unsealing a cluster: the unsealer, the vault (the console's), the host and the store
    afterwards. *)
Definition cluster_unsealer (cfg : YvonneConfig) (pg : Pg) : result (AnyUnsealer * VaultState * Host * Pg) :=
  let u := yc_Unseal cfg in
  let totalShares := if bool_decide (um_TotalShares u = 0)%Z then 5%Z else um_TotalShares u in
  let threshold := if bool_decide (um_Threshold u = 0)%Z then 3%Z else um_Threshold u in
  vault ← setVaultCryptoSuite cfg (NewVaultState totalShares threshold (minutes 30));
  if bool_decide (um_Type u = "shamir") then Ok (UVault vault, vault, pf_host pf, pg)
  else if bool_decide (um_Type u = "local_pki") then
    match AutoUnseal (pf_slice pf) (um_PKIKeyPath u) (pf_host pf, pg, vault) with
    | (h, pg, vault, Ok _) => Ok (UVault vault, vault, h, pg)
    | (_, _, _, Error e) => Error (Err_wrap "bootstrap: FATAL local_pki auto-unseal failed" e)
    | (_, _, _, Panic m) => Panic m
    end
  else if bool_decide (um_Type u = "hsm") then
    match pf_hsm pf (um_HSMBackend u) (um_HSMKeyID u) with
    | Ok backend => Ok (UHSM (NewHSMUnsealer backend), vault, pf_host pf, pg)
    | _ => Panic "bootstrap: FATAL HSM backend init failed"
    end
  else Panic "bootstrap: FATAL unsupported unseal type in cluster mode".

Definition buildClusterMode (cfg : YvonneConfig) (auditLog : AuditLogger) : M entropy (Server Pg * Host) :=
  let srv := yc_Server cfg in
  if bool_decide (sm_Type (yc_Storage cfg) = "memory") then lift (Panic "bootstrap: FATAL cluster mode must NOT use memory storage (dev-only)")
  else if bool_decide (um_Type (yc_Unseal cfg) = "auto") then lift (Panic "bootstrap: FATAL cluster mode must NOT use auto unseal (dev-only)")
  else
    pgStore ← wrapM "bootstrap: cluster create pg store" (lift (pf_postgres pf));
    '(unsealer, vault, host, pgStore) ← lift (cluster_unsealer cfg pgStore);
    let unsealer := match unsealer with UVault v => UVault (SetEmergencySealCallback v) | u => u end in
    authenticator ← lift (cluster_authenticator (yc_Auth cfg));
    admin ← lift (wire_admin (buildAdminServer cfg));
    grpcTLS ← (if gr_Enabled (sv_GRPC srv) then
                 tls ← lift (wrap_err "bootstrap: gRPC TLS config error" (BuildTLSConfig (pf_read pf) (pf_parseCAs pf) (gr_TLS (sv_GRPC srv))));
                 guardM (bool_decide (is_Some tls)) (Err_new "bootstrap: gRPC TLS must be enabled in cluster mode");;
                 mret (Some tls)
               else mret None);
    mcpSrv ← (if mc_Enabled (sv_MCP srv) then
                guardM (negb (bool_decide (mc_Token (sv_MCP srv) = ""))) (Err_new "bootstrap: mcp.token is required when mcp.enabled=true");;
                mret (Some (mkMcpConfig (mc_Token (sv_MCP srv)) (mc_AllowedKeys (sv_MCP srv))))
              else mret None);
    rnd ← get_st;
    mret (mkBuilt (NewV1Router authenticator (mf_Enabled (yc_MFA cfg)) true) (new_router unsealer pgStore (IsHealthy pgStore) rnd) auditLog
      (ad_AdminToken (sv_Admin srv)) (NewAlerter (ob_Alerting (yc_Observability cfg))) admin
      (match unsealer with UVault _ => None | UHSM _ => Some vault end) grpcTLS mcpSrv false true, host).

(** The server of the mode, with the host as it is left. *)
Inductive built : Type := BuiltDev (s : Server WMem) | BuiltCluster (s : Server Pg) (h : Host).
Definition BuildYvonne (cfg : YvonneConfig) : M entropy built :=
  if bool_decide (yc_Mode cfg = ModeDev) then
    auditLog ← wrapM "bootstrap: dev create audit logger" NewAuditLogger;
    s ← buildDevMode cfg auditLog; mret (BuiltDev s)
  else if bool_decide (yc_Mode cfg = ModeCluster) then
    auditLog ← buildClusterAuditLogger cfg;
    '(s, h) ← buildClusterMode cfg auditLog; mret (BuiltCluster s h)
  else lift (Panic "bootstrap: invalid mode").

(** [Server.Close]: the audit log, the buffer of [MasterKey], the database. *)
Definition wipe_vault_key (u : AnyUnsealer) : AnyUnsealer :=
  match u with UVault v => UVault (set_masterKey (Wipe <$> vs_masterKey v) v) | u => u end.
Definition CloseServer {S} (s : Server S) : Server S :=
  let c := r_core (bs_router s) in
  let c := if bs_masterKey s then set_seal (wipe_vault_key (c_seal c)) c else c in
  mkBuilt (bs_config s) (set_core c (bs_router s)) (Close (bs_audit s)) (bs_coreToken s) (bs_alerter s) (bs_admin s) (bs_adminVault s)
    (bs_grpc s) (bs_mcp s) (bs_masterKey s) (bs_daemon s).

(** ** Who is let in *)
(** The tables after loading the roles: a token leads to the policy of its entry. *)
Definition roles_inv (rs : list AppRoleEntry) (a : AppRoleAuthenticator) (store : MemoryPolicyStore) : Prop :=
  (∀ t role, ar_tokens a !! t = Some role → ∃ r, r ∈ rs ∧ re_RoleID r = role ∧ re_Token r = t ∧ ar_policies a !! role = Some (entry_policy r)) ∧
  (∀ role p, store !! role = Some p → ∃ r, r ∈ rs ∧ p = entry_policy r).
Lemma roles_inv_add rs a store r : roles_inv rs a store →
  roles_inv (rs ++ [r]) (RegisterPolicy (re_RoleID r) (re_Token r) (entry_policy r) a) (AddPolicy (Some (entry_policy r)) store).
Proof.
  intros [Ht Hs]. split; rw /RegisterPolicy /AddPolicy /=.
  - intros t role [[<- <-]|[Hne Hl]]%lookup_insert_Some.
    + exists r. rw lookup_insert_eq. split_and!; [set_solver|done..].
    + apply map_lookup_filter_Some in Hl as [Hl Hr]. simpl in Hr. destruct (Ht t role Hl) as (r' & Hin & Hid & Htok & Hp).
      exists r'. rw lookup_insert_ne //. split_and!; [set_solver|done..].
  - intros role p. case_bool_decide; [|intros [[_ <-]|[_ Hl]]%lookup_insert_Some; [exists r; set_solver|]];
      [intros Hl|]; destruct (Hs role p Hl) as (r' & ? & ?); exists r'; set_solver.
Qed.
Lemma load_roles_inv rs : roles_inv rs (load_roles rs).1 (load_roles rs).2.
Proof.
  rw /load_roles. induction rs as [|r rs IH] using rev_ind.
  - split; cbn; intros ? ? H; by rw lookup_empty in H.
  - rw foldl_app /=. destruct (foldl _ _ rs) as [a store]. by apply roles_inv_add.
Qed.
Lemma Authenticate_role rs t p : Authenticate (load_roles rs).1 t = Ok p → ∃ r, r ∈ rs ∧ p = entry_policy r ∧ re_Token r = t.
Proof.
  rw /Authenticate. case_bool_decide; [done|]. destruct (ar_tokens _ !! t) as [role|] eqn:Et; [|done].
  destruct (load_roles_inv rs) as [Ht _]. destruct (Ht t role Et) as (r & Hin & _ & Htok & ->). intros [= <-]. by exists r.
Qed.
Lemma JWT_role rs fs jc a now t p : NewJWTAuthenticator fs jc (Some (load_roles rs).2) = Ok a → JWTAuthenticate a now t = Ok p →
  ∃ r, r ∈ rs ∧ p = entry_policy r.
Proof.
  intros Hnew Hauth. assert (ja_policyStore a = (load_roles rs).2) as Hst.
  { rw /NewJWTAuthenticator in Hnew. case_bool_decide; [done|]. apply result_bind_ok in Hnew as (sm & _ & Hx).
    by apply result_bind_ok in Hx as (key & _ & [= <-]). }
  destruct (load_roles_inv rs) as [_ Hs]. rw /JWTAuthenticate in Hauth. repeat (case_match; try done). all: simplify_eq.
  all: match goal with H : first_policy _ _ = Some _ |- _ => apply first_policy_spec in H as (pre & role & post & _ & Hl & _) end.
  all: rw Hst in Hl; by apply Hs in Hl.
Qed.
Lemma K8s_role kc jwks a now t p : NewK8sAuthenticator jwks kc = Ok a → K8sAuthenticate a now t = Ok p →
  ∃ sa m, kc_RoleMapping kc !! sa = Some m ∧ p = mapping_policy m.
Proof.
  intros Hnew Hauth. assert (ka_roleMappings a = mapping_policy <$> kc_RoleMapping kc) as Hm.
  { rw /NewK8sAuthenticator in Hnew. repeat (case_bool_decide; [done|]). by apply result_bind_ok in Hnew as (f & _ & [= <-]). }
  rw /K8sAuthenticate Hm in Hauth. repeat (case_match; try done). all: injection Hauth as <-.
  all: match goal with H : (mapping_policy <$> _) !! ?k = Some _ |- _ => apply lookup_fmap_Some in H as (m & <- & H); by exists k, m end.
Qed.
Lemma Multi_ok l t p : MultiAuthenticate l t = Ok p → ∃ f, Some f ∈ l ∧ f t = Ok p.
Proof.
  rw /MultiAuthenticate. generalize ErrUnauthorized. induction l as [|[f|] l IH]; intros e; [done| |].
  - destruct (f t) as [q|e'|m] eqn:Ef; [|intros H; destruct (IH _ H) as (g & ? & ?); exists g; set_solver|done].
    intros [= ->]. exists f. set_solver.
  - intros H. destruct (IH _ H) as (g & ? & ?). exists g. set_solver.
Qed.

(** What the configuration provides for: a role entry, or a mapped service account. *)
Definition provided (auth : AuthModeConf) (p : Policy) : Prop :=
  (∃ r, r ∈ am_AppRoles auth ∧ p = entry_policy r) ∨
  (ks_Enabled (am_K8s auth) = true ∧ ∃ sa m, kc_RoleMapping (ks_config (am_K8s auth)) !! sa = Some m ∧ p = mapping_policy m).
Lemma cluster_authenticator_sound auth f : cluster_authenticator auth = Ok f →
  ∃ g, f = Some g ∧ (∀ now t p, g now t = Ok p → provided auth p) ∧
    (jc_SigningMethod (js_config (am_JWT auth)) = "" → ks_Enabled (am_K8s auth) = false →
     ∀ now t p, g now t = Ok p → ∃ r, r ∈ am_AppRoles auth ∧ p = entry_policy r ∧ re_Token r = t).
Proof.
  rw /cluster_authenticator. destruct (load_roles (am_AppRoles auth)) as [app store] eqn:El.
  assert (app = (load_roles (am_AppRoles auth)).1 ∧ store = (load_roles (am_AppRoles auth)).2) as [-> ->] by by rw El.
  intros (f1 & H1 & H)%result_bind_ok. apply result_bind_ok in H as (f2 & H2 & H).
  assert (∀ g, f1 = Some g → (∀ now t p, g now t = Ok p → ∃ r, r ∈ am_AppRoles auth ∧ p = entry_policy r) ∧
    (jc_SigningMethod (js_config (am_JWT auth)) = "" → ∀ now t p, g now t = Ok p → ∃ r, r ∈ am_AppRoles auth ∧ p = entry_policy r ∧ re_Token r = t)) as Hf1.
  { intros g ->. case_bool_decide as Hj.
    - case_bool_decide; [done|]. injection H1 as <-. split; [|by intros _ now; apply Authenticate_role].
      intros now t p (r & ? & ? & _)%Authenticate_role. by exists r.
    - destruct (NewJWTAuthenticator _ _ _) as [a| |] eqn:Ea; [|done..]. injection H1 as <-. split; [|done].
      intros now t p. by apply (JWT_role _ _ _ _ _ _ _ Ea). }
  destruct f2 as [g|]; [|done]. injection H as <-. exists g. split; [done|].
  destruct (ks_Enabled (am_K8s auth)) eqn:Ek; [|injection H2 as ->; destruct (Hf1 g eq_refl) as [Ha Hb]; split; [|intros Hj _; by apply Hb]; intros now t p Hp; left; by eapply Ha].
  split; [|done]. destruct (NewK8sAuthenticator _ _) as [a| |] eqn:Ea; [|done..]. injection H2 as <-.
  intros now t p (h & Hin & Hh)%Multi_ok. apply elem_of_cons in Hin as [Hin|Hin%list_elem_of_singleton].
  - left. destruct f1 as [g1|]; [|done]. injection Hin as ->. destruct (Hf1 g1 eq_refl) as [Hg _]. by eapply Hg.
  - right. split; [done|]. injection Hin as ->. by eapply K8s_role.
Qed.

(** ** What a start leaves *)
Lemma start_cluster_inv cfg e e' s h : BuildYvonne cfg e = (e', Ok (BuiltCluster s h)) →
  yc_Mode cfg = ModeCluster ∧ sm_Type (yc_Storage cfg) ≠ "memory" ∧
  ∃ pg0 u vault pg f, pf_postgres pf = Ok pg0 ∧ cluster_unsealer cfg pg0 = Ok (u, vault, h, pg) ∧
    cluster_authenticator (yc_Auth cfg) = Ok f ∧
    bs_router s = new_router (match u with UVault v => UVault (SetEmergencySealCallback v) | u => u end) pg (IsHealthy pg) e' ∧
    bs_config s = NewV1Router f (mf_Enabled (yc_MFA cfg)) true ∧
    (∀ tls, bs_grpc s = Some tls → is_Some tls) ∧ (∀ mc, bs_mcp s = Some mc → mp_Token mc ≠ "") ∧ bs_masterKey s = false.
Proof.
  rw /BuildYvonne. case_bool_decide as Hd; [intros H; by inv_M|]. case_bool_decide as Hc; [|done]. intros H.
  apply M_bind_ok in H as (e1 & log & _ & H). apply M_bind_ok in H as (e2 & [s1 h1] & Hb & [= -> -> ->]). revert Hb.
  rw /buildClusterMode. case_bool_decide; [done|]. case_bool_decide; [done|]. intros Hb.
  apply M_bind_ok in Hb as (e3 & pg0 & [Hpg ->]%wrapM_ok%lift_ok & Hb).
  apply M_bind_ok in Hb as (e4 & [[[u vault] h2] pg] & [Hu ->]%lift_ok & Hb).
  apply M_bind_ok in Hb as (e5 & f & [Hf ->]%lift_ok & Hb). apply M_bind_ok in Hb as (e6 & admin & [Ha ->]%lift_ok & Hb).
  apply M_bind_ok in Hb as (e7 & tls & Ht & Hb). apply M_bind_ok in Hb as (e8 & mc & Hm & Hb).
  apply M_bind_ok in Hb as (e9 & rnd & [= -> ->] & Hb). injection Hb as <- <- <-. split_and!; [done..|].
  exists pg0, u, vault, pg, f. split_and!; [done..| | |done].
  - intros tl. destruct (gr_Enabled _); [|by injection Ht as _ <-]. inv_M. intros [= ->]. by apply bool_decide_eq_true in Hm1.
  - intros x. destruct (mc_Enabled _); [|by injection Hm as _ <-]. inv_M. intros [= <-]. simpl.
    by apply negb_true_iff, bool_decide_eq_false in Hm0.
Qed.

(** C32: a cluster admits only whom its configuration names. When start-up succeeds in cluster
    mode, the storage is not the memory and the unsealing not automatic; and at any time and
    in any later state, a request to a guarded route of the router that succeeds carries a
    bearer token whose policy is that of a configured role or of a mapped service account,
    and that policy allows the action and the key of the path. With roles only, the token is
    the one configured for that role. gRPC is served with TLS, and the agents' interface
    with a token, or not at all. *)
Theorem cluster_admits_configured {T} `{!Decoder T} cfg e e' s h : BuildYvonne cfg e = (e', Ok (BuiltCluster s h)) →
  sm_Type (yc_Storage cfg) ≠ "memory" ∧ um_Type (yc_Unseal cfg) ≠ "auto" ∧
  (∀ now (rq : request T) (rt : route (V := AnyUnsealer) (S := Pg) (T := T)) action (r r' : Router AnyUnsealer Pg) a,
     rq_Path rq ≠ "/api/v1/sys/health" → find_route (bs_config s now) (rq_Path rq) = Some rt → route_guard_action (rt_guard rt) = Some action →
     mux (bs_config s now) rq r = (r', Ok (JOk a)) →
     ∃ p token, ExtractBearerToken (rq_Authorization rq) = Ok token ∧ provided (yc_Auth cfg) p ∧ IsActionAllowed p action = true ∧
       (extractKeyIDFromPath (rq_Path rq) = "" ∨ IsKeyAllowed p (extractKeyIDFromPath (rq_Path rq)) = true) ∧
       (jc_SigningMethod (js_config (am_JWT (yc_Auth cfg))) = "" → ks_Enabled (am_K8s (yc_Auth cfg)) = false →
        ∃ entry, entry ∈ am_AppRoles (yc_Auth cfg) ∧ p = entry_policy entry ∧ re_Token entry = token)) ∧
  (∀ tls, bs_grpc s = Some tls → is_Some tls) ∧ (∀ mc, bs_mcp s = Some mc → mp_Token mc ≠ "").
Proof.
  intros (_ & Hst & pg0 & u & vault & pg & f & _ & Hu & Hf & _ & Hc & Ht & Hm & _)%start_cluster_inv.
  apply cluster_authenticator_sound in Hf as (g & -> & Hg & Happ). split_and!; [done| |..|done|done].
  { intros Ha. rw /cluster_unsealer Ha in Hu. apply result_bind_ok in Hu as (v & _ & H). by repeat case_bool_decide. }
  intros now rq rt action r r' a Hh Hrt Hga Hmux.
  destruct (success_caller (bs_config s now) rq rt action r r' a) as (p & _ & _ & (auth & token & Ha & Htok & Hp & Hact & Hkey) & _); [by rw Hc|done..|].
  rw Hc in Ha. injection Ha as <-. exists p, token. split_and!; [done|by eapply Hg|done..|]. intros Hj Hk. by eapply Happ.
Qed.

(** No start sets the console's token of the router: the HTTP emergency seal is refused for
    every request, whatever token it carries. *)
Lemma http_emergency_unreachable {T} `{!Decoder T} cfg e e' s h now (rq : request T) (r r' : Router AnyUnsealer Pg) a :
  BuildYvonne cfg e = (e', Ok (BuiltCluster s h)) → rq_Path rq = "/api/v1/sys/panic" → mux (bs_config s now) rq r ≠ (r', Ok (JOk a)).
Proof.
  intros (_ & _ & pg0 & u & vault & pg & f & _ & _ & _ & _ & Hc & _)%start_cluster_inv Hp H.
  apply (mux_ok _ rq (mkRoute "/api/v1/sys/panic" "EmergencySeal" Open (handleEmergencySeal (bs_config s now)))) in H as (r1 & r2 & ent & H & _);
    [|by rw Hp..].
  rw /guarded /= /handleEmergencySeal in H. apply method_ok in H as [_ H]. apply body_ok in H as (t & b & Ht & Hb & H).
  apply need_ok in H as [_ H]. apply need_ok in H as [Hn _]. by rw Hc in Hn.
Qed.

(** The bytes of the master key that the process still holds. *)
Definition key_in_memory {S} (s : Server S) : option bytes :=
  match c_seal (r_core (bs_router s)) with UVault v => sb_data <$> vs_masterKey v | UHSM _ => None end.

(** The vault that a mode of unsealing leaves. *)
Definition unsealed_as (cfg : YvonneConfig) (pg0 : Pg) (u : AnyUnsealer) (h : Host) : Prop :=
  match u with
  | UVault v =>
      (um_Type (yc_Unseal cfg) = "shamir" ∧ h = pf_host pf ∧ IsUnsealed v = false ∧ vs_emergency v = false ∧ vs_masterKey v = None ∧ vs_collected v = [] ∧
       vs_threshold v = (if bool_decide (um_Threshold (yc_Unseal cfg) = 0)%Z then 3%Z else um_Threshold (yc_Unseal cfg))) ∨
      (um_Type (yc_Unseal cfg) = "local_pki" ∧ IsUnsealed v = true ∧ h_files h = delete (um_PKIKeyPath (yc_Unseal cfg)) (h_files (pf_host pf)) ∧
       ∃ mk, leads_to (pf_slice pf) (um_PKIKeyPath (yc_Unseal cfg)) (pf_host pf) pg0 mk ∧ vs_masterKey v = Some (mkSB mk false))
  | UHSM hsm => um_Type (yc_Unseal cfg) = "hsm" ∧ h = pf_host pf ∧
      ∃ backend, pf_hsm pf (um_HSMBackend (yc_Unseal cfg)) (um_HSMKeyID (yc_Unseal cfg)) = Ok backend ∧ hsm = NewHSMUnsealer backend
  end.
Lemma cluster_unsealer_spec cfg pg0 u vault h pg : cluster_unsealer cfg pg0 = Ok (u, vault, h, pg) →
  kv_map pg = kv_map pg0 ∧ unsealed_as cfg pg0 u h.
Proof.
  rw /cluster_unsealer. intros (v & Hv & H)%result_bind_ok.
  assert (IsUnsealed v = false ∧ vs_emergency v = false ∧ vs_masterKey v = None ∧ vs_collected v = [] ∧
    vs_threshold v = (if bool_decide (um_Threshold (yc_Unseal cfg) = 0)%Z then 3%Z else um_Threshold (yc_Unseal cfg))) as Hv0.
  { revert Hv. rw /setVaultCryptoSuite. repeat case_match; by intros [= <-]. }
  destruct (bool_decide (_ = "shamir")) eqn:E1; [|destruct (bool_decide (_ = "local_pki")) eqn:E2; [|destruct (bool_decide (_ = "hsm")) eqn:E3; [|done]]];
    [apply bool_decide_eq_true in E1|apply bool_decide_eq_true in E2|apply bool_decide_eq_true in E3].
  - injection H as <- <- <- <-. split; [done|by left].
  - destruct (AutoUnseal _ _ _) as [[[h1 pg1] v1] r1] eqn:Eu. destruct (AutoUnseal_cases (S := Pg) _ _ _ _ _ _ _ _ _ Eu) as [Hkv Hc].
    destruct Hc as [(mk & -> & Hl & Hun & Hmk & Hf)|[(Hr & _)|(mk & -> & _)]]; [|by destruct r1|done].
    injection H as <- <- <- <-. split; [done|]. right. split_and!; [done..|]. by exists mk.
  - destruct (pf_hsm pf _ _) as [b| |] eqn:Eb; [|done..]. injection H as <- <- <- <-. split; [done|]. split_and!; [done..|]. by exists b.
Qed.

(** How a server starts. In development mode: over an empty memory store, open, under 32 bytes
    taken from the random source after those of the audit key, which closing the server
    overwrites, with no authenticator. In
    cluster mode, over the table as found: with [shamir] sealed, with no share, the host
    untouched and the configured threshold (3 when it is 0); with [local_pki] open under
    the master key that the private key of the file decrypts from the wrapped key of the
    table, the file gone; with [hsm] on the session of the configured backend; there is no
    other way. *)
Theorem start_states cfg e e' b : BuildYvonne cfg e = (e', Ok b) →
  match b with
  | BuiltDev s => yc_Mode cfg = ModeDev ∧ (c_world (r_core (bs_router s))).1 = empty ∧ (∀ now, cf_authenticator (bs_config s now) = None) ∧
      ∃ auditKey mk v, e = auditKey ++ mk ++ e' ∧ length auditKey = 32 ∧ length mk = 32 ∧
        c_seal (r_core (bs_router s)) = UVault v ∧ IsUnsealed v = true ∧ vs_masterKey v = Some (mkSB mk false) ∧
        key_in_memory (CloseServer s) = Some (replicate 32 x00)
  | BuiltCluster s h => yc_Mode cfg = ModeCluster ∧
      ∃ pg0 u, pf_postgres pf = Ok pg0 ∧ kv_map (c_world (r_core (bs_router s))).1 = kv_map pg0 ∧ unsealed_as cfg pg0 u h ∧
        c_seal (r_core (bs_router s)) = match u with UVault v => UVault (SetEmergencySealCallback v) | u => u end
  end.
Proof.
  destruct b as [s|s h]; intros H.
  - revert H. rw /BuildYvonne. case_bool_decide as Hd; [|case_bool_decide; intros Hb; inv_M; destruct a0; by inv_M]. intros Hb.
    apply M_bind_ok in Hb as (e1 & log & Ha%wrapM_ok & Hb). apply M_bind_ok in Ha as (e2 & key & Hk%wrapM_ok & [= -> <-]).
    apply NewSecureBufferFromRandom_ok in Hk as (-> & Hk & _). apply M_bind_ok in Hb as (e3 & s1 & Hb & [= -> ->]).
    apply M_bind_ok in Hb as (e4 & mk & Hr%wrapM_ok & Hb). apply NewSecureBufferFromRandom_ok in Hr as (-> & Hr & Hlive).
    apply M_bind_ok in Hb as (e5 & v1 & [_ ->]%lift_ok & Hb). apply M_bind_ok in Hb as (e6 & v2 & [Hv ->]%lift_ok & Hb).
    apply M_bind_ok in Hb as (e7 & admin & [_ ->]%lift_ok & Hb). apply M_bind_ok in Hb as (e8 & rnd & [= -> ->] & Hb). injection Hb as <- <-.
    split_and!; [done..|]. destruct (DirectUnseal (Some mk) v1) as [v3 r3] eqn:Ed. apply result_bind_ok in Hv as ([] & Hv & [= <-]).
    destruct r3 as [[]| |]; [|done..]. apply DirectUnseal_ok in Ed as [Hun Hmk].
    exists (sb_data key), (sb_data mk), v3. split_and!; [done|lia|lia|done|done| |].
    + rw Hmk. destruct mk as [d w]. by rw /live /= in Hlive; subst w.
    + rw /key_in_memory /= Hmk /= /Wipe Hlive /clear. by replace (length (sb_data mk)) with 32 by lia.
  - apply start_cluster_inv in H as (Hm & _ & pg0 & u & vault & pg & f & Hpg & Hu & _ & Hr & _). split; [done|].
    apply cluster_unsealer_spec in Hu as [Hkv Hu]. exists pg0, u. rw Hr. by split_and!.
Qed.
(** Closing wipes the master key of the development mode ([start_states]), and leaves that of a
    cluster in memory. *)
Lemma close_leaves_cluster_key cfg e e' s h : BuildYvonne cfg e = (e', Ok (BuiltCluster s h)) → key_in_memory (CloseServer s) = key_in_memory s.
Proof. intros (_ & _ & pg0 & u & vault & pg & f & _ & _ & _ & _ & _ & _ & _ & Hk)%start_cluster_inv. by rw /key_in_memory /CloseServer Hk. Qed.
End Bootstrap.

(** ** Two starts *)
Definition demo_role : AppRoleEntry := mkRoleEntry "ops" "t" ["*"] ["*"] "".
Definition demo_unseal (kind : string) : UnsealModeConf := mkUnsealM kind 5 3 "/etc/unseal.pem" "" "" "".
Definition demo_config (kind : string) (jwt : JWTConfig) : YvonneConfig :=
  mkYvonne ModeCluster (yc_Server demo_cluster) (yc_Storage demo_cluster) (demo_unseal kind)
    (mkAuthM [demo_role] (mkJWTSettings jwt 0 "") (am_K8s (yc_Auth demo_cluster)))
    (yc_Audit demo_cluster) (yc_Logging demo_cluster) (yc_Crypto demo_cluster) (yc_MFA demo_cluster) (yc_Observability demo_cluster) false.
Definition no_jwt : JWTConfig := js_config (am_JWT (yc_Auth demo_cluster)).
Definition demo_platform : platform :=
  mkPlatform [] 0 None None ∅ None (Ok demo_pg) demo_slice demo_host (λ _ _, Ok demo_backend) None demo_files
    (λ _, Error (Err_new "no key set")) (λ _, None) (λ _, false) (cf_signer demo_cfg) (cf_keygen demo_cfg) None (λ _, "").
Definition demo_start (cfg : YvonneConfig) : entropy * result built := BuildYvonne demo_platform cfg (demo_rand 200).
Definition started_cluster (cfg : YvonneConfig) : option (Server Pg * Host) :=
  match demo_start cfg with (_, Ok (BuiltCluster s h)) => Some (s, h) | _ => None end.

Lemma start_states_witness : ∃ s h v, started_cluster (demo_config "shamir" no_jwt) = Some (s, h) ∧
  c_seal (r_core (bs_router s)) = UVault (SetEmergencySealCallback v) ∧ IsUnsealed v = false ∧ vs_collected v = [] ∧ vs_threshold v = 3%Z ∧ h = demo_host.
Proof.
  destruct (demo_start (demo_config "shamir" no_jwt)) as [e' r] eqn:E.
  assert (match r with Ok (BuiltCluster _ _) => True | _ => False end) as Hr.
  { change r with (e', r).2. rw -E. vm_compute. exact I. }
  destruct r as [[s|s h]| |]; [destruct Hr| |destruct Hr..]. clear Hr.
  pose proof (start_states demo_platform (demo_config "shamir" no_jwt) (demo_rand 200) e' (BuiltCluster s h) E) as (_ & pg0 & u & [= <-] & _ & Hu & Hs).
  destruct u as [v|hs]; [|destruct Hu as [Ht _]; discriminate Ht].
  destruct Hu as [(_ & Hh & Hun & _ & _ & Hc & Ht)|(Ht & _)]; [|discriminate Ht].
  exists s, h, v. split; [by rw /started_cluster E|]. split; [exact Hs|]. split; [exact Hun|]. split; [exact Hc|]. split; [exact Ht|exact Hh].
Defined.

Definition is_created (x : result reply) : bool := match x with Ok (JOk (ACreated _ _ _)) => true | _ => false end.
Definition create_order : request demo_text := demo_rq "POST" "/api/v1/keys" "t" (TCreate (mkCreateKey "order-1" None)).
(** A cluster over an HSM creates a key for the holder of the token of a role. *)
Lemma cluster_admits_configured_witness : ∃ s h r' a p, started_cluster (demo_config "hsm" no_jwt) = Some (s, h) ∧
  mux (bs_config s 0) create_order (bs_router s) = (r', Ok (JOk a)) ∧
  IsActionAllowed p "CreateKey" = true ∧ ∃ entry, entry ∈ [demo_role] ∧ p = entry_policy entry ∧ re_Token entry = "t".
Proof.
  destruct (demo_start (demo_config "hsm" no_jwt)) as [e' r] eqn:E.
  assert (match r with Ok (BuiltCluster s _) => is_created (mux (bs_config s 0) create_order (bs_router s)).2 | _ => false end = true) as Hr.
  { change r with (e', r).2. rw -E. vm_compute. reflexivity. }
  destruct r as [[s|s h]| |]; [discriminate Hr| |discriminate Hr..].
  destruct (mux (bs_config s 0) create_order (bs_router s)) as [r' x] eqn:Em. cbn [snd] in Hr. destruct x as [[a| |]| |]; try discriminate Hr.
  destruct (cluster_admits_configured (T := demo_text) demo_platform (demo_config "hsm" no_jwt) (demo_rand 200) e' s h E) as (_ & _ & H & _).
  destruct (H 0%Z create_order (mkRoute "/api/v1/keys" "CreateKey" (AuthAndSeal "CreateKey") handleCreateKey) "CreateKey" (bs_router s) r' a)
    as (p & tok & [= <-] & _ & Hact & _ & Happ); [discriminate|reflexivity|reflexivity|exact Em|].
  exists s, h, r', a, p. split; [by rw /started_cluster E|]. split; [exact Em|]. split; [exact Hact|]. apply Happ; reflexivity.
Defined.

(** ** Where start-up surprises *)
Definition without_console : YvonneConfig :=
  let c := demo_config "shamir" no_jwt in let sv := yc_Server c in
  mkYvonne ModeCluster (mkServer (sv_BindAddr sv) (sv_BindPort sv) (sv_ReadTimeout sv) (sv_WriteTimeout sv) (sv_MaxConns sv) (sv_TLS sv)
      (mkAdmin false "127.0.0.1" 8250 "") (sv_GRPC sv) (sv_MCP sv))
    (yc_Storage c) (yc_Unseal c) (yc_Auth c) (yc_Audit c) (yc_Logging c) (yc_Crypto c) (yc_MFA c) (yc_Observability c) false.
(** A valid configuration with the console switched off does not start: the console is
    dereferenced all the same. *)
Example console_off_panics : ValidateYvonneConfig without_console = Ok tt ∧
  (demo_start without_console).2 = Panic "nil pointer dereference: adminSrv".
Proof. vm_compute. split; reflexivity. Qed.
(** With JWT configured the tokens of the roles are refused: the authenticators do not form
    a chain. *)
Definition answer_to (cfg : YvonneConfig) (token : string) : option (result string) :=
  '(s, _) ← started_cluster cfg;
  match cf_authenticator (bs_config s 0) with
  | Some f => Some (match f token with Ok p => Ok (p_RoleID p) | Error e => Error e | Panic m => Panic m end)
  | None => None
  end.
Example jwt_replaces_roles : answer_to (demo_config "shamir" no_jwt) "t" = Some (Ok "ops") ∧
  match answer_to (demo_config "shamir" (mkJWTConfig "RS256" "" "/keys/idp.pem" "" ["kms"] "realm.roles")) "t" with
  | Some (Error _) => True
  | _ => False
  end.
Proof. vm_compute. split; [reflexivity|exact I]. Qed.
(** On an HSM the console looks at a vault that nothing uses: it reports a sealed service, and
    sealing it does not touch the HSM. *)
Example hsm_console_apart : match started_cluster (demo_config "hsm" no_jwt) with
  | Some (s, _) => us_IsSealed (c_seal (r_core (bs_router s))) = false ∧ (IsSealed <$> bs_adminVault s) = Some true
  | None => False
  end.
Proof. vm_compute. split; reflexivity. Qed.
