(* ===== verification/Process.v ===== *)
(** The process, [src/cmd/yvonne/main.go] and [cli_extras.go]: the commands, what a started
    instance listens on, the reload on SIGHUP, the orderly shutdown as a transition system, and
    the small helpers of the demonstration. What sockets and other libraries answer is given as
    outcomes. *)

From S2P Require Import Prelude SecureBuffer Hash AesGcm Ciphertext Kek Vault Store Postgres Metadata Json Rfc3339 Oaep AuditLog Manager Transit TransitSpec Auth Jwt RateLimit Settings Observability Pki Core Api Mcp Admin Bootstrap.

(** ** main: the commands *)
Inductive command : Type :=
  CmdServer | CmdDev | CmdUnsealKeygen | CmdInit | CmdBackupSplit | CmdBackupRestore | CmdAuditVerify | CmdCompletion | CmdHelp.
(** [os.Args]: the command with its arguments, or exit code 1 after the usage text. *)
Definition main_dispatch (args : list string) : (command * list string) + Z :=
  match args with
  | _ :: name :: rest =>
      if bool_decide (name = "server") then inl (CmdServer, rest)
      else if bool_decide (name = "dev") then inl (CmdDev, rest)
      else if bool_decide (name = "unseal-keygen") then inl (CmdUnsealKeygen, rest)
      else if bool_decide (name = "init") then inl (CmdInit, rest)
      else if bool_decide (name = "backup-split") then inl (CmdBackupSplit, rest)
      else if bool_decide (name = "backup-restore") then inl (CmdBackupRestore, rest)
      else if bool_decide (name = "audit-verify") then inl (CmdAuditVerify, rest)
      else if bool_decide (name = "completion") then inl (CmdCompletion, rest)
      else if bool_decide (name ∈ ["-h"; "--help"; "help"]) then inl (CmdHelp, [])
      else inr 1%Z
  | _ => inr 1%Z
  end.
Inductive shell : Type := Bash | Zsh | Fish.
(** The script printed, or the exit code. *)
Definition runCompletionCmd (args : list string) : shell + Z :=
  match args with
  | [] => inr 1%Z
  | s :: _ => if bool_decide (s = "bash") then inl Bash else if bool_decide (s = "zsh") then inl Zsh
              else if bool_decide (s = "fish") then inl Fish else inr 1%Z
  end.

(** ** startYvonne *)
Inductive transport : Type := Clear | TLS (c : option tls_Config) | GMTLS.
Record launch : Type := mkLaunch {
  la_built : built;
  la_http : string * transport;
  la_admin : option string;        (* the address of the console *)
  la_daemon : bool;
  la_grpc : option string;
  la_stdio : bool;
  la_mcp : option string;
  la_reloadable : option YvonneConfig;
}.
Definition host_port (addr : string) (port : Z) : string := addr +:+ ":" +:+ pretty port.
Definition tls_warning (now : Z) : LogEntry :=
  mkEntry "" now "" "SYSTEM_BOOTSTRAP" "transport" "TLSWarning" "warning: tls disabled in cluster mode" "" "".
Definition on_server {A} (f : ∀ S, Server S → A) (b : built) : A := match b with BuiltDev s => f _ s | BuiltCluster s _ => f _ s end.
Definition bt_admin : built → option AdminServer := on_server (λ _, bs_admin).
Definition bt_daemon : built → bool := on_server (λ _, bs_daemon).
Definition bt_grpc : built → option (option tls_Config) := on_server (λ _, bs_grpc).
Definition bt_mcp : built → option McpConfig := on_server (λ _, bs_mcp).
Definition bt_audit : built → AuditLogger := on_server (λ _, bs_audit).
Definition set_audit {S} (l : AuditLogger) (s : Server S) : Server S :=
  mkBuilt (bs_config s) (bs_router s) l (bs_coreToken s) (bs_alerter s) (bs_admin s) (bs_adminVault s) (bs_grpc s) (bs_mcp s) (bs_masterKey s) (bs_daemon s).
Definition set_bt_audit (l : AuditLogger) (b : built) : built :=
  match b with BuiltDev s => BuiltDev (set_audit l s) | BuiltCluster s h => BuiltCluster (set_audit l s) h end.

Section Start.
Context {rlib : RSALib} {plib : PEMLib} {jlib : JWTLib}.
Variable pf : platform.
(** [BuildGMTLSConfig], the listening socket of gRPC, the tracer, writing the audit entry. *)
Variable gm_tls : TLSConfig → result ().
Variable listen : string → result ().
Variable tracer : result ().
Variable disk : io.
Definition grpc_addr (server : ServerConfig) : string := host_port (gr_BindAddr (sv_GRPC server)) (gr_BindPort (sv_GRPC server)).
Definition admin_addr (admin : AdminServerConfig) : string :=
  if bool_decide (ad_BindAddr admin ≠ "" ∧ ad_BindPort admin ≠ 0%Z) then host_port (ad_BindAddr admin) (ad_BindPort admin) else "127.0.0.1:8250".
Definition serves_grpc (server : ServerConfig) (srv : built) : bool :=
  match bt_grpc srv with Some _ => gr_Enabled (sv_GRPC server) | None => false end.
Definition launch_of (server : ServerConfig) (srv : built) (tr : transport) (reloadable : option YvonneConfig) : launch :=
  let mcp := match bt_mcp srv with Some _ => true | None => false end in
  mkLaunch srv (host_port (sv_BindAddr server) (sv_BindPort server), tr) ((λ _, admin_addr (sv_Admin server)) <$> bt_admin srv) (bt_daemon srv)
    (if serves_grpc server srv then Some (grpc_addr server) else None) (mcp && mc_Stdio (sv_MCP server))
    (if mcp && bool_decide (0 < mc_HTTPBindPort (sv_MCP server))%Z
     then Some (host_port (mc_HTTPBindAddr (sv_MCP server)) (mc_HTTPBindPort (sv_MCP server))) else None) reloadable.
(** In a cluster without TLS a warning goes to the audit log. *)
Definition warn_clear (cfg : YvonneConfig) (srv : built) : built :=
  if bool_decide (yc_Mode cfg = ModeCluster) && negb (tls_Enabled (sv_TLS (yc_Server cfg)))
  then set_bt_audit (Record (pf_now pf) disk (tls_warning (pf_now pf)) (bt_audit srv)).1 srv else srv.
Definition transport_of (tls : TLSConfig) : result transport :=
  if tls_Enabled tls then
    if tls_GMEnabled tls then _ ← wrap_err "GM TLS config" (gm_tls tls); Ok GMTLS
    else c ← wrap_err "TLS config" (BuildTLSConfig (pf_read pf) (pf_parseCAs pf) tls); Ok (TLS c)
  else Ok Clear.
(** Every failure is [log.Fatalf]: the process ends, deferred calls are not run. *)
Definition startYvonne (cfg : YvonneConfig) (reload : option (result YvonneConfig)) : M entropy launch :=
  let server := yc_Server cfg in
  srv ← wrapM "build yvonne failed" (BuildYvonne pf cfg);
  let srv := warn_clear cfg srv in
  tr ← lift (transport_of (sv_TLS server));
  (if serves_grpc server srv then wrapM "gRPC listen failed" (lift (listen (grpc_addr server))) else mret tt);;
  wrapM "OTel tracer init" (lift tracer);;
  mret (launch_of server srv tr (r ← reload; match r with Ok c => Some c | _ => None end)).
(** [yvonne server --config]: the file is read a second time for the reloadable copy. *)
Definition runServerCmd (load : string → result YvonneConfig) (configPath : string) : M entropy launch :=
  guardM (negb (bool_decide (configPath = ""))) (Err_new "error: --config is required for 'server' command");;
  cfg ← wrapM "config load failed" (lift (load configPath));
  startYvonne cfg (Some (load configPath)).
Definition dev_config (addr : string) (port : Z) : YvonneConfig :=
  mkYvonne ModeDev
    (mkServer addr port 0 0 0 no_tls (mkAdmin true "127.0.0.1" 8250 "") (mkGRPC false "" 0 no_tls) (mkMCP false false "" 0 "" []))
    (mkStorageM "memory" "") (mkUnsealM "auto" 1 1 "" "" "" "") (yc_Auth yvonne_defaults) (mkAuditM "" "" 0 false "")
    (mkLogging "info" "json" "stdout" true) (mkCryptoC "" false 0 0 "" 0) (mkMFAC false "" 0 [])
    (mkObservability (mkTracing false "" "") (mkAlerting false "" [])) false.
Definition runDevCmd (addr : string) (port : Z) : M entropy launch :=
  let cfg := dev_config addr port in
  wrapM "dev config validation failed" (lift (ValidateYvonneConfig cfg));;
  startYvonne cfg None.
End Start.
(** SIGHUP: the reloadable copy changes; nothing of the launched instance is derived from it. *)
Definition on_sighup (load : result YvonneConfig) (l : launch) : launch :=
  mkLaunch (la_built l) (la_http l) (la_admin l) (la_daemon l) (la_grpc l) (la_stdio l) (la_mcp l) ((λ c, (Reload load c).1) <$> la_reloadable l).

(** ** audit-verify *)
Record verdict : Type := mkVerdict { ve_total : nat; ve_valid : nat; ve_tampered : nat; ve_broken : list QueryResult; ve_exit : Z }.
Definition tally (acc : nat * nat * list QueryResult) (r : QueryResult) : nat * nat * list QueryResult :=
  let '(valid, tampered, broken) := acc in
  if qr_Valid r then (S valid, tampered, broken) else (valid, S tampered, broken ++ [r]).
(** [read]: the directory, or the error of listing it. The key of the logger is drawn afresh. *)
Definition runAuditVerifyCmd (read : string → result (gmap string bytes)) (dir : string) : M entropy verdict :=
  guardM (negb (bool_decide (dir = ""))) (Err_new "error: --dir is required for 'audit-verify' command");;
  logger ← wrapM "create audit logger" NewAuditLogger;
  files ← wrapM "audit query failed" (lift (read dir));
  let results := Query logger files (mkFilter None None "" "" (-1)) in
  let '(valid, tampered, broken) := foldl tally (0, 0, []) results in
  mret (mkVerdict (length results) valid tampered broken (if bool_decide (0 < tampered) then 1%Z else 0%Z)).

(** ** The shutdown *)
Inductive port : Type := PHttp | PAdmin | PGrpc | PMcp | PStdio.
#[export] Instance port_eq_dec : EqDecision port.
Proof. solve_decision. Defined.
Record conn : Type := mkConn { listening : bool; inflight : nat }.
(** Where the goroutine of [startYvonne] is: in the [select], about to shut down the servers of a
    list, waiting for one of them, past the deferred [srv.Close], gone. *)
Inductive phase : Type := Serving | Stopping (todo : list port) | Waiting (p : port) (todo : list port) | Closed | Exited.
#[export] Instance phase_eq_dec : EqDecision phase.
Proof. solve_decision. Defined.
Record proc : Type := mkProc { pr_phase : phase; pr_port : port → conn; pr_deadline : bool; pr_cancelled : bool }.
Definition upd (p : port) (f : conn → conn) (s : proc) : proc :=
  mkProc (pr_phase s) (λ q, if bool_decide (q = p) then f (pr_port s q) else pr_port s q) (pr_deadline s) (pr_cancelled s).
Definition at_phase (ph : phase) (s : proc) : proc := mkProc ph (pr_port s) (pr_deadline s) (pr_cancelled s).
Definition served (l : launch) (p : port) : bool :=
  match p with
  | PHttp => true
  | PAdmin => bool_decide (is_Some (la_admin l))
  | PGrpc => bool_decide (is_Some (la_grpc l))
  | PMcp => bool_decide (is_Some (la_mcp l))
  | PStdio => la_stdio l
  end.
Definition serving (l : launch) : proc := mkProc Serving (λ p, mkConn (served l p) 0) false false.
(** The order of the calls after the [select]. *)
Definition stop_order (l : launch) : list port := filter (λ p, served l p = true) [PHttp; PAdmin; PGrpc; PMcp].
Inductive event : Type :=
  | EAccept (p : port) | EFinish (p : port)   (* a request arrives, ends *)
  | ESignal | EFail (p : port)                (* SIGINT or SIGTERM; a listener reports an error *)
  | EStdioEnds                                (* after [rootCancel] the stdio transport stops reading *)
  | EDeadline                                 (* the ten seconds of [shutdownCtx] are over *)
  | EShutdown | EReturn                       (* [Shutdown] or [GracefulStop] is called, returns *)
  | EClose | EExit.
Section Shutdown.
Variable l : launch.
Definition stop (s : proc) : proc := mkProc (Stopping (stop_order l)) (pr_port s) (pr_deadline s) true.
(** [http.Server.Shutdown] returns when its requests are done or the context is; [GracefulStop]
    only when they are done. *)
Definition may_return (p : port) (s : proc) : bool :=
  bool_decide (inflight (pr_port s p) = 0) || (pr_deadline s && bool_decide (p ≠ PGrpc)).
Definition pstep (e : event) (s : proc) : option proc :=
  if bool_decide (pr_phase s = Exited) then None else
  match e, pr_phase s with
  | EAccept p, _ => if listening (pr_port s p) then Some (upd p (λ c, mkConn (listening c) (S (inflight c))) s) else None
  | EFinish p, _ => if bool_decide (inflight (pr_port s p) = 0) then None else Some (upd p (λ c, mkConn (listening c) (pred (inflight c))) s)
  | ESignal, Serving => Some (stop s)
  | EFail p, Serving => if bool_decide (p ≠ PStdio) && listening (pr_port s p)
                        then Some (stop (upd p (λ c, mkConn false (inflight c)) s)) else None
  | EStdioEnds, _ => if pr_cancelled s && listening (pr_port s PStdio) then Some (upd PStdio (λ c, mkConn false (inflight c)) s) else None
  | EDeadline, (Stopping _ | Waiting _ _) =>
      if pr_deadline s then None else Some (mkProc (pr_phase s) (pr_port s) true (pr_cancelled s))
  | EShutdown, Stopping (p :: todo) => Some (at_phase (Waiting p todo) (upd p (λ c, mkConn false (inflight c)) s))
  | EReturn, Waiting p todo => if may_return p s then Some (at_phase (Stopping todo) s) else None
  | EClose, Stopping [] => Some (at_phase Closed s)
  | EExit, Closed => Some (at_phase Exited s)
  | _, _ => None
  end.
Fixpoint prun (es : list event) (s : proc) : option proc :=
  match es with [] => Some s | e :: es => s ← pstep e s; prun es s end.
End Shutdown.

(** ** The shutdown is orderly *)
Section Orderly.
Variable l : launch.
Definition stopped (s : proc) (p : port) : Prop :=
  listening (pr_port s p) = false ∧ (inflight (pr_port s p) = 0 ∨ (pr_deadline s = true ∧ p ≠ PGrpc)).
Definition phase_inv (s : proc) : Prop :=
  match pr_phase s with
  | Serving => True
  | Stopping todo => ∃ done, stop_order l = done ++ todo ∧ Forall (stopped s) done
  | Waiting p todo => ∃ done, stop_order l = done ++ p :: todo ∧ Forall (stopped s) done ∧ listening (pr_port s p) = false
  | Closed | Exited => Forall (stopped s) (stop_order l)
  end.
Definition proc_inv (s : proc) : Prop := (∀ p, served l p = false → pr_port s p = mkConn false 0) ∧ phase_inv s.
(** The enabled steps, with what they do. *)
Ltac step_cases H := revert H; rw /pstep; case_bool_decide; [done|]; repeat case_match; try done; intros [= <-].
Ltac port_cases := rw /upd /stop /at_phase /=; repeat (case_bool_decide; subst; simpl in * ); try done.
Lemma step_stopped e s s' p : pstep l e s = Some s' → stopped s p → stopped s' p.
Proof.
  intros H [Hl Hi]. rw /stopped. step_cases H; port_cases; try (split; [done|]); try (by naive_solver); try congruence.
Qed.
Lemma step_quiet e s s' p : pstep l e s = Some s' → pr_port s p = mkConn false 0 → pr_port s' p = mkConn false 0.
Proof. intros H Hq. step_cases H; port_cases; repeat match goal with H : context [pr_port s _] |- _ => progress rw Hq /= in H end; by rw ?Hq. Qed.
Lemma steps_stopped e s s' ps : pstep l e s = Some s' → Forall (stopped s) ps → Forall (stopped s') ps.
Proof. intros H. apply Forall_impl. intros p. by apply (step_stopped e). Qed.
Lemma step_silent e s s' p : pstep l e s = Some s' → listening (pr_port s p) = false → listening (pr_port s' p) = false.
Proof. intros H Hl. step_cases H; port_cases. Qed.
Lemma step_inv e s s' : proc_inv s → pstep l e s = Some s' → proc_inv s'.
Proof.
  intros [Hq Hp] H. split; [intros p Hs; eapply step_quiet; eauto|].
  pose proof (λ ps, steps_stopped e s s' ps H) as Hst. pose proof (λ p, step_silent e s s' p H) as Hsi.
  destruct (decide (pr_phase s' = pr_phase s)) as [Hsame|Hmoved].
  { rw /phase_inv Hsame. rw /phase_inv in Hp. destruct (pr_phase s) as [|todo|q todo| |]; [done| | |auto..].
    - destruct Hp as (dn & E & Hd). exists dn. auto.
    - destruct Hp as (dn & E & Hd & Hl). exists dn. auto. }
  revert H Hst Hsi Hmoved. rw /phase_inv in Hp. rw /pstep. case_bool_decide; [done|].
  destruct e, (pr_phase s) as [|todo|q todo| |] eqn:Hph; try done; repeat case_match; try done; intros [= <-] Hst Hsi Hmoved;
    try (by rw /= Hph in Hmoved); rw /phase_inv /=; try done.
  - by exists [].
  - by exists [].
  - destruct Hp as (dn & E & Hd). exists dn. split; [done|]. split; [by apply Hst|]. by rw /= bool_decide_eq_true_2.
  - destruct Hp as (dn & E & Hd & Hl). exists (dn ++ [q]). rw -app_assoc /=. split; [done|]. apply Forall_app. split; [by apply Hst|].
    apply list.Forall_singleton. split; [done|]. match goal with H : may_return _ _ = true |- _ => apply orb_true_iff in H as [Hi%bool_decide_eq_true|Hd'] end.
    + by left.
    + apply andb_true_iff in Hd' as [? Hn%bool_decide_eq_true]. by right.
  - destruct Hp as (dn & E & Hd). rw E app_nil_r. by apply Hst.
Qed.
Lemma run_inv es s s' : proc_inv s → prun l es s = Some s' → proc_inv s'.
Proof.
  revert s. induction es as [|e es IH]; intros s Hi H; [by injection H as <-|]. rw /= in H.
  destruct (pstep l e s) as [s1|] eqn:E; [|done]. eapply IH; [|done]. by eapply step_inv.
Qed.
Lemma serving_inv : proc_inv (serving l).
Proof. split; [|done]. intros p Hp. by rw /= Hp. Qed.

(** The steps the process takes of itself, the passing of the ten seconds among them. When a
    request arrives or ends, a signal comes, a listener fails or the stdio transport stops reading is
    up to others. *)
Definition own (e : event) : bool := match e with EDeadline | EShutdown | EReturn | EClose | EExit => true | _ => false end.
Definition own_left (s : proc) : nat :=
  match pr_phase s with
  | Serving => 2 * length (stop_order l) + 4 | Stopping todo => 2 * length todo + 3 | Waiting _ todo => 2 * length todo + 4
  | Closed => 2 | Exited => 1
  end + (if pr_deadline s then 0 else 1).
(** Waiting in [GracefulStop], past the deadline, for a request to end. *)
Definition held_by_grpc (s : proc) : Prop :=
  (∃ todo, pr_phase s = Waiting PGrpc todo) ∧ inflight (pr_port s PGrpc) ≠ 0 ∧ pr_deadline s = true.
Lemma own_decreases e s s' : pstep l e s = Some s' → own_left s' + (if own e then 1 else 0) ≤ own_left s.
Proof.
  rw /pstep. case_bool_decide; [done|]. rw /own_left. destruct e as [p|p| |p| | | | | |].
  - case_match; [|done]. intros [= <-]. rw /=. lia.
  - case_bool_decide; [done|]. intros [= <-]. rw /=. lia.
  - destruct (pr_phase s) eqn:Hph; try done. intros [= <-]. rw /=. lia.
  - destruct (pr_phase s) eqn:Hph; try done. case_match; [|done]. intros [= <-]. rw /=. lia.
  - case_match; [|done]. intros [= <-]. rw /=. lia.
  - destruct (pr_phase s) eqn:Hph; try done; destruct (pr_deadline s) eqn:Hd; try done; intros [= <-]; rw /=; lia.
  - destruct (pr_phase s) as [|[|p todo]| | |] eqn:Hph; try done. intros [= <-]. rw /=. lia.
  - destruct (pr_phase s) eqn:Hph; try done. destruct (may_return p s); [|done]. intros [= <-]. rw /=. lia.
  - destruct (pr_phase s) as [|[|p todo]| | |] eqn:Hph; try done. intros [= <-]. rw /=. lia.
  - destruct (pr_phase s) eqn:Hph; try done. intros [= <-]. rw /=. lia.
Qed.
Lemma own_bounded es s s' : prun l es s = Some s' → length (filter (λ e, own e = true) es) + own_left s' ≤ own_left s.
Proof.
  revert s. induction es as [|e es IH]; intros s H; [injection H as <-; cbn; lia|]. rw /= in H.
  destruct (pstep l e s) as [s1|] eqn:E; [|done]. apply own_decreases in E. specialize (IH _ H). rw filter_cons.
  destruct (own e); case_decide; cbn; try done; lia.
Qed.
Lemma own_enabled s : pr_phase s ≠ Serving → pr_phase s ≠ Exited →
  held_by_grpc s ∨ ∃ e s', own e = true ∧ pstep l e s = Some s'.
Proof.
  intros H1 H2. destruct (pr_phase s) as [|[|p todo]|p todo| |] eqn:Hph; try done.
  - right. eexists EClose, _. by rw /pstep Hph.
  - right. eexists EShutdown, _. by rw /pstep Hph.
  - destruct (pr_deadline s) eqn:Hd; [|right; eexists EDeadline, _; by rw /pstep Hph /= Hd].
    destruct (may_return p s) eqn:Hr; [right; eexists EReturn, _; by rw /pstep Hph /= Hr|left].
    rw /may_return Hd in Hr. apply orb_false_iff in Hr as [Hi%bool_decide_eq_false Hp%bool_decide_eq_false]. apply dec_stable in Hp as ->.
    split; [by eexists|done].
  - right. eexists EExit, _. by rw /pstep Hph.
Qed.
Lemma held_stuck s e s' : held_by_grpc s → pstep l e s = Some s' → own e = false.
Proof.
  intros ([todo Hph] & Hi & Hd). rw /pstep Hph /=. destruct e; try done; rw ?Hd //. rw /may_return bool_decide_eq_false_2 //= andb_false_r //.
Qed.
Lemma own_grpc e s s' : own e = true → pstep l e s = Some s' → pr_phase s ≠ Serving ∧ pr_phase s' ≠ Serving ∧
  inflight (pr_port s' PGrpc) = inflight (pr_port s PGrpc).
Proof.
  intros Ho H. destruct e; try done; revert H; rw /pstep; case_bool_decide; try done; repeat case_match; try done; intros [= <-];
    rw /at_phase /upd /=; try case_bool_decide; subst; rw /=; split_and!; congruence.
Qed.
Lemma own_exits s : pr_phase s ≠ Serving → inflight (pr_port s PGrpc) = 0 →
  ∃ es s', Forall (λ e, own e = true) es ∧ prun l es s = Some s' ∧ pr_phase s' = Exited.
Proof.
  remember (own_left s) as n eqn:En. revert s En. induction (lt_wf n) as [n _ IH]. intros s -> Hs Hg.
  destruct (decide (pr_phase s = Exited)) as [He|He]; [by exists [], s|].
  destruct (own_enabled s Hs He) as [(_ & ? & _)|(e & s1 & Ho & E)]; [done|]. destruct (own_grpc _ _ _ Ho E) as (_ & Hs1 & Eg).
  pose proof (own_decreases _ _ _ E) as Hdec. rw Ho in Hdec. destruct (IH (own_left s1)) with (s := s1) as (es & s2 & Hes & Hr & Hx); [lia|done|done|congruence|].
  exists (e :: es), s2. split; [by constructor|]. by rw /= E.
Qed.
Lemma stop_order_all p : p ≠ PStdio → served l p = true → p ∈ stop_order l.
Proof. intros Hp Hs. apply list_elem_of_filter. split; [done|]. destruct p; [set_solver..|done]. Qed.
Lemma closed_ports s p : proc_inv s → pr_phase s = Closed ∨ pr_phase s = Exited → p ≠ PStdio → stopped s p.
Proof.
  intros [Hq Hi] Hph Hp. destruct (served l p) eqn:Hs; [|by rw /stopped Hq //; auto].
  assert (Forall (stopped s) (stop_order l)) as Hall by (rw /phase_inv in Hi; destruct Hph as [E|E]; by rw E in Hi).
  eapply list.Forall_forall; [exact Hall|]. by apply stop_order_all.
Qed.
End Orderly.

(** A gRPC request that does not end keeps the process from closing, whatever else happens: that
    stop has no deadline. *)
Lemma grpc_holds_shutdown l es es' s s' : prun l es (serving l) = Some s → inflight (pr_port s PGrpc) ≠ 0 →
  prun l es' s = Some s' → (∀ e, e ∈ es' → e ≠ EFinish PGrpc) → pr_phase s' ≠ Closed ∧ pr_phase s' ≠ Exited.
Proof.
  intros H Hn H' Hes. pose proof (run_inv l es _ _ (serving_inv l) H) as Hi. clear H.
  assert (inflight (pr_port s' PGrpc) ≠ 0 ∧ proc_inv l s') as [Hn' Hi'].
  { revert s Hn Hi H'. induction es' as [|e es' IH]; intros s Hn Hi H'; [injection H' as <-; done|]. rw /= in H'.
    destruct (pstep l e s) as [s1|] eqn:E; [|done]. eapply (IH (λ e He, Hes e (list_elem_of_further _ _ _ He)) s1); [|by eapply step_inv|done].
    pose proof (Hes e (list_elem_of_here _ _)) as Hne. revert E. rw /pstep. case_bool_decide; [done|].
    repeat case_match; try done; intros [= <-]; rw /upd /stop /at_phase /=; repeat case_bool_decide; subst; rw /=; done. }
  split; intros Hph; destruct (closed_ports l s' PGrpc Hi') as [_ [?|[_ ?]]]; auto.
Qed.

(** C38: the shutdown is orderly. However requests, signals, failing listeners and the deadline
    interleave: the server is closed (its keys wiped) only when the HTTP, console, gRPC and MCP
    listeners accept nothing any more and each of them has answered all its requests, except that
    the HTTP ones may be cut off by the ten seconds. Whatever else happens, the process takes at most
    as many steps of its own as the plan of the shutdown has; once it is stopping, the only state
    in which it cannot take one is [GracefulStop] past the deadline with a gRPC request in flight;
    it is in that state that it may wait for ever, and it does not close while a gRPC request goes
    on; without one, its own steps alone, with no help from any client, take it to the exit. *)
Theorem orderly_shutdown l es s : prun l es (serving l) = Some s →
  (pr_phase s = Closed ∨ pr_phase s = Exited → ∀ p, p ≠ PStdio →
     listening (pr_port s p) = false ∧ (inflight (pr_port s p) = 0 ∨ (pr_deadline s = true ∧ p ≠ PGrpc))) ∧
  (∀ es' s', prun l es' s = Some s' → length (filter (λ e, own e = true) es') ≤ 2 * length (stop_order l) + 5) ∧
  (pr_phase s ≠ Serving → pr_phase s ≠ Exited → (held_by_grpc s ↔ ∀ e, own e = true → pstep l e s = None)) ∧
  (inflight (pr_port s PGrpc) ≠ 0 → ∀ es' s', prun l es' s = Some s' → (∀ e, e ∈ es' → e ≠ EFinish PGrpc) →
     pr_phase s' ≠ Closed ∧ pr_phase s' ≠ Exited) ∧
  (pr_phase s ≠ Serving → inflight (pr_port s PGrpc) = 0 →
     ∃ es' s', Forall (λ e, own e = true) es' ∧ prun l es' s = Some s' ∧ pr_phase s' = Exited).
Proof.
  intros H. pose proof (run_inv l es _ _ (serving_inv l) H) as Hi. split_and!.
  - intros Hph p Hp. by apply (closed_ports l).
  - intros es' s' H'. apply own_bounded in H, H'.
    change (own_left l (serving l)) with (2 * length (stop_order l) + 4 + 1) in H. lia.
  - intros H1 H2. split.
    + intros Hh e Ho. destruct (pstep l e s) as [s'|] eqn:E; [|done]. by rw (held_stuck _ _ _ _ Hh E) in Ho.
    + intros Hno. destruct (own_enabled l s H1 H2) as [?|(e & s' & Ho & E)]; [done|]. by rw Hno in E.
  - intros Hn es' s'. by apply (grpc_holds_shutdown l es).
  - by apply own_exits.
Qed.

(** ** What a start announces *)
Section Announced.
Context {rlib : RSALib} {plib : PEMLib} {jlib : JWTLib}.
Variables (pf : platform) (gm_tls : TLSConfig → result ()) (listen : string → result ()) (tracer : result ()) (disk : io).
(** A cluster that serves in clear has put that on record first; TLS, once configured, is never
    replaced by clear text. *)
Lemma clear_text_recorded cfg reload e e' la : startYvonne pf gm_tls listen tracer disk cfg reload e = (e', Ok la) →
  (snd (la_http la) = Clear ↔ tls_Enabled (sv_TLS (yc_Server cfg)) = false) ∧
  (yc_Mode cfg = ModeCluster → snd (la_http la) = Clear → ∃ b, (BuildYvonne pf cfg e).2 = Ok b ∧
     bt_audit (la_built la) = (Record (pf_now pf) disk (tls_warning (pf_now pf)) (bt_audit b)).1).
Proof.
  rw /startYvonne. intros H. apply M_bind_ok in H as (e1 & b & Hb%wrapM_ok & H). apply M_bind_ok in H as (e2 & tr & [Htr ->]%lift_ok & H).
  apply M_bind_ok in H as (e3 & [] & _ & H). apply M_bind_ok in H as (e4 & [] & _ & [= _ <-]). cbn [launch_of la_http la_built snd].
  assert (tr = Clear ↔ tls_Enabled (sv_TLS (yc_Server cfg)) = false) as Hc.
  { revert Htr. rw /transport_of. destruct (tls_Enabled _); [|by intros [= <-]]. intros Htr. split; [|done]. intros ->. destruct (tls_GMEnabled _).
    - by apply result_bind_ok in Htr as (? & _ & ?).
    - by apply result_bind_ok in Htr as (? & _ & ?). }
  split; [done|]. intros Hm Hcl%Hc. exists b. rw Hb /warn_clear Hm Hcl bool_decide_eq_true_2 //. split; [done|]. by destruct b.
Qed.
Lemma dev_listens addr port e e' la : runDevCmd pf gm_tls listen tracer disk addr port e = (e', Ok la) →
  la_http la = (host_port addr port, Clear) ∧ la_admin la = Some "127.0.0.1:8250" ∧ la_daemon la = false ∧ la_grpc la = None ∧
  la_stdio la = false ∧ la_mcp la = None ∧ ∃ s, la_built la = BuiltDev s.
Proof.
  rw /runDevCmd. intros H. apply M_bind_ok in H as (e1 & [] & _ & H). rw /startYvonne in H.
  apply M_bind_ok in H as (e2 & b & Hb%wrapM_ok & H). apply M_bind_ok in H as (e3 & tr & [[= <-] ->]%lift_ok & H).
  apply M_bind_ok in H as (e4 & [] & _ & H). apply M_bind_ok in H as (e5 & [] & _ & [= _ <-]).
  rw /BuildYvonne bool_decide_eq_true_2 // in Hb. apply M_bind_ok in Hb as (e6 & log & _ & Hb). apply M_bind_ok in Hb as (e7 & s & Hs & [= _ <-]).
  rw /buildDevMode in Hs. inv_M. injection Hm2 as <-. repeat split; [vm_compute; reflexivity..|]. eexists. reflexivity.
Qed.
End Announced.

(** ** audit-verify *)
Lemma tally_spec rs v t broken : foldl tally (v, t, broken) rs =
  (v + length (filter (λ r, qr_Valid r = true) rs), t + length (filter (λ r, qr_Valid r ≠ true) rs), broken ++ filter (λ r, qr_Valid r ≠ true) rs).
Proof.
  revert v t broken. induction rs as [|r rs IH]; intros v t broken; [by rw /= app_nil_r !Nat.add_0_r|]. cbn [foldl]. rw {2}/tally.
  destruct (qr_Valid r) eqn:Hr; rw IH.
  - rw filter_cons_True // filter_cons_False; [congruence|]. rw /=. repeat f_equal; lia.
  - rw filter_cons_False; [congruence|]. rw filter_cons_True; [congruence|]. rw /= -app_assoc. repeat f_equal; lia.
Qed.
Lemma filter_complement_length {A} (P : A → Prop) `{!∀ x, Decision (P x)} (rs : list A) :
  length (filter P rs) + length (filter (λ x, ¬ P x) rs) = length rs.
Proof. induction rs as [|r rs IH]; [done|]. rw !filter_cons /=. repeat case_decide; rw /=; naive_solver lia. Qed.
(** Audit-verify reports what the query finds: the counts add up to the number of entries, the
    entries listed as broken are exactly those whose signature does not verify, in order, and the
    exit code is 1 if there is one and 0 otherwise. *)
Theorem audit_verify_reports read dir e e' v : runAuditVerifyCmd read dir e = (e', Ok v) →
  ∃ logger files, NewAuditLogger e = (e', Ok logger) ∧ read dir = Ok files ∧
  let results := Query logger files (mkFilter None None "" "" (-1)) in
  ve_total v = length results ∧ ve_valid v + ve_tampered v = ve_total v ∧
  ve_broken v = filter (λ r, qr_Valid r ≠ true) results ∧
  (ve_exit v = 1%Z ↔ ∃ r, r ∈ results ∧ qr_Valid r = false) ∧ (ve_exit v = 0%Z ↔ ∀ r, r ∈ results → qr_Valid r = true).
Proof.
  rw /runAuditVerifyCmd. intros H. apply M_bind_ok in H as (e1 & [] & [_ ->]%guardM_ok & H). apply M_bind_ok in H as (e2 & logger & Hl%wrapM_ok & H).
  apply M_bind_ok in H as (e3 & files & Hr%wrapM_ok & H). apply lift_ok in Hr as [Hr ->]. rw tally_spec /= in H. injection H as <- <-.
  exists logger, files. split; [done|]. split; [done|]. rw /=. set results := Query _ _ _.
  split; [done|]. split; [apply (filter_complement_length (λ r, qr_Valid r = true))|]. split; [done|].
  assert ((0 < length (filter (λ r, qr_Valid r ≠ true) results)) ↔ ∃ r, r ∈ results ∧ qr_Valid r = false) as Hpos.
  { split.
    - destruct (filter _ results) as [|r rs] eqn:Hf; [rw /=; lia|]. intros _. exists r.
      assert (r ∈ filter (λ r, qr_Valid r ≠ true) results) as [Hv Hin]%list_elem_of_filter by (rw Hf; left). by destruct (qr_Valid r).
    - intros (r & Hin & Hv). assert (r ∈ filter (λ r, qr_Valid r ≠ true) results) as Hf by (apply list_elem_of_filter; rw Hv; done).
      destruct (filter _ results); [by apply not_elem_of_nil in Hf|rw /=; lia]. }
  case_bool_decide as Hb; split; split; try done.
  - intros _. by apply Hpos.
  - intros Hall. apply Hpos in Hb as (r & Hin & Hv). rw Hall in Hv; done.
  - by intros ?%Hpos.
  - intros _ r Hin. apply not_false_iff_true. intros Hv. apply Hb, Hpos. eauto.
Qed.

(** ** cli_extras.go *)
(** [stringReaderImpl]: a read copies what fits into the buffer of size [n]; [None] is EOF. *)
Record string_reader : Type := mkReader { sr_s : list Ascii.ascii; sr_pos : nat }.
Definition stringReader (s : string) : string_reader := mkReader (chars s) 0.
Definition Read (n : nat) (r : string_reader) : string_reader * option (list Ascii.ascii) :=
  if bool_decide (length (sr_s r) ≤ sr_pos r) then (r, None)
  else let c := take n (drop (sr_pos r) (sr_s r)) in (mkReader (sr_s r) (sr_pos r + length c), Some c).
(** A client that reads with buffers of any sizes until EOF. *)
Fixpoint read_all (sizes : list nat) (r : string_reader) : list Ascii.ascii * bool :=
  match sizes with
  | [] => ([], false)
  | n :: sizes => match Read n r with
                  | (_, None) => ([], true)
                  | (r, Some c) => let '(rest, eof) := read_all sizes r in (c ++ rest, eof)
                  end
  end.
Fixpoint indexOf_loop (n : nat) (i : nat) (s substr : list Ascii.ascii) : Z :=
  match n with
  | O => (-1)%Z
  | S n => if bool_decide (take (length substr) (drop i s) = substr) then Z.of_nat i else indexOf_loop n (S i) s substr
  end.
Definition indexOf (s substr : list Ascii.ascii) : Z :=
  if bool_decide (length substr ≤ length s) then indexOf_loop (S (length s - length substr)) 0 s substr else (-1)%Z.
Definition dquote : Ascii.ascii := Ascii.ascii_of_nat 34.
Definition field_mark (field : list Ascii.ascii) : list Ascii.ascii := dquote :: field ++ [dquote; char_of ":"; dquote].
Definition extractJSONField (json field : list Ascii.ascii) : list Ascii.ascii :=
  let key := field_mark field in
  let idx := indexOf json key in
  if bool_decide (idx < 0)%Z then []
  else
    let start := Z.to_nat idx + length key in
    let end_ := indexOf (drop start json) [dquote] in
    if bool_decide (end_ < 0)%Z then [] else take (Z.to_nat end_) (drop start json).
(** Waiting for a server: [n] attempts half a second apart, [poll i] tells whether attempt [i]
    was answered with 200. *)
Fixpoint wait_ready (n i : nat) (poll : nat → bool) : bool :=
  match n with O => false | S n => if poll i then true else wait_ready n (S i) poll end.
Definition demo_keys : list string := ["demo-order-key"; "demo-payment-key"; "demo-user-key"].
Definition quoted (s : string) : list Ascii.ascii := dquote :: chars s ++ [dquote].
Definition create_body (keyID : string) : list Ascii.ascii := chars "{" ++ quoted "key_id" ++ chars ":" ++ quoted keyID ++ chars "}".
Definition encrypt_body (keyID plaintextB64 : string) : list Ascii.ascii :=
  chars "{" ++ quoted "key_id" ++ chars ":" ++ quoted keyID ++ chars "," ++ quoted "plaintext" ++ chars ":" ++ quoted plaintextB64 ++ chars "}".
(** The keys reported as created, and the ciphertext shown; [post] answers a request with its
    status and body. *)
Definition runDemoSetup (poll : nat → bool) (post : string → list Ascii.ascii → option (Z * list Ascii.ascii)) : option (list string * list Ascii.ascii) :=
  if wait_ready 30 0 poll then
    Some (filter (λ k, (fst <$> post "/api/v1/keys" (create_body k)) = Some 200%Z) demo_keys,
          from_option (λ r, extractJSONField r.2 (chars "ciphertext")) [] (post "/api/v1/encrypt" (encrypt_body "demo-order-key" "SGVsbG8gWXZvbm5lIQ==")))
  else None.
Definition runDashboard (poll : nat → bool) : bool := wait_ready 20 0 poll.

Lemma wait_ready_spec n i poll : wait_ready n i poll = true ↔ ∃ j, i ≤ j < i + n ∧ poll j = true.
Proof.
  revert i. induction n as [|n IH]; intros i; [split; [done|]; intros (j & ? & _); lia|]. rw /=. destruct (poll i) eqn:Hp.
  - split; [|done]. intros _. exists i. split; [lia|done].
  - rw IH. split; intros (j & Hj & E); exists j; (split; [|done]); [lia|]. assert (j ≠ i) by congruence. lia.
Qed.
(** The reader gives the text whatever the buffers, as soon as there are enough of them. *)
Lemma read_all_spec sizes s pos : Forall (λ n, 0 < n) sizes → length s - pos < length sizes → read_all sizes (mkReader s pos) = (drop pos s, true).
Proof.
  revert pos. induction sizes as [|n sizes IH]; intros pos Hn Hl; [rw /= in Hl; lia|]. apply list.Forall_cons in Hn as [Hn Hns]. rw /= /Read /=.
  case_bool_decide as Hp; [by rw drop_ge|]. rw IH //; [rw length_take length_drop; rw /= in Hl; lia|].
  rw -drop_drop. generalize (drop pos s). intros t. f_equal. rw length_take. destruct (decide (n ≤ length t)).
  - by rw Nat.min_l // take_drop.
  - rw Nat.min_r; [lia|]. rw drop_all app_nil_r take_ge //. lia.
Qed.
(** [indexOf] is [strings.Index]. *)
Lemma indexOf_loop_find n i s sub : length s = i + (n + length sub) →
  indexOf_loop (S n) i s sub = from_option (λ j, Z.of_nat (i + j)) (-1)%Z (find_sub sub (drop i s)).
Proof.
  revert i. induction n as [|n IH]; intros i Hl.
  - rw /=. destruct (drop i s) as [|x t] eqn:Hd; rw /=; case_bool_decide as E; rw /= ?Nat.add_0_r //.
    assert (length (x :: t) = length sub) as Hlen by (rw -Hd length_drop; lia).
    assert (find_sub sub t = None) as ->; [|done]. clear -Hlen. assert (length t < length sub) as Hlt by (rw -Hlen /=; lia). clear Hlen.
    induction t as [|y t IH]; rw /=; case_bool_decide as E; try done.
    + exfalso. rw -E length_take /= in Hlt. lia.
    + exfalso. apply (f_equal length) in E. rw length_take /= in E, Hlt. lia.
    + rw IH //. rw /= in Hlt. lia.
  - cbn [indexOf_loop]. destruct (drop i s) as [|x t] eqn:Hd.
    { exfalso. apply (f_equal length) in Hd. rw length_drop /= in Hd. lia. }
    assert (drop (S i) s = t) as Ht by (rw -Nat.add_1_r -drop_drop Hd //).
    rw -/(indexOf_loop (S n) (S i) s sub). rw [find_sub sub (x :: t)]/=. case_bool_decide as E; [by rw /= Nat.add_0_r|].
    rw IH; [lia|]. rw Ht. destruct (find_sub sub t) as [j|]; [|done]. rw /=. f_equal. lia.
Qed.
Lemma find_sub_short sub l : length l < length sub → find_sub sub l = None.
Proof.
  induction l as [|y l IH]; intros Hl; rw /=; case_bool_decide as E; try done.
  - rw -E length_take /= in Hl. lia.
  - apply (f_equal length) in E. rw length_take /= in E. rw /= in Hl. lia.
  - rw IH //. rw /= in Hl. lia.
Qed.
Lemma indexOf_find s sub : indexOf s sub = from_option Z.of_nat (-1)%Z (find_sub sub s).
Proof.
  rw /indexOf. case_bool_decide as Hl.
  - rw indexOf_loop_find; [lia|]. by rw drop_0.
  - rw find_sub_short //. lia.
Qed.
(** The first member of that name, when its value is a text without a quote. *)
Lemma extract_member field pre v post : find_sub (field_mark field) (pre ++ field_mark field) = Some (length pre) → dquote ∉ v →
  extractJSONField (pre ++ field_mark field ++ v ++ dquote :: post) field = v.
Proof.
  intros Hf Hv. rw /extractJSONField !indexOf_find app_assoc. rw (find_sub_app _ _ _ _ Hf). cbn [from_option]. rw bool_decide_eq_false_2; [lia|].
  rw Nat2Z.id -length_app drop_app_length. pose proof (find_sub_skip dquote [] v post Hv) as Hs. rw /= in Hs. rw Hs /= bool_decide_eq_false_2; [lia|].
  by rw Nat2Z.id take_app_length.
Qed.
Example extract_ciphertext :
  unchars (extractJSONField (chars "{" ++ quoted "ok" ++ chars ":true," ++ quoted "ciphertext" ++ chars ":" ++ quoted "AQAA12" ++ chars "}") (chars "ciphertext")) = "AQAA12".
Proof. reflexivity. Qed.

(** ** Runs *)
(** An instance with a console and gRPC: a signal arrives while a gRPC and an HTTP request are in
    flight; the first takes its time, the second exceeds the deadline. *)
Definition demo_built : built :=
  BuiltDev (mkBuilt (NewV1Router demo_platform None false false) (new_router demo_platform (UVault (NewVaultState 1 1 0)) MemoryKV.empty true [])
    (mkLogger None (newHashChain []) 0 (ToWriter []) false None) "" NoopAlerter None None None None true false).
Definition demo_launch : launch := mkLaunch demo_built ("127.0.0.1:8200", Clear) (Some "127.0.0.1:8250") true (Some "127.0.0.1:9090") true None None.
Definition demo_stop : list event :=
  [EAccept PHttp; EAccept PGrpc; ESignal; EAccept PGrpc; EShutdown; EDeadline; EReturn; EShutdown; EReturn; EShutdown;
   EFinish PGrpc; EFinish PGrpc; EReturn; EClose].
(** A request over stdio is served although the server is closed. *)
Lemma stdio_outlives_close : match prun demo_launch (demo_stop ++ [EAccept PStdio]) (serving demo_launch) with
  | Some s => pr_phase s = Closed ∧ inflight (pr_port s PStdio) = 1 | None => False end.
Proof. vm_compute. split; reflexivity. Qed.
Lemma orderly_shutdown_witness : match prun demo_launch demo_stop (serving demo_launch) with
  | Some s => pr_phase s = Closed ∧ inflight (pr_port s PHttp) = 1 ∧ listening (pr_port s PGrpc) = false ∧ inflight (pr_port s PGrpc) = 0
  | None => False
  end.
Proof.
  assert (match prun demo_launch demo_stop (serving demo_launch) with
          | Some s => pr_phase s = Closed ∧ inflight (pr_port s PHttp) = 1 | None => False end) as Hc by (vm_compute; split; reflexivity).
  destruct (prun demo_launch demo_stop (serving demo_launch)) as [s|] eqn:E; [|destruct Hc]. destruct Hc as [Hp Hh].
  destruct (orderly_shutdown demo_launch demo_stop s E) as [H _]. destruct (H (or_introl Hp) PGrpc) as [Hl [Hi|[_ []]]]; [discriminate| |reflexivity].
  split; [exact Hp|]. split; [exact Hh|]. split; [exact Hl|exact Hi].
Defined.

(** One entry with a signature that is no hexadecimal number, and a damaged line. *)
Definition damaged : bytes := str_bytes "{damaged" ++ [x0a].
Definition demo_line : bytes :=
  marshal_envelope (AuditLog.mkEnv (render_obj (entry_obj (mkEntry "" 0 "" "mallory" "k1" "Decrypt" "success" "" "") (str_bytes "2024-01-01T00:00:00Z")))
    (str_bytes "zz") [] 1) ++ [x0a].
Definition demo_dir (content : bytes) (dir : string) : result (gmap string bytes) :=
  if bool_decide (dir = "/var/log/yvonne") then Ok {[ "audit.log" := content ]} else Error (Err_new "no such file or directory").
Lemma audit_verify_reports_witness :
  match runAuditVerifyCmd (demo_dir (demo_line ++ damaged)) "/var/log/yvonne" (demo_entropy 32) with
  | (_, Ok v) => ve_total v = 1 ∧ ve_exit v = 1%Z ∧ ve_valid v + ve_tampered v = 1
  | _ => False
  end.
Proof.
  assert (match (runAuditVerifyCmd (demo_dir (demo_line ++ damaged)) "/var/log/yvonne" (demo_entropy 32)).2 with
          | Ok v => ve_total v = 1 ∧ ve_exit v = 1%Z | _ => False end) as Hr by (vm_compute; split; reflexivity).
  destruct (runAuditVerifyCmd (demo_dir (demo_line ++ damaged)) "/var/log/yvonne" (demo_entropy 32)) as [e' [v| |]] eqn:E; [|destruct Hr..].
  destruct Hr as [Ht Hx]. destruct (audit_verify_reports _ _ _ _ _ E) as (logger & files & _ & _ & _ & Hsum & _).
  split; [exact Ht|]. split; [exact Hx|]. rewrite Hsum. exact Ht.
Defined.
(** A damaged line is passed over: a log whose only entry was overwritten is reported without fault. *)
Example damage_goes_unreported :
  match runAuditVerifyCmd (demo_dir damaged) "/var/log/yvonne" (demo_entropy 32) with (_, Ok v) => ve_total v = 0 ∧ ve_exit v = 0%Z | _ => False end.
Proof. vm_compute. split; reflexivity. Qed.
