(* ===== verification/GmTls.v ===== *)
(** TLS with the Chinese national algorithms: [src/internal/config/tlsconfig_gmsm.go], its listener
    and the stub of builds without it, put in place of the corresponding argument of a start
    ([Process]). Loading a pair of certificate and key is the library's. *)

From S2P Require Import Prelude AesGcm Vault Store Oaep TransitSpec Transit Pki Jwt Settings Bootstrap Process.

(** ** Definitions *)
Section GmTls.
Context {certificate : Type}.
(** [gmtls.LoadX509KeyPair], reading a file, [AppendCertsFromPEM] of the library's pool, listening. *)
Variable LoadX509KeyPair : string → string → result certificate.
Variable read : string → option bytes.
Variable parse : bytes → bool.
Variable Listen : string → result ().
Record GMTLSConfig : Type := mkGMTLS {
  gm_Certificates : list certificate;
  gm_MinVersion : Z; gm_MaxVersion : Z;
  gm_ClientAuth : client_auth;
  gm_ClientCAs : option bytes;
}.
Definition BuildGMTLSConfig (cfg : TLSConfig) : result GMTLSConfig :=
  if negb (tls_GMEnabled cfg) then Error (Err_new "config: gm_tls not enabled")
  else if bool_decide (tls_GMSignCertFile cfg = "") || bool_decide (tls_GMSignKeyFile cfg = "")
  then Error (Err_new "config: gm_sign_cert_file and gm_sign_key_file are required for gm_tls")
  else if bool_decide (tls_GMEncCertFile cfg = "") || bool_decide (tls_GMEncKeyFile cfg = "")
  then Error (Err_new "config: gm_enc_cert_file and gm_enc_key_file are required for gm_tls")
  else
    signCert ← wrap_err "config: load SM2 sign cert" (LoadX509KeyPair (tls_GMSignCertFile cfg) (tls_GMSignKeyFile cfg));
    encCert ← wrap_err "config: load SM2 enc cert" (LoadX509KeyPair (tls_GMEncCertFile cfg) (tls_GMEncKeyFile cfg));
    clientAuth ← (if bool_decide (tls_ClientAuth cfg = "require") then Ok RequireAndVerifyClientCert
                  else if bool_decide (tls_ClientAuth cfg = "optional") then Ok VerifyClientCertIfGiven
                  else if bool_decide (tls_ClientAuth cfg ∈ [""; "none"]) then Ok NoClientCert
                  else Error (Err_new "config: unsupported tls.client_auth"));
    match clientAuth with
    | NoClientCert => Ok (mkGMTLS [signCert; encCert] 0x0303 0x0303 NoClientCert None)
    | _ =>
        if bool_decide (tls_ClientCAFile cfg = "") then Error (Err_new "config: tls.client_auth require/optional needs client_ca_file")
        else match read (tls_ClientCAFile cfg) with
             | None => Error (Err_new "config: read client_ca_file")
             | Some caPEM =>
                 if parse caPEM then Ok (mkGMTLS [signCert; encCert] 0x0303 0x0303 clientAuth (Some caPEM))
                 else Error (Err_new "config: failed to parse client_ca_file (invalid PEM)")
             end
    end.
Definition NewGMTLSListener (addr : string) : result () := wrap_err "config: gmtls listen" (Listen addr).
(** Builds without the tag. *)
Definition ErrGMTLSRequiresGmsm : error := Err_new "config: gm_tls requires -tags gmsm".
Definition BuildGMTLSConfig_stub (cfg : TLSConfig) : result GMTLSConfig := Error ErrGMTLSRequiresGmsm.

(** ** The policy on client certificates *)
(** Both kinds of TLS read the policy from the same two settings, and come to the same. *)
Definition client_policy (cfg : TLSConfig) : option (client_auth * option bytes) :=
  auth ← (if bool_decide (tls_ClientAuth cfg = "require") then Some RequireAndVerifyClientCert
          else if bool_decide (tls_ClientAuth cfg = "optional") then Some VerifyClientCertIfGiven
          else if bool_decide (tls_ClientAuth cfg ∈ [""; "none"]) then Some NoClientCert else None);
  match auth with
  | NoClientCert => Some (NoClientCert, None)
  | _ => if bool_decide (tls_ClientCAFile cfg = "") then None
         else ca ← read (tls_ClientCAFile cfg); if parse ca then Some (auth, Some ca) else None
  end.
Lemma gm_policy cfg c : BuildGMTLSConfig cfg = Ok c → client_policy cfg = Some (gm_ClientAuth c, gm_ClientCAs c) ∧ length (gm_Certificates c) = 2 ∧
  gm_MaxVersion c = 0x0303%Z.
Proof.
  rw /BuildGMTLSConfig /client_policy. do 3 (case_match; [done|]).
  destruct (LoadX509KeyPair (tls_GMSignCertFile cfg) _) as [sign| |]; [|done..]. destruct (LoadX509KeyPair (tls_GMEncCertFile cfg) _) as [enc| |]; [|done..]. cbn.
  repeat case_bool_decide; try done; cbn; (destruct (read (tls_ClientCAFile cfg)) as [ca|]; cbn; [destruct (parse ca)|]); try done; by intros [= <-].
Qed.
Lemma tls_policy cfg c : BuildTLSConfig read parse cfg = Ok (Some c) → client_policy cfg = Some (to_ClientAuth c, to_ClientCAs c).
Proof.
  rw /BuildTLSConfig /client_policy. case_match; [done|].
  assert (∃ r, (if bool_decide (tls_MinVersion cfg = "TLS1.3") then Ok 0x0304%Z
    else if bool_decide (tls_MinVersion cfg ∈ ["TLS1.2"; ""]) then Ok 0x0303%Z else Error (Err_new "config: unsupported tls.min_version")) = r) as [r ->] by eauto.
  destruct r; [|done..]. cbn. repeat case_bool_decide; try done; cbn; (destruct (read (tls_ClientCAFile cfg)) as [ca|]; cbn; [destruct (parse ca)|]); try done; by intros [= <-].
Qed.
End GmTls.

Section Start.
Context {certificate : Type} {rlib : RSALib} {plib : PEMLib} {jlib : JWTLib}.
Variables (LoadX509KeyPair : string → string → result certificate) (pf : platform) (gmRead : bytes → bool).
Definition gm_tls (cfg : TLSConfig) : result () := _ ← BuildGMTLSConfig LoadX509KeyPair (pf_read pf) gmRead cfg; Ok tt.
(** Where certificates of clients are required, the interface opens only when it verifies them
    against certificates that were read, over either kind of TLS. *)
Lemma required_certificates cfg tr : tls_Enabled cfg = true → tls_ClientAuth cfg = "require" → transport_of pf gm_tls cfg = Ok tr →
  ∃ ca, pf_read pf (tls_ClientCAFile cfg) = Some ca ∧
    match tr with
    | Clear => False
    | TLS c => ∃ v, c = Some (mkTLSOut v RequireAndVerifyClientCert (Some ca))
    | GMTLS => ∃ certs v w, BuildGMTLSConfig LoadX509KeyPair (pf_read pf) gmRead cfg = Ok (mkGMTLS certs v w RequireAndVerifyClientCert (Some ca))
    end.
Proof.
  intros He Hr. rw /transport_of He.
  assert (∀ parse x, client_policy (pf_read pf) parse cfg = Some x → ∃ ca, x = (RequireAndVerifyClientCert, Some ca) ∧ pf_read pf (tls_ClientCAFile cfg) = Some ca) as Hp.
  { rw /client_policy Hr. intros parse x. cbn. case_bool_decide; [done|]. destruct (pf_read pf _) as [ca|]; [|done]. cbn. destruct (parse ca); [|done].
    intros [= <-]. eauto. }
  destruct (tls_GMEnabled cfg).
  - rw /gm_tls. destruct (BuildGMTLSConfig _ _ _ cfg) as [[certs v w a cas]| |] eqn:E; [|done..]. intros [= <-].
    apply gm_policy in E as [E _]. apply Hp in E as (ca & [= -> ->] & Hca). exists ca. split; [done|]. by exists certs, v, w.
  - destruct (BuildTLSConfig _ _ cfg) as [[[v a cas]|]| |] eqn:E; [| |done..].
    + intros [= <-]. apply tls_policy in E. apply Hp in E as (ca & [= -> ->] & Hca). exists ca. split; [done|]. by exists v.
    + exfalso. revert E. rw /BuildTLSConfig He. cbn. repeat (case_match; try done).
Qed.
End Start.

(** The floor that is configured does not reach this transport, and its two pairs of files do
    not replace the ordinary one in the checks of a configuration. *)
Definition gm_only : TLSConfig := mkTLS true "" "" "TLS1.3" "" "" true "s.crt" "s.key" "e.crt" "e.key".
Example floor_ignored : match BuildGMTLSConfig (λ _ _, Ok tt) (λ _, None) (λ _, false) gm_only with Ok c => gm_MaxVersion c | _ => 0%Z end = 0x0303%Z.
Proof. reflexivity. Qed.
Example gm_needs_other_files : tls_errors gm_only = ["server.tls.enabled=true requires cert_file and key_file"].
Proof. reflexivity. Qed.
